(* ===== verification/_CoqProject ===== *)
-Q . S2P
Prelude.v
Bytes.v
Streams.v
Log.v
Bencode.v
BencodeFacts.v
BencodeGrammar.v
Text.v
Bitset.v
Bitfield.v
Message.v
Piece.v
Worker.v
Files.v
FilesFacts.v
Peer.v
Tracker.v
TrackerFacts.v
HttpTracker.v
HttpFacts.v
UdpTracker.v
UdpFacts.v
World.v
PeerClient.v
PeerFacts.v
Exchange.v
Download.v
Invariant.v
Handlers.v
Safety.v
Delivery.v
Transfer.v
Link.v
Greeting.v
Completion.v
Integrity.v
Listener.v
ListenerFacts.v
Torrent.v
TorrentFacts.v
Main.v
MainFacts.v
MainDownload.v
Dht.v
DhtFacts.v
DhtMaster.v
DhtMasterFacts.v
DhtProgram.v
DhtProgramFacts.v
