(* ===== verification/Prelude.v ===== *)
(** * A verification development for cpptorrent

    cpptorrent is a BitTorrent client in C++ on Boost.Asio.  [main_bittorrent]
    reads a torrent file (bencode), announces itself to the trackers the file
    names (HTTP and UDP), connects to the peers they answer with, listens for
    others, and moves the pieces of the torrent between the peers and the disk.
    [main_dht] is an experiment with the routing table of a DHT of the Kademlia
    kind, whose queries are not written yet.  The development translates both
    programs into executable definitions, file by file, and proves what each
    part promises to the others.

    ** The parts, and the files that model them

    Foundations
    - Prelude.v: outcomes of C++ code (a value, an exception, undefined
      behaviour, a failed assertion, fuel used up), the state monad over them
      every component is written in, integers of machine width, shared lemmas.
    - Bytes.v, Text.v: [src/utils/auxiliary.h], [auxiliary.cpp]: object
      representations and byte order on a host that is a parameter, URL
      encoding, dotted addresses, the digests ([Sha1] is a parameter, of which [fips_sha1],
      the function of FIPS 180-4, is an instance).
    - Streams.v: [std::istream] over a buffer, with its end and fail bits; Log.v:
      [src/utils/logger.*], [profile.h], entries of the log and reports of
      durations.
    - Bitset.v, Bitfield.v: [src/utils/bitfield.*].  Boost's bitset is the
      class [DynamicBitset] with the laws [DynamicBitsetLaws]; lists of
      booleans are an instance.

    Documents and messages
    - Bencode.v, BencodeFacts.v: [src/utils/bencode_lib.*]; BencodeGrammar.v: the
      language its reader accepts.
    - Message.v: [src/Network/Primitives/Message.*], typed reads and writes and
      the frames of the peer protocol.

    Storage
    - Piece.v: [src/BitTorrent/Primitives/Piece.*].
    - Worker.v: [src/utils/async_worker.*]; [spec_step] is the abstract queue
      of jobs it refines.
    - Files.v, FilesFacts.v: [src/BitTorrent/TorrentFilesManager.*] over a file
      system that maps paths to contents.

    Trackers
    - Tracker.v, TrackerFacts.v: [src/BitTorrent/Tracker.*], the texts and
      datagrams of [src/Network/BitTorrent/TrackerRequester.*].
    - HttpTracker.v, HttpFacts.v and UdpTracker.v, UdpFacts.v: the two
      requesters as state machines over the events of their sockets and timers.

    The peer protocol
    - Peer.v: [src/BitTorrent/Peer.*].
    - World.v: the state of a running torrent.  The master peer, the files and
      the strategy are components of the record [World]; peer clients, with
      their sockets, strands and timers ([Socket.h]), are numbers that map to
      records; shared pointers are these numbers.
    - PeerClient.v: [src/Network/BitTorrent/PeerClient.cpp],
      [src/BitTorrent/Primitives/BittorrentStrategy.cpp] (one definition for each
      class and one that dispatches on the strategy of the world, for the
      virtual call), the callbacks of the file workers, and [step]: one event of a socket, a timer, a strand or a
      file worker.
    - PeerFacts.v, Exchange.v, Download.v, Delivery.v: what handlers do, what
      one client makes of another one's frames, a piece from blocks to files,
      and a whole piece that arrives event by event.
    - Invariant.v, Handlers.v, Safety.v: the invariant of the whole client and
      what no event can do.
    - Transfer.v: one client over many events: requests answered one after the
      other, pieces chosen until none is missing, pieces on the disk read back.
    - Integrity.v: what is on the disk is what the metadata describes, in every
      state a client can reach, and the two messages that break this.
    - Link.v: two worlds joined by a connection, whose wires carry what one side
      writes to the other; Greeting.v: handshakes, bitfields, interest and
      unchoking over it; Completion.v: whole pieces over it, until all is there.

    The program around it
    - Torrent.v, TorrentFacts.v: [src/BitTorrent/Torrent.*]: the constructor
      from a torrent file, the announcement to all trackers, the peers handed
      to the peer protocol.
    - Listener.v, ListenerFacts.v: [src/Network/Listener.*]: the port, the
      accept loop, handshakes dispatched by info hash to several torrents.
    - Main.v, MainFacts.v, MainDownload.v: [src/main_bittorrent.cpp]: the command
      line, the statements of [main], [main_thread], the key and the service.
      A [Session] holds the listener and the torrent; a step is a statement or
      an event of one of the parts.
    - Dht.v, DhtFacts.v: [src/DHT/Kbucket.cpp], [RouteTable.cpp], [Node.cpp]: the
      buckets and the routing table.
    - DhtMaster.v, DhtMasterFacts.v: [src/DHT/Node.h], [Node.cpp],
      [src/Network/DHT/NodeClient.cpp], [KRPC.h], [dht_catcher] of [Listener.cpp]:
      the master node with its worker, its clients with their UDP sockets, and
      queries.
    - DhtProgram.v, DhtProgramFacts.v: [src/main_dht.cpp], interleaved with the
      workers of its master nodes.

    They interact as in the code.  The worlds of Listener.v are those of
    World.v and take their steps with [PeerClient.step]; a [World] embeds the
    worker, the files, the pieces and the master peer and calls their
    operations; Torrent.v embeds the requesters of HttpTracker.v and
    UdpTracker.v and hands the peers of an answer to the dialling functions of
    PeerClient.v; Main.v embeds the listener and the torrent; DhtMaster.v embeds
    the table of Dht.v and a worker of Worker.v; every number on the wire goes
    through Bytes.v.

    ** What the theorems show

    - Formats: documents, messages, datagrams, bitfields and tracker answers
      come back as they were written, on hosts of either byte order
      ([bencode_roundtrip], [message_exchange], [bitfield_exchange],
      [http_peers_received], [udp_peers_received], [udp_datagrams]); the bencode
      reader accepts exactly the language of a grammar ([LoadNode_grammar]), how
      much fuel decides it, and the truncated inputs on which it never returns.
    - Storage: the layout of pieces over files is that of their concatenation
      ([multi_file_layout], for files of less than [2^63] bytes together; beyond
      that the sums of the code overflow, which the model reports as undefined),
      a block read back is the block written
      ([multi_file_write_read]), the worker refines a queue and keeps its order.
    - Download: blocks in any order make one write request with the data sent
      ([block_assembly]), the digest decides what happens to it
      ([run_download_correct], with the writes that fail or are undefined), the
      requests of a client tile a piece
      ([fresh_piece_requests]), its choice respects what is requested
      ([ChoosePiece_correct]), and a peer that answers completes the piece
      ([piece_delivered]).
    - The whole client: [connections_invariant] and [client_safe] hold in every
      reachable state, whatever the network sends; the two places where a
      message breaks the client are exactly named, and [block_offset_unchecked]
      plays one of them.
    - Integrity: as long as no block completes the active piece under another
      number, each piece marked done reads back as bytes with the digest the
      metadata gives for it ([data_integrity], for a torrent of several files;
      nothing is assumed of the digest function); a block that does so is written over the
      active piece while the other number is marked done
      ([foreign_block_mixes_up]), and writing a piece whose blocks have odd
      sizes is undefined ([odd_blocks_undefined]).
    - Trackers: the UDP requester is safe and ends ([udp_requester_safe],
      [udp_terminates]), whatever it receives and whenever it is stopped, but for
      two kinds of datagrams whose handling is undefined ([bad_reply]: peers that
      end within a peer, an error message without a zero byte); the constructor, the two policies of [TryConnect] and
      the peers that are dialled ([torrent_constructed], [TryConnect_best],
      [any_choice_correct], [meeting_peers]).
    - The listener: handshakes reach the torrent they name, and behind the
      listener each torrent takes steps of the peer protocol only
      ([handshake_dispatched], [listener_refines]).
    - Two clients: over a connection one of them dials, there is a run after which
      every piece the other one has is done and readable ([download_completes]).
    - The program: once [main_thread] runs, every event, those of the trackers'
      requesters included, is handled to its end in whatever order they come, the
      exceptions being named ([unhandled] of MainFacts.v, [program_safe]); and from the announcement on there is a run of the program that dials the
      peer of the answer and brings its pieces to the disk
      ([program_downloads]).
    - The DHT: the invariant of the routing table in every reachable state, and
      what an insertion keeps ([dht_safe], [InsertNode_keeps_alive]); which
      events a master node survives and which it does not, whoever calls the
      operations of its clients, which nothing does yet ([master_safe],
      [query_ends_program]); what is sent for a query ([queries_are_empty]).
    - [main_dht]: it always can be run to its end, with what is in the file then
      ([dht_program_returns]), and the one thing that can go wrong
      ([dht_program_safe]).

    ** Fuel and bounds

    Loops bounded by their data are structural.  The others take fuel and
    [NoFuel] is an outcome of its own.  The reader takes one unit a call and a
    round: more than twice the bytes of the input decide a run
    ([LoadNode_fuel_enough]), and the constructor of a torrent uses
    [2 * length + 3].  The choice of a tracker takes as many rounds as there
    are futures, [get_port] the ten ports of the source.
    [do_try_connect] of the UDP requester and [update_endpoint] call each other;
    the attempts are set again before the second call, so two levels are enough.
    The potential of the UDP
    requester is [160 n + 35] for [n] addresses.  Random choices take a list of
    draws; a list too short is [NoFuel], and [ChoosePiece_correct] says which
    outcomes remain for it.  [client_safe] asks for fewer than [2^24] pieces,
    where the [float] in [send_bitfield] is exact, and the delivery theorems
    for at most 150 blocks a piece, after which the second batch of requests
    is wrong ([last_batch_overruns]).
    Integers of the code that can leave their width wrap or are undefined as in
    C++; [i64] checks the sums of [long long] in Files.v and Tracker.v.

    ** What is assumed of the environment

    A handler runs to its end before the next one of the same torrent starts, a
    strand runs its jobs in the order they were posted, and a cancelled timer
    does not fire (a handler asio had queued before the cancellation, which
    still runs there, is left out): the events of PeerClient.v, HttpTracker.v
    and UdpTracker.v are interleaved arbitrarily otherwise. A job of a file
    worker and one of a master node's worker in DhtMaster.v is an event too. In
    main_dht, whose [main] reads what the workers write without a lock, a
    worker's taking of a job and its running are two steps, and reading a table
    while a job is left or running counts as a data race; the order the C++
    memory model asks for between a job that has ended and [main] is not
    modelled. Opening a socket that is closed succeeds; opening one that is open
    throws. [std::sort] keeps the order of equal blocks, [std::shuffle]
    permutes. A lambda that keeps a data pointer reads the buffer when it runs,
    so the buffer is part of the state. SHA-1, Boost's bitset and regular
    expressions are parameters with their documented laws. Random numbers, the
    order of hash tables, the address the system gives a socket and its answers
    to [bind] and [connect] are arguments of the definitions that use them. The
    promises of the requesters are what the futures of a torrent see at the time
    they are looked at. The log is compiled in (CMakeLists.txt defines
    FILE_LOGGER), so the expressions in its lines are evaluated where they can
    go wrong; what they print is an argument of [out] in Log.v, which the
    handlers do not call.

    ** Not modelled

    The text of console output and of the arguments of log lines, the number of
    service threads, the creation of directories, the seeding of the generators,
    sizes in gigabytes for the user and bytes in floating-point text, the cached
    text of an address, destructors that only close sockets, the wrapper
    [move_function] (a stored function is the job it stands for).
    Of the DHT: the unreachable part
    of [Ping], and the move constructor of [MasterNode] (the vector of [main_dht]
    is reserved and never moves it).

    ** Plan

    Every part with a state of its own is modelled.  What could be added to
    what is proved: a peer that is dialled while others are connected already,
    in the runs of Completion.v, and pieces that come from several peers at a
    time. *)

From Stdlib Require Import ZArith Lia Strings.Byte Strings.String.
From coqutil Require Import Byte Word.LittleEndianList.
From stdpp Require Export base tactics gmap sets list numbers option.
From stdpp Require Import countable.
Export String.StringSyntax.
#[global] Open Scope Z_scope.

(** ** Outcomes of C++ code

    A call of the program returns a value, leaves by an exception, runs into
    undefined behaviour, fails an [assert], or (for the loops that are not
    bounded by their data) has not finished within the fuel it was given. *)

Inductive exn :=
  | bad_variant_access
  | bad_optional_access
  | out_of_range
  | length_error
  | invalid_argument
  | promise_already_satisfied
  | future_already_retrieved
  | already_open
  | logic_error (what : string)
  | BadConnect (what : string).

Inductive outcome (A : Type) :=
  | Ok (a : A)
  | Throw (e : exn)
  | UB
  | Abort_assert
  | NoFuel.
Arguments Ok {A} a.
Arguments Throw {A} e.
Arguments UB {A}.
Arguments Abort_assert {A}.
Arguments NoFuel {A}.

#[export] Instance exn_eq_dec : EqDecision exn.
Proof. solve_decision. Defined.

#[export] Instance outcome_ret : MRet outcome := fun A a => Ok a.
#[export] Instance outcome_bind : MBind outcome := fun A B f m =>
  match m with
  | Ok a => f a
  | Throw e => Throw e
  | UB => UB
  | Abort_assert => Abort_assert
  | NoFuel => NoFuel
  end.
#[export] Instance outcome_fmap : FMap outcome := fun A B f m =>
  match m with
  | Ok a => Ok (f a)
  | Throw e => Throw e
  | UB => UB
  | Abort_assert => Abort_assert
  | NoFuel => NoFuel
  end.

Declare Scope cpp_scope.
Delimit Scope cpp_scope with cpp.
#[global] Open Scope cpp_scope.

Definition is_Ok {A} (m : outcome A) : Prop := ∃ a, m = Ok a.
Definition is_okb {A} (m : outcome A) : bool :=
  match m with Ok _ => true | _ => false end.

(** [opt_or e o] is the checked access of the standard library ([at],
    [value], [std::get]): the value, or the exception [e]. *)
Definition opt_or {A} (e : exn) (o : option A) : outcome A :=
  match o with Some a => Ok a | None => Throw e end.

(** [opt_ub o] is an unchecked access ([operator[]] of a vector, a
    dereferenced iterator): the value, or undefined behaviour. *)
Definition opt_ub {A} (o : option A) : outcome A :=
  match o with Some a => Ok a | None => UB end.

(** [assert]: the release flags of CMakeLists.txt do not define NDEBUG. *)
Definition assert_ (b : bool) : outcome unit := if b then Ok tt else Abort_assert.

Section OutcomeFacts.
Context {A B : Type}.
Implicit Types (m : outcome A) (f : A → outcome B).

Lemma bind_Ok a f : (Ok a ≫= f) = f a.
Proof. reflexivity. Qed.

Lemma bind_Ok_inv m f b : (m ≫= f) = Ok b ↔ ∃ a, m = Ok a ∧ f a = Ok b.
Proof. destruct m; naive_solver. Qed.

Lemma bind_Ok_r m : (m ≫= Ok) = m.
Proof. by destruct m. Qed.

Lemma bind_is_Ok m f : is_Ok (m ≫= f) ↔ ∃ a, m = Ok a ∧ is_Ok (f a).
Proof. unfold is_Ok. setoid_rewrite bind_Ok_inv. naive_solver. Qed.

Lemma opt_or_Ok e (o : option A) a : opt_or e o = Ok a ↔ o = Some a.
Proof. destruct o; naive_solver. Qed.

Lemma opt_ub_Ok (o : option A) a : opt_ub o = Ok a ↔ o = Some a.
Proof. destruct o; naive_solver. Qed.

Lemma is_okb_Ok m : is_okb m = true → is_Ok m.
Proof. destruct m; [by eexists|discriminate..]. Qed.

Lemma is_Ok_Ok (a : A) : is_Ok (Ok a).
Proof. by exists a. Qed.
End OutcomeFacts.

Lemma bind_assoc {A B C} (m : outcome A) (f : A → outcome B) (g : B → outcome C) :
  ((m ≫= f) ≫= g) = (m ≫= fun a => f a ≫= g).
Proof. by destruct m. Qed.

Lemma assert_Ok b u : assert_ b = Ok u ↔ b = true.
Proof. destruct b, u; naive_solver. Qed.

(** Destruct every successful bind among the hypotheses. *)
Ltac outcome_inv :=
  repeat match goal with
  | H : (_ ≫= _) = Ok _ |- _ =>
      let a := fresh "v" in let Hm := fresh "Hm" in
      apply bind_Ok_inv in H as (a & Hm & H)
  | H : mret _ = Ok _ |- _ => unfold mret, outcome_ret in H
  | H : opt_or _ _ = Ok _ |- _ => apply opt_or_Ok in H
  | H : opt_ub _ = Ok _ |- _ => apply opt_ub_Ok in H
  | H : assert_ _ = Ok _ |- _ => apply assert_Ok in H
  | H : Ok _ = Ok _ |- _ => injection H as H; try subst
  | H : Throw _ = Ok _ |- _ => discriminate H
  | H : UB = Ok _ |- _ => discriminate H
  | H : Abort_assert = Ok _ |- _ => discriminate H
  | H : NoFuel = Ok _ |- _ => discriminate H
  | p : (_ * _)%type |- _ => destruct p
  end.

(** ** Stateful code

    A member function that reads and changes the program's state [S] and may
    end in any of the outcomes above. *)

Definition ST (S A : Type) : Type := S → outcome (A * S).

#[export] Instance ST_ret {S} : MRet (ST S) := fun A a s => Ok (a, s).
#[export] Instance ST_bind {S} : MBind (ST S) := fun A B f m s =>
  match m s with
  | Ok (a, s) => f a s
  | Throw e => Throw e
  | UB => UB
  | Abort_assert => Abort_assert
  | NoFuel => NoFuel
  end.

Definition get_st {S} : ST S S := fun s => Ok (s, s).
Definition put_st {S} (s : S) : ST S unit := fun _ => Ok (tt, s).
Definition modify {S} (f : S → S) : ST S unit := fun s => Ok (tt, f s).
Definition lift {S A} (m : outcome A) : ST S A := fun s => a ← m; Ok (a, s).
Definition when {S} (b : bool) (m : ST S unit) : ST S unit := if b then m else mret tt.

(** A [for] loop over a range or container. *)
Fixpoint for_each {S A} (l : list A) (body : A → ST S unit) : ST S unit :=
  match l with
  | [] => mret tt
  | x :: l => _ ← body x; for_each l body
  end.

Section StateFacts.
Context {S : Type}.

Lemma st_bind_Ok_inv {A B} (m : ST S A) (f : A → ST S B) s b s' :
  (m ≫= f) s = Ok (b, s') ↔ ∃ a s1, m s = Ok (a, s1) ∧ f a s1 = Ok (b, s').
Proof.
  unfold mbind, ST_bind. destruct (m s) as [[a s1]| | | |]; naive_solver.
Qed.

Lemma st_bind_Ok {A B} (m : ST S A) (f : A → ST S B) s a s1 :
  m s = Ok (a, s1) → (m ≫= f) s = f a s1.
Proof. intros H. unfold mbind, ST_bind. by rewrite H. Qed.

Lemma lift_Ok_inv {A} (m : outcome A) (s : S) a s' : lift m s = Ok (a, s') ↔ m = Ok a ∧ s' = s.
Proof. unfold lift. destruct m; cbn; naive_solver. Qed.

(** What holds before a loop and is kept by its body holds after it. *)
Lemma for_each_inv {A} (P : S → Prop) (l : list A) (body : A → ST S unit) s u s' :
  (∀ x s u s', x ∈ l → P s → body x s = Ok (u, s') → P s') →
  P s → for_each l body s = Ok (u, s') → P s'.
Proof.
  revert s. induction l as [|x l IH]; intros s Hb Hs H; cbn [for_each] in H.
  - by injection H as <- <-.
  - apply st_bind_Ok_inv in H as (v & s1 & H1 & H2).
    apply (IH s1); [intros; eapply Hb; [by right|done..]| |done]. eapply Hb; [by left|done..].
Qed.
(** [wp lax m Q s]: from [s] the computation [m] returns a result and a state
    in [Q]; it neither throws, nor reaches undefined behaviour, nor fails an
    assertion.  Only a [lax] one may run out of fuel (the numbers drawn at
    random are the fuel of the code that draws them). *)
Definition wp {A} (lax : bool) (m : ST S A) (Q : A → S → Prop) (s : S) : Prop :=
  match m s with
  | Ok (a, s') => Q a s'
  | NoFuel => lax = true
  | _ => False
  end.

Lemma wp_mono {A} lax (m : ST S A) (Q Q' : A → S → Prop) s :
  wp lax m Q s → (∀ a s', Q a s' → Q' a s') → wp lax m Q' s.
Proof. unfold wp. destruct (m s) as [[a s']| | | |]; naive_solver. Qed.

Lemma wp_bind {A B} lax (m : ST S A) (f : A → ST S B) Q s :
  wp lax m (fun a => wp lax (f a) Q) s → wp lax (m ≫= f) Q s.
Proof. unfold wp, mbind, ST_bind. by destruct (m s) as [[a s']| | | |]. Qed.

Lemma wp_ret {A} lax (a : A) (Q : A → S → Prop) s : Q a s → wp lax (mret a) Q s.
Proof. done. Qed.

Lemma wp_lift {A} lax (m : outcome A) (Q : A → S → Prop) s a : m = Ok a → Q a s → wp lax (lift m) Q s.
Proof. intros -> HQ. exact HQ. Qed.

Lemma wp_get lax (Q : S → S → Prop) s : Q s s → wp lax get_st Q s.
Proof. done. Qed.

Lemma wp_when lax (b : bool) (m : ST S unit) Q s :
  (b = true → wp lax m Q s) → (b = false → Q tt s) → wp lax (when b m) Q s.
Proof. destruct b; [auto|]. intros _ H. by apply H. Qed.

Lemma wp_for_each {A} lax (I : S → Prop) (l : list A) (body : A → ST S unit) s :
  (∀ x s, x ∈ l → I s → wp lax (body x) (fun _ => I) s) → I s → wp lax (for_each l body) (fun _ => I) s.
Proof.
  revert s. induction l as [|x l IH]; intros s Hb Hs; cbn [for_each]; [done|].
  apply wp_bind. eapply wp_mono; [apply Hb; [by left|done]|]. intros u s' Hs'.
  apply IH; [|done]. intros y s'' Hy. apply Hb. by right.
Qed.

Lemma wp_Ok {A} (m : ST S A) (Q : A → S → Prop) s : wp false m Q s → ∃ a s', m s = Ok (a, s') ∧ Q a s'.
Proof. unfold wp. destruct (m s) as [[a s']| | | |]; naive_solver. Qed.

Lemma wp_from_Ok {A} lax (m : ST S A) (Q : A → S → Prop) s a s' : m s = Ok (a, s') → Q a s' → wp lax m Q s.
Proof. unfold wp. by intros ->. Qed.
End StateFacts.

(** Step over one bind with the rule or lemma [H] for its first part. *)
Tactic Notation "wp_step" uconstr(H) := apply wp_bind; eapply wp_mono; [apply H|].

(** Run the next steps that compute. *)
Ltac st_run := repeat (erewrite st_bind_Ok; [|reflexivity]); cbv beta.

(** ** Machine integers

    An integer of the source is a [Z] with its wrap-around written out.
    [size_t] is 64 bits wide and [int] 32. *)

Definition u8 (z : Z) : Z := z mod 2 ^ 8.
Definition u16 (z : Z) : Z := z mod 2 ^ 16.
Definition u32 (z : Z) : Z := z mod 2 ^ 32.
Definition u64 (z : Z) : Z := z mod 2 ^ 64.
Definition s8 (z : Z) : Z := (z + 2 ^ 7) mod 2 ^ 8 - 2 ^ 7.
Definition s32 (z : Z) : Z := (z + 2 ^ 31) mod 2 ^ 32 - 2 ^ 31.
Definition s64 (z : Z) : Z := (z + 2 ^ 63) mod 2 ^ 64 - 2 ^ 63.

Definition SIZE_MAX : Z := 2 ^ 64 - 1.

(** The result of an addition, subtraction or multiplication of [long long];
    an overflow is undefined. *)
Definition i64 (z : Z) : outcome Z :=
  if bool_decide (- 2 ^ 63 ≤ z < 2 ^ 63) then Ok z else UB.

Lemma i64_small z : - 2 ^ 63 ≤ z < 2 ^ 63 → i64 z = Ok z.
Proof. intros H. unfold i64. by rewrite bool_decide_true. Qed.
Lemma i64_Ok z n : i64 z = Ok n → n = z ∧ - 2 ^ 63 ≤ z < 2 ^ 63.
Proof. unfold i64. case_bool_decide; naive_solver. Qed.

Create HintDb cpp.

Lemma u32_small z : 0 ≤ z < 2 ^ 32 → u32 z = z.
Proof. apply Z.mod_small. Qed.
Lemma u64_small z : 0 ≤ z < 2 ^ 64 → u64 z = z.
Proof. apply Z.mod_small. Qed.
Lemma u32_range z : 0 ≤ u32 z < 2 ^ 32.
Proof. by apply Z.mod_pos_bound. Qed.
Lemma u64_range z : 0 ≤ u64 z < 2 ^ 64.
Proof. by apply Z.mod_pos_bound. Qed.
Lemma s64_small z : - 2 ^ 63 ≤ z < 2 ^ 63 → s64 z = z.
Proof. intros H. unfold s64. rewrite Z.mod_small; lia. Qed.
Lemma s32_small z : - 2 ^ 31 ≤ z < 2 ^ 31 → s32 z = z.
Proof. intros H. unfold s32. rewrite Z.mod_small; lia. Qed.

#[export] Hint Rewrite u32_small u64_small s32_small s64_small using lia : cpp.

(** ** Bytes *)

Notation byte := Byte.byte.
Abbreviation bytes := (list Byte.byte).

#[export] Instance byte_eq_dec : EqDecision byte := Byte.byte_eq_dec.
#[export] Instance byte_countable : Countable byte.
Proof.
  refine (inj_countable Byte.to_N Byte.of_N _). intros b. apply Byte.of_to_N.
Defined.

(** A string literal of the source as bytes. *)
Definition str (s : string) : bytes := list_byte_of_string s.
Arguments str s%_string_scope.

Lemma byte_range b : 0 ≤ byte.unsigned b < 256.
Proof. apply byte.unsigned_range. Qed.

Lemma byte_of_Z_unsigned z : 0 ≤ z < 256 → byte.unsigned (byte.of_Z z) = z.
Proof. intros H. rewrite byte.unsigned_of_Z. by apply Z.mod_small. Qed.

(** A fact about one byte that computes: try the 256 of them. *)
Definition all_bytes : bytes :=
  map (fun n => byte.of_Z (Z.of_nat n)) (seq 0 256).

Lemma all_bytes_spec b : b ∈ all_bytes.
Proof.
  apply list_elem_of_In, in_map_iff.
  exists (Z.to_nat (byte.unsigned b)). pose proof (byte_range b).
  split; [by rewrite Z2Nat.id, byte.of_Z_unsigned by lia|].
  apply in_seq. lia.
Qed.

Lemma byte_forallb (P : byte → bool) : forallb P all_bytes = true → ∀ b, P b = true.
Proof.
  intros H b. rewrite forallb_forall in H. apply H, list_elem_of_In, all_bytes_spec.
Qed.

(** ** Lists *)

Lemma nth_lookup_default {A} (l : list A) i d : nth i l d = default d (l !! i).
Proof. revert i; induction l; intros [|i]; simpl; auto. Qed.

Lemma list_eq_nth {A} (d : A) (l1 l2 : list A) :
  length l1 = length l2 → (∀ i, (i < length l1)%nat → nth i l1 d = nth i l2 d) → l1 = l2.
Proof. intros. by apply (nth_ext l1 l2 d d). Qed.

Lemma nat_div_mod_unique k r n : (r < n)%nat → ((n * k + r) / n = k ∧ (n * k + r) mod n = r)%nat.
Proof.
  intros Hr. split.
  - symmetry. by apply (Nat.div_unique _ _ _ r).
  - symmetry. by apply (Nat.mod_unique _ _ k).
Qed.
