(* ===== verification/Bytes.v ===== *)
(** * Bytes and their order (src/utils/auxiliary.h, auxiliary.cpp)

    Object representations ([union value_type], [memcpy]), the byte swaps
    built on them, and the bit tricks on single bytes.  The host is a
    parameter: [is_little_endian()] tests it at run time and whether plain
    [char] is signed is up to the implementation. *)

From Stdlib Require Import ZArith Lia Strings.Byte.
From coqutil Require Import Byte Word.LittleEndianList.
From S2P Require Import Prelude.

Class Host := {
  is_little_endian : bool;
  char_is_signed : bool;
}.

(** x86-64, the host the build files are written for. *)
Definition x86_64 : Host := {| is_little_endian := true; char_is_signed := true |}.
Definition big_host : Host := {| is_little_endian := false; char_is_signed := false |}.

Section Representation.
Context `{Host}.

(** The bytes of a [T] object of [sz] bytes holding [v], and back. *)
Definition repr (sz : nat) (v : Z) : bytes :=
  if is_little_endian then le_split sz v else rev (le_split sz v).
Definition unrepr (bs : bytes) : Z :=
  if is_little_endian then le_combine bs else le_combine (rev bs).

(** [endian_changer(T u)] and [endian_changer(const char * )]: the bytes of [dest]. *)
Definition endian_changer (sz : nat) (u : Z) : bytes :=
  let source := repr sz u in
  map (fun k => nth (sz - k - 1) source x00) (seq 0 sz).
Definition endian_changer_arr (sz : nat) (arr : bytes) : bytes :=
  let source := map (fun k => nth k arr x00) (seq 0 sz) in
  map (fun k => nth (sz - k - 1) source x00) (seq 0 sz).
Definition AsArray (dest : bytes) : bytes := dest.
Definition AsValue (dest : bytes) : Z := unrepr dest.

Definition BigToNative (sz : nat) (value : Z) : Z :=
  if is_little_endian then AsValue (endian_changer sz value) else value.
Definition NativeToBig (sz : nat) (value : Z) : Z :=
  if is_little_endian then AsValue (endian_changer sz value) else value.
Definition LittleToNative (sz : nat) (value : Z) : Z :=
  if negb is_little_endian then AsValue (endian_changer sz value) else value.
Definition NativeToLittle (sz : nat) (value : Z) : Z :=
  if negb is_little_endian then AsValue (endian_changer sz value) else value.

Definition ValueToArray (sz : nat) (value : Z) : bytes := repr sz value.
Definition ArrayToValue (sz : nat) (arr : bytes) : Z := unrepr (take sz arr).
End Representation.

(** The network representation: most significant byte first. *)
Definition be_split (sz : nat) (v : Z) : bytes := rev (le_split sz v).
Definition be_combine (bs : bytes) : Z := le_combine (rev bs).

Definition ReverseByte (b : byte) : byte :=
  let b := byte.unsigned b in
  let b := u8 (Z.lor (Z.shiftr (Z.land b 0xF0) 4) (Z.shiftl (Z.land b 0x0F) 4)) in
  let b := u8 (Z.lor (Z.shiftr (Z.land b 0xCC) 2) (Z.shiftl (Z.land b 0x33) 2)) in
  let b := u8 (Z.lor (Z.shiftr (Z.land b 0xAA) 1) (Z.shiftl (Z.land b 0x55) 1)) in
  byte.of_Z b.

(** The loop of [bytesToInt64]; [bytes] has at least [size] elements. *)
Definition bytesToInt64 (bs : bytes) (size : nat) : Z :=
  s64 (fold_left (fun v b => Z.lor (u64 (Z.shiftl v 8)) (byte.unsigned b))
                 (take (size `min` 8) bs) 0).

(** ** Facts *)

Lemma length_be_split sz v : length (be_split sz v) = sz.
Proof. unfold be_split. by rewrite length_rev, length_le_split. Qed.

Lemma be_combine_split sz v : be_combine (be_split sz v) = v mod 2 ^ (Z.of_nat sz * 8).
Proof. unfold be_combine, be_split. by rewrite rev_involutive, le_combine_split. Qed.

Lemma be_split_combine bs : be_split (length bs) (be_combine bs) = bs.
Proof.
  unfold be_combine, be_split. rewrite <- (length_rev bs), split_le_combine.
  apply rev_involutive.
Qed.

Lemma be_combine_range bs : 0 ≤ be_combine bs < 2 ^ (8 * Z.of_nat (length bs)).
Proof. unfold be_combine. rewrite <- (length_rev bs). apply le_combine_bound. Qed.

Lemma be_combine_small sz v :
  0 ≤ v < 2 ^ (Z.of_nat sz * 8) → be_combine (be_split sz v) = v.
Proof. intros ?. rewrite be_combine_split. by apply Z.mod_small. Qed.

Lemma be_combine_snoc bs b :
  be_combine (bs ++ [b]) = Z.lor (Z.shiftl (be_combine bs) 8) (byte.unsigned b).
Proof.
  unfold be_combine. rewrite rev_app_distr. simpl. cbn [le_combine]. apply Z.lor_comm.
Qed.

Lemma map_nth_rev (l : bytes) sz :
  length l = sz → map (fun k => nth (sz - k - 1) l x00) (seq 0 sz) = rev l.
Proof.
  intros <-. apply (list_eq_nth x00).
  - by rewrite length_map, length_seq, length_rev.
  - intros i Hi. rewrite length_map, length_seq in Hi.
    rewrite (nth_indep _ _ (nth (length l - 0 - 1) l x00)) by (by rewrite length_map, length_seq).
    change (nth (length l - 0 - 1) l x00) with ((fun k => nth (length l - k - 1) l x00) 0%nat).
    rewrite map_nth, seq_nth, rev_nth by lia. f_equal. lia.
Qed.

Section RepresentationFacts.
Context `{Host}.

Lemma length_repr sz v : length (repr sz v) = sz.
Proof. unfold repr. destruct is_little_endian; by rewrite ?length_rev, length_le_split. Qed.

Lemma unrepr_repr sz v : unrepr (repr sz v) = v mod 2 ^ (Z.of_nat sz * 8).
Proof.
  unfold unrepr, repr.
  destruct is_little_endian; by rewrite ?rev_involutive, le_combine_split.
Qed.

Lemma repr_unrepr bs : repr (length bs) (unrepr bs) = bs.
Proof.
  unfold unrepr, repr. destruct is_little_endian; [apply split_le_combine|].
  rewrite <- (length_rev bs), split_le_combine. apply rev_involutive.
Qed.

Lemma endian_changer_rev sz u : endian_changer sz u = rev (repr sz u).
Proof. apply map_nth_rev, length_repr. Qed.

Lemma endian_changer_arr_rev sz arr :
  (sz ≤ length arr)%nat → endian_changer_arr sz arr = rev (take sz arr).
Proof.
  intros Hsz. unfold endian_changer_arr.
  assert (map (fun k => nth k arr x00) (seq 0 sz) = take sz arr) as ->.
  { apply (list_eq_nth x00); rewrite length_map, length_seq, ?length_take; [lia|].
    intros i Hi.
    rewrite (nth_indep _ _ (nth 0 arr x00)) by (by rewrite length_map, length_seq).
    rewrite (map_nth (fun k => nth k arr x00)), seq_nth by lia.
    rewrite !nth_lookup_default, lookup_take_lt by lia. done. }
  apply map_nth_rev. rewrite length_take. lia.
Qed.

Lemma NativeToBig_bytes sz v : ValueToArray sz (NativeToBig sz v) = be_split sz v.
Proof.
  unfold ValueToArray, NativeToBig, AsValue. rewrite endian_changer_rev.
  pose proof (repr_unrepr (rev (repr sz v))) as E.
  rewrite length_rev, length_repr in E.
  destruct is_little_endian eqn:L; [rewrite E|]; unfold repr; by rewrite L.
Qed.

Lemma NativeToLittle_bytes sz v : ValueToArray sz (NativeToLittle sz v) = le_split sz v.
Proof.
  unfold ValueToArray, NativeToLittle, AsValue. rewrite endian_changer_rev.
  pose proof (repr_unrepr (rev (repr sz v))) as E.
  rewrite length_rev, length_repr in E.
  destruct is_little_endian eqn:L; simpl; [|rewrite E]; unfold repr; rewrite L; try done.
  apply rev_involutive.
Qed.

Lemma BigToNative_bytes sz bs :
  length bs = sz → BigToNative sz (ArrayToValue sz bs) = be_combine bs.
Proof.
  intros <-. unfold BigToNative, ArrayToValue, AsValue. rewrite take_ge by lia.
  rewrite endian_changer_rev, repr_unrepr.
  destruct is_little_endian eqn:L; unfold unrepr, be_combine; by rewrite L.
Qed.

Lemma LittleToNative_bytes sz bs :
  length bs = sz → LittleToNative sz (ArrayToValue sz bs) = le_combine bs.
Proof.
  intros <-. unfold LittleToNative, ArrayToValue, AsValue. rewrite take_ge by lia.
  rewrite endian_changer_rev, repr_unrepr.
  destruct is_little_endian eqn:L; simpl; unfold unrepr; rewrite L; try done.
  by rewrite rev_involutive.
Qed.
End RepresentationFacts.

#[export] Hint Rewrite @NativeToBig_bytes @NativeToLittle_bytes length_be_split @length_repr : cpp.

Definition byte_bit (b : byte) (i : nat) : bool := Z.testbit (byte.unsigned b) (Z.of_nat i).

Lemma ReverseByte_bit b i : (i < 8)%nat → byte_bit (ReverseByte b) i = byte_bit b (7 - i).
Proof.
  intros Hi.
  assert (forallb (fun b => forallb (fun i =>
      Bool.eqb (byte_bit (ReverseByte b) i) (byte_bit b (7 - i))) (seq 0 8)) all_bytes = true)
    as E by (vm_compute; reflexivity).
  pose proof (byte_forallb _ E b) as E'. cbv beta in E'.
  rewrite (forallb_forall _ (seq 0 8)) in E'.
  apply Bool.eqb_prop, E', in_seq. lia.
Qed.

Lemma ReverseByte_involutive b : ReverseByte (ReverseByte b) = b.
Proof.
  assert (forallb (fun b => bool_decide (ReverseByte (ReverseByte b) = b)) all_bytes = true)
    as E by (vm_compute; reflexivity).
  apply (bool_decide_eq_true (ReverseByte (ReverseByte b) = b)), (byte_forallb _ E b).
Qed.

#[export] Hint Rewrite ReverseByte_involutive : cpp.
