(* ===== verification/Streams.v ===== *)
(** * Input streams and decimal text (the part of [<istream>] and [<ostream>] the program uses)

    [std::istream] over a finite buffer, with its [eofbit] and [failbit]: the
    unformatted [peek] and [get], the sentry, and the formatted extractions
    [>> integer] and [>> char] in the classic locale, base 10.  Decimal output
    of an integer is [print_dec]. *)

From Stdlib Require Import ZArith Lia Strings.Byte.
From coqutil Require Import Byte.
From S2P Require Import Prelude.

Record istream := IStream { is_buf : bytes; is_eof : bool; is_fail : bool }.

Definition is_open (b : bytes) : istream := IStream b false false.
Definition good (s : istream) : bool := negb (is_eof s) && negb (is_fail s).
Definition set_fail (s : istream) : istream := IStream (is_buf s) (is_eof s) true.
Definition set_eof (s : istream) : istream := IStream (is_buf s) true (is_fail s).

(** [None] is [traits::eof()]. *)
Definition peek (s : istream) : option byte * istream :=
  if good s then
    match is_buf s with
    | [] => (None, set_eof s)
    | b :: _ => (Some b, s)
    end
  else (None, set_fail s).

Definition get (s : istream) : option byte * istream :=
  if good s then
    match is_buf s with
    | [] => (None, set_fail (set_eof s))
    | b :: r => (Some b, is_open r)
    end
  else (None, set_fail s).

Definition isspace (b : byte) : bool :=
  let z := byte.unsigned b in (z =? 32) || ((9 <=? z) && (z <=? 13)).

Definition isdigit (b : byte) : bool :=
  let z := byte.unsigned b in (48 <=? z) && (z <=? 57).

Definition digit_val (b : byte) : Z := byte.unsigned b - 48.

Fixpoint skip_ws (l : bytes) : bytes :=
  match l with
  | b :: r => if isspace b then skip_ws r else l
  | [] => []
  end.

(** The sentry of a formatted extraction. *)
Definition sentry (s : istream) : bool * istream :=
  if good s then
    match skip_ws (is_buf s) with
    | [] => (false, IStream [] true true)
    | r => (true, is_open r)
    end
  else (false, set_fail s).

Fixpoint span_digits (l : bytes) : bytes * bytes :=
  match l with
  | b :: r => if isdigit b then let '(ds, rest) := span_digits r in (b :: ds, rest) else ([], l)
  | [] => ([], [])
  end.

Definition digits_from (v : Z) (ds : bytes) : Z :=
  fold_left (fun v d => 10 * v + digit_val d) ds v.

Definition take_sign (l : bytes) : bool * bytes :=
  match l with
  | b :: r => if decide (b = "-"%byte) then (true, r)
              else if decide (b = "+"%byte) then (false, r) else (false, l)
  | [] => (false, [])
  end.

(** [num_get] for an integer type of [w] bits: the value stored and whether
    [failbit] is set.  Out of range stores the nearest limit; a minus sign is
    accepted for an unsigned type and negates modulo [2^w]. *)
Definition num_value (sgn : bool) (w : Z) (neg : bool) (ds : bytes) : Z * bool :=
  let mag := digits_from 0 ds in
  if decide (ds = []) then (0, true)
  else if sgn then
    if neg then if mag <=? 2 ^ (w - 1) then (- mag, false) else (- 2 ^ (w - 1), true)
    else if mag <? 2 ^ (w - 1) then (mag, false) else (2 ^ (w - 1) - 1, true)
  else
    if mag <? 2 ^ w then (if neg then (- mag) mod 2 ^ w else mag, false)
    else (2 ^ w - 1, true).

(** [input >> x] for an integer [x]; [None] when the sentry fails, in which
    case [x] keeps the value it had. *)
Definition read_num (sgn : bool) (w : Z) (s : istream) : option Z * istream :=
  match sentry s with
  | (false, s') => (None, s')
  | (true, s') =>
      let '(neg, r) := take_sign (is_buf s') in
      let '(ds, rest) := span_digits r in
      let '(v, fail) := num_value sgn w neg ds in
      (Some v, IStream rest (bool_decide (rest = [])) fail)
  end.

(** [input >> c] for a [char]. *)
Definition read_char (s : istream) : option byte * istream :=
  match sentry s with
  | (false, s') => (None, s')
  | (true, s') => get s'
  end.

(** ** Decimal output *)

Definition digit (d : Z) : byte := byte.of_Z (48 + d).

Fixpoint dec_aux (fuel : nat) (n : Z) : bytes :=
  match fuel with
  | O => []
  | S f => (if n / 10 =? 0 then [] else dec_aux f (n / 10)) ++ [digit (n mod 10)]
  end.

Definition dec (n : Z) : bytes := dec_aux (S (Z.to_nat (Z.log2 n))) n.

Definition print_dec (z : Z) : bytes :=
  if z <? 0 then "-"%byte :: dec (- z) else dec z.

(** ** Facts *)

Lemma isdigit_digit d : 0 ≤ d < 10 → isdigit (digit d) = true ∧ digit_val (digit d) = d.
Proof.
  intros Hd. unfold isdigit, digit_val, digit. rewrite byte_of_Z_unsigned by lia. lia.
Qed.

Lemma digits_from_app v a b : digits_from v (a ++ b) = digits_from (digits_from v a) b.
Proof. apply fold_left_app. Qed.

Lemma dec_aux_spec fuel n :
  0 ≤ n < 2 ^ Z.of_nat fuel → (0 < fuel)%nat →
  digits_from 0 (dec_aux fuel n) = n ∧
  Forall (fun b => isdigit b = true) (dec_aux fuel n) ∧
  dec_aux fuel n ≠ [].
Proof.
  revert n. induction fuel as [|f IH]; intros n Hn Hf; [lia|].
  cbn [dec_aux]. pose proof (Z.mod_pos_bound n 10 ltac:(lia)) as Hm.
  destruct (isdigit_digit (n mod 10) Hm) as [Hd Hv].
  pose proof (Z.div_mod n 10 ltac:(lia)) as Hdm.
  assert (digits_from 0 (if n / 10 =? 0 then [] else dec_aux f (n / 10)) = n / 10 ∧
          Forall (fun b => isdigit b = true) (if n / 10 =? 0 then [] else dec_aux f (n / 10)))
    as [E F].
  { destruct (Z.eqb_spec (n / 10) 0) as [->|Hnz]; [by split|].
    rewrite Nat2Z.inj_succ, Z.pow_succ_r in Hn by lia.
    assert (0 < n / 10) by (pose proof (Z.div_pos n 10); lia).
    destruct f; [simpl in Hn; lia|].
    destruct (IH (n / 10)) as (? & ? & _); [|lia|done].
    split; [lia|]. apply Z.div_lt_upper_bound; lia. }
  rewrite digits_from_app, E. split_and!.
  - simpl. rewrite Hv. lia.
  - apply Forall_app. by repeat constructor.
  - by intros [_ ?]%app_nil.
Qed.

Lemma dec_spec n :
  0 ≤ n → digits_from 0 (dec n) = n ∧ Forall (fun b => isdigit b = true) (dec n) ∧ dec n ≠ [].
Proof.
  intros Hn. apply dec_aux_spec; [|lia]. split; [done|].
  rewrite Nat2Z.inj_succ, Z2Nat.id by apply Z.log2_nonneg.
  destruct (Z.eq_dec n 0) as [->|]; [by vm_compute|].
  apply Z.log2_spec. lia.
Qed.

Lemma span_digits_app ds rest :
  Forall (fun b => isdigit b = true) ds →
  (∀ b r, rest = b :: r → isdigit b = false) →
  span_digits (ds ++ rest) = (ds, rest).
Proof.
  intros Hds Hrest. induction Hds as [|d ds Hd _ IH]; simpl.
  - destruct rest as [|b r]; [done|]. simpl. by rewrite (Hrest b r eq_refl).
  - by rewrite Hd, IH.
Qed.

Lemma isdigit_not_space b : isdigit b = true → isspace b = false.
Proof. unfold isdigit, isspace. lia. Qed.

Lemma isdigit_not_sign b : isdigit b = true → b ≠ "-"%byte ∧ b ≠ "+"%byte.
Proof. intros H. split; intros ->; vm_compute in H; discriminate. Qed.

Lemma good_open b : good (is_open b) = true.
Proof. reflexivity. Qed.

Lemma sentry_open b r : isspace b = false → sentry (is_open (b :: r)) = (true, is_open (b :: r)).
Proof. intros H. unfold sentry. simpl. by rewrite H. Qed.

(** What [>>] reads from a decimal numeral followed by something else. *)
Lemma read_num_digits (sgn : bool) w ds b rest :
  Forall (fun b => isdigit b = true) ds → ds ≠ [] → isdigit b = false →
  digits_from 0 ds < 2 ^ (if sgn then w - 1 else w) →
  read_num sgn w (is_open (ds ++ b :: rest)) = (Some (digits_from 0 ds), is_open (b :: rest)).
Proof.
  intros Hds Hne Hb Hlt. destruct ds as [|d ds]; [done|].
  pose proof (Forall_inv Hds) as Hd. unfold read_num.
  rewrite <- app_comm_cons, sentry_open by by apply isdigit_not_space.
  destruct (isdigit_not_sign d Hd) as [??]. cbn [is_buf is_open take_sign].
  do 2 (rewrite decide_False by done).
  rewrite app_comm_cons, span_digits_app by naive_solver.
  unfold num_value. rewrite decide_False by done.
  destruct sgn; by rewrite (proj2 (Z.ltb_lt _ _)) by lia.
Qed.

Lemma read_num_dec (sgn : bool) w n b rest :
  0 ≤ n < 2 ^ (if sgn then w - 1 else w) → isdigit b = false →
  read_num sgn w (is_open (dec n ++ b :: rest)) = (Some n, is_open (b :: rest)).
Proof.
  intros Hn Hb. destruct (dec_spec n ltac:(lia)) as (E & F & Hne).
  rewrite (read_num_digits _ _ _ _ _ F Hne Hb); rewrite E; [done|lia].
Qed.

Lemma read_num_print w z b rest :
  0 < w → - 2 ^ (w - 1) ≤ z < 2 ^ (w - 1) → isdigit b = false →
  read_num true w (is_open (print_dec z ++ b :: rest)) = (Some z, is_open (b :: rest)).
Proof.
  intros Hw Hz Hb. unfold print_dec. destruct (Z.ltb_spec z 0); [|apply read_num_dec; [lia|done]].
  destruct (dec_spec (- z) ltac:(lia)) as (E & F & Hne).
  unfold read_num. rewrite <- app_comm_cons, sentry_open by done.
  cbn [is_buf is_open take_sign]. rewrite decide_True by done.
  rewrite span_digits_app by naive_solver.
  unfold num_value. rewrite decide_False, E by done.
  rewrite (proj2 (Z.leb_le _ _)) by lia. by rewrite Z.opp_involutive.
Qed.

(** ** How much input is left

    [left_in s] bounds what the stream can still deliver: the buffer while the
    stream is good, nothing once a flag is set. *)

Definition left_in (s : istream) : nat := if good s then length (is_buf s) else 0.

Lemma left_in_set_fail s : left_in (set_fail s) = 0%nat.
Proof. unfold left_in, good, set_fail. simpl. by rewrite andb_false_r. Qed.

Lemma peek_left s c s' :
  peek s = (c, s') →
  (c = None ∧ left_in s = 0%nat ∧ left_in s' = 0%nat) ∨
  (∃ b r, c = Some b ∧ s' = s ∧ s = is_open (b :: r) ∧ left_in s = S (length r)).
Proof.
  unfold peek. destruct (good s) eqn:G; [destruct (is_buf s) as [|b r] eqn:B|].
  - intros [= <- <-]. left. split_and!; [done| |done]. unfold left_in. by rewrite G, B.
  - intros [= <- <-]. right. exists b, r. destruct s as [b' [] []]; simpl in *; try done. by subst.
  - intros [= <- <-]. left. split_and!; [done| |apply left_in_set_fail].
    unfold left_in. by rewrite G.
Qed.

Lemma get_left s c s' :
  get s = (c, s') → (left_in s' ≤ left_in s - 1)%nat.
Proof.
  unfold get, left_in. destruct (good s) eqn:G; [destruct (is_buf s) as [|b r] eqn:B|];
    intros [= <- <-]; simpl; try lia.
  unfold good, set_fail. simpl. rewrite andb_false_r. lia.
Qed.

Lemma skip_ws_length l : (length (skip_ws l) ≤ length l)%nat.
Proof. induction l as [|b l IH]; simpl; [lia|]. destruct (isspace b); simpl; lia. Qed.

Lemma span_digits_length l ds rest :
  span_digits l = (ds, rest) → length l = (length ds + length rest)%nat.
Proof.
  revert ds rest. induction l as [|b l IH]; simpl; intros ds rest; [by intros [= <- <-]|].
  destruct (isdigit b); [|by intros [= <- <-]].
  destruct (span_digits l) as [ds' r'] eqn:E. intros [= <- <-]. simpl.
  by rewrite (IH ds' r' eq_refl).
Qed.

Lemma take_sign_length l neg r : take_sign l = (neg, r) → (length r ≤ length l)%nat.
Proof.
  destruct l as [|b l]; simpl; [by intros [= <- <-]|].
  destruct (decide _); [intros [= <- <-]; lia|].
  destruct (decide _); intros [= <- <-]; simpl; lia.
Qed.

Lemma read_num_left sgn w s o s' :
  read_num sgn w s = (o, s') →
  (left_in s' ≤ left_in s - 1)%nat ∧ (left_in s = 0%nat → o = None).
Proof.
  unfold read_num, sentry, left_in. destruct (good s) eqn:G.
  2:{ intros [= <- <-]. unfold good. simpl. rewrite andb_false_r. split; [lia|done]. }
  pose proof (skip_ws_length (is_buf s)) as Hlen.
  destruct (skip_ws (is_buf s)) as [|b r] eqn:B.
  { intros [= <- <-]. unfold good. simpl. split; [lia|done]. }
  cbn [is_buf is_open]. destruct (take_sign (b :: r)) as [neg r'] eqn:T.
  destruct (span_digits r') as [ds rest] eqn:S.
  destruct (num_value sgn w neg ds) as [v fl] eqn:N.
  intros [= <- <-]. apply take_sign_length in T. apply span_digits_length in S.
  unfold good. cbn [is_eof is_fail is_buf].
  split; [|intros Z; simpl in Hlen; lia].
  destruct (bool_decide (rest = [])); simpl; [lia|].
  destruct fl; simpl; [lia|]. destruct ds as [|d ds]; [|simpl in *; lia].
  unfold num_value in N. rewrite decide_True in N by done. done.
Qed.

Lemma num_value_range (sgn : bool) w neg ds v fl :
  0 < w → 0 ≤ digits_from 0 ds → num_value sgn w neg ds = (v, fl) →
  if sgn then - 2 ^ (w - 1) ≤ v < 2 ^ (w - 1) else 0 ≤ v < 2 ^ w.
Proof.
  intros Hw Hd. unfold num_value. pose proof (Z.pow_pos_nonneg 2 w ltac:(lia) ltac:(lia)).
  pose proof (Z.pow_pos_nonneg 2 (w - 1) ltac:(lia) ltac:(lia)).
  destruct (decide _); [intros [= <- <-]; destruct sgn; lia|].
  destruct sgn, neg;
    repeat match goal with |- context [?a <? ?b] => destruct (Z.ltb_spec a b)
      | |- context [?a <=? ?b] => destruct (Z.leb_spec a b) end;
    intros [= <- <-]; try lia.
  apply Z.mod_pos_bound. lia.
Qed.

Lemma digits_from_nonneg v ds :
  0 ≤ v → Forall (fun b => isdigit b = true) ds → 0 ≤ digits_from v ds.
Proof.
  intros Hv Hds. revert v Hv. induction Hds as [|d ds Hd _ IH]; intros v Hv; [done|].
  simpl. apply IH. unfold isdigit, digit_val in *. lia.
Qed.

Lemma span_digits_digits l ds rest :
  span_digits l = (ds, rest) → Forall (fun b => isdigit b = true) ds.
Proof.
  revert ds rest. induction l as [|b l IH]; simpl; intros ds rest; [intros [= <- <-]; constructor|].
  destruct (isdigit b) eqn:D; [|intros [= <- <-]; constructor].
  destruct (span_digits l) as [ds' r'] eqn:E. intros [= <- <-]. constructor; eauto.
Qed.

Lemma read_num_range (sgn : bool) w s v s' :
  0 < w → read_num sgn w s = (Some v, s') →
  if sgn then - 2 ^ (w - 1) ≤ v < 2 ^ (w - 1) else 0 ≤ v < 2 ^ w.
Proof.
  intros Hw. unfold read_num. destruct (sentry s) as [[] s1]; [|done].
  destruct (take_sign _) as [neg r]. destruct (span_digits r) as [ds rest] eqn:S.
  destruct (num_value sgn w neg ds) as [v' fl] eqn:N. intros [= <- <-].
  eapply num_value_range; [done| |done]. apply digits_from_nonneg; [done|].
  by eapply span_digits_digits.
Qed.
