(* ===== verification/Log.v ===== *)
(** * The log and the timings (src/utils/logger.h, logger.cpp, profile.h)

    [Logger::out] writes the time since the last action and then, line by line,
    a text it collects in a [std::stringstream] that is a member and keeps its
    flags from one call to the next.  Instants are numbers of nanoseconds of
    [steady_clock] and arguments of the definitions; the stream the logger
    writes to is the text written so far.  [out_entry] shows that a call
    appends one whole entry whatever the calls before it left in the stream. *)

From Stdlib Require Import ZArith Lia Strings.Byte.
From coqutil Require Import Byte.
From S2P Require Import Prelude Streams.

Definition line_feed : byte := x0a.
Definition tab : byte := x09.
Definition endl : bytes := [line_feed].

(** ** [std::stringstream], on top of the streams of Streams.v *)

(** [ss.str(std::string())] leaves the flags alone, [ss.clear()] the text. *)
Definition str_empty (s : istream) : istream := IStream [] (is_eof s) (is_fail s).
Definition clear (s : istream) : istream := is_open (is_buf s).

(** [ss << x]: the sentry of an output does nothing on a stream that is not good. *)
Definition insert_text (s : istream) (x : bytes) : istream :=
  if good s then is_open (is_buf s ++ x) else s.

(** The text up to a newline, and what follows the newline if there is one. *)
Fixpoint span_line (l : bytes) : bytes * option bytes :=
  match l with
  | [] => ([], None)
  | b :: r =>
      if decide (b = line_feed) then ([], Some r)
      else let '(line, rest) := span_line r in (b :: line, rest)
  end.

(** [std::getline(ss, line)]; [None] when it sets [failbit]. *)
Definition getline (s : istream) : option bytes * istream :=
  if good s then
    match is_buf s with
    | [] => (None, set_fail (set_eof s))
    | l =>
        match span_line l with
        | (line, Some rest) => (Some line, is_open rest)
        | (line, None) => (Some line, set_eof (is_open []))
        end
    end
  else (None, set_fail s).

(** ** [Logger] *)

Record Logger := mkLogger {
  ss : istream;
  os : bytes;
  last_action_time : Z;
}.

Definition write (lg : Logger) (x : bytes) : Logger := mkLogger (ss lg) (os lg ++ x) (last_action_time lg).
Definition set_ss (lg : Logger) (s : istream) : Logger := mkLogger s (os lg) (last_action_time lg).

(** [duration_cast] of nanoseconds, which rounds towards zero. *)
Definition milliseconds (d : Z) : Z := Z.quot d 1000000.
Definition seconds (d : Z) : Z := Z.quot d 1000000000.

Definition outtime (now : Z) (lg : Logger) : Logger :=
  let prev_time := last_action_time lg in
  let lg := mkLogger (ss lg) (os lg) now in
  write lg (print_dec (milliseconds (now - prev_time)) ++ str "ms: ").

(** The [for] with [std::getline]; one unit of fuel a call. *)
Fixpoint write_lines (fuel : nat) (lg : Logger) : outcome Logger :=
  match fuel with
  | O => NoFuel
  | S fuel =>
      match getline (ss lg) with
      | (Some line, s) => write_lines fuel (write (set_ss lg s) (tab :: line ++ endl))
      | (None, s) => Ok (set_ss lg s)
      end
  end.

(** The arguments are the texts they print. *)
Definition out (fuel : nat) (now : Z) (args : list bytes) (lg : Logger) : outcome Logger :=
  let lg := outtime now lg in
  let lg := write lg endl in
  let lg := set_ss lg (str_empty (ss lg)) in
  let lg := set_ss lg (clear (ss lg)) in
  let lg := set_ss lg (fold_left insert_text args (ss lg)) in
  lg ← write_lines fuel lg;
  Ok (write lg endl).

(** [reset] turns to another stream. *)
Definition reset (new_os : bytes) (lg : Logger) : Logger := mkLogger (ss lg) new_os (last_action_time lg).

(** The constructor with FILE_LOGGER: the name of the file, and the first entry. *)
Definition log_name (start : Z) : bytes := str "out_" ++ print_dec (seconds start) ++ str ".log".

Definition Logger_make (start now : Z) : outcome (bytes * Logger) :=
  let lg := mkLogger (insert_text (is_open []) (print_dec (seconds start))) [] start in
  lg ← out 16 now [str "Logger created"] lg;
  Ok (log_name start, lg).

Definition Logger_delete (now : Z) (lg : Logger) : outcome Logger := out 16 now [str "Logger deleted"] lg.

(** ** What an entry is *)

(** The lines of a text, a last one without a newline included. *)
Fixpoint lines_from (cur l : bytes) : list bytes :=
  match l with
  | [] => if decide (cur = []) then [] else [cur]
  | b :: r => if decide (b = line_feed) then cur :: lines_from [] r else lines_from (cur ++ [b]) r
  end.
Definition lines : bytes → list bytes := lines_from [].

Definition unlines (ls : list bytes) : bytes := concat (map (fun l => l ++ endl) ls).

Definition entry (elapsed : Z) (text : bytes) : bytes :=
  print_dec (milliseconds elapsed) ++ str "ms: " ++ endl ++
  concat (map (fun l => tab :: l ++ endl) (lines text)) ++ endl.

(** ** [TotalDuration] and [AddDuration] *)

Record TotalDuration := mkTotal { message : bytes; value : Z; count : Z }.

Definition TotalDuration_make (msg : bytes) : TotalDuration := mkTotal msg 0 0.

(** A scope from [start] to [now], in nanoseconds. *)
Definition AddDuration_end (start now : Z) (t : TotalDuration) : TotalDuration :=
  mkTotal (message t) (value t + (now - start)) (u64 (count t + 1)).

(** The division of the destructor converts the signed count of milliseconds to [size_t]. *)
Definition average_ms (t : TotalDuration) : outcome Z :=
  if count t =? 0 then UB else Ok (u64 (milliseconds (value t)) / count t).

(** What the destructor writes to [std::cerr]. *)
Definition TotalDuration_delete (t : TotalDuration) : outcome bytes :=
  if count t =? 0 then Ok (message t ++ str ": " ++ line_feed :: tab :: str "never called" ++ endl ++ endl)
  else
    avg ← average_ms t;
    Ok (message t ++ str ": " ++ line_feed :: tab :: str "total time: " ++ print_dec (milliseconds (value t)) ++
        str " ms" ++ line_feed :: tab :: str "average time of one execution: " ++ print_dec avg ++
        str " ms" ++ endl ++ endl).

(** ** Facts about the log *)

Lemma insert_all args b : fold_left insert_text args (is_open b) = is_open (b ++ concat args).
Proof.
  revert b. induction args as [|x args IH]; intros b; [cbn; by rewrite app_nil_r|].
  cbn [fold_left]. change (insert_text (is_open b) x) with (is_open (b ++ x)).
  by rewrite IH, <- app_assoc.
Qed.

Lemma lines_span cur l :
  lines_from cur l =
  match span_line l with
  | (line, Some rest) => (cur ++ line) :: lines rest
  | (line, None) => if decide (cur ++ line = []) then [] else [cur ++ line]
  end.
Proof.
  revert cur. induction l as [|b l IH]; intros cur; cbn [lines_from span_line].
  - by rewrite app_nil_r.
  - case_decide; [by rewrite app_nil_r|]. rewrite IH.
    destruct (span_line l) as [line [rest|]]; rewrite <- app_assoc; done.
Qed.

Lemma span_line_shorter l line rest : span_line l = (line, Some rest) → (length rest < length l)%nat.
Proof.
  revert line. induction l as [|b l IH]; intros line; cbn [span_line]; [done|].
  case_decide; [intros [= _ <-]; cbn; lia|].
  destruct (span_line l) as [x o]. intros [= _ ->]. specialize (IH _ eq_refl). cbn. lia.
Qed.

(** Reading off all lines of an open stream takes two units more than its length at most. *)
Lemma write_lines_open fuel lg t :
  ss lg = is_open t → (length t + 1 < fuel)%nat →
  ∃ s, write_lines fuel lg =
       Ok (mkLogger s (os lg ++ concat (map (fun l => tab :: l ++ endl) (lines t))) (last_action_time lg)).
Proof.
  revert lg t. induction fuel as [|fuel IH]; intros lg t Hs Hf; [lia|].
  cbn [write_lines]. rewrite Hs. destruct t as [|b t].
  { eexists. cbn. by rewrite app_nil_r. }
  unfold getline. change (good (is_open (b :: t))) with true. cbv iota. cbn [is_buf is_open].
  unfold lines. rewrite lines_span. destruct (span_line (b :: t)) as [line [rest|]] eqn:E.
  - apply span_line_shorter in E. destruct (IH (write (set_ss lg (is_open rest)) (tab :: line ++ endl)) rest)
      as [s ->]; [done|cbn in *; lia|]. exists s. cbn. by rewrite <- app_assoc.
  - assert (line ≠ []) as Hl.
    { cbn [span_line] in E. case_decide; [done|]. destruct (span_line t). by injection E as <- _. }
    destruct fuel as [|fuel]; [cbn in Hf; lia|]. eexists. rewrite decide_False by done.
    cbn [map concat]. rewrite app_nil_r. reflexivity.
Qed.

(** An entry is written whole whatever state the stream of the logger is in:
    emptied and cleared first, it takes the arguments and gives their lines. *)
Lemma out_entry fuel now args lg :
  (length (concat args) + 1 < fuel)%nat →
  ∃ s, out fuel now args lg =
       Ok (mkLogger s (os lg ++ entry (now - last_action_time lg) (concat args)) now).
Proof.
  intros Hf. unfold out. cbn [ss set_ss write outtime].
  change (clear (str_empty (ss lg))) with (is_open []). rewrite insert_all, app_nil_l.
  match goal with |- context [write_lines fuel ?x] =>
    destruct (write_lines_open fuel x (concat args) eq_refl Hf) as [s E] end.
  exists s. unfold set_ss, write, outtime in *. cbn in E |- *. rewrite E. unfold mbind. cbn.
  unfold write, entry. cbn. do 2 f_equal. by rewrite <- !app_assoc.
Qed.

(** A run of the log: instants with arguments, one entry after the other. *)
Definition log_all (l : list (Z * list bytes)) (lg : Logger) : outcome Logger :=
  foldl (fun acc '(now, args) => lg ← acc; out (length (concat args) + 2) now args lg) (Ok lg) l.

Fixpoint log_entries (last : Z) (l : list (Z * list bytes)) : bytes :=
  match l with
  | [] => []
  | (now, args) :: l => entry (now - last) (concat args) ++ log_entries now l
  end.

Lemma log_all_entries l lg :
  ∃ s t, log_all l lg = Ok (mkLogger s (os lg ++ log_entries (last_action_time lg) l) t).
Proof.
  revert lg. induction l as [|[now args] l IH]; intros lg.
  - exists (ss lg), (last_action_time lg). cbn. rewrite app_nil_r. by destruct lg.
  - unfold log_all in *. cbn [foldl].
    destruct (out_entry (length (concat args) + 2) now args lg) as [s E]; [lia|].
    unfold mbind at 2. cbn. rewrite E.
    destruct (IH (mkLogger s (os lg ++ entry (now - last_action_time lg) (concat args)) now)) as (s' & t & ->).
    exists s', t. cbn. by rewrite app_assoc.
Qed.

(** The lines of a text joined again: a missing last newline is added. *)
Lemma unlines_lines_from cur l :
  unlines (lines_from cur l) =
  cur ++ l ++ (if decide (cur ++ l = [] ∨ list.last l = Some line_feed) then [] else endl).
Proof.
  revert cur. induction l as [|b l IH]; intros cur; cbn [lines_from].
  - rewrite !app_nil_r. destruct cur as [|c cur]; [done|]. rewrite !decide_False by naive_solver.
    cbn. by rewrite !app_nil_r.
  - destruct (decide (b = line_feed)) as [Hb|Hb].
    + rewrite Hb. cbn [unlines map concat]. fold (unlines (lines_from [] l)). rewrite IH, <- !app_assoc.
      cbn. do 3 f_equal. apply decide_ext. split; intros [H|H]; destruct l; try done;
        try (by left); try (by right); by apply app_eq_nil in H as [_ H].
    + rewrite IH, <- !app_assoc. cbn. do 3 f_equal. apply decide_ext.
      split; intros [H|H]; destruct l; cbn in *; try (by right);
        try (by apply app_eq_nil in H as [_ H]); congruence.
Qed.

(** ** Facts about the timings *)

Lemma AddDuration_total spans t :
  value (foldl (fun t '(a, b) => AddDuration_end a b t) t spans) =
    value t + foldr (fun '(a, b) s => b - a + s) 0 spans ∧
  (0 ≤ count t → count t + Z.of_nat (length spans) < 2 ^ 64 →
   count (foldl (fun t '(a, b) => AddDuration_end a b t) t spans) = count t + Z.of_nat (length spans)).
Proof.
  revert t. induction spans as [|[a b] spans IH]; intros t; cbn [foldl foldr length]; [lia|].
  destruct (IH (AddDuration_end a b t)) as [Hv Hc]. rewrite Hv. cbn [AddDuration_end value count] in *.
  split; [lia|]. intros H0' Hlt. rewrite u64_small in Hc by lia. rewrite Hc; lia.
Qed.

(** The destructor never divides by zero, and the average it writes times the
    number of scopes does not exceed the total. *)
Lemma TotalDuration_report t : is_Ok (TotalDuration_delete t).
Proof.
  unfold TotalDuration_delete, average_ms. destruct (count t =? 0); [by eexists|]. unfold mbind. by eexists.
Qed.

Lemma average_ms_bound t avg :
  0 ≤ value t < 2 ^ 63 → 0 < count t → average_ms t = Ok avg →
  avg * count t ≤ milliseconds (value t) < (avg + 1) * count t.
Proof.
  intros Hv Hc. unfold average_ms. destruct (Z.eqb_spec (count t) 0); [lia|]. intros [= <-].
  unfold milliseconds. rewrite Z.quot_div_nonneg by lia.
  rewrite u64_small by (split; [apply Z.div_pos; lia|apply Z.div_lt_upper_bound; lia]).
  pose proof (Z.mul_div_le (value t / 1000000) (count t) Hc).
  pose proof (Z.mul_succ_div_gt (value t / 1000000) (count t) Hc). lia.
Qed.

(** The log of a run, evaluated. *)
Example log_played :
  (r ← Logger_make 5000000000 5002000000;
   lg ← log_all [(5007000000, [str "a"; endl; str "b"]); (5007500000, [])] (snd r);
   Ok (fst r, os lg))
  = Ok (str "out_5.log",
        str "2ms: " ++ endl ++ tab :: str "Logger created" ++ endl ++ endl ++
        str "5ms: " ++ endl ++ tab :: str "a" ++ endl ++ tab :: str "b" ++ endl ++ endl ++
        str "0ms: " ++ endl ++ endl).
Proof. vm_compute. reflexivity. Qed.
