(* ===== verification/Bencode.v ===== *)
(** * Bencode (src/utils/bencode_lib.h, bencode_lib.cpp)

    The document type, its accessors, the recursive-descent reader over an
    input stream and the writer. *)

From Stdlib Require Import ZArith Lia Strings.Byte.
From coqutil Require Import Byte.
From S2P Require Import Prelude Bytes Streams.

(** ** [std::map<std::string, V>]: an association list in key order *)

Fixpoint bytes_ltb (a b : bytes) : bool :=
  match a, b with
  | _, [] => false
  | [], _ :: _ => true
  | x :: a', y :: b' =>
      if byte.unsigned x <? byte.unsigned y then true
      else if byte.unsigned y <? byte.unsigned x then false
      else bytes_ltb a' b'
  end.

Section StdMap.
Context {V : Type}.
Implicit Types d : list (bytes * V).

(** [emplace]: an existing key keeps its value. *)
Fixpoint emplace (k : bytes) (v : V) d : list (bytes * V) :=
  match d with
  | [] => [(k, v)]
  | (k', v') :: d' =>
      if bytes_ltb k k' then (k, v) :: d
      else if bytes_ltb k' k then (k', v') :: emplace k v d'
      else d
  end.

(** [m[k] = v] *)
Fixpoint assign (k : bytes) (v : V) d : list (bytes * V) :=
  match d with
  | [] => [(k, v)]
  | (k', v') :: d' =>
      if bytes_ltb k k' then (k, v) :: d
      else if bytes_ltb k' k then (k', v') :: assign k v d'
      else (k', v) :: d'
  end.

Fixpoint find (k : bytes) d : option V :=
  match d with
  | [] => None
  | (k', v) :: d' => if decide (k = k') then Some v else find k d'
  end.

Definition count (k : bytes) d : bool := bool_decide (is_Some (find k d)).

Fixpoint keys_sorted d : bool :=
  match d with
  | (k1, _) :: (((k2, _) :: _) as d') => bytes_ltb k1 k2 && keys_sorted d'
  | _ => true
  end.
End StdMap.

(** ** Documents *)

(** [std::variant<long long, std::string, std::vector<Node>, std::map<std::string, Node>>] *)
Inductive Node :=
  | NInt (n : Z)
  | NStr (s : bytes)
  | NArray (l : list Node)
  | NDict (d : list (bytes * Node)).

Record Document := { GetRoot : Node }.

Definition IsNumber (n : Node) : bool := match n with NInt _ => true | _ => false end.
Definition IsString (n : Node) : bool := match n with NStr _ => true | _ => false end.
Definition IsArray (n : Node) : bool := match n with NArray _ => true | _ => false end.
Definition IsDict (n : Node) : bool := match n with NDict _ => true | _ => false end.

Definition AsNumber (n : Node) : outcome Z :=
  match n with NInt z => Ok z | _ => Throw bad_variant_access end.
Definition AsString (n : Node) : outcome bytes :=
  match n with NStr s => Ok s | _ => Throw bad_variant_access end.
Definition AsArray (n : Node) : outcome (list Node) :=
  match n with NArray l => Ok l | _ => Throw bad_variant_access end.
Definition AsDict (n : Node) : outcome (list (bytes * Node)) :=
  match n with NDict d => Ok d | _ => Throw bad_variant_access end.

(** [operator[](key) const], [TryAt] and [operator[](i) const] *)
Definition at_key (n : Node) (key : bytes) : outcome Node :=
  d ← AsDict n; opt_or out_of_range (find key d).
Definition TryAt (n : Node) (key : bytes) : outcome (option Node) :=
  d ← AsDict n;
  if count key d then (v ← opt_or out_of_range (find key d); Ok (Some v)) else Ok None.
Definition at_index (n : Node) (i : nat) : outcome Node :=
  l ← AsArray n; opt_or out_of_range (l !! i).

(** The mutable [operator[]](key): the node after the call (a node of another
    kind becomes an empty dict, a missing key is added with the default value
    of the variant) and the value referred to. *)
Definition ref_key (n : Node) (key : bytes) : Node * Node :=
  let d := match n with NDict d => d | _ => [] end in
  let d' := emplace key (NInt 0) d in
  (NDict d', default (NInt 0) (find key d')).

(** [n[key] = v] through it *)
Definition set_key (n : Node) (key : bytes) (v : Node) : Node :=
  match ref_key n key with
  | (NDict d, _) => NDict (assign key v d)
  | (n', _) => n'
  end.

(** The mutable [operator[]](i); the vector's is unchecked. *)
Definition ref_index (n : Node) (i : nat) : outcome (Node * Node) :=
  let l := match n with NArray l => l | _ => [] end in
  v ← opt_ub (l !! i); Ok (NArray l, v).

(** ** Serialize *)

Definition MakeSerialize_str (s : bytes) : bytes :=
  dec (Z.of_nat (length s)) ++ ":"%byte :: s.

Fixpoint MakeSerialize (n : Node) : bytes :=
  match n with
  | NInt z => "i"%byte :: print_dec z ++ ["e"%byte]
  | NStr s => MakeSerialize_str s
  | NArray l => "l"%byte :: concat (map MakeSerialize l) ++ ["e"%byte]
  | NDict d =>
      "d"%byte :: concat (map (fun '(k, v) => MakeSerialize_str k ++ MakeSerialize v) d)
      ++ ["e"%byte]
  end.

(** [ToString] goes through a fresh [ostringstream]. *)
Definition ToString (n : Node) : bytes := MakeSerialize n.

(** ** Deserialize *)

(** [std::string::max_size()] *)
Definition STRING_MAX : Z := 2 ^ 63 - 1.

(** [copy_n] from an [istreambuf_iterator]: it works on the buffer whatever
    the stream's state, leaves the last character it copied unread, and past
    the end of the buffer it is undefined. *)
Definition copy_n (n : Z) (s : istream) : outcome (bytes * istream) :=
  if n =? 0 then Ok ([], s)
  else if Z.of_nat (length (is_buf s)) <? n then UB
  else Ok (take (Z.to_nat n) (is_buf s),
           IStream (drop (Z.to_nat n - 1) (is_buf s)) (is_eof s) (is_fail s)).

Definition LoadStr (s : istream) : outcome (Node * istream) :=
  let '(o, s) := read_num false 64 s in
  let str_size := default 0 o in
  if STRING_MAX <? str_size then Throw length_error
  else
    let '(_, s) := get s in
    '(str, s) ← copy_n str_size s;
    let '(_, s) := get s in
    Ok (NStr str, s).

(** [number] is not initialised: reading it when [>>] stored nothing is undefined. *)
Definition LoadNumber (s : istream) : outcome (Node * istream) :=
  let '(_, s) := get s in
  let '(o, s) := read_num true 64 s in
  let '(_, s) := get s in
  number ← opt_ub o;
  Ok (NInt number, s).

(** The bodies around the loops of [LoadDict] and [LoadArray]. *)
Definition LoadDict_with
    (loop : list (bytes * Node) → istream → outcome (list (bytes * Node) * istream))
    (s : istream) : outcome (Node * istream) :=
  let '(c, s) := peek s in
  if decide (c = None) then Ok (NDict [], s)
  else
    let '(_, s) := get s in
    '(dict, s) ← loop [] s;
    let '(_, s) := get s in
    Ok (NDict dict, s).

Definition LoadArray_with
    (loop : list Node → istream → outcome (list Node * istream))
    (s : istream) : outcome (Node * istream) :=
  let '(_, s) := get s in
  '(arr, s) ← loop [] s;
  let '(_, s) := get s in
  Ok (NArray arr, s).

Section Deserialize.
Context `{Host}.

(** [char c = input.peek()], as the [switch] sees it; [EOF] is -1. *)
Definition peeked_char (c : option byte) : Z :=
  let z := match c with None => -1 | Some b => byte.unsigned b end in
  if char_is_signed then s8 z else u8 z.

Definition char_i : Z := 105.
Definition char_l : Z := 108.
Definition char_d : Z := 100.
Definition EOF : Z := -1.

Fixpoint LoadNode (fuel : nat) (s : istream) : outcome (Node * istream) :=
  match fuel with
  | O => NoFuel
  | S fuel =>
      let '(pc, s) := peek s in
      let c := peeked_char pc in
      if c =? char_i then LoadNumber s
      else if c =? char_l then LoadArray_with (LoadArray_loop fuel) s
      else if (c =? char_d) || (c =? EOF) then LoadDict_with (LoadDict_loop fuel) s
      else LoadStr s
  end
with LoadDict_loop (fuel : nat) (dict : list (bytes * Node)) (s : istream)
    : outcome (list (bytes * Node) * istream) :=
  match fuel with
  | O => NoFuel
  | S fuel =>
      let '(c, s) := peek s in
      if decide (c = Some "e"%byte) then Ok (dict, s)
      else
        '(kn, s) ← LoadStr s;
        key ← AsString kn;
        '(v, s) ← LoadNode fuel s;
        LoadDict_loop fuel (emplace key v dict) s
  end
with LoadArray_loop (fuel : nat) (arr : list Node) (s : istream)
    : outcome (list Node * istream) :=
  match fuel with
  | O => NoFuel
  | S fuel =>
      let '(c, s) := peek s in
      if decide (c = Some "e"%byte) then Ok (arr, s)
      else
        '(v, s) ← LoadNode fuel s;
        LoadArray_loop fuel (arr ++ [v]) s
  end.

Definition LoadDict (fuel : nat) : istream → outcome (Node * istream) :=
  LoadDict_with (LoadDict_loop fuel).
Definition LoadArray (fuel : nat) : istream → outcome (Node * istream) :=
  LoadArray_with (LoadArray_loop fuel).

Definition Load (fuel : nat) (s : istream) : outcome Document :=
  '(n, _) ← LoadNode fuel s; Ok {| GetRoot := n |}.
End Deserialize.

Example Load_ex :
  let _ := x86_64 in
  Load 40 (is_open (str "d3:cow3:moo4:spaml1:ai-7eee")) =
    Ok {| GetRoot := NDict [(str "cow", NStr (str "moo"));
                            (str "spam", NArray [NStr (str "a"); NInt (-7)])] |}.
Proof. vm_compute. reflexivity. Qed.

(** [l0:e]: the empty string swallows the byte after it. *)
Example Load_empty_string_ex :
  let _ := x86_64 in
  LoadNode 9 (is_open (str "0:i1e")) = Ok (NStr [], is_open (str "1e")).
Proof. vm_compute. reflexivity. Qed.
