(* ===== verification/BencodeFacts.v ===== *)
(** * Correctness of the bencode reader and writer

    The ordered-map laws, the round trip, how much
    fuel the reader needs, and the inputs on which it never returns. *)

From Stdlib Require Import ZArith Lia Strings.Byte.
From coqutil Require Import Byte.
From S2P Require Import Prelude Bytes Streams Bencode.

(** ** The key order *)

Lemma bytes_ltb_irrefl a : bytes_ltb a a = false.
Proof. induction a as [|x a IH]; simpl; [done|]. by rewrite Z.ltb_irrefl. Qed.

Lemma bytes_ltb_trans a b c :
  bytes_ltb a b = true → bytes_ltb b c = true → bytes_ltb a c = true.
Proof.
  revert b c. induction a as [|x a IH]; intros [|y b] [|z c]; simpl; try done.
  destruct (Z.ltb_spec (byte.unsigned x) (byte.unsigned y)),
    (Z.ltb_spec (byte.unsigned y) (byte.unsigned z)),
    (Z.ltb_spec (byte.unsigned x) (byte.unsigned z)); try done; try lia;
  destruct (Z.ltb_spec (byte.unsigned y) (byte.unsigned x)),
    (Z.ltb_spec (byte.unsigned z) (byte.unsigned y)),
    (Z.ltb_spec (byte.unsigned z) (byte.unsigned x)); try done; try lia.
  apply IH.
Qed.

Lemma bytes_ltb_total a b : bytes_ltb a b = false → bytes_ltb b a = false → a = b.
Proof.
  revert b. induction a as [|x a IH]; intros [|y b]; simpl; try done.
  destruct (Z.ltb_spec (byte.unsigned x) (byte.unsigned y)); [done|].
  destruct (Z.ltb_spec (byte.unsigned y) (byte.unsigned x)); [done|].
  intros ??. f_equal; [apply byte.unsigned_inj; lia|auto].
Qed.

Lemma bytes_ltb_ne a b : bytes_ltb a b = true → a ≠ b.
Proof. intros H ->. by rewrite bytes_ltb_irrefl in H. Qed.

Lemma bytes_ltb_asym a b : bytes_ltb a b = true → bytes_ltb b a = false.
Proof.
  intros H. destruct (bytes_ltb b a) eqn:E; [|done].
  by rewrite <- (bytes_ltb_irrefl a), (bytes_ltb_trans _ _ _ H E).
Qed.

#[export] Hint Resolve bytes_ltb_trans bytes_ltb_ne bytes_ltb_asym bytes_ltb_irrefl : cpp.

Section StdMapFacts.
Context {V : Type}.
Implicit Types d : list (bytes * V).

Definition keys_above (k : bytes) d : Prop := Forall (fun p => bytes_ltb k p.1 = true) d.
Definition keys_below (k : bytes) d : Prop := Forall (fun p => bytes_ltb p.1 k = true) d.

Lemma keys_sorted_cons k v d :
  keys_sorted ((k, v) :: d) = true ↔ keys_sorted d = true ∧ keys_above k d.
Proof.
  revert k v. induction d as [|[k2 v2] d IH]; intros k v.
  { split; [by split; [|constructor]|done]. }
  assert (keys_sorted ((k, v) :: (k2, v2) :: d)
    = bytes_ltb k k2 && keys_sorted ((k2, v2) :: d)) as -> by done.
  rewrite andb_true_iff. unfold keys_above. rewrite Forall_cons_iff. simpl fst.
  split; [|tauto]. intros [Hk Hs]. split_and!; [done..|].
  apply IH in Hs as [_ Ha]. eapply List.Forall_impl; [|exact Ha].
  intros [k3 v3] ?. simpl in *. eauto with cpp.
Qed.

Lemma emplace_append k v d : keys_below k d → emplace k v d = d ++ [(k, v)].
Proof.
  induction 1 as [|[k' v'] d Hk _ IH]; [done|]. simpl in *.
  rewrite (bytes_ltb_asym _ _ Hk), Hk, IH. done.
Qed.

Lemma emplace_above k k0 v d :
  bytes_ltb k0 k = true → keys_above k0 d → keys_above k0 (emplace k v d).
Proof.
  intros Hk. induction 1 as [|[k' v'] d Hk' Hd IH]; simpl; [by repeat constructor|].
  destruct (bytes_ltb k k'); [by repeat constructor|].
  destruct (bytes_ltb k' k); by constructor.
Qed.

Lemma emplace_sorted k v d : keys_sorted d = true → keys_sorted (emplace k v d) = true.
Proof.
  induction d as [|[k' v'] d IH]; [done|]. intros Hs. cbn [emplace].
  destruct (bytes_ltb k k') eqn:E1; [|destruct (bytes_ltb k' k) eqn:E2; [|done]].
  - apply keys_sorted_cons. split; [done|]. apply keys_sorted_cons in Hs as [_ Ha].
    constructor; [done|]. eapply List.Forall_impl; [|exact Ha]. simpl. eauto with cpp.
  - apply keys_sorted_cons in Hs as [Hs Ha]. apply keys_sorted_cons.
    split; [auto|by apply emplace_above].
Qed.

Lemma find_above k k0 d : keys_above k0 d → bytes_ltb k k0 = true ∨ k = k0 → find k d = None.
Proof.
  induction 1 as [|[k' v'] d Hk _ IH]; [done|]. intros Hlt. simpl in *.
  rewrite decide_False; [auto|]. intros ->.
  destruct Hlt as [Hlt| ->]; [|by rewrite bytes_ltb_irrefl in Hk].
  by rewrite (bytes_ltb_asym _ _ Hlt) in Hk.
Qed.

Lemma find_emplace k k' v d :
  keys_sorted d = true →
  find k' (emplace k v d) = if decide (k' = k) then Some (default v (find k d)) else find k' d.
Proof.
  induction d as [|[k2 v2] d IH]; intros Hs; [done|].
  cbn [emplace]. apply keys_sorted_cons in Hs as [Hs Ha].
  destruct (bytes_ltb k k2) eqn:E1.
  - cbn [find]. destruct (decide (k' = k)) as [->|]; [|done].
    rewrite (decide_False (P:=k = k2)) by (by apply bytes_ltb_ne).
    by rewrite (find_above _ _ _ Ha) by auto.
  - destruct (bytes_ltb k2 k) eqn:E2.
    + cbn [find]. rewrite IH by done.
      rewrite (decide_False (P:=k = k2)) by (intros ->; by rewrite bytes_ltb_irrefl in E2).
      destruct (decide (k' = k2)) as [->|]; [|done].
      rewrite decide_False; [done|]. intros ->. by rewrite bytes_ltb_irrefl in E2.
    + rewrite (bytes_ltb_total _ _ E1 E2). cbn [find]. rewrite (decide_True (P:=k2 = k2)) by done. simpl.
      by destruct (decide (k' = k2)) as [->|].
Qed.
End StdMapFacts.

(** ** Documents the writer and the reader agree on *)

Section NodeInd.
Context (P : Node → Prop).
Hypothesis HInt : ∀ z, P (NInt z).
Hypothesis HStr : ∀ s, P (NStr s).
Hypothesis HArray : ∀ l, Forall P l → P (NArray l).
Hypothesis HDict : ∀ d, Forall (fun p => P p.2) d → P (NDict d).

Fixpoint Node_ind_nested (n : Node) : P n :=
  match n with
  | NInt z => HInt z
  | NStr s => HStr s
  | NArray l => HArray l ((fix go l : Forall P l :=
      match l with
      | [] => Forall_nil_2 _
      | x :: l => Forall_cons_2 _ _ _ (Node_ind_nested x) (go l)
      end) l)
  | NDict d => HDict d ((fix go d : Forall (fun p => P p.2) d :=
      match d with
      | [] => Forall_nil_2 _
      | (k, v) :: d => Forall_cons_2 _ (k, v) _ (Node_ind_nested v) (go d)
      end) d)
  end.
End NodeInd.

Definition str_fits (s : bytes) : bool := Z.of_nat (length s) <=? STRING_MAX.
Definition str_nonempty (s : bytes) : bool := negb (bool_decide (s = [])).

(** What any [Node] built by the reader satisfies. *)
Fixpoint node_ok (n : Node) : bool :=
  match n with
  | NInt z => (- 2 ^ 63 <=? z) && (z <? 2 ^ 63)
  | NStr s => str_fits s
  | NArray l => forallb node_ok l
  | NDict d => keys_sorted d && forallb (fun '(k, v) => str_fits k && node_ok v) d
  end.

(** No empty string, anywhere. *)
Fixpoint no_empty_str (n : Node) : bool :=
  match n with
  | NInt _ => true
  | NStr s => str_nonempty s
  | NArray l => forallb no_empty_str l
  | NDict d => forallb (fun '(k, v) => str_nonempty k && no_empty_str v) d
  end.

(** ** One string *)

Lemma copy_n_exact str rest :
  str ≠ [] → copy_n (Z.of_nat (length str)) (is_open (str ++ rest))
    = Ok (str, is_open (drop (length str - 1) str ++ rest)).
Proof.
  intros Hne. unfold copy_n. destruct str as [|b str]; [done|].
  destruct (Z.eqb_spec (Z.of_nat (length (b :: str))) 0) as [E|_]; [simpl in E; lia|].
  cbn [is_buf is_open]. rewrite (proj2 (Z.ltb_ge _ _)) by (rewrite length_app; lia).
  rewrite Nat2Z.id, take_app_length, drop_app_le by (simpl; lia). done.
Qed.

Lemma drop_last_one (s : bytes) : s ≠ [] → ∃ b, drop (length s - 1) s = [b].
Proof.
  intros Hne. destruct (exists_last Hne) as (l & b & ->). exists b.
  rewrite length_app. simpl. replace (length l + 1 - 1)%nat with (length l) by lia.
  by rewrite drop_app_length.
Qed.

Lemma LoadStr_serialize s rest :
  str_fits s = true → s ≠ [] →
  LoadStr (is_open (MakeSerialize_str s ++ rest)) = Ok (NStr s, is_open rest).
Proof.
  intros Hf Hne. unfold str_fits, STRING_MAX in Hf. unfold LoadStr, MakeSerialize_str.
  rewrite <- app_assoc, <- app_comm_cons, read_num_dec by (done || lia). cbn [from_option id].
  unfold STRING_MAX. rewrite (proj2 (Z.ltb_ge _ _)) by lia.
  cbn [get good is_eof is_fail is_open negb andb is_buf].
  rewrite copy_n_exact by done. cbn [mbind outcome_bind].
  destruct (drop_last_one s Hne) as [b ->]. done.
Qed.

Lemma MakeSerialize_str_head s : ∃ b r, MakeSerialize_str s = b :: r ∧ isdigit b = true.
Proof.
  unfold MakeSerialize_str.
  destruct (dec_spec (Z.of_nat (length s))) as (_ & F & Hne); [lia|].
  destruct (dec _) as [|b r]; [done|]. inversion F. eauto.
Qed.

Lemma peek_open b r : peek (is_open (b :: r)) = (Some b, is_open (b :: r)).
Proof. done. Qed.

Lemma isdigit_not_e b : isdigit b = true → Some b ≠ Some "e"%byte.
Proof. by intros H [= ->]. Qed.

(** ** The writer's output starts with a byte the reader dispatches on *)

Lemma MakeSerialize_head n :
  ∃ b r, MakeSerialize n = b :: r ∧ Some b ≠ Some "e"%byte.
Proof.
  destruct n as [z|s|l|d]; simpl; try (by eexists _, _).
  destruct (MakeSerialize_str_head s) as (b & r & -> & ?).
  exists b, r. auto using isdigit_not_e.
Qed.

Lemma length_MakeSerialize_pos n : (0 < length (MakeSerialize n))%nat.
Proof. destruct (MakeSerialize_head n) as (? & ? & -> & _). simpl. lia. Qed.

Lemma length_MakeSerialize_str_pos s : (0 < length (MakeSerialize_str s))%nat.
Proof. destruct (MakeSerialize_str_head s) as (? & ? & -> & _). simpl. lia. Qed.

(** ** The round trip *)

Lemma peek_step {A} b r (k : option byte → istream → outcome A) :
  (let '(c, s) := peek (is_open (b :: r)) in k c s) = k (Some b) (is_open (b :: r)).
Proof. done. Qed.

Lemma get_step {A} b r (k : option byte → istream → outcome A) :
  (let '(c, s) := get (is_open (b :: r)) in k c s) = k (Some b) (is_open r).
Proof. done. Qed.

Section Roundtrip.
Context `{Host}.

Lemma peeked_char_ascii b : byte.unsigned b < 128 → peeked_char (Some b) = byte.unsigned b.
Proof.
  intros Hb. pose proof (byte_range b). unfold peeked_char, s8, u8.
  destruct char_is_signed; rewrite Z.mod_small; lia.
Qed.

Lemma LoadNode_digit fuel b r :
  isdigit b = true → LoadNode (S fuel) (is_open (b :: r)) = LoadStr (is_open (b :: r)).
Proof.
  intros Hd. cbn [LoadNode]. rewrite peek_step.
  unfold isdigit in Hd. rewrite peeked_char_ascii by lia.
  unfold char_i, char_l, char_d, EOF.
  by repeat (rewrite (proj2 (Z.eqb_neq _ _)) by lia).
Qed.

Lemma LoadNumber_serialize z rest :
  - 2 ^ 63 ≤ z < 2 ^ 63 →
  LoadNumber (is_open (MakeSerialize (NInt z) ++ rest)) = Ok (NInt z, is_open rest).
Proof.
  intros Hz. unfold LoadNumber. cbn [MakeSerialize app]. rewrite get_step.
  rewrite <- app_assoc. cbn [app].
  by rewrite read_num_print by (first [lia | done]).
Qed.

Definition loads (n : Node) : Prop := ∀ fuel rest,
  (length (MakeSerialize n) ≤ fuel)%nat →
  LoadNode fuel (is_open (MakeSerialize n ++ rest)) = Ok (n, is_open rest).

(** The loop of [LoadArray] over the items of a list, whatever follows them. *)
Lemma LoadArray_loop_prefix l tail :
  Forall loads l → ∀ fuel arr,
  (length (concat (map MakeSerialize l)) < fuel)%nat →
  ∃ fuel', (0 < fuel')%nat ∧
  LoadArray_loop fuel arr (is_open (concat (map MakeSerialize l) ++ tail))
    = LoadArray_loop fuel' (arr ++ l) (is_open tail).
Proof.
  induction 1 as [|n l Hn _ IH]; intros fuel arr Hf.
  - exists fuel. split; [lia|]. by rewrite app_nil_r.
  - destruct fuel as [|fuel]; [lia|].
    cbn [map concat] in Hf. rewrite length_app in Hf.
    pose proof (length_MakeSerialize_pos n).
    specialize (Hn fuel (concat (map MakeSerialize l) ++ tail) ltac:(lia)).
    destruct (MakeSerialize_head n) as (b & r & Hser & Hb).
    destruct (IH fuel (arr ++ [n]) ltac:(lia)) as (fuel' & Hf' & E).
    exists fuel'. split; [done|].
    cbn [LoadArray_loop map concat]. rewrite <- app_assoc. rewrite Hser in *. cbn [app] in *.
    rewrite peek_step, decide_False, Hn by done. cbn [mbind outcome_bind].
    by rewrite E, <- app_assoc.
Qed.

Lemma LoadArray_loop_serialize l fuel arr rest :
  Forall loads l → (length (concat (map MakeSerialize l)) < fuel)%nat →
  LoadArray_loop fuel arr (is_open (concat (map MakeSerialize l) ++ "e"%byte :: rest))
    = Ok (arr ++ l, is_open ("e"%byte :: rest)).
Proof.
  intros Hl Hf.
  destruct (LoadArray_loop_prefix l ("e"%byte :: rest) Hl fuel arr Hf) as (fuel' & Hf' & ->).
  destruct fuel' as [|fuel']; [lia|]. cbn [LoadArray_loop].
  by rewrite peek_step, decide_True.
Qed.

Lemma LoadDict_loop_serialize d :
  Forall (fun p => loads p.2) d →
  forallb (fun '(k, v) => str_fits k && node_ok v) d = true →
  forallb (fun '(k, v) => str_nonempty k && no_empty_str v) d = true →
  ∀ fuel dict rest, keys_sorted (dict ++ d) = true →
  (length (concat (map (fun '(k, v) => MakeSerialize_str k ++ MakeSerialize v) d)) < fuel)%nat →
  LoadDict_loop fuel dict
    (is_open (concat (map (fun '(k, v) => MakeSerialize_str k ++ MakeSerialize v) d)
              ++ "e"%byte :: rest))
    = Ok (dict ++ d, is_open ("e"%byte :: rest)).
Proof.
  induction 1 as [|[k v] d Hv _ IH]; intros Hok Hne fuel dict rest Hs Hf;
    (destruct fuel as [|fuel]; [simpl in Hf; lia|]); cbn [LoadDict_loop map concat].
  - cbn [app]. rewrite peek_step, decide_True by done. by rewrite app_nil_r.
  - cbn [map concat forallb] in *. rewrite !length_app in Hf. simpl in Hv.
    pose proof (length_MakeSerialize_pos v). pose proof (length_MakeSerialize_str_pos k).
    apply andb_true_iff in Hok as [[Hk _]%andb_true_iff Hok].
    apply andb_true_iff in Hne as [[Hkn _]%andb_true_iff Hne].
    unfold str_nonempty in Hkn. rewrite negb_true_iff, bool_decide_eq_false in Hkn.
    rewrite <- !app_assoc.
    set (rest' := concat _ ++ "e"%byte :: rest).
    pose proof (LoadStr_serialize k (MakeSerialize v ++ rest') Hk Hkn) as HL.
    destruct (MakeSerialize_str_head k) as (b & r & Hser & Hb).
    rewrite Hser in *. cbn [app] in *.
    rewrite peek_step, decide_False by by apply isdigit_not_e.
    rewrite HL. cbn [mbind outcome_bind AsString]. rewrite Hv by lia.
    cbn [mbind outcome_bind]. rewrite emplace_append.
    + subst rest'. rewrite IH by (try rewrite <- app_assoc; done || lia).
      by rewrite <- app_assoc.
    + clear -Hs. induction dict as [|[k0 v0] dict IH]; [constructor|].
      rewrite <- app_comm_cons in Hs. apply keys_sorted_cons in Hs as [Hs Ha].
      constructor; [|by apply IH]. apply Forall_app in Ha as [_ Ha].
      by apply Forall_inv in Ha.
Qed.

Lemma loads_all n : node_ok n = true → no_empty_str n = true → loads n.
Proof.
  induction n as [z|s|l IH|d IH] using Node_ind_nested; intros Hok Hne fuel rest Hf;
    (destruct fuel as [|fuel]; [simpl in Hf; try lia;
      match goal with _ : context [MakeSerialize_str ?s] |- _ =>
        pose proof (length_MakeSerialize_str_pos s); lia end|]).
  - cbn [LoadNode MakeSerialize app]. rewrite peek_step, peeked_char_ascii by by vm_compute.
    change (LoadNumber (is_open (MakeSerialize (NInt z) ++ rest)) = Ok (NInt z, is_open rest)).
    apply LoadNumber_serialize. simpl in Hok. lia.
  - simpl in Hok, Hne. unfold str_nonempty in Hne.
    rewrite negb_true_iff, bool_decide_eq_false in Hne.
    pose proof (LoadStr_serialize s rest Hok Hne) as HL. cbn [MakeSerialize].
    destruct (MakeSerialize_str_head s) as (b & r & Hser & Hb). rewrite Hser in *.
    cbn [app] in *. by rewrite LoadNode_digit.
  - cbn [LoadNode MakeSerialize app]. rewrite peek_step, peeked_char_ascii by by vm_compute.
    change (LoadArray_with (LoadArray_loop fuel)
      (is_open ("l"%byte :: (concat (map MakeSerialize l) ++ ["e"%byte]) ++ rest))
      = Ok (NArray l, is_open rest)).
    unfold LoadArray_with. rewrite get_step, <- app_assoc. cbn [app].
    cbn [MakeSerialize length] in Hf. rewrite length_app in Hf. simpl in Hf.
    rewrite LoadArray_loop_serialize; [done| |lia].
    simpl in Hok, Hne. rewrite forallb_forall in Hok, Hne.
    rewrite List.Forall_forall in IH |- *. auto.
  - cbn [LoadNode MakeSerialize app]. rewrite peek_step, peeked_char_ascii by by vm_compute.
    set (body := concat _) in *.
    change (LoadDict_with (LoadDict_loop fuel)
      (is_open ("d"%byte :: (body ++ ["e"%byte]) ++ rest)) = Ok (NDict d, is_open rest)).
    unfold LoadDict_with. rewrite peek_step, decide_False, get_step, <- app_assoc by done.
    cbn [app].
    cbn [MakeSerialize length] in Hf. rewrite length_app in Hf. simpl in Hf, Hok, Hne.
    apply andb_true_iff in Hok as [Hs Hok]. subst body.
    rewrite (LoadDict_loop_serialize d); [done| |done|done|done|lia].
    rewrite forallb_forall in Hok, Hne. rewrite List.Forall_forall in IH |- *.
    intros [k v] Hn. specialize (Hok _ Hn). specialize (Hne _ Hn). simpl in *.
    rewrite andb_true_iff in Hok, Hne. apply (IH (k, v)); naive_solver.
Qed.
End Roundtrip.

(** ** Progress and fuel *)

(** Name the result of the [get] in [H]. *)
Ltac case_get H c s E :=
  match type of H with context [get ?x] => destruct (get x) as [c s] eqn:E end.

Lemma copy_n_left n s v s' : copy_n n s = Ok (v, s') → (left_in s' ≤ left_in s)%nat.
Proof.
  unfold copy_n. destruct (n =? 0); [by intros [= <- <-]|].
  destruct (_ <? _); [done|]. intros [= <- <-]. unfold left_in, good. simpl.
  destruct (_ && _); [|lia]. rewrite length_drop. lia.
Qed.

Lemma LoadStr_left s n s' : LoadStr s = Ok (n, s') → (left_in s' ≤ left_in s - 1)%nat.
Proof.
  unfold LoadStr. destruct (read_num false 64 s) as [o s1] eqn:E1.
  apply read_num_left in E1 as [E1 _].
  destruct (_ <? _); [done|]. destruct (get s1) as [c2 s2] eqn:E2.
  intros H. outcome_inv. apply copy_n_left in Hm.
  case_get H c4 s4 E4. outcome_inv.
  apply get_left in E2, E4. lia.
Qed.

(** On a stream with nothing left a string is empty. *)
Lemma LoadStr_exhausted s :
  left_in s = 0%nat → ∃ s', LoadStr s = Ok (NStr [], s') ∧ left_in s' = 0%nat.
Proof.
  intros Hs. destruct (LoadStr s) as [[n s']| | | |] eqn:E.
  all: assert (left_in s = 0%nat) as Hs2 by done.
  all: unfold LoadStr in E; destruct (read_num false 64 s) as [o s1] eqn:E1;
    pose proof (read_num_left _ _ _ _ _ E1) as [L1 ->%(fun f => f Hs)];
    cbn [from_option] in E; unfold STRING_MAX in E;
    rewrite (proj2 (Z.ltb_ge _ _)) in E by lia;
    destruct (get s1) as [c2 s2] eqn:E2; unfold copy_n in E;
    cbn [Z.eqb mbind outcome_bind] in E; destruct (get s2) as [c4 s4] eqn:E4; try done.
  injection E as <- <-. eexists. split; [done|]. apply get_left in E2, E4. lia.
Qed.

Lemma LoadNumber_left s n s' : LoadNumber s = Ok (n, s') → (left_in s' ≤ left_in s - 1)%nat.
Proof.
  unfold LoadNumber. destruct (get s) as [c1 s1] eqn:E1.
  destruct (read_num true 64 s1) as [o s2] eqn:E2. destruct (get s2) as [c3 s3] eqn:E3.
  intros H. outcome_inv. apply read_num_left in E2 as [E2 _]. apply get_left in E1, E3. lia.
Qed.

Section Fuel.
Context `{Host}.

Lemma left_all fuel :
  (∀ s n s', LoadNode fuel s = Ok (n, s') → (left_in s' ≤ left_in s - 1)%nat) ∧
  (∀ d s d' s', LoadDict_loop fuel d s = Ok (d', s') → (left_in s' ≤ left_in s)%nat) ∧
  (∀ l s l' s', LoadArray_loop fuel l s = Ok (l', s') → (left_in s' ≤ left_in s)%nat).
Proof.
  induction fuel as [|fuel (IHn & IHd & IHl)]; [split_and!; intros; simplify_eq|].
  split_and!.
  - intros s n s' E. cbn [LoadNode] in E. destruct (peek s) as [pc s1] eqn:P.
    assert (left_in s1 ≤ left_in s)%nat as L1
      by (apply peek_left in P as [(_ & ? & ?)|(? & ? & _ & -> & _)]; lia).
    destruct (_ =? char_i); [apply LoadNumber_left in E; lia|].
    destruct (_ =? char_l).
    { unfold LoadArray_with in E. destruct (get s1) as [c2 s2] eqn:G2. outcome_inv.
      case_get E c4 s4 G4. outcome_inv.
      apply IHl in Hm. apply get_left in G2, G4. lia. }
    destruct (_ || _); [|apply LoadStr_left in E; lia].
    unfold LoadDict_with in E. destruct (peek s1) as [pc' s2] eqn:P2.
    destruct (decide (pc' = None)) as [->|].
    { outcome_inv. apply peek_left in P2 as [(_ & ? & ?)|(? & ? & ? & _)]; [lia|done]. }
    apply peek_left in P2 as [(? & ? & ?)|(? & ? & _ & -> & _)]; [done|].
    destruct (get s1) as [c3 s3] eqn:G3. outcome_inv.
    case_get E c5 s5 G5. outcome_inv.
    apply IHd in Hm. apply get_left in G3, G5. lia.
  - intros d s d' s' E. cbn [LoadDict_loop] in E. destruct (peek s) as [pc s1] eqn:P.
    assert (left_in s1 ≤ left_in s)%nat as L1
      by (apply peek_left in P as [(_ & ? & ?)|(? & ? & _ & -> & _)]; lia).
    destruct (decide _); outcome_inv; [lia|].
    apply LoadStr_left in Hm. apply IHn in Hm1. apply IHd in E. lia.
  - intros l s l' s' E. cbn [LoadArray_loop] in E. destruct (peek s) as [pc s1] eqn:P.
    assert (left_in s1 ≤ left_in s)%nat as L1
      by (apply peek_left in P as [(_ & ? & ?)|(? & ? & _ & -> & _)]; lia).
    destruct (decide _); outcome_inv; [lia|]. apply IHn in Hm. apply IHl in E. lia.
Qed.

Lemma LoadNode_exhausted fuel s :
  left_in s = 0%nat →
  LoadNode fuel s = NoFuel ∨ ∃ n s', LoadNode fuel s = Ok (n, s') ∧ left_in s' = 0%nat.
Proof.
  intros Hs. destruct fuel as [|fuel]; [by left|]. right. cbn [LoadNode].
  destruct (peek s) as [pc s1] eqn:P.
  apply peek_left in P as [(-> & _ & L1)|(b & r & _ & _ & -> & ?)]; [|done].
  unfold peeked_char. destruct char_is_signed.
  - change (s8 (-1)) with (-1). cbn -[LoadDict_loop]. unfold LoadDict_with.
    destruct (peek s1) as [pc' s2] eqn:P2.
    apply peek_left in P2 as [(-> & _ & L2)|(b & r & _ & _ & -> & ?)]; [|done].
    rewrite decide_True by done. eauto.
  - change (u8 (-1)) with 255. cbn -[LoadStr].
    destruct (LoadStr_exhausted s1 L1) as (s' & -> & ?). eauto.
Qed.

(** Inside a container the reader never stops at the end of the input. *)
Lemma loops_exhausted fuel s :
  left_in s = 0%nat →
  (∀ d, LoadDict_loop fuel d s = NoFuel) ∧ (∀ l, LoadArray_loop fuel l s = NoFuel).
Proof.
  revert s. induction fuel as [|fuel IH]; intros s Hs; [done|].
  cbn [LoadDict_loop LoadArray_loop]. destruct (peek s) as [pc s1] eqn:P.
  apply peek_left in P as [(-> & _ & L1)|(b & r & _ & _ & -> & ?)]; [|done].
  destruct (LoadStr_exhausted s1 L1) as (s2 & HS & L2).
  split; intros ?; rewrite decide_False by done.
  - rewrite HS. cbn [mbind outcome_bind AsString].
    destruct (LoadNode_exhausted fuel s2 L2) as [->|(n & s' & -> & L3)]; [done|].
    cbn [mbind outcome_bind]. by apply IH.
  - destruct (LoadNode_exhausted fuel s1 L1) as [->|(n & s' & -> & L3)]; [done|].
    cbn [mbind outcome_bind]. by apply IH.
Qed.

Lemma LoadNode_exhausted_stable f f' s :
  left_in s = 0%nat → LoadNode (S f) s = LoadNode (S f') s.
Proof.
  intros L. cbn [LoadNode]. destruct (peek s) as [pc s1] eqn:P.
  apply peek_left in P as [(-> & _ & L1)|(b & r & _ & _ & _ & ?)]; [|lia].
  unfold peeked_char. destruct char_is_signed; [|done].
  change (s8 (-1)) with (-1). cbn -[LoadDict_loop]. unfold LoadDict_with.
  destruct (peek s1) as [pc' s2] eqn:P2.
  by apply peek_left in P2 as [(-> & _ & L2)|(b & r & _ & _ & _ & ?)]; [|lia].
Qed.

(** More fuel than input makes no difference. *)
Lemma fuel_stable fuel s fuel' :
  (fuel ≤ fuel')%nat →
  ((2 * left_in s < fuel)%nat → LoadNode fuel s = LoadNode fuel' s) ∧
  ((2 * left_in s + 1 < fuel)%nat →
    (∀ d, LoadDict_loop fuel d s = LoadDict_loop fuel' d s) ∧
    (∀ l, LoadArray_loop fuel l s = LoadArray_loop fuel' l s)).
Proof.
  revert s fuel'. induction fuel as [|fuel IH]; intros s fuel' Hf; [lia|].
  destruct fuel' as [|fuel']; [lia|].
  destruct (Nat.eq_dec (left_in s) 0%nat) as [L0|L0].
  { split; [|intros _; split; intros ?;
      by rewrite ?(proj1 (loops_exhausted _ _ L0)), ?(proj2 (loops_exhausted _ _ L0))].
    intros _. by apply LoadNode_exhausted_stable. }
  destruct (peek s) as [pc s1] eqn:P.
  destruct (peek_left _ _ _ P) as [(_ & ? & _)|(b & r & -> & -> & -> & L)]; [lia|].
  rewrite L. clear L0 P. assert (left_in (is_open r) = length r) as Lr by done.
  cbn [LoadNode LoadDict_loop LoadArray_loop]. rewrite !peek_step.
  split; intros Hs; [|split; intros acc; rewrite !peek_step; (destruct (decide (Some b = Some "e"%byte)) as [|_]; [done|])].
  - destruct (_ =? char_i); [done|]. destruct (IH (is_open r) fuel' ltac:(lia)) as [_ IHr].
    destruct (IHr ltac:(lia)) as [IHd IHl].
    unfold LoadArray_with, LoadDict_with. rewrite !peek_step, !get_step.
    by rewrite IHd, IHl.
  - destruct (LoadStr _) as [[kn s2]| | | |] eqn:E2; try done.
    apply LoadStr_left in E2. cbn [mbind outcome_bind].
    destruct (AsString kn); try done. cbn [mbind outcome_bind].
    rewrite (proj1 (IH s2 fuel' ltac:(lia))) by lia.
    destruct (LoadNode fuel' s2) as [[v s3]| | | |] eqn:E3; try done.
    apply (left_all fuel') in E3. cbn [mbind outcome_bind]. apply IH; lia.
  - rewrite (proj1 (IH _ fuel' ltac:(lia))) by (rewrite L; lia).
    destruct (LoadNode fuel' _) as [[v s3]| | | |] eqn:E3; try done.
    apply (left_all fuel') in E3. cbn [mbind outcome_bind]. apply IH; lia.
Qed.
End Fuel.

Section Results.
Context `{Host}.

(** Less fuel can only turn a result into [NoFuel]. *)
Lemma fuel_mono fuel fuel' :
  (fuel ≤ fuel')%nat →
  (∀ s, LoadNode fuel s ≠ NoFuel → LoadNode fuel' s = LoadNode fuel s) ∧
  (∀ d s, LoadDict_loop fuel d s ≠ NoFuel → LoadDict_loop fuel' d s = LoadDict_loop fuel d s) ∧
  (∀ l s, LoadArray_loop fuel l s ≠ NoFuel → LoadArray_loop fuel' l s = LoadArray_loop fuel l s).
Proof.
  revert fuel'. induction fuel as [|fuel IH]; intros fuel' Hf; [done|].
  destruct fuel' as [|fuel']; [lia|]. destruct (IH fuel' ltac:(lia)) as (IHn & IHd & IHl).
  split_and!.
  - intros s. cbn [LoadNode]. destruct (peek s) as [pc s1].
    destruct (_ =? char_i); [done|]. destruct (_ =? char_l).
    { unfold LoadArray_with. destruct (get s1) as [c s2]. intros Hne. rewrite IHl; [done|].
      intros E. by rewrite E in Hne. }
    destruct (_ || _); [|done]. unfold LoadDict_with. destruct (peek s1) as [c s2].
    destruct (decide _); [done|]. destruct (get s2) as [c' s3]. intros Hne.
    rewrite IHd; [done|]. intros E. by rewrite E in Hne.
  - intros d s. cbn [LoadDict_loop]. destruct (peek s) as [pc s1].
    destruct (decide _); [done|]. destruct (LoadStr s1) as [[kn s2]| | | |]; try done.
    cbn [mbind outcome_bind]. destruct (AsString kn) as [key| | | |]; try done.
    cbn [mbind outcome_bind]. intros Hne.
    rewrite IHn by (intros E; by rewrite E in Hne).
    destruct (LoadNode fuel s2) as [[v s3]| | | |]; try done. cbn [mbind outcome_bind] in *. auto.
  - intros l s. cbn [LoadArray_loop]. destruct (peek s) as [pc s1].
    destruct (decide _); [done|]. intros Hne.
    rewrite IHn by (intros E; by rewrite E in Hne).
    destruct (LoadNode fuel s1) as [[v s3]| | | |]; try done. cbn [mbind outcome_bind] in *. auto.
Qed.

(** A result that is [NoFuel] for all large fuels is so for every fuel. *)
Lemma LoadNode_diverges s :
  (∀ fuel, (2 * length (is_buf s) + 2 ≤ fuel)%nat → LoadNode fuel s = NoFuel) →
  ∀ fuel, LoadNode fuel s = NoFuel.
Proof.
  intros Hbig fuel. set (F := (fuel + 2 * length (is_buf s) + 2)%nat).
  destruct (LoadNode fuel s) eqn:E; try done;
    exfalso; pose proof (Hbig F ltac:(lia)) as HF;
    rewrite (proj1 (fuel_mono fuel F ltac:(lia)) s) in HF; congruence.
Qed.

Lemma LoadArray_truncated l tail :
  Forall loads l → (∀ fuel arr, LoadArray_loop fuel arr (is_open tail) = NoFuel) →
  ∀ fuel, LoadNode fuel (is_open ("l"%byte :: concat (map MakeSerialize l) ++ tail)) = NoFuel.
Proof.
  intros Hl Ht. apply LoadNode_diverges. intros [|fuel] Hf; [done|].
  cbn [LoadNode]. rewrite peek_step, peeked_char_ascii by by vm_compute.
  change (LoadArray_with (LoadArray_loop fuel)
    (is_open ("l"%byte :: concat (map MakeSerialize l) ++ tail)) = NoFuel).
  unfold LoadArray_with. rewrite get_step.
  cbn [is_buf is_open length] in Hf. rewrite length_app in Hf.
  destruct (LoadArray_loop_prefix l tail Hl fuel [] ltac:(lia)) as (fuel' & _ & ->).
  by rewrite Ht.
Qed.
End Results.

(** ** Properties *)

(** C1: writing a document and reading it back gives the document and leaves
    exactly what followed it on the stream, for every document whose numbers
    and strings fit their types and that holds no empty string; as much fuel
    as there are bytes is enough. *)
Theorem bencode_roundtrip `{Host} n rest fuel :
  node_ok n = true → no_empty_str n = true → (length (MakeSerialize n) ≤ fuel)%nat →
  LoadNode fuel (is_open (MakeSerialize n ++ rest)) = Ok (n, is_open rest).
Proof. intros Hok Hne Hf. by apply loads_all. Qed.

Lemma bencode_roundtrip_witness :
  let n := NDict [(str "a", NInt (-42)); (str "b", NArray [NStr (str "x"); NInt 0])] in
  LoadNode (H:=x86_64) 30 (is_open (MakeSerialize n ++ str "zz")) = Ok (n, is_open (str "zz")).
Proof.
  intros n. apply (bencode_roundtrip (H:=x86_64) n (str "zz") 30);
    [vm_compute; reflexivity|vm_compute; reflexivity|vm_compute; lia].
Defined.

(** the reader's running time is decided by the input: with more than twice
    as much fuel as bytes, more fuel changes nothing, so a run that has not
    finished by then never finishes. *)
Theorem LoadNode_fuel_enough `{Host} input fuel fuel' :
  (2 * length input < fuel)%nat → (fuel ≤ fuel')%nat →
  LoadNode fuel (is_open input) = LoadNode fuel' (is_open input).
Proof. intros Hf Hff. by apply fuel_stable. Qed.

Lemma LoadNode_fuel_enough_witness :
  LoadNode (H:=x86_64) 8 (is_open (str "i5e")) = LoadNode (H:=x86_64) 100 (is_open (str "i5e")).
Proof. apply (LoadNode_fuel_enough (H:=x86_64) (str "i5e") 8 100); vm_compute; lia. Defined.

(** C38: a list whose closing [e] is missing (a document cut off between two
    items) makes the reader loop for ever, whatever the items are. *)
Theorem LoadArray_truncated_diverges `{Host} l fuel :
  forallb node_ok l = true → forallb no_empty_str l = true →
  LoadNode fuel (is_open ("l"%byte :: concat (map MakeSerialize l))) = NoFuel.
Proof.
  intros Hok Hne. rewrite <- (app_nil_r (concat _)). apply LoadArray_truncated.
  - rewrite forallb_forall in Hok, Hne. rewrite List.Forall_forall. auto using loads_all.
  - intros fuel' arr. by apply loops_exhausted.
Qed.

Lemma LoadArray_truncated_diverges_witness :
  LoadNode (H:=x86_64) 1000 (is_open (str "li1ei2e")) = NoFuel.
Proof.
  apply (LoadArray_truncated_diverges (H:=x86_64) [NInt 1; NInt 2] 1000); reflexivity.
Defined.

(** The reader takes the byte after an empty string for part of it, so it
    never finishes on what the writer produces for a list that ends in one. *)
Theorem empty_string_not_readable `{Host} l fuel :
  forallb node_ok l = true → forallb no_empty_str l = true →
  LoadNode fuel (is_open (MakeSerialize (NArray (l ++ [NStr []])))) = NoFuel.
Proof.
  intros Hok Hne.
  assert (MakeSerialize (NArray (l ++ [NStr []]))
    = "l"%byte :: concat (map MakeSerialize l) ++ str "0:e") as ->.
  { cbn [MakeSerialize]. rewrite map_app, concat_app, <- app_assoc. done. }
  apply LoadArray_truncated.
  - rewrite forallb_forall in Hok, Hne. rewrite List.Forall_forall. auto using loads_all.
  - intros [|fuel'] arr; [done|].
    change (LoadArray_loop (S fuel') arr (is_open (str "0:e")))
      with ('(v, s) ← LoadNode fuel' (is_open (str "0:e"));
            LoadArray_loop fuel' (arr ++ [v]) s).
    destruct fuel' as [|fuel']; [done|].
    change (str "0:e") with ("0"%byte :: str ":e").
    rewrite LoadNode_digit by done. by apply loops_exhausted.
Qed.

Lemma empty_string_not_readable_witness :
  LoadNode (H:=x86_64) 1000 (is_open (MakeSerialize (NArray [NInt 1; NStr []]))) = NoFuel.
Proof. apply (empty_string_not_readable (H:=x86_64) [NInt 1] 1000); reflexivity. Defined.
