(* ===== verification/BencodeGrammar.v ===== *)
(** * The language of the bencode reader

    What the reader of Bencode.v takes for a document, as a grammar that does not
    mention streams, flags or fuel: bencode with spaces and signs where [>>] takes
    them, any byte that is no digit for a colon or the [e] of a number, keys in
    any order, of which the first counts, and a byte too many after an empty
    string. *)

From Stdlib Require Import ZArith Lia Strings.Byte.
From coqutil Require Import Byte.
From S2P Require Import Prelude Bytes Streams Bencode BencodeFacts.

(** ** The grammar *)

Definition sign_text (sg : option bool) : bytes :=
  match sg with None => [] | Some true => ["-"%byte] | Some false => ["+"%byte] end.

(** A decimal number as [>>] reads it into a [long long] ([sgn]) or a [size_t],
    which takes a minus sign too; the byte behind it is there. *)
Inductive numeral (sgn : bool) : bytes → Z → bytes → Prop :=
  | Numeral ws sg ds b rest :
      Forall (fun c => isspace c = true) ws → ds ≠ [] → Forall (fun c => isdigit c = true) ds → isdigit b = false →
      (let z := if bool_decide (sg = Some true) then - digits_from 0 ds else digits_from 0 ds in
       if sgn then - 2 ^ 63 ≤ z < 2 ^ 63 else digits_from 0 ds < 2 ^ 64) →
      numeral sgn (ws ++ sign_text sg ++ ds ++ b :: rest)
        (let z := if bool_decide (sg = Some true) then - digits_from 0 ds else digits_from 0 ds in
         if sgn then z else z mod 2 ^ 64)
        (b :: rest).

(** A string: its length, a byte, the bytes. *)
Inductive text_of : bytes → bytes → bytes → Prop :=
  | text_some t c s rest :
      numeral false t (Z.of_nat (length s)) (c :: s ++ rest) → s ≠ [] → Z.of_nat (length s) ≤ STRING_MAX →
      text_of t s rest
  | text_empty t c b rest : numeral false t 0 (c :: b :: rest) → text_of t [] rest.

Section Grammar.
Context `{Host}.

(** The first byte of a dict: [d], and where characters are signed the byte that
    is taken for the end of the file. *)
Definition starts_dict (b : byte) : Prop := b = "d"%byte ∨ peeked_char (Some b) = EOF.

Inductive reads : bytes → Node → bytes → Prop :=
  | reads_int t z c rest : numeral true t z (c :: rest) → reads ("i"%byte :: t) (NInt z) rest
  | reads_array t l rest : items t l rest → reads ("l"%byte :: t) (NArray l) rest
  | reads_dict b t es d rest : starts_dict b → entries t es rest → keys_sorted d = true →
      (∀ k, find k d = find k es) → reads (b :: t) (NDict d) rest
  | reads_str b t s rest : b ≠ "i"%byte → b ≠ "l"%byte → ¬ starts_dict b → text_of (b :: t) s rest →
      reads (b :: t) (NStr s) rest
with items : bytes → list Node → bytes → Prop :=
  | items_end rest : items ("e"%byte :: rest) [] rest
  | items_more b t n u l rest : b ≠ "e"%byte → reads (b :: t) n u → items u l rest → items (b :: t) (n :: l) rest
with entries : bytes → list (bytes * Node) → bytes → Prop :=
  | entries_end rest : entries ("e"%byte :: rest) [] rest
  | entries_more b t k u v u' es rest : b ≠ "e"%byte → text_of (b :: t) k u → reads u v u' → entries u' es rest →
      entries (b :: t) ((k, v) :: es) rest.
End Grammar.

Scheme reads_min := Minimality for reads Sort Prop
  with items_min := Minimality for items Sort Prop
  with entries_min := Minimality for entries Sort Prop.
Combined Scheme reads_all from reads_min, items_min, entries_min.

(** ** Streams that are good *)

Lemma good_is_open s : good s = true → s = is_open (is_buf s).
Proof. by destruct s as [b [] []]. Qed.

Lemma get_good s c s' : get s = (c, s') → good s' = true → ∃ b r, s = is_open (b :: r) ∧ c = Some b ∧ s' = is_open r.
Proof.
  unfold get. destruct (good s) eqn:G; [|intros [= _ <-]; unfold good; cbn; by rewrite andb_false_r].
  destruct (is_buf s) as [|b r] eqn:Eb; intros [= <- <-]; [done|]. intros _. exists b, r.
  split; [|done]. by rewrite (good_is_open s G), Eb.
Qed.

Lemma peek_good s c s' : peek s = (c, s') → good s' = true → ∃ b r, s = is_open (b :: r) ∧ c = Some b ∧ s' = s.
Proof.
  unfold peek. destruct (good s) eqn:G; [|intros [= _ <-]; unfold good; cbn; by rewrite andb_false_r].
  destruct (is_buf s) as [|b r] eqn:Eb; intros [= <- <-]; [done|]. intros _. exists b, r.
  split; [|done]. by rewrite (good_is_open s G), Eb.
Qed.

(** ** Numbers *)

Lemma skip_ws_split l : ∃ ws, l = ws ++ skip_ws l ∧ Forall (fun c => isspace c = true) ws ∧
  ∀ b r, skip_ws l = b :: r → isspace b = false.
Proof.
  induction l as [|b l (ws & E & Hws & Hb)]; [exists []; by split_and!|]. cbn [skip_ws].
  destruct (isspace b) eqn:Es; [|exists []; split_and!; [done|constructor|by intros ? ? [= <- <-]]].
  exists (b :: ws). cbn. split_and!; [by rewrite <- E|by constructor|done].
Qed.

Lemma skip_ws_app ws b r : Forall (fun c => isspace c = true) ws → isspace b = false → skip_ws (ws ++ b :: r) = b :: r.
Proof. induction 1 as [|c ws Hc _ IH]; intros Hb; cbn; [by rewrite Hb|]. rewrite Hc. by apply IH. Qed.

Lemma take_sign_split l neg r : take_sign l = (neg, r) → ∃ sg, l = sign_text sg ++ r ∧ neg = bool_decide (sg = Some true).
Proof.
  destruct l as [|b l]; cbn [take_sign]; [intros [= <- <-]; by exists None|].
  destruct (decide (b = "-"%byte)) as [->|]; [intros [= <- <-]; by exists (Some true)|].
  destruct (decide (b = "+"%byte)) as [->|]; intros [= <- <-]; [by exists (Some false)|by exists None].
Qed.

Lemma span_digits_split l ds rest : span_digits l = (ds, rest) → l = ds ++ rest ∧
  Forall (fun c => isdigit c = true) ds ∧ ∀ b r, rest = b :: r → isdigit b = false.
Proof.
  revert ds rest. induction l as [|b l IH]; intros ds rest; cbn [span_digits]; [by intros [= <- <-]|].
  destruct (isdigit b) eqn:Eb; [|intros [= <- <-]; split_and!; [done|constructor|by intros ? ? [= <- <-]]].
  destruct (span_digits l) as [ds' r'] eqn:E. intros [= <- <-]. destruct (IH _ _ eq_refl) as (-> & Hd & Hb).
  split_and!; [done|by constructor|done].
Qed.

(** The value [num_get] stores when it does not fail. *)
Lemma num_value_spec (sgn : bool) (neg : bool) ds v :
  0 ≤ digits_from 0 ds →
  num_value sgn 64 neg ds = (v, false) ↔
  ds ≠ [] ∧ (let z := if neg then - digits_from 0 ds else digits_from 0 ds in
             if sgn then - 2 ^ 63 ≤ z < 2 ^ 63 else digits_from 0 ds < 2 ^ 64) ∧
  v = (let z := if neg then - digits_from 0 ds else digits_from 0 ds in if sgn then z else z mod 2 ^ 64).
Proof.
  intros Hd. unfold num_value. destruct (decide (ds = [])) as [->|Hne]; [split; [done|by intros [? _]]|].
  change (64 - 1) with 63. generalize dependent (digits_from 0 ds). intros mag Hd. cbv zeta.
  destruct sgn, neg;
    repeat match goal with |- context [?a <? ?b] => destruct (Z.ltb_spec a b)
      | |- context [?a <=? ?b] => destruct (Z.leb_spec a b) end;
    (split; [intros [= <-]; (split; [done|split; [lia|]])|intros (_ & Hr & ->)]); try lia; try done;
    by rewrite Z.mod_small by lia.
Qed.

Lemma read_num_good sgn s o s' :
  read_num sgn 64 s = (o, s') → good s' = true →
  ∃ t v rest, s = is_open t ∧ o = Some v ∧ s' = is_open rest ∧ numeral sgn t v rest.
Proof.
  unfold read_num, sentry. destruct (good s) eqn:G; [|intros [= _ <-]; unfold good; cbn; by rewrite andb_false_r].
  destruct (skip_ws_split (is_buf s)) as (ws & Et & Hws & _).
  destruct (skip_ws (is_buf s)) as [|b0 r0] eqn:Ew; [by intros [= _ <-]|]. cbn [is_buf is_open].
  destruct (take_sign (b0 :: r0)) as [neg r] eqn:T. destruct (span_digits r) as [ds rest] eqn:Es.
  destruct (num_value sgn 64 neg ds) as [v fl] eqn:N. intros [= <- <-]. unfold good. cbn [is_eof is_fail].
  apply take_sign_split in T as (sg & T & ->). destruct (span_digits_split _ _ _ Es) as (-> & Hds & Hb).
  destruct rest as [|b rest]; [done|]. rewrite bool_decide_false by done. destruct fl; [done|]. intros _.
  apply num_value_spec in N as (Hne & Hr & ->); [|by apply digits_from_nonneg].
  eexists (is_buf s), _, _. split; [by apply good_is_open|]. split; [done|]. split; [done|].
  rewrite Et, T. econstructor; try done. by eapply Hb.
Qed.

Lemma sign_not_space sg ds r : ds ≠ [] → Forall (fun c => isdigit c = true) ds →
  ∃ b u, sign_text sg ++ ds ++ r = b :: u ∧ isspace b = false.
Proof.
  intros Hne Hds. destruct sg as [[]|]; [by eexists _, _|by eexists _, _|]. destruct ds as [|d ds]; [done|].
  apply list.Forall_cons in Hds as [Hd _]. eexists _, _. split; [done|]. by apply isdigit_not_space.
Qed.

Lemma take_sign_app sg ds r : ds ≠ [] → Forall (fun c => isdigit c = true) ds →
  take_sign (sign_text sg ++ ds ++ r) = (bool_decide (sg = Some true), ds ++ r).
Proof.
  intros Hne Hds. destruct sg as [[]|]; [done|done|]. destruct ds as [|d ds]; [done|].
  apply list.Forall_cons in Hds as [Hd _]. destruct (isdigit_not_sign d Hd) as [??]. cbn.
  by do 2 (rewrite decide_False by done).
Qed.

Lemma read_num_numeral sgn t v rest :
  numeral sgn t v rest → read_num sgn 64 (is_open t) = (Some v, is_open rest).
Proof.
  intros [ws sg ds b r Hws Hne Hds Hb Hr]. unfold read_num, sentry. rewrite good_open. cbn [is_buf is_open].
  destruct (sign_not_space sg ds (b :: r) Hne Hds) as (c & u & E & Hc).
  rewrite E, skip_ws_app by done. cbn [is_buf is_open]. rewrite <- E, take_sign_app by done.
  rewrite span_digits_app by (try done; by intros ? ? [= <- <-]).
  rewrite (proj2 (num_value_spec sgn _ ds _ ltac:(by apply digits_from_nonneg))) by (split_and!; [done|exact Hr|reflexivity]).
  by rewrite (bool_decide_false (b :: r = [])) by done.
Qed.

(** ** Strings and numbers of a document *)

Lemma copy_n_good n s str s' : copy_n n s = Ok (str, s') → good s' = good s.
Proof. unfold copy_n. destruct (_ =? 0); [by intros [= _ <-]|]. destruct (_ <? _); [done|]. by intros [= _ <-]. Qed.

Lemma numeral_size t v rest : numeral false t v rest → 0 ≤ v < 2 ^ 64.
Proof. intros Hn. apply read_num_numeral in Hn. by apply read_num_range in Hn. Qed.

Lemma LoadStr_good s n s' :
  LoadStr s = Ok (n, s') → good s' = true →
  ∃ t k rest, s = is_open t ∧ n = NStr k ∧ s' = is_open rest ∧ text_of t k rest.
Proof.
  unfold LoadStr. destruct (read_num false 64 s) as [o s1] eqn:E1. cbv zeta.
  destruct (STRING_MAX <? default 0 o) eqn:Emax; [done|]. destruct (get s1) as [c2 s2] eqn:E2.
  intros E Hg. apply bind_Ok_inv in E as ([k s3] & E3 & E). destruct (get s3) as [c4 s4] eqn:E4. injection E as <- <-.
  destruct (get_good _ _ _ E4 Hg) as (b4 & r4 & -> & -> & ->). pose proof (copy_n_good _ _ _ _ E3) as Hg2.
  destruct (get_good _ _ _ E2 (eq_sym Hg2)) as (b2 & r2 & -> & -> & ->).
  destruct (read_num_good _ _ _ _ E1 (good_open _)) as (t & v & rest & -> & -> & [= <-] & Hnum).
  pose proof (numeral_size _ _ _ Hnum) as Hv. cbn [default from_option id] in *. apply Z.ltb_ge in Emax.
  exists t, k, r4. split; [done|]. split; [done|]. split; [done|]. unfold copy_n in E3.
  destruct (Z.eqb_spec v 0) as [->|Hv0].
  - injection E3 as <- ->. by apply text_empty in Hnum.
  - cbn [is_buf is_open is_eof is_fail] in E3. destruct (Z.ltb_spec (Z.of_nat (length r2)) v) as [|Hlen]; [done|].
    injection E3 as <- Er4. assert (length (take (Z.to_nat v) r2) = Z.to_nat v) as Hl by (rewrite length_take; lia).
    apply (text_some _ b2).
    + assert (drop (Z.to_nat v) r2 = r4) as Edrop.
      { replace (Z.to_nat v) with (Z.to_nat v - 1 + 1)%nat by lia. by rewrite <- drop_drop, Er4. }
      rewrite Hl, Z2Nat.id, <- Edrop, take_drop by lia. exact Hnum.
    + intros E. rewrite E in Hl. cbn in Hl. lia.
    + lia.
Qed.

Lemma LoadStr_text t k rest : text_of t k rest → LoadStr (is_open t) = Ok (NStr k, is_open rest).
Proof.
  intros [t' c s r Hn Hne Hmax|t' c b r Hn]; unfold LoadStr; rewrite (read_num_numeral _ _ _ _ Hn); cbv zeta;
    cbn [default from_option id].
  - rewrite (proj2 (Z.ltb_ge _ _)) by done. rewrite get_step, copy_n_exact by done. cbn [mbind outcome_bind].
    destruct (drop_last_one s Hne) as [b ->]. done.
  - by rewrite (proj2 (Z.ltb_ge _ _)) by done.
Qed.

Lemma LoadNumber_good s n s' :
  LoadNumber s = Ok (n, s') → good s' = true →
  ∃ b t z c rest, s = is_open (b :: t) ∧ n = NInt z ∧ s' = is_open rest ∧ numeral true t z (c :: rest).
Proof.
  unfold LoadNumber. destruct (get s) as [c1 s1] eqn:E1. destruct (read_num true 64 s1) as [o s2] eqn:E2.
  destruct (get s2) as [c3 s3] eqn:E3. intros E Hg. apply bind_Ok_inv in E as (z & Ez & [= <- <-]).
  destruct (get_good _ _ _ E3 Hg) as (c & rest & -> & -> & ->).
  destruct (read_num_good _ _ _ _ E2 (good_open _)) as (t & v & rest' & -> & -> & [= <-] & Hn). injection Ez as <-.
  destruct (get_good _ _ _ E1 (good_open _)) as (b & r & -> & _ & [= <-]). by exists b, t, v, c, rest.
Qed.

Lemma LoadNumber_numeral b t z c rest :
  numeral true t z (c :: rest) → LoadNumber (is_open (b :: t)) = Ok (NInt z, is_open rest).
Proof. intros Hn. unfold LoadNumber. rewrite get_step, (read_num_numeral _ _ _ _ Hn). done. Qed.

(** ** Dicts *)

Definition add_entries (d es : list (bytes * Node)) : list (bytes * Node) :=
  foldl (fun d '(k, v) => emplace k v d) d es.

Lemma add_entries_sorted d es : keys_sorted d = true → keys_sorted (add_entries d es) = true.
Proof. revert d. induction es as [|[k v] es IH]; intros d Hd; [done|]. apply IH. by apply emplace_sorted. Qed.

(** The first value of a key counts. *)
Lemma find_add_entries d es k :
  keys_sorted d = true → find k (add_entries d es) = match find k d with Some v => Some v | None => find k es end.
Proof.
  revert d. induction es as [|[k' v] es IH]; intros d Hd; cbn [add_entries foldl find]; [by destruct (find k d)|].
  change (foldl _ ?d es) with (add_entries d es). rewrite IH by by apply emplace_sorted. rewrite find_emplace by done.
  destruct (decide (k = k')) as [->|]; [by destruct (find k' d)|done].
Qed.

(** A map is its lookups. *)
Lemma sorted_ext (d1 d2 : list (bytes * Node)) :
  keys_sorted d1 = true → keys_sorted d2 = true → (∀ k, find k d1 = find k d2) → d1 = d2.
Proof.
  revert d2. induction d1 as [|[k1 v1] d1 IH]; intros [|[k2 v2] d2] H1 H2 Hf; [done|..].
  - specialize (Hf k2). cbn in Hf. by rewrite decide_True in Hf.
  - specialize (Hf k1). cbn in Hf. by rewrite decide_True in Hf.
  - apply keys_sorted_cons in H1 as [H1 Ha1], H2 as [H2 Ha2].
    assert (∀ k k' v v' (d d' : list (bytes * Node)), bytes_ltb k k' = true → keys_above k' d' →
      find k ((k, v) :: d) ≠ find k ((k', v') :: d')) as Hlt.
    { intros k k' v v' d d' Hk Ha. cbn. rewrite decide_True by done.
      rewrite decide_False, (find_above k k' d' Ha) by (auto with cpp). done. }
    destruct (bytes_ltb k1 k2) eqn:E12; [by destruct (Hlt k1 k2 v1 v2 d1 d2 E12 Ha2)|].
    destruct (bytes_ltb k2 k1) eqn:E21; [by destruct (Hlt k2 k1 v2 v1 d2 d1 E21 Ha1); rewrite Hf|].
    rewrite <- (bytes_ltb_total _ _ E12 E21) in *. pose proof (Hf k1) as Hv. cbn in Hv. rewrite !decide_True in Hv by done.
    injection Hv as ->. f_equal. apply IH; [done|done|]. intros k. specialize (Hf k). cbn in Hf.
    destruct (decide (k = k1)) as [->|]; [|done]. by rewrite !(find_above _ k1) by auto.
Qed.

Lemma entries_dict es d : keys_sorted d = true → (∀ k, find k d = find k es) → add_entries [] es = d.
Proof.
  intros Hs Hf. apply sorted_ext; [by apply add_entries_sorted|done|]. intros k. rewrite find_add_entries by done. by rewrite Hf.
Qed.

(** ** What the reader accepts is in the grammar *)

Section Reader.
Context `{Host}.

Lemma peeked_char_is (b : byte) (c : Z) : 0 ≤ c < 128 → (peeked_char (Some b) =? c) = (byte.unsigned b =? c).
Proof.
  intros Hc. pose proof (byte_range b). unfold peeked_char, s8, u8. destruct char_is_signed.
  - destruct (Z.lt_ge_cases (byte.unsigned b) 128).
    + rewrite (Z.mod_small (byte.unsigned b + 128)) by lia. f_equal. lia.
    + rewrite <- (Z.mod_add _ (-1)) by lia. rewrite Z.mod_small by lia. lia.
  - by rewrite Z.mod_small by lia.
Qed.

Lemma unsigned_is (b c : byte) : (byte.unsigned b =? byte.unsigned c) = bool_decide (b = c).
Proof.
  apply Bool.eq_iff_eq_true. rewrite Z.eqb_eq, bool_decide_eq_true. split; [apply byte.unsigned_inj|by intros ->].
Qed.

(** The branch for a first byte. *)
Lemma LoadNode_byte fuel b t :
  LoadNode (S fuel) (is_open (b :: t))
  = if bool_decide (b = "i"%byte) then LoadNumber (is_open (b :: t))
    else if bool_decide (b = "l"%byte) then LoadArray fuel (is_open (b :: t))
    else if bool_decide (starts_dict b) then LoadDict fuel (is_open (b :: t))
    else LoadStr (is_open (b :: t)).
Proof.
  cbn [LoadNode]. rewrite peek_step. unfold char_i, char_l, char_d. rewrite !peeked_char_is by lia.
  change 105 with (byte.unsigned "i"). change 108 with (byte.unsigned "l"). change 100 with (byte.unsigned "d").
  rewrite !unsigned_is. change (if char_is_signed then _ else _) with (peeked_char (Some b)).
  assert (bool_decide (b = "d"%byte) || (peeked_char (Some b) =? EOF) = bool_decide (starts_dict b)) as ->; [|done].
  apply Bool.eq_iff_eq_true. rewrite orb_true_iff, Z.eqb_eq, !bool_decide_eq_true. done.
Qed.

(** What a loop that ends with a good stream was given, as the reader of the
    items takes it. *)
Definition dict_reads (loop : list (bytes * Node) → istream → outcome (list (bytes * Node) * istream)) : Prop :=
  ∀ d s d' s', loop d s = Ok (d', s') → good s' = true →
    ∃ t rest es, s = is_open t ∧ s' = is_open ("e"%byte :: rest) ∧ entries t es rest ∧ d' = add_entries d es.
Definition array_reads (loop : list Node → istream → outcome (list Node * istream)) : Prop :=
  ∀ l s l' s', loop l s = Ok (l', s') → good s' = true →
    ∃ t rest ns, s = is_open t ∧ s' = is_open ("e"%byte :: rest) ∧ items t ns rest ∧ l' = l ++ ns.

Lemma LoadArray_with_reads loop s n s' :
  array_reads loop → LoadArray_with loop s = Ok (n, s') → good s' = true →
  ∃ b t l rest, s = is_open (b :: t) ∧ n = NArray l ∧ s' = is_open rest ∧ items t l rest.
Proof.
  intros Hl. unfold LoadArray_with. destruct (get s) as [c1 s1] eqn:E1. intros E Hg.
  apply bind_Ok_inv in E as ([l s2] & E2 & E). destruct (get s2) as [c3 s3] eqn:E3. injection E as <- <-.
  destruct (get_good _ _ _ E3 Hg) as (e & rest & -> & _ & ->).
  destruct (Hl _ _ _ _ E2 (good_open _)) as (t & rest' & ns & -> & [= -> ->] & Hi & ->).
  destruct (get_good _ _ _ E1 (good_open _)) as (b & r & -> & _ & [= <-]). by exists b, t, ns, rest'.
Qed.

Lemma LoadDict_with_reads loop s n s' :
  dict_reads loop → LoadDict_with loop s = Ok (n, s') → good s' = true →
  ∃ b t es rest, s = is_open (b :: t) ∧ n = NDict (add_entries [] es) ∧ s' = is_open rest ∧ entries t es rest.
Proof.
  intros Hl. unfold LoadDict_with. destruct (peek s) as [c0 s0] eqn:E0. intros E Hg.
  destruct (decide (c0 = None)) as [->|_]; [injection E as _ <-; by destruct (peek_good _ _ _ E0 Hg) as (? & ? & _ & ? & _)|].
  destruct (get s0) as [c1 s1] eqn:E1.
  apply bind_Ok_inv in E as ([d s2] & E2 & E). destruct (get s2) as [c3 s3] eqn:E3. injection E as <- <-.
  destruct (get_good _ _ _ E3 Hg) as (e & rest & -> & _ & ->).
  destruct (Hl _ _ _ _ E2 (good_open _)) as (t & rest' & es & -> & [= -> ->] & Hi & ->).
  destruct (get_good _ _ _ E1 (good_open _)) as (b & r & -> & _ & [= <-]).
  destruct (peek_good _ _ _ E0 (good_open _)) as (? & ? & -> & _ & [= <- <-]). by exists b, t, es, rest'.
Qed.

(** A document that leaves the stream good begins with a byte. *)
Lemma LoadNode_begins fuel s n s' :
  dict_reads (LoadDict_loop fuel) → array_reads (LoadArray_loop fuel) →
  LoadNode (S fuel) s = Ok (n, s') → good s' = true → ∃ b t, s = is_open (b :: t).
Proof.
  intros Hd Hl E Hg. cbn [LoadNode] in E. destruct (peek s) as [c s1] eqn:Ep.
  assert (good s1 = true) as G; [|by destruct (peek_good _ _ _ Ep G) as (b & t & -> & _); exists b, t].
  destruct (_ =? char_i); [by destruct (LoadNumber_good _ _ _ E Hg) as (? & ? & ? & ? & ? & -> & _)|].
  destruct (_ =? char_l); [by destruct (LoadArray_with_reads _ _ _ _ Hl E Hg) as (? & ? & ? & ? & -> & _)|].
  destruct (_ || _); [by destruct (LoadDict_with_reads _ _ _ _ Hd E Hg) as (? & ? & ? & ? & -> & _)|].
  by destruct (LoadStr_good _ _ _ E Hg) as (? & ? & ? & -> & _).
Qed.

Lemma LoadNode_reads fuel b t n s' :
  dict_reads (LoadDict_loop fuel) → array_reads (LoadArray_loop fuel) →
  LoadNode (S fuel) (is_open (b :: t)) = Ok (n, s') → good s' = true → ∃ rest, s' = is_open rest ∧ reads (b :: t) n rest.
Proof.
  intros Hd Hl E Hg. rewrite LoadNode_byte in E. case_bool_decide as Hi; [|case_bool_decide as Hll; [|case_bool_decide as Hsd]].
  - destruct (LoadNumber_good _ _ _ E Hg) as (b' & t' & z & c & rest & [= <- <-] & -> & -> & Hn). subst b.
    exists rest. split; [done|]. by eapply reads_int.
  - destruct (LoadArray_with_reads _ _ _ _ Hl E Hg) as (b' & t' & l & rest & [= <- <-] & -> & -> & Hit). subst b.
    exists rest. split; [done|]. by apply reads_array.
  - destruct (LoadDict_with_reads _ _ _ _ Hd E Hg) as (b' & t' & es & rest & [= <- <-] & -> & -> & Hes).
    exists rest. split; [done|]. eapply reads_dict; [done|exact Hes|by apply add_entries_sorted|].
    intros k. by rewrite find_add_entries.
  - destruct (LoadStr_good _ _ _ E Hg) as (t' & k & rest & [= <-] & -> & -> & Ht).
    exists rest. split; [done|]. by apply reads_str.
Qed.

(** What is read while the stream stays good is in the grammar. *)
Lemma loads_reads fuel :
  (∀ s n s', LoadNode fuel s = Ok (n, s') → good s' = true →
     ∃ t rest, s = is_open t ∧ s' = is_open rest ∧ reads t n rest) ∧
  dict_reads (LoadDict_loop fuel) ∧ array_reads (LoadArray_loop fuel).
Proof.
  induction fuel as [|fuel (IHn & IHd & IHl)]; [done|]. split_and!.
  - intros s n s' E Hg. destruct (LoadNode_begins _ _ _ _ IHd IHl E Hg) as (b & t & ->).
    destruct (LoadNode_reads _ _ _ _ _ IHd IHl E Hg) as (rest & -> & Hr). by exists (b :: t), rest.
  - intros d s d' s' E Hg. cbn [LoadDict_loop] in E. destruct (peek s) as [c s1] eqn:Ep.
    destruct (decide (c = Some "e"%byte)) as [->|Hc].
    + injection E as <- <-. destruct (peek_good _ _ _ Ep Hg) as (b & t & -> & [= <-] & ->).
      exists ("e"%byte :: t), t, []. split_and!; [done|done|constructor|done].
    + apply bind_Ok_inv in E as ([kn s2] & Ek & E). apply bind_Ok_inv in E as (k & Ek' & E).
      apply bind_Ok_inv in E as ([v s3] & Ev & E). destruct (IHd _ _ _ _ E Hg) as (t3 & rest & es & -> & -> & Hes & ->).
      destruct (IHn _ _ _ Ev (good_open _)) as (t2 & rest2 & -> & [= <-] & Hv).
      destruct (LoadStr_good _ _ _ Ek (good_open _)) as (t1 & k' & rest1 & -> & -> & [= <-] & Hk). injection Ek' as ->.
      destruct (peek_good _ _ _ Ep (good_open _)) as (b & t & -> & -> & [= ->]).
      exists (b :: t), rest, ((k, v) :: es). split_and!; [done|done| |done]. eapply entries_more; [congruence|exact Hk|exact Hv|exact Hes].
  - intros l s l' s' E Hg. cbn [LoadArray_loop] in E. destruct (peek s) as [c s1] eqn:Ep.
    destruct (decide (c = Some "e"%byte)) as [->|Hc].
    + injection E as <- <-. destruct (peek_good _ _ _ Ep Hg) as (b & t & -> & [= <-] & ->).
      exists ("e"%byte :: t), t, []. split_and!; [done|done|constructor|by rewrite app_nil_r].
    + apply bind_Ok_inv in E as ([v s3] & Ev & E). destruct (IHl _ _ _ _ E Hg) as (t3 & rest & ns & -> & -> & Hns & ->).
      destruct (IHn _ _ _ Ev (good_open _)) as (t2 & rest2 & -> & [= <-] & Hv).
      destruct (peek_good _ _ _ Ep (good_open _)) as (b & t & -> & -> & [= ->]).
      exists (b :: t), rest, (v :: ns). split_and!; [done|done| |by rewrite <- app_assoc]. eapply items_more; [congruence|exact Hv|exact Hns].
Qed.

(** ** What is in the grammar is accepted *)

Lemma reads_loads :
  (∀ t n rest, reads t n rest → ∃ f, ∀ fuel, (f ≤ fuel)%nat → LoadNode fuel (is_open t) = Ok (n, is_open rest)) ∧
  (∀ t l rest, items t l rest → ∃ f, ∀ fuel arr, (f ≤ fuel)%nat →
     LoadArray_loop fuel arr (is_open t) = Ok (arr ++ l, is_open ("e"%byte :: rest))) ∧
  (∀ t es rest, entries t es rest → ∃ f, ∀ fuel d, (f ≤ fuel)%nat →
     LoadDict_loop fuel d (is_open t) = Ok (add_entries d es, is_open ("e"%byte :: rest))).
Proof.
  apply reads_all.
  - intros t z c rest Hn. exists 1%nat. intros [|fuel] Hf; [lia|]. rewrite LoadNode_byte. rewrite bool_decide_true by done.
    by apply (LoadNumber_numeral _ _ _ c).
  - intros t l rest _ [f IH]. exists (S f). intros [|fuel] Hf; [lia|]. rewrite LoadNode_byte.
    rewrite bool_decide_false, bool_decide_true by done. unfold LoadArray, LoadArray_with. rewrite get_step, IH by lia. done.
  - intros b t es d rest Hb _ [f IH] Hs Hfind. exists (S f). intros [|fuel] Hf; [lia|]. rewrite LoadNode_byte.
    assert (b ≠ "i"%byte ∧ b ≠ "l"%byte) as [Hni Hnl].
    { destruct Hb as [->|Hb]; [done|]. split; intros ->; rewrite peeked_char_ascii in Hb by (vm_compute; done); discriminate Hb. }
    rewrite 2!bool_decide_false, bool_decide_true by done. unfold LoadDict, LoadDict_with. rewrite peek_step, decide_False by done.
    rewrite get_step, IH by lia. cbn [mbind outcome_bind]. by rewrite (entries_dict es d).
  - intros b t k rest Hni Hnl Hsd Ht. exists 1%nat. intros [|fuel] Hf; [lia|]. rewrite LoadNode_byte.
    rewrite !bool_decide_false by done. by apply LoadStr_text.
  - intros rest. exists 1%nat. intros [|fuel] arr Hf; [lia|]. cbn [LoadArray_loop]. by rewrite peek_step, decide_True, app_nil_r.
  - intros b t n u l rest Hb _ [f1 IH1] _ [f2 IH2]. exists (S (f1 + f2)). intros [|fuel] arr Hf; [lia|]. cbn [LoadArray_loop].
    rewrite peek_step, decide_False by congruence. rewrite IH1 by lia. cbn [mbind outcome_bind].
    rewrite IH2 by lia. by rewrite <- app_assoc.
  - intros rest. exists 1%nat. intros [|fuel] d Hf; [lia|]. cbn [LoadDict_loop]. by rewrite peek_step, decide_True.
  - intros b t k u v u' es rest Hb Hk _ [f1 IH1] _ [f2 IH2]. exists (S (f1 + f2)). intros [|fuel] d Hf; [lia|]. cbn [LoadDict_loop].
    rewrite peek_step, decide_False by congruence. rewrite (LoadStr_text _ _ _ Hk). cbn [mbind outcome_bind AsString].
    rewrite IH1 by lia. cbn [mbind outcome_bind]. by rewrite IH2 by lia.
Qed.
End Reader.

(** ** Properties *)

(** C5: on any bytes, the reader returns a document and leaves the rest on a good
    stream exactly when the grammar [reads] says so; more than twice as much fuel
    as there are bytes is enough.  The grammar has an [i] with a number and one
    byte behind it, [l] with documents up to an [e], [d] with keys and documents
    up to an [e], the first of equal keys counting, and strings behind their
    length and one byte, where an empty string takes a byte more. *)
Theorem LoadNode_grammar `{Host} t n rest fuel :
  (2 * length t < fuel)%nat →
  LoadNode fuel (is_open t) = Ok (n, is_open rest) ↔ reads t n rest.
Proof.
  intros Hf. split.
  - intros E. destruct (proj1 (loads_reads fuel) _ _ _ E (good_open _)) as (t' & rest' & [= <-] & [= <-] & Hr). exact Hr.
  - intros Hr. destruct (proj1 reads_loads t n rest Hr) as [f Hload].
    rewrite (proj1 (fuel_stable fuel (is_open t) (Nat.max fuel f) ltac:(lia)) ltac:(exact Hf)). apply Hload. lia.
Qed.

(** Spaces, signs, a repeated key and an empty string. *)
Lemma LoadNode_grammar_witness :
  reads (H:=x86_64) (str "d 1:ki+5e1:ki6e1:al0:xi-7eeerest")
    (NDict [(str "a", NArray [NStr []; NInt (-7)]); (str "k", NInt 5)]) (str "rest").
Proof. apply (LoadNode_grammar (H:=x86_64) _ _ _ 100); vm_compute; [lia|reflexivity]. Defined.
