(* ===== verification/Text.v ===== *)
(** * Text helpers (src/utils/auxiliary.cpp) and the piece digest (Piece.cpp)

    URL encoding, dotted addresses and the SHA-1 wrappers.  The SHA-1
    implementation is Boost's: it is the parameter [Sha1]. *)

From Stdlib Require Import ZArith Lia Strings.Byte.
From coqutil Require Import Byte Word.LittleEndianList.
From S2P Require Import Prelude Bytes Streams.

(** ** [boost::uuids::detail::sha1] *)

Class Sha1 := {
  sha1_state : Type;
  sha1_init : sha1_state;
  sha1_process_bytes : sha1_state → bytes → sha1_state;
  sha1_process_block : sha1_state → bytes → sha1_state;
  sha1_get_digest : sha1_state → list Z;
}.

(** Its documented interface: the digest is five 32-bit words, and feeding the
    bytes in one call or in several is the same. *)
Class Sha1Laws (S : Sha1) : Prop := {
  sha1_digest_words h : length (sha1_get_digest h) = 5%nat;
  sha1_process_app h a b :
    sha1_process_bytes h (a ++ b) = sha1_process_bytes (sha1_process_bytes h a) b;
  sha1_process_nil h : sha1_process_bytes h [] = h;
  sha1_block_bytes h a : sha1_process_block h a = sha1_process_bytes h a;
}.

(** The digest of FIPS 180-4 as an instance, for evaluating the definitions that
    take one. *)
Module Fips.
Definition rotl (n x : Z) : Z := Z.lor (u32 (Z.shiftl x n)) (Z.shiftr x (32 - n)).
Definition not32 (x : Z) : Z := 2 ^ 32 - 1 - x.

(** The function and constant of round [t]. *)
Definition round_f (t b c d : Z) : Z :=
  if t <? 20 then Z.lor (Z.land b c) (Z.land (not32 b) d)
  else if t <? 40 then Z.lxor (Z.lxor b c) d
  else if t <? 60 then Z.lor (Z.lor (Z.land b c) (Z.land b d)) (Z.land c d)
  else Z.lxor (Z.lxor b c) d.
Definition round_k (t : Z) : Z :=
  if t <? 20 then 0x5a827999 else if t <? 40 then 0x6ed9eba1 else if t <? 60 then 0x8f1bbcdc else 0xca62c1d6.

(** [n] rounds from [t] on; [ws] are the next sixteen words of the schedule. *)
Fixpoint rounds (n : nat) (t : Z) (ws : list Z) (a b c d e : Z) : list Z :=
  match n, ws with
  | S n, w0 :: ws =>
      let w16 := rotl 1 (Z.lxor (Z.lxor (nth 12 ws 0) (nth 7 ws 0)) (Z.lxor (nth 1 ws 0) w0)) in
      rounds n (t + 1) (ws ++ [w16]) (u32 (rotl 5 a + round_f t b c d + e + round_k t + w0)) a (rotl 30 b) c d
  | _, _ => [a; b; c; d; e]
  end.

Fixpoint words (bs : bytes) : list Z :=
  match bs with
  | a :: b :: c :: d :: bs =>
      (byte.unsigned a * 2 ^ 24 + byte.unsigned b * 2 ^ 16 + byte.unsigned c * 2 ^ 8 + byte.unsigned d) :: words bs
  | _ => []
  end.

(** The hash after [n] more blocks of sixteen words. *)
Fixpoint blocks_hash (n : nat) (ws h : list Z) : list Z :=
  match n, h with
  | S n, [a; b; c; d; e] =>
      blocks_hash n (drop 16 ws) (zip_with (fun x y => u32 (x + y)) h (rounds 80 0 (take 16 ws) a b c d e))
  | _, _ => h
  end.

Definition padded (m : bytes) : bytes :=
  m ++ x80 :: replicate (Z.to_nat ((55 - Z.of_nat (length m)) mod 64)) x00
    ++ rev (le_split 8 (8 * Z.of_nat (length m))).

Definition digest (m : bytes) : list Z :=
  let ws := words (padded m) in
  blocks_hash (length ws / 16) ws [0x67452301; 0xefcdab89; 0x98badcfe; 0x10325476; 0xc3d2e1f0].

(** The first example of the standard. *)
Example digest_abc : digest (str "abc") = [0xa9993e36; 0x4706816a; 0xba3e2571; 0x7850c26c; 0x9cd0d89d].
Proof. vm_compute. reflexivity. Qed.

Lemma rounds_length n t ws a b c d e : length (rounds n t ws a b c d e) = 5%nat.
Proof.
  revert t ws a b c d e. induction n as [|n IH]; intros; cbn [rounds]; [done|]. destruct ws; [done|apply IH].
Qed.

Lemma blocks_hash_length n ws h : length h = 5%nat → length (blocks_hash n ws h) = 5%nat.
Proof.
  revert ws h. induction n as [|n IH]; intros ws h Hh; cbn [blocks_hash]; [done|].
  destruct h as [|a [|b [|c [|d [|e [|? ?]]]]]]; try done. apply IH.
  rewrite length_zip_with, rounds_length. done.
Qed.
End Fips.

Definition fips_sha1 : Sha1 := {|
  sha1_state := bytes;
  sha1_init := [];
  sha1_process_bytes := fun h a => h ++ a;
  sha1_process_block := fun h a => h ++ a;
  sha1_get_digest := Fips.digest;
|}.

Lemma fips_sha1_laws : Sha1Laws fips_sha1.
Proof.
  split; [intros h; by apply Fips.blocks_hash_length|..]; intros; cbn; [apply app_assoc|apply app_nil_r|done].
Qed.

(** A cheaper function with that interface, for evaluating on longer data: it is
    not SHA-1. *)
Definition toy_sha1 : Sha1 := {|
  sha1_state := bytes;
  sha1_init := [];
  sha1_process_bytes := fun h a => h ++ a;
  sha1_process_block := fun h a => h ++ a;
  sha1_get_digest := fun h =>
    let v := fold_left (fun acc b => u32 (acc * 31 + byte.unsigned b + 1)) h 7 in
    [v; u32 (v * 3); u32 (v * 5); Z.of_nat (length h); u32 (v * 7)];
|}.

Lemma toy_sha1_laws : Sha1Laws toy_sha1.
Proof.
  split; [done|..]; intros; cbn; [apply app_assoc|apply app_nil_r|done].
Qed.

(** ** URL encoding *)

Section Url.
Context `{Host}.

(** The value of a plain [char] promoted to [int]. *)
Definition char_value (b : byte) : Z :=
  if char_is_signed then s8 (byte.unsigned b) else byte.unsigned b.

(** [isalnum] in the C locale; outside [unsigned char] and [EOF] it is undefined. *)
Definition isalnum (c : Z) : outcome bool :=
  if (c =? -1) || ((0 <=? c) && (c <=? 255)) then
    Ok (((48 <=? c) && (c <=? 57)) || ((65 <=? c) && (c <=? 90)) || ((97 <=? c) && (c <=? 122)))
  else UB.

Definition HEX : bytes := str "0123456789ABCDEF".
Definition hex_digit (d : Z) : byte := nth (Z.to_nat d) HEX x00.

Definition is_mark (b : byte) : bool :=
  bool_decide (b = "-"%byte) || bool_decide (b = "_"%byte) ||
  bool_decide (b = "."%byte) || bool_decide (b = "~"%byte).

Definition encode_impl (symb : byte) : outcome bytes :=
  alnum ← isalnum (char_value symb);
  if alnum || is_mark symb then Ok [symb]
  else
    let v := byte.unsigned symb in
    Ok ["%"%byte; hex_digit (v / 16); hex_digit (v mod 16)].

Fixpoint UrlEncode (url_to_encode : bytes) : outcome bytes :=
  match url_to_encode with
  | [] => Ok []
  | b :: r => e ← encode_impl b; qstr ← UrlEncode r; Ok (e ++ qstr)
  end.
End Url.

(** ** Addresses *)

Fixpoint ip_octets (fuel : nat) (ip : Z) : bytes :=
  match fuel with
  | O => []
  | S f => if ip =? 0 then []
           else byte.of_Z (Z.land ip 255) :: ip_octets f (Z.shiftr ip 8)
  end.

(** Eight octets exhaust a [size_t]. *)
Definition IpToStr (ip : Z) : bytes :=
  let ip_address := rev (ip_octets 8 ip) in
  snd (fold_left
    (fun '((is_first, acc) : bool * bytes) el =>
      (false, (if is_first then acc else acc ++ ["."%byte]) ++ print_dec (byte.unsigned el)))
    ip_address (true, [])).

(** [res <<= CHAR_BIT] on an [int]: undefined for a negative value or when the
    product does not fit the unsigned type. *)
Definition shl8_int (res : Z) : outcome Z :=
  if (res <? 0) || (2 ^ 32 <=? res * 256) then UB else Ok (s32 (res * 256)).

Fixpoint IpToInt_loop (fuel : nat) (res val : Z) (ssin : istream) : outcome Z :=
  match fuel with
  | O => NoFuel
  | S f =>
      let '(o, ssin) := read_num true 32 ssin in
      let val := default val o in
      res ← shl8_int res;
      let res := Z.lor res val in
      let '(delim, ssin) := read_char ssin in
      if bool_decide (is_Some delim) then IpToInt_loop f res val ssin else Ok res
  end.

(** Every round but the last consumes a character. *)
Definition IpToInt (ip_address : bytes) : outcome Z :=
  IpToInt_loop (S (length ip_address)) 0 0 (is_open ip_address).

(** ** Digests *)

Section Digest.
Context `{Host} `{Sha1}.

(** The words are byte-swapped in place and copied out. *)
Definition digest_bytes (hash : list Z) : bytes :=
  concat (map (fun el => repr 4 (AsValue (endian_changer 4 el))) hash).

Definition GetSHA1 (p_arg : bytes) : bytes :=
  digest_bytes (sha1_get_digest (sha1_process_bytes sha1_init p_arg)).
End Digest.

(** ** Facts *)

Section DigestFacts.
Context `{Host} `{S : Sha1} `{!Sha1Laws S}.

Lemma digest_bytes_rev hash : digest_bytes hash = concat (map (fun el => rev (repr 4 el)) hash).
Proof.
  unfold digest_bytes, AsValue. f_equal. apply map_ext. intros el.
  rewrite endian_changer_rev. pose proof (repr_unrepr (rev (repr 4 el))) as E.
  by rewrite length_rev, length_repr in E.
Qed.

Lemma length_digest_bytes hash : length (digest_bytes hash) = (4 * length hash)%nat.
Proof.
  rewrite digest_bytes_rev. induction hash as [|el hash IH]; [done|].
  cbn [map concat]. rewrite length_app, length_rev, length_repr, IH. simpl. lia.
Qed.

Lemma length_GetSHA1 p : length (GetSHA1 p) = 20%nat.
Proof. unfold GetSHA1. by rewrite length_digest_bytes, sha1_digest_words. Qed.
End DigestFacts.

Lemma lor_add_low a b : a mod 256 = 0 → 0 ≤ b < 256 → Z.lor a b = a + b.
Proof.
  intros Ha Hb. pose proof (Z.add_lor_land a b).
  assert (Z.land a b = 0); [|lia].
  rewrite (Z.div_mod a 256), Ha, Z.add_0_r by lia.
  change 256 with (2 ^ 8). rewrite Z.mul_comm, <- Z.shiftl_mul_pow2 by lia.
  rewrite <- (Z.mod_small b (2 ^ 8)) by lia. rewrite <- Z.land_ones by lia.
  apply Z.bits_inj'. intros n Hn. rewrite !Z.land_spec, Z.bits_0.
  destruct (Z.ltb_spec n 8).
  - by rewrite Z.shiftl_spec_low.
  - rewrite Z.ones_spec_high by lia. by rewrite !andb_false_r.
Qed.

(** The address text as a recursive join. *)
Fixpoint join_dots (l : bytes) : bytes :=
  match l with
  | [] => []
  | [b] => print_dec (byte.unsigned b)
  | b :: l' => print_dec (byte.unsigned b) ++ "."%byte :: join_dots l'
  end.

Lemma join_dots_cons b c l :
  join_dots (b :: c :: l) = print_dec (byte.unsigned b) ++ "."%byte :: join_dots (c :: l).
Proof. done. Qed.

Lemma join_fold l acc :
  snd (fold_left
    (fun '((is_first, acc) : bool * bytes) el =>
      (false, (if is_first then acc else acc ++ ["."%byte]) ++ print_dec (byte.unsigned el)))
    l (false, acc)) = acc ++ match l with [] => [] | _ => "."%byte :: join_dots l end.
Proof.
  revert acc. induction l as [|b l IH]; intros acc; cbn [fold_left snd]; [by rewrite app_nil_r|].
  rewrite IH. destruct l as [|c l]; [by rewrite app_nil_r, <- app_assoc|].
  rewrite join_dots_cons, <- !app_assoc. done.
Qed.

Lemma IpToStr_join ip : IpToStr ip = join_dots (rev (ip_octets 8 ip)).
Proof.
  unfold IpToStr. cbv zeta. destruct (rev (ip_octets 8 ip)) as [|b l]; [done|].
  cbn [fold_left app]. rewrite join_fold. destruct l as [|c l]; [by rewrite app_nil_r|done].
Qed.

Definition octets_value (res : Z) (l : bytes) : Z :=
  fold_left (fun r b => r * 256 + byte.unsigned b) l res.

Lemma octets_value_app res a b : octets_value res (a ++ b) = octets_value (octets_value res a) b.
Proof. apply fold_left_app. Qed.

Lemma octets_value_grows res l : 0 ≤ res → res ≤ octets_value res l.
Proof.
  revert res. induction l as [|b l IH]; intros res Hr; simpl; [lia|].
  pose proof (byte_range b). specialize (IH (res * 256 + byte.unsigned b)). lia.
Qed.

Lemma ip_octets_value n ip :
  0 ≤ ip < 2 ^ (8 * Z.of_nat n) → octets_value 0 (rev (ip_octets n ip)) = ip.
Proof.
  revert ip. induction n as [|n IH]; intros ip Hip; [simpl in *; lia|].
  cbn [ip_octets]. destruct (Z.eqb_spec ip 0) as [->|]; [done|].
  cbn [rev]. rewrite octets_value_app. cbn [octets_value fold_left].
  rewrite Z.shiftr_div_pow2 by lia. change (2 ^ 8) with 256.
  replace (8 * Z.of_nat (S n)) with (8 + 8 * Z.of_nat n) in Hip by lia.
  rewrite Z.pow_add_r in Hip by lia. rewrite IH
    by (split; [apply Z.div_pos; lia|apply Z.div_lt_upper_bound; lia]).
  change 255 with (Z.ones 8). rewrite Z.land_ones by lia. change (2 ^ 8) with 256.
  pose proof (Z.mod_pos_bound ip 256 ltac:(lia)).
  rewrite byte_of_Z_unsigned by lia. pose proof (Z.div_mod ip 256). lia.
Qed.

Lemma s32_lor a b :
  0 ≤ a < 2 ^ 24 → 0 ≤ b < 256 → Z.lor (s32 (a * 256)) b = s32 (a * 256 + b).
Proof.
  intros Ha Hb. rewrite lor_add_low; [|unfold s32; Z.div_mod_to_equations; lia|done].
  unfold s32. Z.div_mod_to_equations; lia.
Qed.

Lemma print_dec_byte_head b : ∃ c r, print_dec (byte.unsigned b) = c :: r.
Proof.
  pose proof (byte_range b). destruct (dec_spec (byte.unsigned b) ltac:(lia)) as (_ & _ & Hne).
  unfold print_dec. rewrite (proj2 (Z.ltb_ge _ _)) by lia. destruct (dec _); eauto. done.
Qed.

(** The last numeral: the stream ends after it. *)
Lemma read_num_end n :
  0 ≤ n < 2 ^ 31 → read_num true 32 (is_open (print_dec n)) = (Some n, IStream [] true false).
Proof.
  intros Hn. destruct (dec_spec n ltac:(lia)) as (E & F & Hne).
  unfold print_dec. rewrite (proj2 (Z.ltb_ge _ _)) by lia.
  destruct (dec n) as [|d ds]; [done|]. pose proof (Forall_inv F) as Hd.
  unfold read_num. rewrite sentry_open by by apply isdigit_not_space.
  destruct (isdigit_not_sign d Hd) as [??]. cbn [is_buf is_open take_sign].
  do 2 (rewrite decide_False by done).
  rewrite <- (app_nil_r (d :: ds)) at 1. rewrite span_digits_app by done.
  unfold num_value. rewrite decide_False, E by done.
  by rewrite (proj2 (Z.ltb_lt _ _)) by lia.
Qed.

Lemma IpToInt_loop_join l fuel res val :
  l ≠ [] → (length l ≤ fuel)%nat → 0 ≤ res → octets_value res l < 2 ^ 32 →
  IpToInt_loop fuel res val (is_open (join_dots l)) = Ok (s32 (octets_value res l)).
Proof.
  revert fuel res val. induction l as [|b l IH]; intros fuel res val Hne Hf Hr Hv; [done|].
  destruct fuel as [|fuel]; [simpl in Hf; lia|]. pose proof (byte_range b) as Hb.
  cbn [octets_value fold_left] in Hv |- *. fold (octets_value (res * 256 + byte.unsigned b) l) in *.
  pose proof (octets_value_grows (res * 256 + byte.unsigned b) l ltac:(lia)).
  assert (shl8_int res = Ok (s32 (res * 256))) as Hsh.
  { unfold shl8_int. by rewrite (proj2 (Z.ltb_ge _ _)), (proj2 (Z.leb_gt _ _)) by lia. }
  cbn [IpToInt_loop]. destruct l as [|c l].
  - cbn [join_dots]. rewrite read_num_end by lia. cbn [from_option id].
    rewrite Hsh. cbn [mbind outcome_bind]. unfold read_char, sentry. cbn.
    by rewrite s32_lor by lia.
  - rewrite join_dots_cons, read_num_print by (first [lia | done]). cbn [from_option id].
    rewrite Hsh. cbn [mbind outcome_bind]. unfold read_char, sentry. cbn -[join_dots IpToInt_loop].
    cbn [octets_value fold_left] in *. pose proof (byte_range c).
    pose proof (octets_value_grows ((res * 256 + byte.unsigned b) * 256 + byte.unsigned c) l
      ltac:(lia)) as Hg. unfold octets_value in Hg.
    rewrite s32_lor, s32_small by lia. apply IH; [done|simpl in *; lia|lia|done].
Qed.

Lemma length_join_dots l : (length l ≤ S (length (join_dots l)))%nat.
Proof.
  induction l as [|b [|c l] IH]; [simpl; lia|simpl; lia|].
  rewrite join_dots_cons, length_app. cbn [length] in *. lia.
Qed.

(** ** Percent decoding, the inverse of the encoding *)

Definition hex_value (b : byte) : option Z :=
  let z := byte.unsigned b in
  if (48 <=? z) && (z <=? 57) then Some (z - 48)
  else if (65 <=? z) && (z <=? 70) then Some (z - 55)
  else None.

Definition percent_pair (a b : byte) : option byte :=
  match hex_value a, hex_value b with
  | Some x, Some y => Some (byte.of_Z (16 * x + y))
  | _, _ => None
  end.

Fixpoint percent_decode (l : bytes) : option bytes :=
  match l with
  | [] => Some []
  | c :: r =>
      if decide (c = "%"%byte) then
        match r with
        | a :: b :: r' =>
            match percent_pair a b, percent_decode r' with
            | Some d, Some ds => Some (d :: ds)
            | _, _ => None
            end
        | _ => None
        end
      else match percent_decode r with Some ds => Some (c :: ds) | None => None end
  end.

(** The characters of RFC 3986 that need no escape. *)
Definition is_unreserved (b : byte) : bool :=
  let z := byte.unsigned b in
  ((48 <=? z) && (z <=? 57)) || ((65 <=? z) && (z <=? 90)) || ((97 <=? z) && (z <=? 122))
  || is_mark b.

Section UrlCases.
Context `{Host}.

(** The bytes [isalnum] may be called on as a plain [char]. *)
Definition char_defined (b : byte) : bool :=
  negb char_is_signed || (byte.unsigned b <? 128) || (byte.unsigned b =? 255).

(** One byte and its encoding. *)
Definition enc_ok (b : byte) (e : bytes) : bool :=
  match e with
  | [c] => bool_decide (c = b) && is_unreserved b
  | [p; x; y] => bool_decide (p = "%"%byte) && bool_decide (percent_pair x y = Some b)
                 && negb (is_unreserved b)
  | _ => false
  end.

Definition enc_case (b : byte) : bool :=
  if char_defined b then match encode_impl b with Ok e => enc_ok b e | _ => false end
  else match encode_impl b with UB => true | _ => false end.
End UrlCases.

Lemma encode_impl_cases (h : Host) b : enc_case b = true.
Proof.
  apply (byte_forallb enc_case). destruct h as [[] []]; vm_compute; reflexivity.
Qed.

Section UrlFacts.
Context `{Host}.

Lemma percent_decode_enc b e r :
  enc_ok b e = true →
  percent_decode (e ++ r) = match percent_decode r with Some ds => Some (b :: ds) | None => None end.
Proof.
  intros He. destruct e as [|p [|x [|y [|? ?]]]]; try done; simpl in He.
  - apply andb_true_iff in He as [->%bool_decide_eq_true Hu]. cbn [app percent_decode].
    rewrite decide_False; [done|]. intros ->. by vm_compute in Hu.
  - apply andb_true_iff in He as [[->%bool_decide_eq_true Hp%bool_decide_eq_true]%andb_true_iff _].
    cbn [app percent_decode]. rewrite decide_True by done. by rewrite Hp.
Qed.

Lemma UrlEncode_defined s :
  forallb char_defined s = true →
  ∃ r, UrlEncode s = Ok r ∧ percent_decode r = Some s.
Proof.
  induction s as [|b s IH]; [by exists []|]. simpl. intros [Hb Hs]%andb_true_iff.
  destruct (IH Hs) as (r & -> & Hr). pose proof (encode_impl_cases _ b) as Hc.
  unfold enc_case in Hc. rewrite Hb in Hc.
  destruct (encode_impl b) as [e| | | |]; try done. cbn [mbind outcome_bind].
  eexists. split; [done|]. by rewrite (percent_decode_enc b), Hr.
Qed.

Lemma UrlEncode_undefined s : forallb char_defined s = false → UrlEncode s = UB.
Proof.
  induction s as [|b s IH]; [done|]. simpl. intros Hs.
  pose proof (encode_impl_cases _ b) as Hc. unfold enc_case in Hc. destruct (char_defined b).
  - destruct (encode_impl b) as [e| | | |]; try done. cbn [mbind outcome_bind]. by rewrite IH.
  - by destruct (encode_impl b).
Qed.
End UrlFacts.

(** ** Properties *)

(** URL encoding is defined exactly when every byte is one [isalnum] may be
    called on (all of them if [char] is unsigned, 0..127 and 255 if it is
    signed), and then percent-decoding gives the text back. *)
Theorem UrlEncode_correct `{Host} s :
  match UrlEncode s with
  | Ok r => forallb char_defined s = true ∧ percent_decode r = Some s
  | UB => forallb char_defined s = false
  | _ => False
  end.
Proof.
  destruct (forallb char_defined s) eqn:E.
  - by destruct (UrlEncode_defined s E) as (r & -> & Hr).
  - by rewrite UrlEncode_undefined.
Qed.

(** An IPv4 address survives being printed with dots and read back, for
    each of the 2^32 addresses (leading zero octets are not printed). *)
Theorem Ip_roundtrip ip :
  0 ≤ ip < 2 ^ 32 → ∃ v, IpToInt (IpToStr ip) = Ok v ∧ u32 v = ip.
Proof.
  intros Hip. destruct (Z.eq_dec ip 0) as [->|Hnz]; [by exists 0|].
  exists (s32 ip). split; [|unfold u32, s32; Z.div_mod_to_equations; lia].
  rewrite IpToStr_join. pose proof (ip_octets_value 8 ip ltac:(lia)) as Hv.
  unfold IpToInt. rewrite IpToInt_loop_join; [by rewrite Hv| |apply length_join_dots|done|lia].
  intros Hnil. rewrite Hnil in Hv. simpl in Hv. lia.
Qed.

Lemma Ip_roundtrip_witness : ∃ v, IpToInt (IpToStr 0xC0A80001) = Ok v ∧ u32 v = 0xC0A80001.
Proof. apply (Ip_roundtrip 0xC0A80001). lia. Defined.

Example IpToStr_ex : IpToStr 0xC0A80001 = str "192.168.0.1".
Proof. vm_compute. reflexivity. Qed.
