(* ===== verification/Bitset.v ===== *)
(** * The interface of [boost::dynamic_bitset<uint8_t>]

    The program keeps its bitfields in Boost's bitset, which is not part of
    the repository: the class [DynamicBitset] holds the operations the program
    calls, [DynamicBitsetLaws] what their documentation promises within the
    documented preconditions, and [list_bitset] is a concrete bitset. *)

From Stdlib Require Import ZArith Lia Strings.Byte.
From coqutil Require Import Byte Word.LittleEndianList.
From S2P Require Import Prelude Bytes.

Class DynamicBitset (B : Type) := {
  db_make : nat → B;
  db_size : B → nat;
  db_test : B → nat → bool;
  db_set : B → nat → bool → B;
  db_append : B → byte → B;
  db_resize : B → nat → B;
  db_flip : B → B;
  db_and : B → B → B;
  db_xor : B → B → B;
  db_count : B → nat;
  db_to_blocks : B → bytes;
  db_eqb : B → B → bool;
  db_ltb : B → B → bool;
}.

Class DynamicBitsetLaws (B : Type) `{DynamicBitset B} : Prop := {
  db_size_make n : db_size (db_make n) = n;
  db_test_make n i : (i < n)%nat → db_test (db_make n) i = false;
  db_size_set b i v : (i < db_size b)%nat → db_size (db_set b i v) = db_size b;
  db_test_set b i v j : (i < db_size b)%nat → (j < db_size b)%nat →
    db_test (db_set b i v) j = if decide (j = i) then v else db_test b j;
  db_size_append b x : db_size (db_append b x) = (db_size b + 8)%nat;
  db_test_append b x j : (j < db_size b + 8)%nat →
    db_test (db_append b x) j =
      if decide (j < db_size b)%nat then db_test b j else byte_bit x (j - db_size b);
  db_size_resize b n : db_size (db_resize b n) = n;
  db_test_resize b n j : (j < n)%nat →
    db_test (db_resize b n) j = if decide (j < db_size b)%nat then db_test b j else false;
  db_size_flip b : db_size (db_flip b) = db_size b;
  db_test_flip b i : (i < db_size b)%nat → db_test (db_flip b) i = negb (db_test b i);
  db_size_and a b : db_size a = db_size b → db_size (db_and a b) = db_size a;
  db_test_and a b i : db_size a = db_size b → (i < db_size a)%nat →
    db_test (db_and a b) i = db_test a i && db_test b i;
  db_size_xor a b : db_size a = db_size b → db_size (db_xor a b) = db_size a;
  db_test_xor a b i : db_size a = db_size b → (i < db_size a)%nat →
    db_test (db_xor a b) i = xorb (db_test a i) (db_test b i);
  db_count_spec b : db_count b = length (List.filter (db_test b) (seq 0 (db_size b)));
  db_length_blocks b : length (db_to_blocks b) = ((db_size b + 7) / 8)%nat;
  db_blocks_bit b k i : (k < (db_size b + 7) / 8)%nat → (i < 8)%nat →
    byte_bit (nth k (db_to_blocks b) x00) i =
      if decide (8 * k + i < db_size b)%nat then db_test b (8 * k + i) else false;
  db_eqb_spec a b : db_eqb a b = true ↔
    db_size a = db_size b ∧ ∀ i, (i < db_size a)%nat → db_test a i = db_test b i;
  db_ltb_spec a b : db_size a = db_size b →
    (db_ltb a b = true ↔ ∃ i, (i < db_size a)%nat ∧ db_test a i = false ∧ db_test b i = true ∧
      ∀ j, (i < j < db_size a)%nat → db_test a j = db_test b j);
}.

(** ** Bits of bytes *)

Lemma byte_bits_ext a b : (∀ i, (i < 8)%nat → byte_bit a i = byte_bit b i) → a = b.
Proof.
  intros Hb. apply byte.unsigned_inj. apply Z.bits_inj'. intros n Hn.
  pose proof (byte_range a). pose proof (byte_range b).
  destruct (Z.ltb_spec n 8).
  - specialize (Hb (Z.to_nat n) ltac:(lia)). unfold byte_bit in Hb. by rewrite Z2Nat.id in Hb.
  - rewrite <- (Z.mod_small (byte.unsigned a) (2 ^ 8)), <- (Z.mod_small (byte.unsigned b) (2 ^ 8))
      by lia. by rewrite !Z.mod_pow2_bits_high by lia.
Qed.

(** ** A concrete bitset: the list of its bits, position 0 first *)

Definition bit_z (b : bool) : Z := if b then 1 else 0.

Definition bits_byte (l : list bool) : byte :=
  byte.of_Z (fold_right (fun b acc => bit_z b + 2 * acc) 0 l).

Fixpoint list_to_blocks (n : nat) (l : list bool) : bytes :=
  match n with
  | O => []
  | S n => bits_byte (take 8 l) :: list_to_blocks n (drop 8 l)
  end.

(** Most significant bit last. *)
Fixpoint list_ltb (a b : list bool) : bool :=
  match a, b with
  | x :: a, y :: b => list_ltb a b || (bool_decide (a = b) && negb x && y)
  | _, _ => false
  end.

#[export] Instance list_bitset : DynamicBitset (list bool) := {|
  db_make n := replicate n false;
  db_size := length;
  db_test b i := nth i b false;
  db_set b i v := <[i:=v]> b;
  db_append b x := b ++ map (byte_bit x) (seq 0 8);
  db_resize b n := take n b ++ replicate (n - length b) false;
  db_flip := map negb;
  db_and a b := zip_with andb a b;
  db_xor a b := zip_with xorb a b;
  db_count b := length (List.filter (fun x => x) b);
  db_to_blocks b := list_to_blocks ((length b + 7) / 8) b;
  db_eqb a b := bool_decide (a = b);
  db_ltb := list_ltb;
|}.

Lemma nth_replicate n i (x : bool) : nth i (replicate n x) x = x.
Proof. revert i. induction n; intros [|i]; simpl; auto. Qed.

Lemma nth_take_lt {A} n i (l : list A) d : (i < n)%nat → nth i (take n l) d = nth i l d.
Proof. intros ?. by rewrite !nth_lookup_default, lookup_take_lt. Qed.

Lemma nth_drop {A} n i (l : list A) d : nth i (drop n l) d = nth (n + i) l d.
Proof. by rewrite !nth_lookup_default, lookup_drop. Qed.

Lemma nth_zip {A B C} (f : A → B → C) a b i da d2 dc :
  (i < length a)%nat → length a = length b → nth i (zip_with f a b) dc = f (nth i a da) (nth i b d2).
Proof.
  revert b i. induction a as [|x a IH]; intros [|y b] [|i]; simpl; try lia; [done|].
  intros ??. apply IH; lia.
Qed.

Lemma filter_nth_count (b : list bool) :
  length (List.filter (fun x => x) b) = length (List.filter (fun i => nth i b false) (seq 0 (length b))).
Proof.
  induction b as [|x b IH]; [done|]. cbn [length seq List.filter]. simpl nth at 1.
  rewrite <- seq_shift.
  assert (∀ l, length (List.filter (fun i => nth i (x :: b) false) (map S l))
    = length (List.filter (fun i => nth i b false) l)) as E.
  { induction l as [|i l IHl]; [done|]. cbn [map List.filter]. simpl nth at 1.
    destruct (nth i b false); cbn [length]; by rewrite IHl. }
  destruct x; cbn [length]; by rewrite E, IH.
Qed.

Lemma bits_byte_bit l i :
  (length l ≤ 8)%nat → (i < 8)%nat → byte_bit (bits_byte l) i = nth i l false.
Proof.
  intros Hl Hi. unfold byte_bit, bits_byte.
  set (v := fold_right _ 0 l).
  assert (0 ≤ v < 2 ^ Z.of_nat (length l)) as Hv.
  { subst v. clear. induction l as [|b l IH]; [simpl; lia|]. cbn [fold_right length].
    rewrite Nat2Z.inj_succ, Z.pow_succ_r by lia. destruct b; simpl; lia. }
  assert (2 ^ Z.of_nat (length l) ≤ 2 ^ 8) by (apply Z.pow_le_mono_r; lia).
  rewrite byte_of_Z_unsigned by lia. subst v. clear. revert i.
  induction l as [|b l IH]; intros i; [cbn [fold_right]; rewrite Z.testbit_0_l; by destruct i|].
  cbn [fold_right]. destruct i as [|i].
  - rewrite Z.add_comm. destruct b; simpl bit_z; [apply Z.testbit_odd_0|].
    rewrite Z.add_0_r. apply Z.testbit_even_0.
  - rewrite Nat2Z.inj_succ, Z.add_comm. destruct b; simpl bit_z.
    + rewrite Z.testbit_odd_succ by lia. apply IH.
    + rewrite Z.add_0_r, Z.testbit_even_succ by lia. apply IH.
Qed.

Lemma length_list_to_blocks n l : length (list_to_blocks n l) = n.
Proof. revert l. induction n; simpl; auto. Qed.

Lemma list_to_blocks_bit n l k i :
  (k < n)%nat → (i < 8)%nat →
  byte_bit (nth k (list_to_blocks n l) x00) i = nth (8 * k + i) l false.
Proof.
  revert l k. induction n as [|n IH]; intros l k Hk Hi; [lia|]. cbn [list_to_blocks].
  destruct k as [|k]; cbn [nth].
  - rewrite bits_byte_bit by (rewrite ?length_take; lia). by rewrite nth_take_lt by lia.
  - rewrite IH, nth_drop by lia. f_equal. lia.
Qed.

Lemma list_ltb_spec a b :
  length a = length b →
  (list_ltb a b = true ↔ ∃ i, (i < length a)%nat ∧ nth i a false = false ∧ nth i b false = true ∧
    ∀ j, (i < j < length a)%nat → nth j a false = nth j b false).
Proof.
  revert b. induction a as [|x a IH]; intros [|y b] Hl; simpl in Hl; try lia.
  { split; [done|]. intros (i & Hi & _). simpl in Hi. lia. }
  cbn [list_ltb]. rewrite orb_true_iff, !andb_true_iff, bool_decide_eq_true, negb_true_iff.
  rewrite (IH b) by lia. split.
  - intros [(i & Hi & Ha & Hb & Hj)|[[-> ->] ->]].
    + exists (S i). split_and!; [simpl; lia|done..|]. intros [|j] Hj'; [lia|].
      simpl. apply Hj. simpl in Hj'. lia.
    + exists 0%nat. split_and!; [simpl; lia|done..|]. intros [|j] Hj'; [lia|done].
  - intros ([|i] & Hi & Ha & Hb & Hj); simpl in *.
    + right. split_and!; [|done..]. apply (list_eq_nth false); [lia|].
      intros j Hj'. apply (Hj (S j)). lia.
    + left. exists i. split_and!; [lia|done..|]. intros j Hj'. apply (Hj (S j)). lia.
Qed.

#[export] Instance list_bitset_laws : DynamicBitsetLaws (list bool).
Proof.
  split; cbn [db_make db_size db_test db_set db_append db_resize db_flip db_and db_xor db_count
    db_to_blocks db_eqb db_ltb list_bitset].
  - intros. apply length_replicate.
  - intros. apply nth_replicate.
  - intros. apply length_insert.
  - intros b i v j Hi Hj. rewrite !nth_lookup_default, list_lookup_insert.
    destruct (decide (j = i)) as [->|Hne]; [by rewrite decide_True|].
    by rewrite decide_False by naive_solver.
  - intros. by rewrite length_app, length_map, length_seq.
  - intros b x j Hj. destruct (decide _) as [H|H].
    + by apply app_nth1.
    + rewrite app_nth2 by lia.
      rewrite (nth_indep _ _ (byte_bit x 0)) by (rewrite length_map, length_seq; lia).
      rewrite map_nth, seq_nth by lia. done.
  - intros. rewrite length_app, length_take, length_replicate. lia.
  - intros b n j Hj. destruct (decide _) as [H|H].
    + rewrite app_nth1 by (rewrite length_take; lia). by apply nth_take_lt.
    + rewrite app_nth2 by (rewrite length_take; lia). apply nth_replicate.
  - intros. apply length_map.
  - intros b i Hi. rewrite (nth_indep _ _ (negb false)) by (by rewrite length_map). apply map_nth.
  - intros. rewrite length_zip_with. lia.
  - intros. by apply nth_zip.
  - intros. rewrite length_zip_with. lia.
  - intros. by apply nth_zip.
  - apply filter_nth_count.
  - intros. apply length_list_to_blocks.
  - intros b k i Hk Hi. rewrite list_to_blocks_bit by done.
    destruct (decide _); [done|]. apply nth_overflow. lia.
  - intros a b. rewrite bool_decide_eq_true. split; [by intros ->|].
    intros [Hl Ht]. by apply (list_eq_nth false).
  - apply list_ltb_spec.
Qed.
