(* ===== verification/Bitfield.v ===== *)
(** * Bitfields (src/utils/bitfield.h, bitfield.cpp)

    The wrapper around the bitset: wire order of the bits, resizing, the
    difference of two bitfields and the XOR distance.  An access outside the
    bitset, or an operation on bitsets of different sizes, breaks Boost's
    documented preconditions and is undefined. *)

From Stdlib Require Import ZArith Lia Strings.Byte.
From coqutil Require Import Byte.
From S2P Require Import Prelude Bytes Bitset.

Definition SHA1_SIZE_BITS : nat := 160.

Section Bitfield.
Context {B : Type} `{DynamicBitset B}.

(** The constructors: a size, a byte vector, a byte array and its length. *)
Definition Bitfield_sized (size : nat) : B := db_make size.

Definition Bitfield_bytes (from_bytes : bytes) : B :=
  fold_left (fun bits number => db_append bits (ReverseByte number)) from_bytes (db_make 0).

Definition Bitfield_data (data : bytes) (size : nat) : outcome B :=
  if decide (size ≤ length data)%nat then
    Ok (fold_left (fun bits i => db_append bits (ReverseByte (nth i data x00)))
                  (seq 0 size) (db_make 0))
  else UB.

Definition in_range (b : B) (i : nat) : bool := bool_decide (i < db_size b)%nat.

Definition Size (b : B) : nat := db_size b.
Definition Popcount (b : B) : nat := db_count b.
Definition Test (b : B) (i : nat) : outcome bool :=
  if in_range b i then Ok (db_test b i) else UB.
Definition Set_ (b : B) (i : nat) : outcome B :=
  if in_range b i then Ok (db_set b i true) else UB.
Definition Clear (b : B) (i : nat) : outcome B :=
  if in_range b i then Ok (db_set b i false) else UB.
Definition Toggle (b : B) (i : nat) : outcome B :=
  if in_range b i then Ok (db_set b i (negb (db_test b i))) else UB.

Definition Resize (b : B) (new_size : nat) : B := db_resize b new_size.

Definition GetCast (b : B) : bytes := map ReverseByte (db_to_blocks b).

Definition GetMismatchedBitfield (main_bitfield secondary_bitfield : B) : outcome B :=
  if decide (db_size main_bitfield = db_size secondary_bitfield) then
    Ok (db_and (db_flip main_bitfield) secondary_bitfield)
  else UB.

Definition XORDistance (lhs rhs : B) : outcome B :=
  _ ← assert_ (bool_decide (Size lhs = Size rhs) && bool_decide (Size lhs = SHA1_SIZE_BITS));
  Ok (db_xor lhs rhs).

Definition bitfield_gt (lhs rhs : B) : bool := db_ltb rhs lhs.
Definition bitfield_lt (lhs rhs : B) : bool := db_ltb lhs rhs.
Definition bitfield_eq (lhs rhs : B) : bool := db_eqb lhs rhs.
Definition bitfield_ne (lhs rhs : B) : bool := negb (db_eqb lhs rhs).

(** Bitsets with the same bits. *)
#[export] Instance bitset_equiv : Equiv B := fun a b =>
  db_size a = db_size b ∧ ∀ i, (i < db_size a)%nat → db_test a i = db_test b i.

#[export] Instance bitset_equivalence : Equivalence (≡@{B}).
Proof.
  split.
  - intros a. split; auto.
  - intros a b [Hs Ht]. split; [done|]. intros i Hi. rewrite Ht; [done|lia].
  - intros a b c [Hs Ht] [Hs' Ht']. split; [congruence|].
    intros i Hi. rewrite Ht by done. apply Ht'. lia.
Qed.
End Bitfield.

Section BitfieldFacts.
Context {B : Type} `{DynamicBitsetLaws B}.
Implicit Types (a b : B) (i j : nat).

Lemma bitfield_eq_equiv a b : bitfield_eq a b = true ↔ a ≡ b.
Proof. apply db_eqb_spec. Qed.

#[export] Instance Size_proper : Proper ((≡) ==> (=)) (Size (B:=B)).
Proof. by intros a b [? _]. Qed.

#[export] Instance Test_proper : Proper ((≡) ==> (=) ==> (=)) (Test (B:=B)).
Proof.
  intros a b [Hs Ht] i ? <-. unfold Test, in_range. rewrite <- Hs.
  case_bool_decide; [|done]. by rewrite Ht.
Qed.

#[export] Instance Popcount_proper : Proper ((≡) ==> (=)) (Popcount (B:=B)).
Proof.
  intros a b [Hs Ht]. unfold Popcount. rewrite !db_count_spec, <- Hs. f_equal.
  apply filter_ext_in. intros i Hi%in_seq. apply Ht. lia.
Qed.

#[export] Instance GetCast_proper : Proper ((≡) ==> (=)) (GetCast (B:=B)).
Proof.
  intros a b [Hs Ht]. unfold GetCast. f_equal.
  apply (list_eq_nth x00); [by rewrite !db_length_blocks, Hs|].
  intros k Hk. rewrite db_length_blocks in Hk. apply byte_bits_ext. intros i Hi.
  rewrite !db_blocks_bit, Hs by (try rewrite <- Hs; done).
  case_decide; [|done]. apply Ht. lia.
Qed.

Lemma Test_Ok b i v : Test b i = Ok v ↔ (i < Size b)%nat ∧ db_test b i = v.
Proof. unfold Test, in_range, Size. case_bool_decide; naive_solver. Qed.

Lemma Test_in b i : (i < Size b)%nat → Test b i = Ok (db_test b i).
Proof. intros Hi. by apply Test_Ok. Qed.

Lemma Set_in b i :
  (i < Size b)%nat → ∃ b', Set_ b i = Ok b' ∧ Size b' = Size b ∧
    ∀ j, (j < Size b)%nat → db_test b' j = (bool_decide (j = i) || db_test b j).
Proof.
  intros Hi. exists (db_set b i true). unfold Set_, in_range. rewrite bool_decide_true by done.
  split_and!; [done|by apply db_size_set|]. intros j Hj. rewrite db_test_set by done.
  case_decide; case_bool_decide; naive_solver.
Qed.

Lemma Set_Ok_inv b i b' :
  Set_ b i = Ok b' → (i < Size b)%nat ∧ Size b' = Size b ∧
    ∀ j, (j < Size b)%nat → db_test b' j = (bool_decide (j = i) || db_test b j).
Proof.
  intros E. assert (i < Size b)%nat as Hi.
  { unfold Set_, in_range in E. case_bool_decide; [done|discriminate]. }
  destruct (Set_in b i Hi) as (b2 & E2 & ?). rewrite E in E2. by injection E2 as <-.
Qed.

(** The bit a piece number stands for: the most significant bit of the first
    byte is piece 0. *)
Definition wire_bit (v : bytes) (i : nat) : bool := byte_bit (nth (i / 8) v x00) (7 - i mod 8).

Lemma wire_bit_app v x i :
  wire_bit (v ++ [x]) i =
    if decide (i < 8 * length v)%nat then wire_bit v i
    else if decide (i / 8 = length v)%nat then byte_bit x (7 - i mod 8)
    else byte_bit x00 (7 - i mod 8).
Proof.
  unfold wire_bit. pose proof (Nat.div_mod i 8 ltac:(lia)).
  pose proof (Nat.mod_upper_bound i 8 ltac:(lia)).
  destruct (decide (i < _)%nat).
  - by rewrite app_nth1 by lia.
  - rewrite app_nth2 by lia. destruct (decide _) as [->|]; [by rewrite Nat.sub_diag|].
    rewrite nth_overflow; [done|]. cbn [length]. lia.
Qed.

Lemma Bitfield_bytes_spec v :
  Size (Bitfield_bytes v : B) = (8 * length v)%nat ∧
  ∀ i, (i < 8 * length v)%nat → db_test (Bitfield_bytes v : B) i = wire_bit v i.
Proof.
  unfold Bitfield_bytes, Size. induction v as [|x v [IHs IHt]] using rev_ind.
  { simpl. rewrite db_size_make. split; [done|]. intros; lia. }
  rewrite fold_left_app, length_app. cbn [fold_left length].
  rewrite db_size_append, IHs. split; [lia|].
  intros i Hi. rewrite db_test_append by (rewrite IHs; lia). rewrite IHs, wire_bit_app.
  destruct (decide (i < 8 * length v)%nat); [by apply IHt|].
  pose proof (Nat.div_mod i 8 ltac:(lia)). pose proof (Nat.mod_upper_bound i 8 ltac:(lia)).
  assert (i / 8 = length v)%nat as Hq by lia. rewrite decide_True by done.
  rewrite ReverseByte_bit by lia. f_equal. lia.
Qed.

Lemma Bitfield_data_bytes data :
  (Bitfield_data data (length data) : outcome B) = Ok (Bitfield_bytes data).
Proof.
  unfold Bitfield_data, Bitfield_bytes. rewrite decide_True by lia. f_equal.
  assert (∀ n (acc : B), (n ≤ length data)%nat →
    fold_left (fun bits i => db_append bits (ReverseByte (nth i data x00))) (seq 0 n) acc
    = fold_left (fun bits number => db_append bits (ReverseByte number)) (take n data) acc) as E.
  { induction n as [|n IH]; intros acc Hn; [done|].
    rewrite seq_S, fold_left_app, IH by lia. simpl.
    destruct (lookup_lt_is_Some_2 data n ltac:(lia)) as [x Hx].
    rewrite (take_S_r _ _ _ Hx), fold_left_app. simpl.
    by rewrite nth_lookup_default, Hx. }
  rewrite E by lia. by rewrite take_ge.
Qed.

Lemma length_GetCast b : length (GetCast b) = ((Size b + 7) / 8)%nat.
Proof. unfold GetCast. by rewrite length_map, db_length_blocks. Qed.

Lemma GetCast_bit b i : (i < Size b)%nat → wire_bit (GetCast b) i = db_test b i.
Proof.
  intros Hi. unfold wire_bit, GetCast.
  pose proof (Nat.div_mod i 8 ltac:(lia)). pose proof (Nat.mod_upper_bound i 8 ltac:(lia)).
  assert (i / 8 < (db_size b + 7) / 8)%nat as Hk.
  { unfold Size in Hi. apply (Nat.lt_le_trans _ ((i + 8) / 8)).
    - replace (i + 8)%nat with (i + 1 * 8)%nat by lia. rewrite Nat.div_add by lia. lia.
    - apply Nat.Div0.div_le_mono. lia. }
  rewrite (nth_indep _ _ (ReverseByte x00)) by (by rewrite length_map, db_length_blocks).
  rewrite map_nth, ReverseByte_bit, db_blocks_bit by lia.
  replace (8 * (i / 8) + (7 - (7 - i mod 8)))%nat with i by lia. by rewrite decide_True.
Qed.

Lemma GetCast_padding b i :
  (Size b ≤ i < 8 * ((Size b + 7) / 8))%nat → wire_bit (GetCast b) i = false.
Proof.
  intros Hi. unfold wire_bit, GetCast.
  pose proof (Nat.div_mod i 8 ltac:(lia)). pose proof (Nat.mod_upper_bound i 8 ltac:(lia)).
  unfold Size in Hi.
  rewrite (nth_indep _ _ (ReverseByte x00)) by (rewrite length_map, db_length_blocks; lia).
  rewrite map_nth, ReverseByte_bit, db_blocks_bit by lia.
  rewrite decide_False; [done|]. lia.
Qed.

Lemma GetCast_Bitfield_bytes v : GetCast (Bitfield_bytes v : B) = v.
Proof.
  destruct (Bitfield_bytes_spec v) as [Hs Ht].
  assert (length (GetCast (Bitfield_bytes v : B)) = length v) as Hl.
  { rewrite length_GetCast, Hs. rewrite Nat.mul_comm, Nat.div_add_l by lia. simpl. lia. }
  apply (list_eq_nth x00); [done|]. rewrite Hl. intros k Hk. apply byte_bits_ext. intros i Hi.
  assert ((8 * k + (7 - i)) / 8 = k ∧ (8 * k + (7 - i)) mod 8 = 7 - i)%nat as [Hq Hr].
  { apply nat_div_mod_unique. lia. }
  pose proof (GetCast_bit (Bitfield_bytes v : B) (8 * k + (7 - i)) ltac:(lia)) as E.
  rewrite (Ht (8 * k + (7 - i))%nat) in E by lia. unfold wire_bit in E. rewrite Hq, Hr in E.
  by replace (7 - (7 - i))%nat with i in E by lia.
Qed.

Lemma Bitfield_bytes_GetCast b :
  Resize (Bitfield_bytes (GetCast b) : B) (Size b) ≡ b.
Proof.
  destruct (Bitfield_bytes_spec (GetCast b)) as [Hs Ht]. rewrite length_GetCast in Hs, Ht.
  pose proof (Nat.div_mod (Size b + 7) 8 ltac:(lia)).
  pose proof (Nat.mod_upper_bound (Size b + 7) 8 ltac:(lia)).
  pose proof (GetCast_bit b) as Hg. unfold Resize, Size in *.
  split; rewrite db_size_resize; [done|]. intros i Hi.
  rewrite db_test_resize by done. rewrite decide_True by (rewrite Hs; lia).
  rewrite Ht by lia. by apply Hg.
Qed.

Lemma Mismatched_Ok main sec :
  Size main = Size sec → ∃ m, GetMismatchedBitfield main sec = Ok m ∧ Size m = Size main ∧
    ∀ i, (i < Size main)%nat → db_test m i = negb (db_test main i) && db_test sec i.
Proof.
  intros Hs. unfold Size in *. eexists. unfold GetMismatchedBitfield. rewrite decide_True by done.
  split; [done|]. rewrite db_size_and, db_size_flip by by rewrite db_size_flip.
  split; [done|]. intros i Hi. rewrite db_test_and, db_test_flip; rewrite ?db_size_flip; done.
Qed.

Lemma Mismatched_Ok_inv main sec m :
  GetMismatchedBitfield main sec = Ok m →
  Size main = Size sec ∧ Size m = Size main ∧
  ∀ i, (i < Size main)%nat → db_test m i = negb (db_test main i) && db_test sec i.
Proof.
  intros E. assert (Size main = Size sec) as Hs.
  { unfold GetMismatchedBitfield in E. case_decide; [done|discriminate]. }
  destruct (Mismatched_Ok main sec Hs) as (m' & E' & ?). rewrite E in E'. by injection E' as <-.
Qed.

Lemma Popcount_zero b : Popcount b = 0%nat ↔ ∀ i, (i < Size b)%nat → db_test b i = false.
Proof.
  unfold Popcount, Size. rewrite db_count_spec. split.
  - intros Hl%length_zero_iff_nil i Hi. destruct (db_test b i) eqn:E; [|done].
    assert (In i (List.filter (db_test b) (seq 0 (db_size b)))) as Hin.
    { apply List.filter_In. split; [apply in_seq; lia|done]. }
    by rewrite Hl in Hin.
  - intros Ht. apply length_zero_iff_nil. destruct (List.filter _ _) as [|i l] eqn:E; [done|].
    assert (In i (List.filter (db_test b) (seq 0 (db_size b)))) as [Hi%in_seq Hf]%List.filter_In
      by (rewrite E; by left).
    rewrite Ht in Hf by lia. done.
Qed.

Lemma filter_length_all {A} (f : A → bool) l :
  length (List.filter f l) = length l → ∀ x, In x l → f x = true.
Proof.
  induction l as [|y l IH]; [done|]. simpl. pose proof (List.filter_length_le f l).
  destruct (f y) eqn:E; simpl; [|lia]. intros Hl x [->|Hx]; [done|]. apply IH; [lia|done].
Qed.

Lemma Popcount_full b : Popcount b = Size b ↔ ∀ i, (i < Size b)%nat → db_test b i = true.
Proof.
  unfold Popcount, Size. rewrite db_count_spec. split.
  - intros Hl i Hi. rewrite <- (length_seq (db_size b) 0) in Hl at 2.
    apply (filter_length_all _ _ Hl), in_seq. lia.
  - intros Ht. rewrite <- (length_seq (db_size b) 0) at 2. f_equal.
    apply forallb_filter_id, forallb_forall. intros i Hi%in_seq. apply Ht. lia.
Qed.
End BitfieldFacts.

(** ** Properties *)

(** The bytes of a bitfield built from bytes are those bytes, and a bitfield
    rebuilt from its own bytes and cut to its size has the same bits. *)
Theorem Bitfield_cast_roundtrip {B : Type} `{DynamicBitsetLaws B} :
  (∀ v, GetCast (Bitfield_bytes v : B) = v) ∧
  (∀ b : B, Resize (Bitfield_bytes (GetCast b) : B) (Size b) ≡ b).
Proof. split; [apply GetCast_Bitfield_bytes|apply Bitfield_bytes_GetCast]. Qed.

Lemma Bitfield_cast_roundtrip_witness :
  (∀ v, GetCast (Bitfield_bytes v : list bool) = v) ∧
  (∀ b : list bool, Resize (Bitfield_bytes (GetCast b) : list bool) (Size b) ≡ b).
Proof. apply (Bitfield_cast_roundtrip (B:=list bool)). Defined.

(** Piece [i] of a bitfield received as bytes is bit [7 - i mod 8] of byte
    [i / 8], the order of the wire format, and reading past the bytes is undefined. *)
Theorem Bitfield_bit_order {B : Type} `{DynamicBitsetLaws B} v i :
  Test (Bitfield_bytes v : B) i =
    if bool_decide (i < 8 * length v)%nat
    then Ok (Z.testbit (byte.unsigned (nth (i / 8) v x00)) (7 - Z.of_nat i mod 8)) else UB.
Proof.
  destruct (Bitfield_bytes_spec (B:=B) v) as [Hs Ht]. unfold Test, in_range.
  unfold Size in Hs. rewrite Hs. case_bool_decide as Hi; [|done]. rewrite Ht by done.
  unfold wire_bit, byte_bit. pose proof (Nat.mod_upper_bound i 8 ltac:(lia)).
  do 2 f_equal. rewrite Nat2Z.inj_sub, Nat2Z.inj_mod by lia. done.
Qed.

Lemma Bitfield_bit_order_witness :
  Test (Bitfield_bytes [x80; x01] : list bool) 15 = Ok true.
Proof. exact (Bitfield_bit_order (B:=list bool) [x80; x01] 15). Defined.
