(* ===== verification/Message.v ===== *)
(** * Messages (src/Network/Primitives/Message.h, Message.cpp)

    The typed reader and writer over byte buffers, in either byte order, and
    the length-prefixed peer messages built on them. *)

From Stdlib Require Import ZArith Lia Strings.Byte.
From coqutil Require Import Byte Word.LittleEndianList.
From S2P Require Import Prelude Bytes Streams.

Inductive ByteOrder := BigEndian | LittleEndian.

#[export] Instance ByteOrder_eq_dec : EqDecision ByteOrder.
Proof. solve_decision. Defined.

(** ** Messages *)

(** [ReceivingMessage] with the field of [ReceivingPeerMessage]; [arr_] is a
    view of the bytes received. *)
Record ReceivingMessage := {
  rm_arr : bytes;
  rm_inp_pos : nat;
  rm_order : ByteOrder;
  rm_body_size : Z;
}.

Definition rm_make (data : bytes) (bo : ByteOrder) : ReceivingMessage :=
  {| rm_arr := data; rm_inp_pos := 0; rm_order := bo; rm_body_size := 0 |}.

Definition rm_set_pos (m : ReceivingMessage) (p : nat) : ReceivingMessage :=
  {| rm_arr := rm_arr m; rm_inp_pos := p; rm_order := rm_order m; rm_body_size := rm_body_size m |}.

(** [SendingMessage]; [SendingPeerMessage] adds no field. *)
Record SendingMessage := {
  sm_data : bytes;
  sm_out_pos : nat;
  sm_order : ByteOrder;
}.

Definition header_length : nat := 4.
Definition id_length : nat := 1.

Definition sm_make (bo : ByteOrder) : SendingMessage :=
  {| sm_data := []; sm_out_pos := 0; sm_order := bo |}.

(** The constructor of [SendingPeerMessage] leaves room for the header. *)
Definition SendingPeerMessage (bo : ByteOrder) : SendingMessage :=
  {| sm_data := replicate header_length x00; sm_out_pos := header_length; sm_order := bo |}.

Inductive PEER_MESSAGE_TYPE :=
  | choke | unchoke | interested | not_interested | have | bitfield
  | request | piece_block | cancel | port.

#[export] Instance PEER_MESSAGE_TYPE_eq_dec : EqDecision PEER_MESSAGE_TYPE.
Proof. solve_decision. Defined.

Definition type_id (t : PEER_MESSAGE_TYPE) : Z :=
  match t with
  | choke => 0 | unchoke => 1 | interested => 2 | not_interested => 3 | have => 4
  | bitfield => 5 | request => 6 | piece_block => 7 | cancel => 8 | port => 9
  end.

(** The enumerator of an id byte; other values of the enum have no name. *)
Definition type_of_id (b : byte) : option PEER_MESSAGE_TYPE :=
  match byte.unsigned b with
  | 0 => Some choke | 1 => Some unchoke | 2 => Some interested | 3 => Some not_interested
  | 4 => Some have | 5 => Some bitfield | 6 => Some request | 7 => Some piece_block
  | 8 => Some cancel | 9 => Some port | _ => None
  end.

(** ** Reading *)

(** [CopyTo(data, size)]: [memcpy] does not look at the size of the view. *)
Definition CopyTo (m : ReceivingMessage) (size : nat) : outcome (bytes * ReceivingMessage) :=
  if decide (rm_inp_pos m + size ≤ length (rm_arr m))%nat then
    Ok (take size (drop (rm_inp_pos m) (rm_arr m)), rm_set_pos m (rm_inp_pos m + size))
  else UB.

Definition take_while (f : byte → bool) : bytes → bytes :=
  fix go l := match l with b :: r => if f b then b :: go r else [] | [] => [] end.

(** The two loops of [GetLine] and [GetString]; starting past the end of the
    view they would never meet [arr_.size()]. *)
Definition get_token (f : byte → bool) (m : ReceivingMessage) : outcome (bytes * ReceivingMessage) :=
  if decide (rm_inp_pos m ≤ length (rm_arr m))%nat then
    let rest := drop (rm_inp_pos m) (rm_arr m) in
    let tok := take_while f rest in
    let spaces := take_while isspace (drop (length tok) rest) in
    Ok (tok, rm_set_pos m (rm_inp_pos m + length tok + length spaces))
  else UB.

Definition GetLine : ReceivingMessage → outcome (bytes * ReceivingMessage) :=
  get_token (fun b => negb (bool_decide (b = x0a))).
Definition GetString : ReceivingMessage → outcome (bytes * ReceivingMessage) :=
  get_token (fun b => negb (isspace b)).

Definition DecodeHeader (m : ReceivingMessage) (size : Z) : ReceivingMessage :=
  {| rm_arr := rm_arr m; rm_inp_pos := rm_inp_pos m; rm_order := rm_order m; rm_body_size := size |}.

(** [SetBuffer]: the id byte counts as read. *)
Definition SetBuffer (m : ReceivingMessage) (data : bytes) : ReceivingMessage :=
  {| rm_arr := data; rm_inp_pos := 1; rm_order := rm_order m; rm_body_size := rm_body_size m |}.

(** [Type()] of a received message: the first byte of the view. *)
Definition rm_Type (m : ReceivingMessage) : outcome byte := opt_ub (rm_arr m !! 0%nat).

(** ** Writing *)

Definition CopyFrom (m : SendingMessage) (data : bytes) : SendingMessage :=
  {| sm_data := sm_data m ++ data; sm_out_pos := sm_out_pos m + length data; sm_order := sm_order m |}.

(** [CopyFrom(const Message &)] *)
Definition CopyFrom_message (m : SendingMessage) (msg_buf : ReceivingMessage) : SendingMessage :=
  CopyFrom m (rm_arr msg_buf).

(** The [int]s an [istream_iterator<int>] range delivers, as [uint8_t]s. *)
Fixpoint istream_ints (fuel : nat) (ist : istream) : bytes :=
  match fuel with
  | O => []
  | S f =>
      let '(o, ist) := read_num true 32 ist in
      match o with
      | Some v => if is_fail ist then [] else byte.of_Z v :: istream_ints f ist
      | None => []
      end
  end.

(** [CopyFrom(std::istream &)]; each number takes at least one character. *)
Definition CopyFrom_stream (m : SendingMessage) (ist : istream) : SendingMessage :=
  CopyFrom m (istream_ints (S (length (is_buf ist))) ist).

Definition Clear_message (m : SendingMessage) : SendingMessage :=
  {| sm_data := []; sm_out_pos := 0; sm_order := sm_order m |}.

Definition MakeReading (m : SendingMessage) : ReceivingMessage := rm_make (sm_data m) (sm_order m).

Section Typed.
Context `{Host}.

(** [operator>>] for a [T] of [sz] bytes, its value unsigned. *)
Definition get_value (sz : nat) (m : ReceivingMessage) : outcome (Z * ReceivingMessage) :=
  '(bs, m) ← CopyTo m sz;
  Ok (match rm_order m with
      | BigEndian => BigToNative sz (ArrayToValue sz bs)
      | LittleEndian => LittleToNative sz (ArrayToValue sz bs)
      end, m).

(** [operator<<] for a [T] of [sz] bytes. *)
Definition put_value (m : SendingMessage) (sz : nat) (value : Z) : SendingMessage :=
  match sm_order m with
  | BigEndian => CopyFrom m (ValueToArray sz (NativeToBig sz value))
  | LittleEndian => CopyFrom m (ValueToArray sz (NativeToLittle sz value))
  end.

Definition put_type (m : SendingMessage) (t : PEER_MESSAGE_TYPE) : SendingMessage :=
  put_value m 1 (type_id t).

(** [EncodeHeader]: the length of what follows the header, over its first bytes. *)
Definition EncodeHeader (m : SendingMessage) : outcome SendingMessage :=
  let body_size := u32 (u64 (Z.of_nat (length (sm_data m)) - Z.of_nat header_length)) in
  let encode_body_length := NativeToBig 4 body_size in
  if decide (header_length ≤ length (sm_data m))%nat then
    Ok {| sm_data := ValueToArray 4 encode_body_length ++ drop 4 (sm_data m);
          sm_out_pos := sm_out_pos m; sm_order := sm_order m |}
  else UB.

(** A sequence of fields of given sizes, written and read. *)
Fixpoint put_fields (m : SendingMessage) (fs : list (nat * Z)) : SendingMessage :=
  match fs with
  | [] => m
  | (sz, v) :: fs => put_fields (put_value m sz v) fs
  end.

Fixpoint get_fields (m : ReceivingMessage) (szs : list nat) : outcome (list Z * ReceivingMessage) :=
  match szs with
  | [] => Ok ([], m)
  | sz :: szs =>
      '(v, m) ← get_value sz m;
      '(vs, m) ← get_fields m szs;
      Ok (v :: vs, m)
  end.
End Typed.

(** ** Facts *)

(** The bytes of one field in the given order, whatever the host. *)
Definition field_bytes (bo : ByteOrder) (sz : nat) (v : Z) : bytes :=
  match bo with BigEndian => be_split sz v | LittleEndian => le_split sz v end.

Lemma length_field_bytes bo sz v : length (field_bytes bo sz v) = sz.
Proof. destruct bo; [apply length_be_split|apply length_le_split]. Qed.

Lemma put_value_bytes `{Host} m sz v :
  put_value m sz v = CopyFrom m (field_bytes (sm_order m) sz v).
Proof.
  unfold put_value, field_bytes. destruct (sm_order m);
    by rewrite ?NativeToBig_bytes, ?NativeToLittle_bytes.
Qed.

Lemma put_fields_data `{Host} m fs :
  sm_data (put_fields m fs)
    = sm_data m ++ concat (map (fun '(sz, v) => field_bytes (sm_order m) sz v) fs) ∧
  sm_order (put_fields m fs) = sm_order m.
Proof.
  revert m. induction fs as [|[sz v] fs IH]; intros m; cbn [put_fields map concat];
    [by rewrite app_nil_r|].
  destruct (IH (put_value m sz v)) as [E1 E2]. rewrite E1, E2, put_value_bytes.
  cbn [CopyFrom sm_data sm_order]. by rewrite <- app_assoc.
Qed.

Lemma CopyTo_app m pre bs post :
  rm_arr m = pre ++ bs ++ post → rm_inp_pos m = length pre →
  CopyTo m (length bs) = Ok (bs, rm_set_pos m (length pre + length bs)).
Proof.
  intros Ha Hp. unfold CopyTo. rewrite Ha, Hp. rewrite decide_True by (rewrite !length_app; lia).
  by rewrite drop_app_length, take_app_length.
Qed.

Lemma get_value_app `{Host} m pre sz v post :
  rm_arr m = pre ++ field_bytes (rm_order m) sz v ++ post → rm_inp_pos m = length pre →
  get_value sz m = Ok (v mod 2 ^ (8 * Z.of_nat sz), rm_set_pos m (length pre + sz)).
Proof.
  intros Ha Hp. unfold get_value. rewrite Z.mul_comm.
  pose proof (CopyTo_app m pre _ post Ha Hp) as E. rewrite length_field_bytes in E. rewrite E.
  cbn [mbind outcome_bind]. unfold field_bytes, rm_set_pos. cbn [rm_order]. destruct (rm_order m).
  - by rewrite BigToNative_bytes, be_combine_split by apply length_be_split.
  - by rewrite LittleToNative_bytes, le_combine_split by apply length_le_split.
Qed.

Lemma get_fields_app `{Host} fs m pre post :
  rm_arr m = pre ++ concat (map (fun '(sz, v) => field_bytes (rm_order m) sz v) fs) ++ post →
  rm_inp_pos m = length pre →
  ∃ m', get_fields m (map fst fs) = Ok (map (fun '(sz, v) => v mod 2 ^ (8 * Z.of_nat sz)) fs, m') ∧
    rm_arr m' = rm_arr m.
Proof.
  revert m pre. induction fs as [|[sz v] fs IH]; intros m pre Ha Hp; cbn [get_fields map];
    [by exists m|]. cbn [map concat] in Ha. rewrite <- app_assoc in Ha.
  rewrite (get_value_app _ _ _ _ _ Ha Hp). cbn [mbind outcome_bind].
  destruct (IH (rm_set_pos m (length pre + sz)) (pre ++ field_bytes (rm_order m) sz v))
    as (m' & E & Ha'); cbn [rm_set_pos rm_arr rm_order rm_inp_pos].
  - by rewrite <- app_assoc.
  - by rewrite length_app, length_field_bytes.
  - exists m'. rewrite E. cbn [mbind outcome_bind]. done.
Qed.

Lemma get_value_Ok_inv `{Host} sz m v m' :
  get_value sz m = Ok (v, m') →
  (rm_inp_pos m + sz ≤ length (rm_arr m))%nat ∧ m' = rm_set_pos m (rm_inp_pos m + sz) ∧
  0 ≤ v < 2 ^ (8 * Z.of_nat sz).
Proof.
  unfold get_value, CopyTo. case_decide as Hl; [|done]. cbn [mbind outcome_bind].
  intros [= <- <-]. split; [done|]. split; [done|].
  set (bs := take sz _).
  assert (length bs = sz) as Hb by (subst bs; rewrite length_take, length_drop; lia).
  clearbody bs. cbn [rm_set_pos rm_order]. destruct (rm_order m).
  - rewrite BigToNative_bytes by done. subst sz. apply be_combine_range.
  - rewrite LittleToNative_bytes by done. subst sz. apply le_combine_bound.
Qed.

Lemma EncodeHeader_frame `{Host} m body :
  sm_data m = replicate header_length x00 ++ body → Z.of_nat (length body) < 2 ^ 32 →
  EncodeHeader m = Ok {| sm_data := be_split 4 (Z.of_nat (length body)) ++ body;
                         sm_out_pos := sm_out_pos m; sm_order := sm_order m |}.
Proof.
  intros Hd Hl. unfold EncodeHeader. rewrite Hd, length_app, length_replicate.
  rewrite decide_True by lia. do 2 f_equal. rewrite NativeToBig_bytes.
  rewrite u64_small, u32_small by (rewrite ?u64_small; unfold header_length; lia).
  f_equal. f_equal. unfold header_length. lia.
Qed.

(** ** Properties *)

(** Fields of any sizes written in either byte order on one host are read
    back on any host, each reduced modulo its width; nothing else of the buffer
    is read. *)
Theorem message_fields_roundtrip (h1 h2 : Host) bo fs :
  ∃ m', get_fields (H:=h2) (MakeReading (put_fields (H:=h1) (sm_make bo) fs)) (map fst fs)
    = Ok (map (fun '(sz, v) => v mod 2 ^ (8 * Z.of_nat sz)) fs, m').
Proof.
  destruct (put_fields_data (H:=h1) (sm_make bo) fs) as [Hd Ho].
  destruct (get_fields_app (H:=h2) fs (MakeReading (put_fields (H:=h1) (sm_make bo) fs)) [] [])
    as (m' & E & _).
  - unfold MakeReading, rm_make. cbn [rm_arr rm_order]. rewrite Hd, Ho, app_nil_r. done.
  - done.
  - by exists m'.
Qed.

Lemma message_fields_roundtrip_ex :
  sm_data (put_fields (H:=x86_64) (sm_make BigEndian) [(1%nat, 4); (4%nat, 0x01020304)])
    = [x04; x01; x02; x03; x04].
Proof. vm_compute. reflexivity. Qed.

(** The header of a peer message is the big-endian length of its body: a
    frame made on one host is split into the same length and body on any other. *)
Theorem frame_roundtrip (h1 h2 : Host) m body :
  sm_data m = replicate header_length x00 ++ body → Z.of_nat (length body) < 2 ^ 32 →
  ∃ m' r, EncodeHeader (H:=h1) m = Ok m' ∧ length (sm_data m') = (header_length + length body)%nat ∧
    get_value (H:=h2) 4 (rm_make (sm_data m') BigEndian) = Ok (Z.of_nat (length body), r) ∧
    drop (rm_inp_pos r) (rm_arr r) = body.
Proof.
  intros Hd Hl. rewrite (EncodeHeader_frame (H:=h1) m body Hd Hl).
  eexists _, _. split; [done|]. cbn [sm_data].
  split; [by rewrite length_app, length_be_split|]. split.
  - rewrite (get_value_app (H:=h2) _ [] 4 (Z.of_nat (length body)) body) by done.
    by rewrite Z.mod_small by lia.
  - cbn [rm_set_pos rm_inp_pos rm_arr rm_make Nat.add length].
    rewrite <- (length_be_split 4 (Z.of_nat (length body))) at 1. apply drop_app_length.
Qed.

Lemma frame_roundtrip_witness :
  ∃ m' r, EncodeHeader (H:=big_host)
      (put_value (H:=big_host) (put_type (H:=big_host) (SendingPeerMessage BigEndian) have) 4 7) = Ok m' ∧
    length (sm_data m') = (header_length + 5)%nat ∧
    get_value (H:=x86_64) 4 (rm_make (sm_data m') BigEndian) = Ok (5, r) ∧
    drop (rm_inp_pos r) (rm_arr r) = [x04; x00; x00; x00; x07].
Proof.
  apply (frame_roundtrip big_host x86_64 _ [x04; x00; x00; x00; x07]).
  - vm_compute. reflexivity.
  - vm_compute. reflexivity.
Defined.
