(* ===== verification/Piece.v ===== *)
(** * Pieces and blocks (src/BitTorrent/Primitives/Piece.h, Piece.cpp)

    A piece under download is a vector of blocks; its bytes are addressed
    through the size of its first block. *)

From Stdlib Require Import ZArith Lia Strings.Byte.
From coqutil Require Import Byte.
From S2P Require Import Prelude Bytes Text.

(** The largest block a peer may ask for, [std::pow(2, 14)] in constants.h. *)
Definition most_request_size : Z := 16384.

Record Block := mkBlock { data_ : bytes; begin_ : Z }.

#[export] Instance Block_eq_dec : EqDecision Block.
Proof. solve_decision. Defined.

(** The value-initialised block [resize] appends. *)
Definition empty_block : Block := mkBlock [] 0.

Record Piece := mkPiece {
  blocks : list Block;
  current_blocks_num : Z;
  block_count : Z;
  index : Z;
}.

#[export] Instance Piece_eq_dec : EqDecision Piece.
Proof. solve_decision. Defined.

(** The constructor. *)
Definition new_piece (idx bc : Z) : Piece :=
  mkPiece (replicate (Z.to_nat bc) empty_block) 0 bc idx.

Definition piece_data (p : Piece) : bytes := concat (map data_ (blocks p)).

Definition size (p : Piece) : Z :=
  fold_left (fun size block => size + Z.of_nat (length (data_ block))) (blocks p) 0.

(** [operator[]]: both vector accesses are unchecked, and a first block
    without data makes the division undefined. *)
Definition at_byte (p : Piece) (idx : nat) : outcome byte :=
  first ← opt_ub (head (blocks p));
  let mid_size := length (data_ first) in
  if decide (mid_size = 0%nat) then UB
  else
    block ← opt_ub (blocks p !! (idx / mid_size)%nat);
    opt_ub (data_ block !! (idx mod mid_size)%nat).

(** A piece whose storage has been moved elsewhere: the vector is left empty,
    the counters are copied. *)
Definition moved_from (p : Piece) : Piece :=
  mkPiece [] (current_blocks_num p) (block_count p) (index p).

Section Hash.
Context `{Host} `{Sha1}.

Definition GetSHA1FromPiece (p_arg : Piece) : bytes :=
  digest_bytes (sha1_get_digest
    (fold_left (fun h block => sha1_process_block h (data_ block)) (blocks p_arg) sha1_init)).
End Hash.

(** ** Facts *)

(** The shape a piece has when it is complete: every block but the last has the
    size of the first one, the last one is not longer. *)
Fixpoint uniform (mid : nat) (l : list Block) : Prop :=
  match l with
  | [] => True
  | [b] => (length (data_ b) ≤ mid)%nat
  | b :: l => length (data_ b) = mid ∧ uniform mid l
  end.

Definition well_shaped (p : Piece) : Prop :=
  ∃ b l, blocks p = b :: l ∧ length (data_ b) ≠ 0%nat ∧ uniform (length (data_ b)) (blocks p).

Lemma size_data p : size p = Z.of_nat (length (piece_data p)).
Proof.
  unfold size, piece_data. assert (∀ acc, fold_left
    (fun size block => size + Z.of_nat (length (data_ block))) (blocks p) acc
    = acc + Z.of_nat (length (concat (map data_ (blocks p))))) as E.
  { induction (blocks p) as [|b l IH]; intros acc; cbn [fold_left map concat length]; [lia|].
    rewrite IH, length_app. lia. }
  rewrite E. lia.
Qed.

Lemma uniform_tail mid b l : uniform mid (b :: l) → uniform mid l.
Proof. destruct l; [done|]. by intros [_ ?]. Qed.

(** One block of [mid] bytes further. *)
Lemma div_mod_step mid j : (0 < mid)%nat → ((mid + j) / mid = S (j / mid) ∧ (mid + j) mod mid = j mod mid)%nat.
Proof.
  intros Hm. pose proof (Nat.div_mod j mid ltac:(lia)). pose proof (Nat.mod_upper_bound j mid ltac:(lia)).
  destruct (nat_div_mod_unique (S (j / mid)) (j mod mid) mid) as [E1 E2]; [lia|].
  replace (mid * S (j / mid) + j mod mid)%nat with (mid + j)%nat in E1, E2 by lia. done.
Qed.

(** Byte [i] of a row of blocks of [mid] bytes. *)
Definition block_byte (mid : nat) (l : list Block) (i : nat) : outcome byte :=
  block ← opt_ub (l !! (i / mid)%nat); opt_ub (data_ block !! (i mod mid)%nat).

Lemma block_byte_first mid b l i : (i < mid)%nat → block_byte mid (b :: l) i = opt_ub (data_ b !! i).
Proof. intros Hi. unfold block_byte. by rewrite Nat.div_small, Nat.mod_small. Qed.

Lemma block_byte_next mid b l j : (0 < mid)%nat → block_byte mid (b :: l) (mid + j) = block_byte mid l j.
Proof. intros Hm. unfold block_byte. by destruct (div_mod_step mid j Hm) as [-> ->]. Qed.

Lemma uniform_lookup mid l i :
  uniform mid l → (0 < mid)%nat → block_byte mid l i = opt_ub (concat (map data_ l) !! i).
Proof.
  revert i. induction l as [|b l IH]; intros i Hu Hm.
  { unfold block_byte. by rewrite lookup_nil. }
  cbn [map concat]. destruct (decide (i < mid)%nat) as [Hi|Hi].
  - rewrite block_byte_first by done.
    destruct l as [|b' l']; [by rewrite app_nil_r|]. destruct Hu as [Hl _].
    by rewrite lookup_app_l by lia.
  - replace i with (mid + (i - mid))%nat by lia. rewrite block_byte_next by done.
    destruct l as [|b' l'].
    + cbn [uniform map concat] in *. unfold block_byte. rewrite app_nil_r, (lookup_ge_None_2 (data_ b)) by lia.
      reflexivity.
    + destruct Hu as [Hl Hu]. rewrite lookup_app_r by lia. rewrite Hl.
      replace (mid + (i - mid) - mid)%nat with (i - mid)%nat by lia. by apply IH.
Qed.

(** Blocks that have a byte at every position below [n] have [n] bytes. *)
Lemma block_bytes_cover mid l n :
  (0 < mid)%nat → (∀ i, (i < n)%nat → is_Ok (block_byte mid l i)) → (n ≤ length (concat (map data_ l)))%nat.
Proof.
  revert n. induction l as [|b l IH]; intros n Hm Hi.
  { destruct n as [|n]; [lia|]. destruct (Hi O ltac:(lia)) as [x Hx]. unfold block_byte in Hx.
    rewrite lookup_nil in Hx. discriminate Hx. }
  cbn [map concat]. rewrite length_app.
  assert (∀ i, (i < n)%nat → (i < mid)%nat → (i < length (data_ b))%nat) as Hb.
  { intros i Hn Hlt. destruct (Hi i Hn) as [x Hx]. rewrite block_byte_first in Hx by done.
    apply opt_ub_Ok in Hx. by apply lookup_lt_Some in Hx. }
  destruct (decide (n ≤ mid)%nat) as [Hle|Hgt].
  - destruct n as [|n]; [lia|]. specialize (Hb n). lia.
  - specialize (IH (n - mid)%nat Hm). specialize (Hb (mid - 1)%nat).
    assert (n - mid ≤ length (concat (map data_ l)))%nat; [|lia]. apply IH. intros i Hlt.
    rewrite <- (block_byte_next mid b) by done. apply Hi. lia.
Qed.

(** Blocks of any sizes, if they have a byte at every position, have the right one. *)
Lemma block_bytes_right mid l i :
  (0 < mid)%nat → (∀ i, (i < length (concat (map data_ l)))%nat → is_Ok (block_byte mid l i)) →
  (i < length (concat (map data_ l)))%nat → block_byte mid l i = opt_ub (concat (map data_ l) !! i).
Proof.
  intros Hm. revert i. induction l as [|b l IH]; intros i Hc Hi; [cbn in Hi; lia|].
  cbn [map concat] in *. rewrite length_app in *. destruct (decide (i < mid)%nat) as [Hlt|Hge].
  - rewrite block_byte_first by done. destruct (Hc i Hi) as [x Hx]. rewrite block_byte_first in Hx by done.
    apply opt_ub_Ok, lookup_lt_Some in Hx. by rewrite lookup_app_l.
  - assert (length (data_ b) = mid) as Hl.
    { destruct (Hc (mid - 1)%nat ltac:(lia)) as [x Hx]. rewrite block_byte_first in Hx by lia.
      apply opt_ub_Ok, lookup_lt_Some in Hx.
      pose proof (block_bytes_cover mid l (length (data_ b) + length (concat (map data_ l)) - mid) Hm) as Hle.
      assert (length (data_ b) + length (concat (map data_ l)) - mid ≤ length (concat (map data_ l)))%nat; [|lia].
      apply Hle. intros j Hj. rewrite <- (block_byte_next mid b) by done. apply Hc. lia. }
    replace i with (mid + (i - mid))%nat by lia. rewrite block_byte_next by done.
    rewrite lookup_app_r by lia. rewrite Hl. replace (mid + (i - mid) - mid)%nat with (i - mid)%nat by lia.
    apply IH; [|lia]. intros j Hj. rewrite <- (block_byte_next mid b) by done. apply Hc. lia.
Qed.

Lemma at_byte_block p b l i :
  blocks p = b :: l → length (data_ b) ≠ 0%nat → at_byte p i = block_byte (length (data_ b)) (blocks p) i.
Proof. intros Hb Hn. unfold at_byte. rewrite Hb. cbn [head opt_ub mbind outcome_bind]. by rewrite decide_False. Qed.

(** Addressing a piece through its first block reads its bytes in order. *)
Definition addressable (p : Piece) : Prop :=
  ∀ i, (i < length (piece_data p))%nat → at_byte p i = opt_ub (piece_data p !! i).

Lemma well_shaped_addressable p : well_shaped p → addressable p.
Proof.
  intros (b & l & Hb & Hn & Hu) i _. rewrite (at_byte_block p b l i Hb Hn). apply uniform_lookup; [done|lia].
Qed.

(** A piece every byte of which can be addressed has them in order. *)
Lemma addressed_addressable p :
  (∀ i, (i < length (piece_data p))%nat → is_Ok (at_byte p i)) → addressable p.
Proof.
  intros Hc i Hi. destruct (Hc i Hi) as [x Hx]. unfold at_byte in Hx.
  destruct (blocks p) as [|b l] eqn:Hb; [discriminate Hx|]. cbn [head opt_ub mbind outcome_bind] in Hx.
  destruct (decide (length (data_ b) = 0)%nat) as [|Hn]; [discriminate Hx|]. clear Hx.
  rewrite (at_byte_block p b l i Hb Hn). apply block_bytes_right; [lia| |done].
  intros j Hj. rewrite <- (at_byte_block p b l j Hb Hn). by apply Hc.
Qed.

Section HashFacts.
Context `{Host} `{S : Sha1} `{!Sha1Laws S}.

Lemma GetSHA1FromPiece_data p : GetSHA1FromPiece p = GetSHA1 (piece_data p).
Proof.
  unfold GetSHA1FromPiece, GetSHA1, piece_data. f_equal. f_equal.
  generalize sha1_init as h. induction (blocks p) as [|b l IH]; intros h; cbn [fold_left map concat].
  - by rewrite sha1_process_nil.
  - by rewrite IH, sha1_block_bytes, sha1_process_app.
Qed.
End HashFacts.

(** ** Properties *)

(** The digest of a piece is the SHA-1 of its blocks' bytes in order, however
    they are cut, and it is twenty bytes long. *)
Theorem piece_digest_correct `{Host} `{S : Sha1} `{!Sha1Laws S} p :
  GetSHA1FromPiece p = GetSHA1 (piece_data p) ∧ length (GetSHA1FromPiece p) = 20%nat.
Proof. rewrite GetSHA1FromPiece_data. split; [done|apply length_GetSHA1]. Qed.

Lemma piece_digest_correct_witness :
  GetSHA1FromPiece (H:=x86_64) (H0:=toy_sha1) (mkPiece [mkBlock [x01; x02] 0; mkBlock [x03] 2] 2 2 0)
    = GetSHA1 (H:=x86_64) (H0:=toy_sha1) [x01; x02; x03] ∧
  length (GetSHA1FromPiece (H:=x86_64) (H0:=toy_sha1)
            (mkPiece [mkBlock [x01; x02] 0; mkBlock [x03] 2] 2 2 0)) = 20%nat.
Proof.
  apply (piece_digest_correct (H:=x86_64) (S:=toy_sha1) (Sha1Laws0:=toy_sha1_laws)
           (mkPiece [mkBlock [x01; x02] 0; mkBlock [x03] 2] 2 2 0)).
Defined.
