(* ===== verification/Worker.v ===== *)
(** * The job queue of the file workers (src/utils/async_worker.h, async_worker.cpp)

    A list of callbacks with random ids, a map from ids to list iterators, and
    the loop the worker threads run.  Each operation holds the mutex, so an
    execution of any number of threads is a sequence of the operations below.
    The specification is a queue of jobs with ids; [worker_refines] shows the
    list-and-map implementation meets it. *)

From Stdlib Require Import ZArith Lia.
From S2P Require Import Prelude.

Section Worker.
Context {J : Type}.

(** A node of [queue_]: the identity its iterators have, the callback and its id. *)
Record Node := mkNode { n_addr : nat; n_func : J; n_id : Z }.

Record AsyncWorker := mkWorker {
  queue_ : list Node;
  executing_callbacks_ : gmap Z nat;
  quit_ : bool;
  stopped_ : bool;
  next_addr : nat;
}.

Definition new_worker : AsyncWorker := mkWorker [] ∅ false true 0.

Definition Start (w : AsyncWorker) : AsyncWorker :=
  mkWorker (queue_ w) (executing_callbacks_ w) (quit_ w) false (next_addr w).

Definition Stop (w : AsyncWorker) : AsyncWorker :=
  mkWorker (queue_ w) (executing_callbacks_ w) (quit_ w) true (next_addr w).

(** The destructor, up to joining the threads. *)
Definition destroy (w : AsyncWorker) : AsyncWorker :=
  mkWorker (queue_ w) ∅ true (stopped_ w) (next_addr w).

(** The loop that draws an id; [rs] are the numbers the generator gives. *)
Fixpoint draw_id (ids : gmap Z nat) (rs : list Z) : outcome (Z * list Z) :=
  match rs with
  | [] => NoFuel
  | id :: rs => if decide (is_Some (ids !! id)) then draw_id ids rs else Ok (id, rs)
  end.

Definition Enqueue (w : AsyncWorker) (func : J) (rs : list Z) : outcome (Z * AsyncWorker * list Z) :=
  '(id, rs) ← draw_id (executing_callbacks_ w) rs;
  Ok (id, mkWorker (queue_ w ++ [mkNode (next_addr w) func id])
                   (<[id := next_addr w]> (executing_callbacks_ w))
                   (quit_ w) (stopped_ w) (S (next_addr w)), rs).

(** [list::erase(iterator)]: undefined unless the iterator is of the list. *)
Fixpoint list_erase (a : nat) (q : list Node) : outcome (list Node) :=
  match q with
  | [] => UB
  | n :: q => if decide (n_addr n = a) then Ok q else (q ← list_erase a q; Ok (n :: q))
  end.

Definition Erase (w : AsyncWorker) (callback_id : Z) : outcome AsyncWorker :=
  match executing_callbacks_ w !! callback_id with
  | None => Ok w
  | Some it =>
      q ← list_erase it (queue_ w);
      Ok (mkWorker q (delete callback_id (executing_callbacks_ w)) (quit_ w) (stopped_ w) (next_addr w))
  end.

(** One round of [run]: [None] while the condition variable keeps the thread
    waiting or the loop has ended, otherwise the callback to call. *)
Definition run_round (w : AsyncWorker) : option (J * Z * AsyncWorker) :=
  if negb (quit_ w) && negb (stopped_ w) then
    match queue_ w with
    | [] => None
    | n :: q => Some (n_func n, n_id n,
        mkWorker q (delete (n_id n) (executing_callbacks_ w)) (quit_ w) (stopped_ w) (next_addr w))
    end
  else None.

(** ** Executions *)

Inductive call :=
  | CEnqueue (func : J) (rs : list Z)
  | CErase (callback_id : Z)
  | CStart
  | CStop
  | CRun.

Inductive event :=
  | Enqueued (id : Z) (func : J)
  | Ran (id : Z) (func : J)
  | Silent.

Definition exec (w : AsyncWorker) (c : call) : outcome (event * AsyncWorker) :=
  match c with
  | CEnqueue f rs => '(id, w', _) ← Enqueue w f rs; Ok (Enqueued id f, w')
  | CErase id => w' ← Erase w id; Ok (Silent, w')
  | CStart => Ok (Silent, Start w)
  | CStop => Ok (Silent, Stop w)
  | CRun => match run_round w with
            | Some (f, id, w') => Ok (Ran id f, w')
            | None => Ok (Silent, w)
            end
  end.

Fixpoint execs (w : AsyncWorker) (cs : list call) : outcome (list event * AsyncWorker) :=
  match cs with
  | [] => Ok ([], w)
  | c :: cs => '(e, w) ← exec w c; '(es, w) ← execs w cs; Ok (e :: es, w)
  end.

(** ** The specification: a queue of jobs with ids *)

Record spec := mkSpec { s_jobs : list (Z * J); s_on : bool }.

Inductive spec_step : spec → call → event → spec → Prop :=
  | spec_enqueue s f rs id :
      id ∈ rs → id ∉ (s_jobs s).*1 →
      spec_step s (CEnqueue f rs) (Enqueued id f) (mkSpec (s_jobs s ++ [(id, f)]) (s_on s))
  | spec_erase s id :
      spec_step s (CErase id) Silent
        (mkSpec (filter (fun p => p.1 ≠ id) (s_jobs s)) (s_on s))
  | spec_start s : spec_step s CStart Silent (mkSpec (s_jobs s) true)
  | spec_stop s : spec_step s CStop Silent (mkSpec (s_jobs s) false)
  | spec_run s id f l :
      s_on s = true → s_jobs s = (id, f) :: l → spec_step s CRun (Ran id f) (mkSpec l true)
  | spec_wait s :
      s_on s = false ∨ s_jobs s = [] → spec_step s CRun Silent s.

Inductive spec_steps : spec → list call → list event → spec → Prop :=
  | spec_nil s : spec_steps s [] [] s
  | spec_cons s c e s' cs es s'' :
      spec_step s c e s' → spec_steps s' cs es s'' → spec_steps s (c :: cs) (e :: es) s''.

Definition abs (w : AsyncWorker) : spec :=
  mkSpec (map (fun n => (n_id n, n_func n)) (queue_ w)) (negb (quit_ w) && negb (stopped_ w)).

(** What the implementation keeps true: the map holds exactly the queued ids,
    each with the iterator of its node. *)
Record worker_inv (w : AsyncWorker) : Prop := {
  inv_ids : NoDup (n_id <$> queue_ w);
  inv_addrs : NoDup (n_addr <$> queue_ w);
  inv_fresh : ∀ n, n ∈ queue_ w → (n_addr n < next_addr w)%nat;
  inv_map : ∀ id a, executing_callbacks_ w !! id = Some a ↔
    ∃ n, n ∈ queue_ w ∧ n_id n = id ∧ n_addr n = a;
  inv_running : quit_ w = false;
}.

(** ** Facts *)

Lemma new_worker_inv : worker_inv new_worker.
Proof.
  split; cbn; [constructor|constructor|by intros n ?%not_elem_of_nil|..|done].
  intros id a. rewrite lookup_empty. split; [done|]. by intros (n & ?%not_elem_of_nil & _).
Qed.

Lemma draw_id_Ok ids rs id rs' :
  draw_id ids rs = Ok (id, rs') → ids !! id = None ∧ id ∈ rs.
Proof.
  induction rs as [|r rs IH]; [done|]. cbn [draw_id]. case_decide as Hd.
  - intros H. destruct (IH H). split; [done|by right].
  - intros [= -> ->]. split; [by apply eq_None_not_Some|by left].
Qed.

Lemma draw_id_fresh ids rs :
  Exists (fun id => ids !! id = None) rs → ∃ id rs', draw_id ids rs = Ok (id, rs').
Proof.
  induction 1 as [r rs Hr|r rs _ [id [rs' IH]]]; cbn [draw_id].
  - rewrite decide_False by (rewrite Hr; by intros [? ?]). eauto.
  - case_decide; eauto.
Qed.

Lemma map_none_queue w id : worker_inv w →
  executing_callbacks_ w !! id = None ↔ id ∉ (n_id <$> queue_ w).
Proof.
  intros Hw. split.
  - intros Hn (n & -> & Hin)%list_elem_of_fmap.
    assert (executing_callbacks_ w !! n_id n = Some (n_addr n)) as E
      by (apply Hw; eauto). by rewrite E in Hn.
  - intros Hn. apply eq_None_not_Some. intros [a (n & Hin & <- & _)%(inv_map _ Hw)].
    apply Hn, list_elem_of_fmap. eauto.
Qed.

Lemma list_erase_spec q n :
  NoDup (n_addr <$> q) → n ∈ q → ∃ q1 q2, q = q1 ++ n :: q2 ∧ list_erase (n_addr n) q = Ok (q1 ++ q2).
Proof.
  induction q as [|m q IH]; [by intros ? ?%not_elem_of_nil|].
  rewrite fmap_cons, list.NoDup_cons. intros [Hm Hq] Hin. cbn [list_erase]. case_decide as Hd.
  - apply elem_of_cons in Hin as [->|Hin]; [by exists [], q|].
    destruct Hm. rewrite Hd. by apply list_elem_of_fmap_2.
  - apply elem_of_cons in Hin as [->|Hin]; [done|].
    destruct (IH Hq Hin) as (q1 & q2 & -> & ->). by exists (m :: q1), q2.
Qed.

Lemma filter_id_middle (q1 q2 : list Node) n :
  NoDup (n_id <$> (q1 ++ n :: q2)) →
  filter (fun p => p.1 ≠ n_id n) (map (fun m => (n_id m, n_func m)) (q1 ++ n :: q2))
    = map (fun m => (n_id m, n_func m)) (q1 ++ q2).
Proof.
  intros Hnd. assert (∀ l, n_id n ∉ (n_id <$> l) →
    filter (fun p => p.1 ≠ n_id n) (map (fun m => (n_id m, n_func m)) l)
      = map (fun m => (n_id m, n_func m)) l) as Hf.
  { induction l as [|m l IH]; [done|]. rewrite fmap_cons, not_elem_of_cons. intros [Hm Hl].
    cbn [map]. rewrite filter_cons_True by done. by rewrite IH. }
  rewrite !map_app, list.filter_app. cbn [map].
  rewrite fmap_app, fmap_cons in Hnd. apply list.NoDup_app in Hnd as (_ & Hd & Hnd).
  apply list.NoDup_cons in Hnd as [Hn _]. rewrite filter_cons_False by (cbn; naive_solver).
  rewrite !Hf; [done|done|]. intros Hin. by apply (Hd _ Hin); left.
Qed.

Lemma abs_jobs w : (s_jobs (abs w)).*1 = n_id <$> queue_ w.
Proof. unfold abs. cbn. rewrite <- list_fmap_compose. by induction (queue_ w) as [|n q IH]; [|cbn; f_equal]. Qed.

Lemma Enqueue_inv w f rs id w' rs' :
  worker_inv w → Enqueue w f rs = Ok (id, w', rs') →
  worker_inv w' ∧ spec_step (abs w) (CEnqueue f rs) (Enqueued id f) (abs w').
Proof.
  intros Hw H. unfold Enqueue in H. outcome_inv.
  destruct (draw_id_Ok _ _ _ _ Hm) as [Hn Hin].
  pose proof (proj1 (map_none_queue w id Hw) Hn) as Hfresh. destruct Hw as [Hi Ha Hf Hmap Hr].
  split; [split; cbn [queue_ executing_callbacks_ next_addr quit_]; try done|].
  - rewrite fmap_app. apply list.NoDup_app. split; [done|]. split; [|apply NoDup_singleton].
    intros i Hq ->%list_elem_of_singleton. done.
  - rewrite fmap_app. apply list.NoDup_app. split; [done|]. split; [|apply NoDup_singleton].
    intros i (n & -> & Hq)%list_elem_of_fmap Hs%list_elem_of_singleton. apply Hf in Hq. cbn in Hs. lia.
  - intros n [Hq| ->%list_elem_of_singleton]%elem_of_app; [apply Hf in Hq|cbn]; lia.
  - intros i a. rewrite lookup_insert_Some, Hmap. split.
    + intros [[<- <-]|[Hne (n & Hq & <- & <-)]]; eexists; split_and!;
        try (apply elem_of_app; first [by left|right; by left]); done.
    + intros (n & [Hq| ->%list_elem_of_singleton]%elem_of_app & <- & <-); [|by left].
      right. split; [|by exists n]. intros ->. apply Hfresh. by apply list_elem_of_fmap_2.
  - pose proof (spec_enqueue (abs w) f rs id Hin) as Hs. rewrite abs_jobs in Hs.
    specialize (Hs Hfresh). unfold abs in *. cbn in *. by rewrite map_app.
Qed.

Lemma remove_node_inv w q1 n q2 :
  worker_inv w → queue_ w = q1 ++ n :: q2 →
  worker_inv (mkWorker (q1 ++ q2) (delete (n_id n) (executing_callbacks_ w))
                       (quit_ w) (stopped_ w) (next_addr w)).
Proof.
  intros [Hi Ha Hf Hmap Hr] Hq. rewrite Hq in *.
  rewrite fmap_app, fmap_cons in Hi. rewrite fmap_app, fmap_cons in Ha.
  assert (NoDup (n_id n :: (n_id <$> q1 ++ q2))) as [Hni Hi2]%list.NoDup_cons.
  { rewrite fmap_app, Permutation_middle. done. }
  assert (NoDup (n_addr n :: (n_addr <$> q1 ++ q2))) as [_ Ha2]%list.NoDup_cons.
  { rewrite fmap_app, Permutation_middle. done. }
  split; cbn [queue_ executing_callbacks_ next_addr quit_]; try done.
  - intros m Hm. apply Hf. set_solver.
  - intros i a. rewrite lookup_delete_Some, Hmap. split.
    + intros [Hne (m & Hm & <- & <-)]. exists m. split; [|done]. set_solver.
    + intros (m & Hm & <- & <-). split; [|exists m; set_solver].
      intros E. apply Hni. rewrite E. by apply list_elem_of_fmap_2.
Qed.

Lemma Erase_inv w id :
  worker_inv w → ∃ w', Erase w id = Ok w' ∧ worker_inv w' ∧
    spec_step (abs w) (CErase id) Silent (abs w').
Proof.
  intros Hw. unfold Erase. destruct (executing_callbacks_ w !! id) as [a|] eqn:E.
  - pose proof (inv_map _ Hw) as Hmap. apply Hmap in E as (n & Hin & <- & <-).
    destruct (list_erase_spec _ _ (inv_addrs _ Hw) Hin) as (q1 & q2 & Hq & ->).
    eexists. split; [done|]. split; [by eapply remove_node_inv|].
    pose proof (spec_erase (abs w) (n_id n)) as Hs. unfold abs in *. cbn in *.
    rewrite Hq, filter_id_middle in Hs by (rewrite <- Hq; apply Hw). by rewrite Hq.
  - exists w. split; [done|]. split; [done|]. apply (map_none_queue w id Hw) in E.
    assert (filter (fun p => p.1 ≠ id) (s_jobs (abs w)) = s_jobs (abs w)) as Hf.
    { rewrite <- abs_jobs in E. induction (s_jobs (abs w)) as [|p l IH]; [done|].
      rewrite fmap_cons, not_elem_of_cons in E. destruct E as [Hp Hl].
      rewrite filter_cons_True by congruence. f_equal. by apply IH. }
    pose proof (spec_erase (abs w) id) as Hs. rewrite Hf in Hs. by destruct (abs w).
Qed.

Lemma run_round_inv w : worker_inv w →
  match run_round w with
  | Some (f, id, w') => worker_inv w' ∧ spec_step (abs w) CRun (Ran id f) (abs w')
  | None => spec_step (abs w) CRun Silent (abs w)
  end.
Proof.
  intros Hw. unfold run_round. destruct (negb (quit_ w) && negb (stopped_ w)) eqn:Hon.
  - destruct (queue_ w) as [|n q] eqn:Hq.
    + apply spec_wait. right. unfold abs. cbn. by rewrite Hq.
    + split; [by apply (remove_node_inv w [] n q)|].
      unfold abs. cbn. rewrite Hq, Hon. by eapply spec_run.
  - apply spec_wait. by left.
Qed.

Lemma exec_refines w c :
  worker_inv w → match c with CEnqueue _ rs => ∃ id, id ∈ rs ∧ executing_callbacks_ w !! id = None | _ => True end →
  ∃ e w', exec w c = Ok (e, w') ∧ worker_inv w' ∧ spec_step (abs w) c e (abs w').
Proof.
  intros Hw Hc. destruct c as [f rs|id| | |]; cbn [exec].
  - destruct Hc as (id & Hin & Hn).
    destruct (draw_id_fresh (executing_callbacks_ w) rs) as (i & rs' & Hd).
    { apply list.Exists_exists. eauto. }
    assert (∃ w', Enqueue w f rs = Ok (i, w', rs')) as [w' E].
    { unfold Enqueue. rewrite Hd. eexists. reflexivity. }
    destruct (Enqueue_inv _ _ _ _ _ _ Hw E). rewrite E. eexists _, _. split; [reflexivity|done].
  - destruct (Erase_inv w id Hw) as (w' & -> & ? & ?). eexists _, _. split; [reflexivity|done].
  - eexists _, _. split; [reflexivity|]. destruct Hw as [? ? ? ? Hr]. split; [by split|].
    unfold abs. cbn. rewrite Hr. apply spec_start.
  - eexists _, _. split; [reflexivity|]. destruct Hw as [? ? ? ? Hr]. split; [by split|].
    unfold abs. cbn. rewrite Hr. apply spec_stop.
  - pose proof (run_round_inv w Hw) as Hr.
    destruct (run_round w) as [[[f id] w']|]; eexists _, _; (split; [reflexivity|]); tauto.
Qed.

Lemma exec_Ok_inv w c e w' :
  worker_inv w → exec w c = Ok (e, w') → worker_inv w' ∧ spec_step (abs w) c e (abs w').
Proof.
  intros Hw H. destruct c as [f rs|id| | |]; cbn [exec] in H.
  - apply bind_Ok_inv in H as ([[id w1] rs'] & Hm & [= <- <-]). by eapply Enqueue_inv.
  - apply bind_Ok_inv in H as (w1 & Hm & [= <- <-]).
    destruct (Erase_inv w id Hw) as (w2 & E & ?). rewrite E in Hm. by injection Hm as <-.
  - destruct (exec_refines w CStart Hw I) as (? & ? & E & ?). cbn in E. by simplify_eq.
  - destruct (exec_refines w CStop Hw I) as (? & ? & E & ?). cbn in E. by simplify_eq.
  - pose proof (run_round_inv w Hw) as Hr.
    destruct (run_round w) as [[[f id] w1]|]; by simplify_eq.
Qed.

Lemma execs_refines cs w es w' :
  worker_inv w → execs w cs = Ok (es, w') → spec_steps (abs w) cs es (abs w').
Proof.
  revert w es. induction cs as [|c cs IH]; intros w es Hw H; cbn [execs] in H.
  - injection H as <- <-. constructor.
  - apply bind_Ok_inv in H as ([e w1] & Hm & H).
    apply bind_Ok_inv in H as ([es1 w2] & Hm1 & [= <- <-]).
    destruct (exec_Ok_inv _ _ _ _ Hw Hm). econstructor; eauto.
Qed.

(** The jobs an execution of the specification runs, in order, are a
    subsequence of those queued at the start and those enqueued since. *)
Definition ran (es : list event) : list J :=
  omap (fun e => match e with Ran _ f => Some f | _ => None end) es.
Definition enqueued (es : list event) : list J :=
  omap (fun e => match e with Enqueued _ f => Some f | _ => None end) es.

Lemma spec_steps_fifo s cs es s' :
  spec_steps s cs es s' → (ran es ++ (s_jobs s').*2) `sublist_of` ((s_jobs s).*2 ++ enqueued es).
Proof.
  induction 1 as [s|s c e s1 cs es s2 Hstep _ IH]; [cbn; by rewrite app_nil_r|].
  destruct Hstep; cbn [s_jobs] in *; unfold ran, enqueued in *; cbn [omap list_omap] in *.
  - by rewrite fmap_app, <- app_assoc in IH.
  - etrans; [exact IH|]. apply sublist_app; [|done]. apply fmap_sublist, sublist_filter.
  - done.
  - done.
  - rewrite H0. cbn. by apply sublist_skip.
  - done.
Qed.
End Worker.

(** ** Properties *)

(** C34: each operation of the worker, from a state that satisfies the invariant
    and with a generator that offers some unused id, terminates without
    undefined behaviour in a state that satisfies it again, and is a step of the
    abstract job queue (enqueue at the back, erase by id, run at the front). *)
Theorem worker_refines {J : Type} (w : AsyncWorker (J:=J)) c :
  worker_inv w →
  match c with CEnqueue _ rs => ∃ id, id ∈ rs ∧ executing_callbacks_ w !! id = None | _ => True end →
  ∃ e w', exec w c = Ok (e, w') ∧ worker_inv w' ∧ spec_step (abs w) c e (abs w').
Proof. apply exec_refines. Qed.

Lemma worker_refines_witness :
  ∃ e w', exec (J:=nat) new_worker (CEnqueue 7%nat [5]) = Ok (e, w') ∧ worker_inv w' ∧
    spec_step (abs new_worker) (CEnqueue 7%nat [5]) e (abs w').
Proof.
  apply (worker_refines new_worker (CEnqueue 7%nat [5]) new_worker_inv).
  exists 5. split; [by left|reflexivity].
Defined.

(** In every execution of a new worker, callbacks run in the order they were
    enqueued and each at most as often as it was enqueued: what has run followed
    by what is still queued is a subsequence of what was enqueued. *)
Theorem worker_fifo {J : Type} cs es (w : AsyncWorker (J:=J)) :
  execs new_worker cs = Ok (es, w) →
  (ran es ++ (n_func <$> queue_ w)) `sublist_of` enqueued es.
Proof.
  intros H. pose proof (spec_steps_fifo _ _ _ _ (execs_refines _ _ _ _ new_worker_inv H)) as Hs.
  cbn in Hs. by rewrite <- list_fmap_compose in Hs.
Qed.

Lemma worker_fifo_witness :
  ∃ es w, execs (J:=nat) new_worker
      [CStart; CEnqueue 7%nat [5]; CEnqueue 8%nat [5; 6]; CEnqueue 9%nat [1]; CErase 6; CRun]
    = Ok (es, w) ∧ (ran es ++ (n_func <$> queue_ w)) `sublist_of` enqueued es ∧ ran es = [7%nat].
Proof.
  eexists _, _. split; [vm_compute; reflexivity|]. split; [|reflexivity].
  apply (worker_fifo [CStart; CEnqueue 7%nat [5]; CEnqueue 8%nat [5; 6]; CEnqueue 9%nat [1]; CErase 6; CRun]).
  vm_compute. reflexivity.
Defined.
