(* ===== verification/Files.v ===== *)
(** * The files of a torrent (src/BitTorrent/TorrentFilesManager.h, TorrentFilesManager.cpp)

    The layout of pieces over files, written and read through a file system
    that maps paths to contents, and the manager's book-keeping of uploads. *)

From Stdlib Require Import ZArith Lia Strings.Byte.
From coqutil Require Import Byte.
From stdpp Require Import sorting.
From S2P Require Import Prelude Bytes Streams Worker Bencode Text Piece.

(** ** File system *)

(** The contents of the regular files; creating a file or directory succeeds. *)
Abbreviation fsys := (gmap bytes bytes).

(** [std::filesystem::path::operator/] on POSIX. *)
Definition path_append (p q : bytes) : bytes :=
  match q with
  | "/"%byte :: _ => q
  | _ => match list.last p with
         | None => q
         | Some "/"%byte => p ++ q
         | Some _ => p ++ "/"%byte :: q
         end
  end.

(** [write] of one byte at position [pos]; a gap is filled with zeros. *)
Definition write_at (c : bytes) (pos : nat) (b : byte) : bytes :=
  take pos (c ++ replicate (pos - length c) x00) ++ b :: drop (S pos) c.

(** A file that cannot be opened is created with its last byte written; the
    seek to a negative position fails, and then nothing is written. *)
Definition create_file (f : fsys) (path : bytes) (bytes_size : Z) : fsys :=
  match f !! path with
  | Some _ => f
  | None => <[path := if bytes_size - 1 <? 0 then []
                      else write_at [] (Z.to_nat (bytes_size - 1)) x00]> f
  end.

(** The lines that open the stream: the position is computed only for a file
    that has to be created. *)
Definition open_or_create (f : fsys) (path : bytes) (bytes_size : Z) : outcome fsys :=
  match f !! path with
  | Some _ => Ok f
  | None => _ ← i64 (bytes_size - 1); Ok (create_file f path bytes_size)
  end.

(** ** Layout *)

Record FileInfo := mkFileInfo {
  fi_path : bytes;
  fi_piece_index : nat;
  fi_piece_begin : Z;
  fi_file_begin : Z;
  fi_size : Z;
}.

Abbreviation layout := (gmap nat (list FileInfo)).

(** [pieces_by_files_[i].emplace_back(fi)] *)
Definition emplace_back (i : nat) (fi : FileInfo) (m : layout) : layout :=
  <[i := default [] (m !! i) ++ [fi]]> m.

Record TorrentFiles := mkTorrentFiles {
  piece_size_ : Z;
  last_piece_size_ : Z;
  pieces_by_files_ : layout;
}.

(** [%] on [long long]: undefined for a zero divisor and where the quotient
    overflows. *)
Definition rem_ll (a b : Z) : outcome Z :=
  if b =? 0 then UB else _ ← i64 (Z.quot a b); Ok (Z.rem a b).

(** [GetMeta()["info"]["pieces"].AsString().size() / 20] of Torrent.h. *)
Definition meta_pieces (meta : Node) : outcome bytes :=
  info ← at_key meta (str "info"); p ← at_key info (str "pieces"); AsString p.
Definition piece_count_of (pieces : bytes) : nat := (length pieces / 20)%nat.

Section FillFiles.
Variable path_to_download_ : bytes.

(** The loop over the pieces of a single file. *)
Fixpoint fill_single (n i : nat) (path : bytes) (piece_size file_beg : Z) (m : layout) : Z * layout :=
  match n with
  | O => (file_beg, m)
  | S n =>
      let m := emplace_back i (mkFileInfo path i 0 file_beg (s64 piece_size)) m in
      fill_single n (S i) path piece_size (s64 (u64 (file_beg + piece_size))) m
  end.

Definition single_file (meta file_info : Node) (f : fsys) : outcome (TorrentFiles * fsys) :=
  pl ← (n ← at_key file_info (str "piece length"); AsNumber n);
  let piece_size := u64 pl in
  bytes_size ← (n ← at_key file_info (str "length"); AsNumber n);
  name ← (n ← at_key file_info (str "name"); AsString n);
  let cur_file_path := path_append path_to_download_ name in
  f ← open_or_create f cur_file_path bytes_size;
  pieces ← meta_pieces meta;
  let piece_count := piece_count_of pieces in
  let '(file_beg, m) := fill_single piece_count 0 cur_file_path piece_size 0 ∅ in
  r ← rem_ll bytes_size pl;
  let last_piece_size := u64 r in
  let m := emplace_back piece_count
             (mkFileInfo cur_file_path piece_count 0 file_beg (s64 last_piece_size)) m in
  Ok (mkTorrentFiles piece_size last_piece_size m, f).

(** The state of the loop over the files: [cur_piece_begin], [cur_piece_index],
    the layout and the file system. *)
Record cursor := mkCursor { c_begin : Z; c_index : nat; c_layout : layout }.

(** The [while] loop that walks a file piece by piece. *)
Fixpoint walk_pieces (fuel : nat) (path : bytes) (piece_length bytes_size file_beg : Z) (c : cursor)
    : outcome cursor :=
  if c_begin c >? piece_length then
    match fuel with
    | O => NoFuel
    | S fuel =>
        b ← i64 (c_begin c - piece_length);
        let idx := S (c_index c) in
        file_beg ← i64 (file_beg + piece_length);
        walk_pieces fuel path piece_length bytes_size file_beg
          (mkCursor b idx
             (emplace_back idx (mkFileInfo path idx 0 file_beg bytes_size) (c_layout c)))
    end
  else Ok c.

(** The body of the loop over the files, given the path and size of one. *)
Definition add_file (path : bytes) (bytes_size piece_length : Z) (c : cursor) : outcome cursor :=
  let b := c_begin c in
  let m := emplace_back (c_index c) (mkFileInfo path (c_index c) b 0 bytes_size) (c_layout c) in
  sum ← i64 (b + bytes_size);
  if sum <? piece_length then Ok (mkCursor sum (c_index c) m)
  else
    let idx := S (c_index c) in
    file_beg ← i64 (piece_length - b);
    let m := emplace_back idx (mkFileInfo path idx 0 file_beg bytes_size) m in
    left ← i64 (bytes_size - file_beg);
    walk_pieces (Z.to_nat left) path piece_length bytes_size file_beg (mkCursor left idx m).

Definition path_elements (file : Node) : outcome bytes :=
  els ← (n ← at_key file (str "path"); AsArray n);
  foldl (fun acc el => p ← acc; s ← AsString el; Ok (path_append p s)) (Ok path_to_download_) els.

Fixpoint multi_files (files : list Node) (piece_length : Z) (c : cursor) (f : fsys)
    : outcome (cursor * fsys) :=
  match files with
  | [] => Ok (c, f)
  | file :: files =>
      cur_file_path ← path_elements file;
      bytes_size ← (n ← at_key file (str "length"); AsNumber n);
      f ← open_or_create f cur_file_path bytes_size;
      c ← add_file cur_file_path bytes_size piece_length c;
      multi_files files piece_length c f
  end.

Definition multi_file (file_info : Node) (f : fsys) : outcome (TorrentFiles * fsys) :=
  pl ← (n ← at_key file_info (str "piece length"); AsNumber n);
  files ← (n ← at_key file_info (str "files"); AsArray n);
  '(c, f) ← multi_files files pl (mkCursor 0 0 ∅) f;
  Ok (mkTorrentFiles (u64 pl) (u64 (c_begin c)) (c_layout c), f).

Definition fill_files (meta : Node) (f : fsys) : outcome (TorrentFiles * fsys) :=
  file_info ← at_key meta (str "info");
  _ ← (n ← at_key file_info (str "piece length"); AsNumber n);
  single ← TryAt file_info (str "length");
  if bool_decide (is_Some single) then single_file meta file_info f else multi_file file_info f.
End FillFiles.

(** ** Writing and reading pieces *)

(** The inner loop of [WritePieceToFile]: [n] bytes of the piece from [i] on. *)
Fixpoint write_bytes (n i pos : nat) (piece : Piece) (c : bytes) : outcome bytes :=
  match n with
  | O => Ok c
  | S n => b ← at_byte piece i; write_bytes n (S i) (S pos) piece (write_at c pos b)
  end.

Definition no_file : exn := logic_error "For the torrent to work, the file must exist".

Fixpoint write_files (files : list FileInfo) (piece : Piece) (f : fsys) : outcome fsys :=
  match files with
  | [] => Ok f
  | file :: files =>
      c ← opt_or no_file (f !! fi_path file);
      let cur_size := u64 (size piece - fi_piece_begin file) `min` u64 (fi_size file) in
      c ← write_bytes (Z.to_nat cur_size) (Z.to_nat (fi_piece_begin file))
                      (Z.to_nat (fi_file_begin file)) piece c;
      write_files files piece (<[fi_path file := c]> f)
  end.

Definition WritePieceToFile (t : TorrentFiles) (piece : Piece) (f : fsys) : outcome fsys :=
  files ← opt_or out_of_range (pieces_by_files_ t !! Z.to_nat (index piece));
  write_files files piece f.

(** [std::upper_bound] by the first position, over entries in that order. *)
Fixpoint upper_bound (block_beg : Z) (files : list FileInfo) : nat :=
  match files with
  | [] => O
  | file :: files => if block_beg <? u64 (fi_piece_begin file) then O else S (upper_bound block_beg files)
  end.

(** [size] one-byte reads from [pos] on; past the end the byte stays zero. *)
Definition read_bytes (c : bytes) (pos : Z) (size : nat) : bytes :=
  map (fun k => nth (Z.to_nat pos + k) c x00) (seq 0 size).

Definition cant_read : exn := logic_error "can't open file when read piece block from file!".

Fixpoint read_files (files : list FileInfo) (block_beg length : Z) (f : fsys) : outcome bytes :=
  match files with
  | [] => Ok []
  | it :: files =>
      if length =? 0 then Ok []
      else
        c ← opt_or cant_read (f !! fi_path it);
        rest_of_file ← i64 (fi_size it - fi_file_begin it);
        let size := u64 (rest_of_file - block_beg) `min` length in
        let size := if size =? 0 then length else size in
        rest ← read_files files 0 (length - size) f;
        Ok (read_bytes c (u64 (fi_file_begin it + block_beg)) (Z.to_nat size) ++ rest)
  end.

Definition ReadPieceBlockFromFile (t : TorrentFiles) (idx : nat) (block_beg length : Z) (f : fsys)
    : outcome Block :=
  piece_files ← opt_or out_of_range (pieces_by_files_ t !! idx);
  match upper_bound block_beg piece_files with
  | O => UB
  | S k =>
      it ← opt_ub (piece_files !! k);
      let block_beg := u64 (block_beg - fi_piece_begin it) in
      data ← read_files (drop k piece_files) block_beg length f;
      Ok (mkBlock data (u32 block_beg))
  end.

(** ** Requests (ManagerRequests.h) *)

(** A [shared_ptr] to a peer is the peer's number, or nothing when null. *)
Record ReadRequest := mkReadRequest {
  rr_peer : option nat;
  rr_piece_index : Z;
  rr_begin : Z;
  rr_length : Z;
}.

Record WriteRequest := mkWriteRequest {
  wr_peer : option nat;
  wr_piece_index : Z;
  wr_piece : Piece;
}.

(** The key [operator<] compares. *)
Abbreviation request_key := (option nat * Z * Z * Z)%type.
Definition key_of (r : ReadRequest) : request_key :=
  (rr_peer r, rr_piece_index r, rr_begin r, rr_length r).

(** What moving from a request leaves: the pointer null, the numbers as they were. *)
Definition moved_request (r : ReadRequest) : ReadRequest :=
  mkReadRequest None (rr_piece_index r) (rr_begin r) (rr_length r).

(** The lambdas given to the worker, with what they capture. *)
Inductive FileJob :=
  | UploadJob (req : ReadRequest)
  | DownloadJob (req : WriteRequest).

Record TorrentFilesManager := mkManager {
  files_ : TorrentFiles;
  active_requests_ : gmap request_key Z;
  a_worker_ : AsyncWorker (J:=FileJob);
}.

Definition set_active (m : TorrentFilesManager) a : TorrentFilesManager :=
  mkManager (files_ m) a (a_worker_ m).
Definition set_worker (m : TorrentFilesManager) w : TorrentFilesManager :=
  mkManager (files_ m) (active_requests_ m) w.

(** [rs]: the numbers drawn for the callback's id.  The key is built after the
    lambda has moved the request away. *)
Definition UploadBlock (m : TorrentFilesManager) (req : ReadRequest) (rs : list Z)
    : outcome (Z * TorrentFilesManager * list Z) :=
  '(id, w, rs) ← Enqueue (a_worker_ m) (UploadJob req) rs;
  let m := set_worker m w in
  let key := key_of (moved_request req) in
  match active_requests_ m !! key with
  | Some id' => Ok (id', m, rs)
  | None => Ok (id, set_active m (<[key := id]> (active_requests_ m)), rs)
  end.

(** The peer whose upload is to be unbound, when a request was cancelled. *)
Definition CancelBlock (m : TorrentFilesManager) (req : ReadRequest)
    : outcome (option nat * TorrentFilesManager) :=
  match active_requests_ m !! key_of req with
  | None => Ok (None, m)
  | Some id =>
      w ← Erase (a_worker_ m) id;
      let m := set_active (set_worker m w) (delete (key_of req) (active_requests_ m)) in
      peer ← opt_ub (rr_peer req);
      Ok (Some peer, m)
  end.

Definition DownloadPiece (m : TorrentFilesManager) (req : WriteRequest) (rs : list Z)
    : outcome (TorrentFilesManager * list Z) :=
  '(_, w, rs) ← Enqueue (a_worker_ m) (DownloadJob req) rs;
  Ok (set_worker m w, rs).

(** The guarded section at the start of the upload lambda: whether it returns. *)
Definition upload_entry (m : TorrentFilesManager) (req : ReadRequest) : bool * TorrentFilesManager :=
  match active_requests_ m !! key_of req with
  | Some _ => (true, m)
  | None => (false, set_active m (delete (key_of req) (active_requests_ m)))
  end.

(** [std::sort] of the blocks by [begin_]; which of two blocks with the same
    offset comes first is not specified, the model keeps their order. *)
Definition block_le (a b : Block) : Prop := begin_ a ≤ begin_ b.
#[export] Instance block_le_dec : RelDecision block_le.
Proof. intros a b. unfold block_le. apply _. Defined.
Definition sort_blocks (p : Piece) : Piece :=
  mkPiece (merge_sort block_le (blocks p))
          (current_blocks_num p) (block_count p) (index p).

Definition ArePieceValid `{Host} `{Sha1} (pieces_sha1 : bytes) (req : WriteRequest) : outcome bool :=
  let downloaded_sha1 := GetSHA1FromPiece (wr_piece req) in
  let pos := Z.to_nat (u32 (wr_piece_index req * 20)) in
  if decide (pos + 20 ≤ length pieces_sha1 + 1)%nat then
    Ok (bool_decide (downloaded_sha1 = take 20 (drop pos (pieces_sha1 ++ [x00]))))
  else UB.
