(* ===== verification/FilesFacts.v ===== *)
(** * Pieces over files: layout and round trips (TorrentFilesManager.cpp)

    The layout of a multi-file torrent maps every position of a piece to the
    file that holds it, and a block read back after its piece was written is
    the block. *)

From Stdlib Require Import ZArith Lia Strings.Byte Strings.String.
From coqutil Require Import Byte.
From S2P Require Import Prelude Bytes Streams Worker Bencode Text Piece Files.

(** ** The files of the metadata as paths and sizes *)

Section Sizes.
Variable root : bytes.

Fixpoint file_sizes (files : list Node) : outcome (list (bytes * Z)) :=
  match files with
  | [] => Ok []
  | file :: files =>
      p ← path_elements root file;
      n ← (n ← at_key file (str "length"); AsNumber n);
      l ← file_sizes files; Ok ((p, n) :: l)
  end.

Fixpoint add_files (l : list (bytes * Z)) (pl : Z) (c : cursor) : outcome cursor :=
  match l with
  | [] => Ok c
  | (p, n) :: l => c ← add_file p n pl c; add_files l pl c
  end.

Definition create_all (l : list (bytes * Z)) (f : fsys) : fsys :=
  fold_left (fun f '((p, n) : bytes * Z) => create_file f p n) l f.

Lemma open_or_create_Ok f p n : 0 ≤ n < 2 ^ 63 → open_or_create f p n = Ok (create_file f p n).
Proof.
  intros Hn. unfold open_or_create, create_file. destruct (f !! p); [done|]. by rewrite i64_small by lia.
Qed.

(** Reading the metadata and laying out the files can be separated. *)
Lemma multi_files_add files pl c f l :
  file_sizes files = Ok l → (∀ x, x ∈ l → 0 ≤ snd x < 2 ^ 63) →
  multi_files root files pl c f = (c' ← add_files l pl c; Ok (c', create_all l f)).
Proof.
  revert c f l. induction files as [|file files IH]; intros c f l; cbn [file_sizes multi_files].
  - by intros [= <-] _.
  - destruct (path_elements root file) as [p| | | |]; cbn [mbind outcome_bind]; try done.
    destruct (at_key file (str "length")) as [nd| | | |]; cbn [mbind outcome_bind]; try done.
    destruct (AsNumber nd) as [n| | | |]; cbn [mbind outcome_bind]; try done.
    destruct (file_sizes files) as [l'| | | |]; cbn [mbind outcome_bind]; try done.
    intros [= <-] Hl. rewrite (open_or_create_Ok f p n) by (apply (Hl (p, n)); by left).
    cbn [mbind outcome_bind add_files create_all fold_left].
    destruct (add_file p n pl c) as [c1| | | |]; cbn [mbind outcome_bind]; try done.
    apply IH; [done|]. intros x Hx. apply Hl. by right.
Qed.
End Sizes.

Definition total (l : list (bytes * Z)) : Z := foldr (fun x acc => snd x + acc) 0 l.

Lemma total_app l1 l2 : total (l1 ++ l2) = total l1 + total l2.
Proof. induction l1 as [|x l1 IH]; cbn; [done|]. unfold total in *. cbn. rewrite IH. lia. Qed.

(** The position of the first byte of file [j] in the torrent. *)
Definition offset (l : list (bytes * Z)) (j : nat) : Z := total (take j l).

(** ** What the layout keeps true *)

Definition span (e : FileInfo) : Z := fi_size e - fi_file_begin e.

(** The entries of a piece follow each other: each starts where the file before
    it ends; they fill the positions [p..q] of the piece. *)
Inductive chained : Z → list FileInfo → Z → Prop :=
  | chained_nil p : chained p [] p
  | chained_cons p e es q :
      fi_piece_begin e = p → 0 ≤ fi_file_begin e ≤ fi_size e → chained (p + span e) es q →
      chained p (e :: es) q.

(** An entry of piece [idx] is about file [j] and the positions agree. *)
Definition entry_ok (l : list (bytes * Z)) (pl : Z) (idx : nat) (e : FileInfo) : Prop :=
  fi_piece_index e = idx ∧ 0 ≤ fi_piece_begin e ≤ pl ∧ 0 ≤ fi_file_begin e ≤ fi_size e ∧
  ∃ j, l !! j = Some (fi_path e, fi_size e) ∧
    Z.of_nat idx * pl + fi_piece_begin e = offset l j + fi_file_begin e.

Definition entries (m : layout) (i : nat) : list FileInfo := default [] (m !! i).

Record layout_inv (l : list (bytes * Z)) (pl : Z) (c : cursor) : Prop := {
  lay_begin : 0 ≤ c_begin c;
  lay_total : Z.of_nat (c_index c) * pl + c_begin c = total l;
  lay_entry : ∀ i e, e ∈ entries (c_layout c) i → entry_ok l pl i e;
  lay_done : ∀ i, (i < c_index c)%nat → ∃ q, chained 0 (entries (c_layout c) i) q ∧ pl ≤ q;
  lay_last : chained 0 (entries (c_layout c) (c_index c)) (c_begin c);
  lay_above : ∀ i, (c_index c < i)%nat → entries (c_layout c) i = [];
  lay_tail : ∀ i e, e ∈ tail (entries (c_layout c) i) → fi_file_begin e = 0;
  lay_paths : ∀ i, fi_path <$> entries (c_layout c) i `sublist_of` fst <$> l;
}.

Lemma chained_snoc p es q e :
  chained p es q → fi_piece_begin e = q → 0 ≤ fi_file_begin e ≤ fi_size e →
  chained p (es ++ [e]) (q + span e).
Proof.
  induction 1 as [p|p e0 es q Hp Hf _ IH]; intros He Hfe; cbn [app].
  - econstructor; [done|done|constructor].
  - econstructor; [done|done|]. by apply IH.
Qed.

Lemma entries_emplace m i j e :
  entries (emplace_back i e m) j = if decide (i = j) then entries m i ++ [e] else entries m j.
Proof.
  unfold entries, emplace_back. case_decide as Hd.
  - subst. by rewrite lookup_insert_eq.
  - by rewrite lookup_insert_ne.
Qed.

Lemma chained_le p es q : chained p es q → p ≤ q.
Proof. induction 1; unfold span in *; lia. Qed.

Lemma chained_begin_le p es q e : chained p es q → e ∈ es → p ≤ fi_piece_begin e ≤ q.
Proof.
  induction 1 as [p|p e0 es q Hp Hf Hc IH]; [by intros ?%not_elem_of_nil|].
  pose proof (chained_le _ _ _ Hc). unfold span in *.
  intros [->|He]%elem_of_cons; [lia|]. specialize (IH He). lia.
Qed.

Lemma offset_last l x : offset (l ++ [x]) (length l) = total l.
Proof. unfold offset. by rewrite take_app_length. Qed.

Lemma offset_app l x j : (j ≤ length l)%nat → offset (l ++ [x]) j = offset l j.
Proof. intros Hj. unfold offset. by rewrite take_app_le. Qed.

Lemma entry_ok_app l pl i e x : entry_ok l pl i e → entry_ok (l ++ [x]) pl i e.
Proof.
  intros (? & ? & ? & j & Hj & Hp). split_and!; try done; try lia.
  exists j. rewrite lookup_app_l by (by eapply lookup_lt_Some). split; [done|].
  rewrite offset_app; [done|]. apply lookup_lt_Some in Hj. lia.
Qed.

(** Moving on to the next piece within the last file. *)
Lemma next_piece_inv l0 path n pl c fb :
  0 < pl → layout_inv (l0 ++ [(path, n)]) pl c → pl ≤ c_begin c →
  0 ≤ fb ≤ n → fb = n - (c_begin c - pl) →
  let idx := S (c_index c) in
  let e := mkFileInfo path idx 0 fb n in
  layout_inv (l0 ++ [(path, n)]) pl
    (mkCursor (c_begin c - pl) idx (emplace_back idx e (c_layout c))).
Proof.
  intros Hpl [Hb Ht He Hd Hl Ha Htl Hs] Hbig Hfb Hfbe idx e.
  assert (∀ i, i ≠ idx → entries (emplace_back idx e (c_layout c)) i = entries (c_layout c) i) as Hne.
  { intros i Hi. rewrite entries_emplace. by rewrite decide_False. }
  assert (entries (emplace_back idx e (c_layout c)) idx = [e]) as Hidx.
  { rewrite entries_emplace, decide_True by done. by rewrite Ha by (subst idx; lia). }
  split; cbn [c_begin c_index c_layout].
  - lia.
  - subst idx. lia.
  - intros i e'. destruct (decide (i = idx)) as [->|Hi]; [|rewrite Hne by done; apply He].
    rewrite Hidx. intros ->%list_elem_of_singleton. split_and!; cbn; try done; try lia.
    exists (length l0). split; [by apply list_lookup_middle|]. cbn [fi_path fi_size].
    rewrite offset_last. rewrite total_app in Ht. cbn in Ht. subst idx. lia.
  - intros i Hi. rewrite Hne by lia. subst idx.
    destruct (decide (i = c_index c)) as [->|]; [by exists (c_begin c)|]. apply Hd. lia.
  - rewrite Hidx. replace (c_begin c - pl) with (0 + span e) by (unfold span, e; cbn; lia).
    econstructor; [done|cbn; lia|constructor].
  - intros i Hi. rewrite Hne by lia. apply Ha. subst idx. lia.
  - intros i. destruct (decide (i = idx)) as [->|Hi]; [|rewrite Hne by done; apply Htl].
    rewrite Hidx. by intros e' ?%not_elem_of_nil.
  - intros i. destruct (decide (i = idx)) as [->|Hi]; [|rewrite Hne by done; apply Hs].
    rewrite Hidx, fmap_app. cbn. by apply sublist_inserts_l.
Qed.

Lemma walk_pieces_inv fuel l0 path n pl fb c :
  0 < pl → n < 2 ^ 63 → layout_inv (l0 ++ [(path, n)]) pl c → c_begin c ≤ n → fb = n - c_begin c →
  (Z.to_nat (c_begin c) ≤ fuel)%nat →
  ∃ c', walk_pieces fuel path pl n fb c = Ok c' ∧ layout_inv (l0 ++ [(path, n)]) pl c' ∧
    c_begin c' ≤ pl.
Proof.
  intros Hpl H63. revert fb c. induction fuel as [|fuel IH]; intros fb c Hinv Hn Hfb Hf; cbn [walk_pieces].
  - pose proof (lay_begin _ _ _ Hinv). destruct (Z.gtb_spec (c_begin c) pl); [lia|]. by exists c.
  - pose proof (lay_begin _ _ _ Hinv). destruct (Z.gtb_spec (c_begin c) pl) as [Hg|Hg]; [|by exists c].
    rewrite !i64_small by lia. cbn [mbind outcome_bind].
    apply IH; cbn [c_begin]; try lia. apply next_piece_inv; try done; lia.
Qed.

(** The entry of a new file, at the place the previous one ended. *)
Lemma first_piece_inv l0 path n pl c :
  0 < pl → 0 ≤ n → layout_inv l0 pl c → c_begin c ≤ pl →
  let e := mkFileInfo path (c_index c) (c_begin c) 0 n in
  layout_inv (l0 ++ [(path, n)]) pl
    (mkCursor (c_begin c + n) (c_index c) (emplace_back (c_index c) e (c_layout c))).
Proof.
  intros Hpl Hn [Hb Ht He Hd Hl Ha Htl Hs] Hbig e.
  assert (∀ i, i ≠ c_index c → entries (emplace_back (c_index c) e (c_layout c)) i
    = entries (c_layout c) i) as Hne.
  { intros i Hi. rewrite entries_emplace. by rewrite decide_False. }
  assert (entries (emplace_back (c_index c) e (c_layout c)) (c_index c)
    = entries (c_layout c) (c_index c) ++ [e]) as Hidx by (by rewrite entries_emplace, decide_True).
  split; cbn [c_begin c_index c_layout].
  - lia.
  - rewrite total_app. cbn. lia.
  - intros i e'. destruct (decide (i = c_index c)) as [->|Hi].
    + rewrite Hidx. intros [Hin| ->%list_elem_of_singleton]%elem_of_app; [by apply entry_ok_app, He|].
      split_and!; cbn; try done; try lia. exists (length l0). split; [by apply list_lookup_middle|].
      rewrite offset_last. lia.
    + rewrite Hne by done. intros Hin. by apply entry_ok_app, He.
  - intros i Hi. rewrite Hne by lia. by apply Hd.
  - rewrite Hidx. replace (c_begin c + n) with (c_begin c + span e) by (unfold span, e; cbn; lia).
    apply chained_snoc; [done|done|cbn; lia].
  - intros i Hi. rewrite Hne by lia. by apply Ha.
  - intros i e'. destruct (decide (i = c_index c)) as [->|Hi]; [|rewrite Hne by done; apply Htl].
    rewrite Hidx. specialize (Htl (c_index c) e').
    destruct (entries (c_layout c) (c_index c)) as [|e0 es]; cbn [app tail] in *;
      [by intros ?%not_elem_of_nil|].
    intros [Hin| ->%list_elem_of_singleton]%elem_of_app; [by apply Htl|done].
  - intros i. rewrite fmap_app. destruct (decide (i = c_index c)) as [->|Hi].
    + rewrite Hidx, fmap_app. by apply sublist_app.
    + rewrite Hne by done. by apply sublist_inserts_r.
Qed.

Lemma add_file_inv l0 path n pl c :
  0 < pl → 0 ≤ n → total l0 + n < 2 ^ 63 → layout_inv l0 pl c → c_begin c ≤ pl →
  ∃ c', add_file path n pl c = Ok c' ∧ layout_inv (l0 ++ [(path, n)]) pl c' ∧ c_begin c' ≤ pl.
Proof.
  intros Hpl Hn H63 Hinv Hbig. pose proof (first_piece_inv l0 path n pl c Hpl Hn Hinv Hbig) as H1.
  cbv zeta in H1. pose proof (lay_begin _ _ _ Hinv) as Hb. pose proof (lay_total _ _ _ Hinv) as Ht. unfold add_file. cbv zeta.
  rewrite (i64_small (c_begin c + n)) by nia. cbn [mbind outcome_bind].
  destruct (Z.ltb_spec (c_begin c + n) pl) as [Hlt|Hge].
  - eexists. split; [done|]. split; [exact H1|]. cbn. lia.
  - pose proof (next_piece_inv l0 path n pl _ (pl - c_begin c) Hpl H1) as H2.
    cbn [c_begin c_index c_layout] in H2. specialize (H2 Hge ltac:(lia) ltac:(lia)).
    replace (c_begin c + n - pl) with (n - (pl - c_begin c)) in H2 by lia.
    rewrite !i64_small by nia. cbn [mbind outcome_bind]. rewrite i64_small by nia. cbn [mbind outcome_bind].
    apply (walk_pieces_inv _ l0); cbn [c_begin]; try done; nia.
Qed.

Lemma layout_inv_nil pl : layout_inv [] pl (mkCursor 0 0 ∅).
Proof.
  split; cbn; try done; try lia.
  - intros i e. unfold entries. rewrite lookup_empty. by intros ?%not_elem_of_nil.
  - constructor.
  - intros i e. unfold entries. rewrite lookup_empty. by intros ?%not_elem_of_nil.
Qed.

Definition sizes_nonneg (l : list (bytes * Z)) : Prop := ∀ x, x ∈ l → 0 ≤ snd x.

Lemma total_nonneg l : sizes_nonneg l → 0 ≤ total l.
Proof.
  induction l as [|x l IH]; intros Hl; cbn; [done|]. pose proof (Hl x ltac:(by left)).
  unfold total in IH. specialize (IH ltac:(intros y Hy; apply Hl; by right)). lia.
Qed.

Lemma elem_le_total l x : sizes_nonneg l → x ∈ l → snd x ≤ total l.
Proof.
  intros Hl Hx. apply list_elem_of_split in Hx as (l1 & l2 & ->). rewrite total_app.
  pose proof (total_nonneg l1 ltac:(intros y Hy; apply Hl; set_solver)).
  pose proof (total_nonneg l2 ltac:(intros y Hy; apply Hl; set_solver)).
  unfold total in *. cbn. lia.
Qed.

Lemma add_files_inv l l0 pl c :
  0 < pl → sizes_nonneg l → total (l0 ++ l) < 2 ^ 63 → layout_inv l0 pl c → c_begin c ≤ pl →
  ∃ c', add_files l pl c = Ok c' ∧ layout_inv (l0 ++ l) pl c' ∧ c_begin c' ≤ pl.
Proof.
  intros Hpl. revert l0 c. induction l as [|[p n] l IH]; intros l0 c Hl H63 Hinv Hb; cbn [add_files].
  - exists c. by rewrite app_nil_r.
  - destruct (add_file_inv l0 p n pl c) as (c1 & -> & Hi1 & Hb1); try done.
    { apply (Hl (p, n)). by left. }
    { pose proof (total_nonneg l ltac:(intros x Hx; apply Hl; by right)).
      rewrite total_app in H63. unfold total in *. cbn in *. lia. }
    cbn [mbind outcome_bind]. destruct (IH (l0 ++ [(p, n)]) c1) as (c2 & -> & Hi2 & Hb2); try done.
    { intros x Hx. apply Hl. by right. }
    { by rewrite <- app_assoc. }
    exists c2. by rewrite <- app_assoc in Hi2.
Qed.

(** ** Bytes on disk *)

Lemma nth_write_at c pos b j :
  nth j (write_at c pos b) x00 = if decide (j = pos) then b else nth j c x00.
Proof.
  unfold write_at. set (c' := c ++ replicate (pos - length c) x00).
  assert (∀ k, nth k c' x00 = nth k c x00) as Hc'.
  { intros k. subst c'. destruct (decide (k < length c)%nat).
    - by rewrite app_nth1.
    - rewrite app_nth2, (nth_overflow c) by lia. rewrite nth_lookup_default.
      destruct (_ !! _) eqn:E; [|done]. by apply lookup_replicate in E as [-> _]. }
  assert (length (take pos c') = pos) as Hl.
  { rewrite length_take. subst c'. rewrite length_app, length_replicate. lia. }
  destruct (decide (j < pos)%nat).
  - rewrite app_nth1 by lia. rewrite decide_False by lia.
    rewrite <- Hc', !nth_lookup_default, lookup_take_lt by done. done.
  - rewrite app_nth2, Hl by lia. case_decide as Hd; [by rewrite Hd, Nat.sub_diag|].
    replace (j - pos)%nat with (S (j - S pos)) by lia. cbn [nth].
    rewrite !nth_lookup_default, lookup_drop. by replace (S pos + (j - S pos))%nat with j by lia.
Qed.

Lemma write_bytes_spec n i pos p c :
  addressable p → (i + n ≤ length (piece_data p))%nat →
  ∃ c', write_bytes n i pos p c = Ok c' ∧ ∀ j, nth j c' x00 =
    if decide (pos ≤ j < pos + n)%nat then nth (i + (j - pos)) (piece_data p) x00 else nth j c x00.
Proof.
  intros Hw. revert i pos c. induction n as [|n IH]; intros i pos c Hn; cbn [write_bytes].
  - exists c. split; [done|]. intros j. rewrite decide_False by lia. done.
  - rewrite (Hw i) by lia.
    destruct (lookup_lt_is_Some_2 (piece_data p) i ltac:(lia)) as [b Hb]. rewrite Hb.
    cbn [opt_ub mbind outcome_bind].
    destruct (IH (S i) (S pos) (write_at c pos b) ltac:(lia)) as (c' & -> & Hc').
    exists c'. split; [done|]. intros j. rewrite Hc', nth_write_at.
    destruct (decide (j = pos)) as [->|Hj].
    + rewrite decide_False by lia. rewrite decide_True by lia.
      by rewrite Nat.sub_diag, Nat.add_0_r, nth_lookup_default, Hb.
    + destruct (decide (S pos ≤ j < S pos + n)%nat).
      * rewrite decide_True by lia. f_equal. lia.
      * rewrite decide_False by lia. done.
Qed.

(** Writing bytes of a piece addresses every one of them. *)
Lemma write_bytes_addressed n i pos p c c' :
  write_bytes n i pos p c = Ok c' → ∀ k, (k < n)%nat → is_Ok (at_byte p (i + k)).
Proof.
  revert i pos c. induction n as [|n IH]; intros i pos c E k Hk; cbn [write_bytes] in E; [lia|].
  destruct (at_byte p i) as [b| | | |] eqn:Eb; try discriminate E.
  destruct k as [|k]; [rewrite Nat.add_0_r, Eb; by eexists|].
  replace (i + S k)%nat with (S i + k)%nat by lia. eapply IH; [exact E|lia].
Qed.

(** It ends or is undefined. *)
Lemma at_byte_cases p i : is_Ok (at_byte p i) ∨ at_byte p i = UB.
Proof.
  unfold at_byte. destruct (head (blocks p)) as [b|]; [|by right]. cbn [opt_ub mbind outcome_bind].
  case_decide; [by right|]. destruct (blocks p !! _) as [b'|]; [|by right]. cbn [opt_ub mbind outcome_bind].
  destruct (data_ b' !! _); [left; by eexists|by right].
Qed.

Lemma write_bytes_cases n i pos p c : is_Ok (write_bytes n i pos p c) ∨ write_bytes n i pos p c = UB.
Proof.
  revert i pos c. induction n as [|n IH]; intros i pos c; cbn [write_bytes]; [left; by eexists|].
  destruct (at_byte_cases p i) as [[b ->]| ->]; [apply IH|by right].
Qed.

Lemma write_files_cases es p f :
  (∀ e, e ∈ es → is_Some (f !! fi_path e)) → is_Ok (write_files es p f) ∨ write_files es p f = UB.
Proof.
  revert f. induction es as [|e es IH]; intros f Hf; cbn [write_files]; [left; by eexists|].
  destruct (Hf e ltac:(by left)) as [c ->]. cbn [opt_or mbind outcome_bind]. cbv zeta.
  match goal with |- context [write_bytes ?n ?i ?pos p c] => destruct (write_bytes_cases n i pos p c) as [[c' ->]| ->] end;
    cbn [mbind outcome_bind]; [|by right].
  apply IH. intros e' He'. apply lookup_insert_is_Some.
  destruct (decide (fi_path e = fi_path e')); [by left|]. right. split; [done|]. apply Hf. by right.
Qed.

Lemma write_files_addressed es p f f' :
  write_files es p f = Ok f' → ∀ e k, e ∈ es →
    (k < Z.to_nat (u64 (size p - fi_piece_begin e) `min` u64 (fi_size e)))%nat →
    is_Ok (at_byte p (Z.to_nat (fi_piece_begin e) + k)).
Proof.
  revert f. induction es as [|e0 es IH]; intros f E e k; cbn [write_files] in E; [by intros ?%not_elem_of_nil|].
  outcome_inv. intros [->|Hin]%elem_of_cons Hk; [by eapply write_bytes_addressed|by eapply IH].
Qed.

(** The bytes of the piece that belong to an entry are in its file. *)
Definition entry_stored (f : fsys) (D : bytes) (e : FileInfo) : Prop :=
  ∃ c, f !! fi_path e = Some c ∧ ∀ k, 0 ≤ k < span e → fi_piece_begin e + k < Z.of_nat (length D) →
    nth (Z.to_nat (fi_file_begin e + k)) c x00 = nth (Z.to_nat (fi_piece_begin e + k)) D x00.

Definition entry_bounds (n : Z) (e : FileInfo) : Prop :=
  0 ≤ fi_piece_begin e ≤ n ∧ 0 ≤ fi_file_begin e ≤ fi_size e ∧ fi_size e < 2 ^ 63.

(** What writing the entries of a piece does to every position of every file. *)
Definition written (es : list FileInfo) (path : bytes) (j : Z) (n : Z) (e : FileInfo) : Prop :=
  e ∈ es ∧ fi_path e = path ∧
  fi_file_begin e ≤ j < fi_file_begin e + (n - fi_piece_begin e) `min` fi_size e.

Lemma write_files_spec es p f :
  addressable p → NoDup (fi_path <$> es) → size p < 2 ^ 63 →
  (∀ e, e ∈ es → entry_bounds (size p) e ∧ is_Some (f !! fi_path e)) →
  ∃ f', write_files es p f = Ok f' ∧ ∀ path c, f !! path = Some c → ∃ c', f' !! path = Some c' ∧
    ∀ j, 0 ≤ j →
      (∀ e, written es path j (size p) e → nth (Z.to_nat j) c' x00
         = nth (Z.to_nat (fi_piece_begin e + (j - fi_file_begin e))) (piece_data p) x00) ∧
      ((∀ e, ¬ written es path j (size p) e) → nth (Z.to_nat j) c' x00 = nth (Z.to_nat j) c x00).
Proof.
  intros Hw Hnd Hsz. revert f Hnd. induction es as [|e es IH]; intros f Hnd He; cbn [write_files].
  - exists f. split; [done|]. intros path c Hc. exists c. split; [done|]. intros j Hj.
    split; [|done]. by intros e (?%not_elem_of_nil & _).
  - rewrite fmap_cons in Hnd. apply list.NoDup_cons in Hnd as [Hne Hnd].
    destruct (He e ltac:(by left)) as [(Hb & Hf & Hs) [c0 Hc0]]. rewrite Hc0.
    cbn [opt_or mbind outcome_bind]. rewrite !u64_small by lia.
    remember ((size p - fi_piece_begin e) `min` fi_size e) as w eqn:Hwe.
    destruct (write_bytes_spec (Z.to_nat w) (Z.to_nat (fi_piece_begin e))
                (Z.to_nat (fi_file_begin e)) p c0 Hw) as (c1 & -> & Hc1).
    { pose proof (size_data p). lia. }
    cbn [mbind outcome_bind].
    destruct (IH (<[fi_path e := c1]> f) Hnd) as (f' & -> & Hf').
    { intros e' He'. destruct (He e' ltac:(by right)) as [? ?]. split; [done|].
      apply lookup_insert_is_Some. destruct (decide (fi_path e = fi_path e')); [by left|by right]. }
    exists f'. split; [done|]. intros path c Hc. destruct (decide (path = fi_path e)) as [->|Hp].
    + rewrite Hc0 in Hc. injection Hc as <-.
      destruct (Hf' (fi_path e) c1 (lookup_insert_eq _ _ _)) as (c' & Hc' & Hj).
      assert (∀ j e', ¬ written es (fi_path e) j (size p) e') as Hno.
      { intros j e' (Hin & Hpe & _). apply Hne. rewrite <- Hpe. by apply list_elem_of_fmap_2. }
      exists c'. split; [done|]. intros j Hj0. destruct (Hj j Hj0) as [_ Hj2].
      rewrite (Hj2 (Hno j)), Hc1. split.
      * intros e' ([->|Hin]%elem_of_cons & Hpe & Hr); [|by destruct (Hno j e')].
        rewrite decide_True by lia. f_equal. lia.
      * intros Hnw. rewrite decide_False; [done|]. intros Hr. apply (Hnw e).
        split; [by left|]. split; [done|]. lia.
    + destruct (Hf' path c) as (c' & Hc' & Hj); [by rewrite lookup_insert_ne|].
      exists c'. split; [done|]. intros j Hj0. destruct (Hj j Hj0) as [Hj1 Hj2]. split.
      * intros e' ([->|Hin]%elem_of_cons & Hpe & Hr); [by destruct Hp|]. by apply Hj1.
      * intros Hnw. apply Hj2. intros e' (Hin & Hr). apply (Hnw e'). split; [by right|done].
Qed.

Lemma take_drop_app_nth (c D : bytes) (a b n : nat) :
  (b + n ≤ length D)%nat → (∀ k, (k < n)%nat → nth (a + k) c x00 = nth (b + k) D x00) →
  map (fun k => nth (a + k) c x00) (seq 0 n) = take n (drop b D).
Proof.
  intros Hn Hk. apply (list_eq_nth x00).
  - rewrite length_map, length_seq, length_take, length_drop. lia.
  - rewrite length_map, length_seq. intros i Hi.
    rewrite (nth_indep _ _ (nth (a + 0) c x00)) by (by rewrite length_map, length_seq).
    rewrite (map_nth (fun k => nth (a + k) c x00)), seq_nth by done. rewrite Hk by lia.
    rewrite !nth_lookup_default, lookup_take_lt, lookup_drop by done. done.
Qed.

Lemma read_bytes_spec c D pos b n :
  0 ≤ pos → 0 ≤ b → 0 ≤ n → b + n ≤ Z.of_nat (length D) →
  (∀ k, 0 ≤ k < n → nth (Z.to_nat (pos + k)) c x00 = nth (Z.to_nat (b + k)) D x00) →
  read_bytes c pos (Z.to_nat n) = take (Z.to_nat n) (drop (Z.to_nat b) D).
Proof.
  intros Hp Hb Hn Hl Hk. unfold read_bytes. apply take_drop_app_nth; [lia|].
  intros k Hkn. specialize (Hk (Z.of_nat k) ltac:(lia)).
  rewrite !Z2Nat.inj_add, Nat2Z.id in Hk by lia. done.
Qed.

Lemma read_files_spec es D f off len p q :
  chained p es q → (∀ e, e ∈ es → entry_stored f D e ∧ entry_bounds (Z.of_nat (length D)) e) →
  (∀ e, e ∈ tail es → 0 < span e) → 0 ≤ p → 0 ≤ off → 0 ≤ len →
  match es with e :: _ => off < span e ∨ len = 0 | [] => True end →
  p + off + len ≤ q → len = 0 ∨ p + off + len ≤ Z.of_nat (length D) → Z.of_nat (length D) < 2 ^ 62 →
  read_files es off len f = Ok (take (Z.to_nat len) (drop (Z.to_nat (p + off)) D)).
Proof.
  intros Hc. revert off len. induction Hc as [p|p e es q Hpe Hf Hc IH];
    intros off len He Ht Hp Ho Hl Hoff Hq HD H62; cbn [read_files].
  - replace len with 0 by lia. done.
  - destruct (Z.eqb_spec len 0) as [->|Hnz]; [done|]. destruct Hoff as [Hoff|]; [|lia].
    destruct HD as [|HD]; [lia|].
    destruct (He e ltac:(by left)) as [(c & Hcf & Hst) (Hb1 & Hb2 & Hb3)]. rewrite Hcf.
    cbn [opt_or mbind outcome_bind]. unfold span in *.
    rewrite (i64_small (fi_size e - fi_file_begin e)) by lia. cbn [mbind outcome_bind].
    rewrite (u64_small (fi_size e - _ - _)), (u64_small (_ + off)) by lia.
    remember ((fi_size e - fi_file_begin e - off) `min` len) as sz eqn:Hsz.
    destruct (Z.eqb_spec sz 0) as [|_]; [lia|].
    pose proof (chained_le _ _ _ Hc) as Hpq.
    rewrite (IH 0 (len - sz)); try lia.
    + cbn [mbind outcome_bind]. rewrite (read_bytes_spec c D _ (p + off)); try lia.
      * f_equal. destruct (decide (len - sz = 0)) as [Hz|Hz].
        { rewrite Hz. cbn. rewrite app_nil_r. by replace sz with len by lia. }
        replace (p + (fi_size e - fi_file_begin e) + 0) with (p + off + sz) by lia.
        rewrite (Z2Nat.inj_add _ sz) by lia. rewrite <- drop_drop, take_take_drop. f_equal. lia.
      * intros k Hk. replace (fi_file_begin e + off + k) with (fi_file_begin e + (off + k)) by lia.
        rewrite Hst by lia. do 2 f_equal. lia.
    + intros e' He'. apply He. by right.
    + intros e' He'. apply Ht. cbn. destruct es; [done|by right].
    + destruct es as [|e' es]; [done|]. left. apply Ht. by left.
Qed.

(** ** A laid-out torrent *)

Definition piece_len (l : list (bytes * Z)) (pl : Z) (i : nat) : Z := pl `min` (total l - Z.of_nat i * pl).

Lemma upper_bound_spec es p q beg :
  chained p es q → 0 ≤ p ≤ beg → beg < q → q < 2 ^ 63 →
  ∃ k e, upper_bound beg es = S k ∧ es !! k = Some e ∧ fi_piece_begin e ≤ beg ∧
    beg - fi_piece_begin e < span e ∧ chained (fi_piece_begin e) (drop k es) q.
Proof.
  induction 1 as [p|p e es q Hpe Hf Hc IH]; intros Hp Hq H63; [lia|].
  pose proof (chained_le _ _ _ Hc). cbn [upper_bound]. unfold span in *. rewrite u64_small by lia.
  destruct (Z.ltb_spec beg (fi_piece_begin e)); [lia|].
  destruct (decide (p + (fi_size e - fi_file_begin e) ≤ beg)) as [Hn|Hn].
  - destruct IH as (k & e' & -> & ? & ? & ? & ?); [lia..|]. by exists (S k), e'.
  - exists 0%nat, e. assert (upper_bound beg es = 0%nat) as ->.
    { destruct Hc; [done|]. cbn [upper_bound]. subst.
      rewrite u64_small by (pose proof (chained_le _ _ _ Hc); unfold span in *; lia).
      by destruct (Z.ltb_spec beg (fi_piece_begin e0)); [|lia]. }
    split_and!; [done|done|lia|lia|]. rewrite Hpe. econstructor; done.
Qed.

Section LaidOut.
Variables (l : list (bytes * Z)) (pl : Z) (c : cursor).
Hypothesis Hpl : 0 < pl.
Hypothesis Hpos : ∀ x, x ∈ l → 0 < snd x.
Hypothesis Hsmall : total l < 2 ^ 62.
Hypothesis Hnodup : NoDup (fst <$> l).
Hypothesis Hinv : layout_inv l pl c.
Hypothesis Hbegin : c_begin c ≤ pl.

Lemma size_le_total j x : l !! j = Some x → 0 < snd x ∧ 0 ≤ offset l j ∧ offset l j + snd x ≤ total l.
Proof.
  intros Hj. split; [by eapply Hpos, list_elem_of_lookup_2|].
  pose proof (take_drop_middle l j x Hj) as E. unfold offset.
  assert (∀ y, y ∈ take j l ++ x :: drop (S j) l → 0 < snd y) as Hp by (by rewrite E).
  assert (total l = total (take j l) + (snd x + total (drop (S j) l))) as ->
    by (rewrite <- E at 1; by rewrite total_app).
  assert (0 ≤ total (take j l)) by (apply total_nonneg; intros y Hy; apply Z.lt_le_incl, Hp; set_solver).
  assert (0 ≤ total (drop (S j) l)) by (apply total_nonneg; intros y Hy; apply Z.lt_le_incl, Hp; set_solver). lia.
Qed.

(** The entries of a piece of the torrent: they cover it. *)
Lemma piece_entries i : 0 < piece_len l pl i →
  let es := entries (c_layout c) i in
  ∃ q, chained 0 es q ∧ piece_len l pl i ≤ q ∧ q < 2 ^ 63 ∧ NoDup (fi_path <$> es) ∧
    c_layout c !! i = Some es ∧
    (∀ e, e ∈ es → entry_bounds (piece_len l pl i) e) ∧ (∀ e, e ∈ tail es → 0 < span e).
Proof.
  intros Hn es. destruct Hinv as [Hb Ht He Hd Hl Ha Htl Hs]. unfold piece_len in *.
  assert (NoDup (fi_path <$> es)) as Hnd.
  { specialize (Hs i). fold es in Hs. eapply sublist_NoDup; done. }
  assert (∀ e, e ∈ es → 0 < fi_size e ∧ fi_size e < 2 ^ 62) as Hsz.
  { intros e Hin. destruct (He i e Hin) as (_ & _ & _ & j & Hj & _).
    apply size_le_total in Hj. cbn in Hj. lia. }
  assert (∀ e, e ∈ tail es → 0 < span e) as Htail.
  { intros e Hin. unfold span. rewrite (Htl i e Hin).
    assert (e ∈ es) as Hin' by (destruct es; [done|by right]). apply Hsz in Hin'. lia. }
  assert (∀ q, chained 0 es q → 0 < q → c_layout c !! i = Some es) as Hlk.
  { intros q Hc Hq. subst es. unfold entries in *. destruct (c_layout c !! i); [done|].
    cbn in Hc. inversion Hc. lia. }
  assert (∃ q, chained 0 es q ∧ pl `min` (total l - Z.of_nat i * pl) ≤ q ∧
    (∀ e, e ∈ es → fi_piece_begin e ≤ pl `min` (total l - Z.of_nat i * pl))) as (q & Hc & Hq & Hpb).
  { destruct (lt_eq_lt_dec i (c_index c)) as [[Hlt| ->]|Hgt].
    - destruct (Hd i Hlt) as (q & Hc & Hq). exists q. split; [done|]. split; [lia|].
      intros e Hin. destruct (He i e Hin) as (_ & Hpb & _).
      assert (Z.of_nat i * pl + pl ≤ Z.of_nat (c_index c) * pl) by nia. lia.
    - exists (c_begin c). split; [done|]. split; [lia|]. intros e Hin.
      pose proof (chained_begin_le _ _ _ _ Hl Hin). lia.
    - assert (Z.of_nat (c_index c) * pl + pl ≤ Z.of_nat i * pl) by nia. lia. }
  exists q. split_and!; try done.
  - destruct (list.last es) as [e|] eqn:El.
    + assert (∃ es', es = es' ++ [e]) as [es' Ees] by (by apply last_Some).
      assert (∀ es' p e, chained p (es' ++ [e]) q → q = fi_piece_begin e + span e) as Hlast.
      { clear. induction es' as [|e0 es' IH]; intros p e; cbn.
        - inversion 1 as [|? ? ? ? ? ? H']; subst. by inversion H'.
        - inversion 1; subst. eauto. }
      assert (e ∈ es) as Hin by (rewrite Ees; set_solver).
      destruct (He i e Hin) as (_ & Hpb' & Hfb & _). destruct (Hsz e Hin).
      rewrite Ees in Hc. rewrite (Hlast _ _ _ Hc). unfold span.
      assert (0 ≤ Z.of_nat i * pl) by nia. specialize (Hpb e Hin). lia.
    + apply last_None in El. rewrite El in Hc. inversion Hc. lia.
  - eapply Hlk; [done|lia].
  - intros e Hin. destruct (He i e Hin) as (_ & ? & ? & _). specialize (Hpb e Hin). destruct (Hsz e Hin).
    split_and!; lia.
Qed.
End LaidOut.

(** The metadata of a multi-file torrent: piece length [pl] and files [l]. *)
Definition multi_meta (root : bytes) (info : Node) (pl : Z) (l : list (bytes * Z)) : Prop :=
  (n ← at_key info (str "piece length"); AsNumber n) = Ok pl ∧
  ∃ files, (n ← at_key info (str "files"); AsArray n) = Ok files ∧ file_sizes root files = Ok l.

Lemma multi_file_inv root info f pl l :
  multi_meta root info pl l → 0 < pl → sizes_nonneg l → total l < 2 ^ 63 →
  ∃ c, multi_file root info f = Ok (mkTorrentFiles (u64 pl) (u64 (c_begin c)) (c_layout c), create_all l f)
    ∧ layout_inv l pl c ∧ c_begin c ≤ pl.
Proof.
  intros (Hp & files & Hf & Hl) Hpl Hs H63. unfold multi_file. rewrite Hp. cbn [mbind outcome_bind] in *.
  rewrite Hf. cbn [mbind outcome_bind]. rewrite (multi_files_add _ _ _ _ _ _ Hl).
  2: { intros x Hx. pose proof (Hs x Hx). pose proof (elem_le_total l x Hs Hx). lia. }
  destruct (add_files_inv l [] pl (mkCursor 0 0 ∅)) as (c & -> & Hi & Hb); try done.
  - apply layout_inv_nil.
  - cbn. lia.
  - cbn [mbind outcome_bind app] in *. by exists c.
Qed.

Lemma chained_cover p es q x :
  chained p es q → p ≤ x < q → ∃ e, e ∈ es ∧ fi_piece_begin e ≤ x < fi_piece_begin e + span e.
Proof.
  induction 1 as [p|p e es q Hpe Hf Hc IH]; intros Hx; [lia|].
  destruct (decide (x < p + span e)).
  - exists e. split; [by left|lia].
  - destruct IH as (e' & ? & ?); [lia|]. exists e'. split; [by right|done].
Qed.

(** The bytes [D] of piece [i] are on disk. *)
Definition holds (f : fsys) (m : layout) (i : nat) (D : bytes) : Prop :=
  ∀ e, e ∈ entries m i → entry_stored f D e.

Definition piece_fits (l : list (bytes * Z)) (pl : Z) (p : Piece) : Prop :=
  addressable p ∧ 0 ≤ index p ∧ 0 < size p ∧ size p = piece_len l pl (Z.to_nat (index p)).

Definition files_exist (l : list (bytes * Z)) (f : fsys) : Prop :=
  ∀ path, path ∈ fst <$> l → is_Some (f !! path).

Definition store_ready (l : list (bytes * Z)) (pl : Z) : Prop :=
  0 < pl ∧ (∀ x, x ∈ l → 0 < snd x) ∧ total l < 2 ^ 62 ∧ NoDup (fst <$> l).

Lemma store_ready_total l pl : store_ready l pl → total l < 2 ^ 63.
Proof. intros (_ & _ & H & _). lia. Qed.

Fixpoint write_all (t : TorrentFiles) (ps : list Piece) (f : fsys) : outcome fsys :=
  match ps with
  | [] => Ok f
  | p :: ps => f ← WritePieceToFile t p f; write_all t ps f
  end.

Section Store.
Variables (l : list (bytes * Z)) (pl : Z) (c : cursor) (t : TorrentFiles).
Hypothesis Hready : store_ready l pl.
Hypothesis Hinv : layout_inv l pl c.
Hypothesis Hbegin : c_begin c ≤ pl.
Hypothesis Ht : pieces_by_files_ t = c_layout c.

Lemma WritePieceToFile_spec p f :
  piece_fits l pl p → files_exist l f →
  ∃ f', WritePieceToFile t p f = Ok f' ∧ files_exist l f' ∧
    ∀ path b, f !! path = Some b → ∃ b', f' !! path = Some b' ∧ ∀ j, 0 ≤ j →
      let es := entries (c_layout c) (Z.to_nat (index p)) in
      (∀ e, written es path j (size p) e → nth (Z.to_nat j) b' x00
         = nth (Z.to_nat (fi_piece_begin e + (j - fi_file_begin e))) (piece_data p) x00) ∧
      ((∀ e, ¬ written es path j (size p) e) → nth (Z.to_nat j) b' x00 = nth (Z.to_nat j) b x00).
Proof.
  intros (Hw & Hidx & Hsz & Hlen) Hex. destruct Hready as (Hpl & Hpos & Hsmall & Hnd).
  destruct (piece_entries l pl c Hpl Hpos Hsmall Hnd Hinv Hbegin (Z.to_nat (index p)))
    as (q & Hc & Hq & H63 & Hp & Hlk & He & _); [lia|]. cbv zeta in *.
  unfold WritePieceToFile. rewrite Ht, Hlk. cbn [opt_or mbind outcome_bind].
  destruct (write_files_spec _ p f Hw Hp) as (f' & -> & Hf'); [lia|..].
  - intros e Hin. rewrite Hlen. split; [by apply He|]. apply Hex.
    destruct (lay_entry _ _ _ Hinv _ _ Hin) as (_ & _ & _ & j & Hj & _).
    apply (list_elem_of_fmap_2' fst _ _ _ (list_elem_of_lookup_2 _ _ _ Hj)). done.
  - exists f'. split; [done|]. split; [|done]. intros path Hpath.
    destruct (Hex path Hpath) as [b Hb]. destruct (Hf' path b Hb) as (b' & ? & _). by exists b'.
Qed.

(** A piece of the right size whose write does not fail has its bytes in order,
    whatever the sizes of its blocks. *)
Lemma WritePieceToFile_addressable p f f' :
  0 ≤ index p → 0 < size p → size p = piece_len l pl (Z.to_nat (index p)) →
  WritePieceToFile t p f = Ok f' → addressable p.
Proof.
  intros Hidx Hsz Hlen Hwr. destruct Hready as (Hpl & Hpos & Hsmall & Hnd).
  destruct (piece_entries l pl c Hpl Hpos Hsmall Hnd Hinv Hbegin (Z.to_nat (index p)))
    as (q & Hc & Hq & H63 & _ & Hlk & He & _); [lia|]. cbv zeta in *.
  unfold WritePieceToFile in Hwr. rewrite Ht, Hlk in Hwr. cbn [opt_or mbind outcome_bind] in Hwr.
  apply addressed_addressable. intros i Hi. pose proof (size_data p) as Hd.
  destruct (chained_cover _ _ _ (Z.of_nat i) Hc ltac:(lia)) as (e & Hin & Hie).
  destruct (He e Hin) as (Hb & Hf & Hs). unfold span in Hie.
  replace i with (Z.to_nat (fi_piece_begin e) + Z.to_nat (Z.of_nat i - fi_piece_begin e))%nat by lia.
  apply (write_files_addressed _ _ _ _ Hwr); [done|]. rewrite !u64_small by lia. lia.
Qed.

(** And one that has them out of place cannot be written. *)
Lemma WritePieceToFile_odd p f :
  0 ≤ index p → 0 < size p → size p = piece_len l pl (Z.to_nat (index p)) → files_exist l f →
  ¬ addressable p → WritePieceToFile t p f = UB.
Proof.
  intros Hidx Hsz Hlen Hex Hodd. assert (is_Ok (WritePieceToFile t p f) ∨ WritePieceToFile t p f = UB) as [[f' Hf]|]; [| |done].
  - destruct Hready as (Hpl & Hpos & Hsmall & Hnd).
    destruct (piece_entries l pl c Hpl Hpos Hsmall Hnd Hinv Hbegin (Z.to_nat (index p)))
      as (q & _ & _ & _ & _ & Hlk & _); [lia|]. cbv zeta in *.
    unfold WritePieceToFile. rewrite Ht, Hlk. cbn [opt_or mbind outcome_bind]. apply write_files_cases. intros e Hin.
    apply Hex. destruct (lay_entry _ _ _ Hinv _ _ Hin) as (_ & _ & _ & j & Hj & _).
    apply (list_elem_of_fmap_2' fst _ _ _ (list_elem_of_lookup_2 _ _ _ Hj)). done.
  - destruct Hodd. by apply (WritePieceToFile_addressable p f f').
Qed.

Lemma write_holds p f f' :
  piece_fits l pl p → files_exist l f → WritePieceToFile t p f = Ok f' →
  holds f' (c_layout c) (Z.to_nat (index p)) (piece_data p).
Proof.
  intros Hp Hex Hwr e Hin. destruct (WritePieceToFile_spec p f Hp Hex) as (f2 & E & _ & Hf').
  rewrite Hwr in E. injection E as <-. destruct Hp as (_ & Hidx & Hsz & Hlen).
  destruct (lay_entry _ _ _ Hinv _ _ Hin) as (_ & Hpb & Hfb & j & Hj & _).
  destruct (Hex (fi_path e)) as [b Hb].
  { apply (list_elem_of_fmap_2' fst _ _ _ (list_elem_of_lookup_2 _ _ _ Hj)). done. }
  destruct (Hf' _ _ Hb) as (b' & Hb' & Hj'). exists b'. split; [done|].
  intros k Hk HD. rewrite <- size_data in HD. unfold span in Hk.
  destruct (Hj' (fi_file_begin e + k) ltac:(lia)) as [Hwrit _].
  rewrite (Hwrit e); [f_equal; lia|]. split; [done|]. split; [done|]. lia.
Qed.

Lemma write_keeps p f f' i D :
  piece_fits l pl p → files_exist l f → WritePieceToFile t p f = Ok f' →
  i ≠ Z.to_nat (index p) → Z.of_nat (length D) ≤ pl →
  holds f (c_layout c) i D → holds f' (c_layout c) i D.
Proof.
  intros Hp Hex Hwr Hi HD Hh e Hin. destruct (Hh e Hin) as (b & Hb & Hst).
  destruct (WritePieceToFile_spec p f Hp Hex) as (f2 & E & _ & Hf').
  rewrite Hwr in E. injection E as <-. destruct (Hf' _ _ Hb) as (b' & Hb' & Hj').
  exists b'. split; [done|]. intros k Hk Hlt. rewrite <- Hst by done.
  destruct Hready as (Hpl & _ & _ & Hnd). destruct Hp as (_ & Hidx & Hsz & Hlen).
  destruct (lay_entry _ _ _ Hinv _ _ Hin) as (_ & Hpb & Hfb & j & Hj & Hpos).
  destruct (Hj' (fi_file_begin e + k) ltac:(lia)) as [_ Hkeep]. apply Hkeep.
  intros e' (Hin' & Hpath & Hr).
  destruct (lay_entry _ _ _ Hinv _ _ Hin') as (_ & Hpb' & Hfb' & j' & Hlj' & Hpos').
  assert (j = j') as <-.
  { eapply (NoDup_lookup _ _ _ (fi_path e)); [exact Hnd|..].
    - by rewrite list_lookup_fmap, Hj.
    - by rewrite list_lookup_fmap, Hlj', <- Hpath. }
  unfold piece_len in Hlen.
  assert (Z.of_nat i * pl ≤ Z.of_nat (Z.to_nat (index p)) * pl + pl - 1) by lia.
  assert (Z.of_nat (Z.to_nat (index p)) * pl ≤ Z.of_nat i * pl + pl - 1) by lia.
  apply Hi. assert (Z.of_nat i = Z.of_nat (Z.to_nat (index p))) by nia. lia.
Qed.

Lemma holds_read f i D beg len :
  Z.of_nat (length D) = piece_len l pl i → 0 < piece_len l pl i →
  holds f (c_layout c) i D → 0 ≤ beg → 0 < len → beg + len ≤ Z.of_nat (length D) →
  ∃ b0, ReadPieceBlockFromFile t i beg len f
    = Ok (mkBlock (take (Z.to_nat len) (drop (Z.to_nat beg) D)) b0).
Proof.
  intros HD Hpos Hh Hb Hl Hbl. destruct Hready as (Hpl & Hsz & Hsmall & Hnd).
  destruct (piece_entries l pl c Hpl Hsz Hsmall Hnd Hinv Hbegin i Hpos)
    as (q & Hc & Hq & H63 & _ & Hlk & He & Htl). cbv zeta in *.
  destruct (upper_bound_spec _ _ _ beg Hc) as (k & e & Hub & Hke & Hpb & Hspan & Hck); [lia..|].
  unfold ReadPieceBlockFromFile. rewrite Ht, Hlk. cbn [opt_or mbind outcome_bind].
  rewrite Hub, Hke. cbn [opt_ub mbind outcome_bind].
  assert (e ∈ entries (c_layout c) i) as Hin by (by eapply list_elem_of_lookup_2).
  destruct (He e Hin) as ([Hpb0 Hpb1] & Hfb & Hs).
  unfold piece_len in *. assert (0 ≤ Z.of_nat i * pl) by nia.
  rewrite u64_small by lia.
  rewrite (read_files_spec _ D _ _ _ (fi_piece_begin e) q); try lia; try done.
  - cbn [mbind outcome_bind]. eexists. do 4 f_equal. lia.
  - intros e' He'. assert (e' ∈ entries (c_layout c) i) by (eapply elem_of_sublist; [done|apply sublist_drop]).
    split; [by apply Hh|]. rewrite HD. by apply He.
  - intros e' He'. apply Htl. destruct (entries (c_layout c) i) as [|e0 es]; [by destruct k|].
    cbn [tail]. destruct k; [done|]. cbn [drop] in He'.
    eapply elem_of_sublist; [exact He'|]. etrans; [|apply (sublist_drop _ k)].
    destruct (drop k es); [done|]. cbn [tail]. by apply sublist_cons.
  - rewrite (drop_S _ _ _ Hke). by left.
Qed.

Lemma write_all_spec ps f i D :
  (∀ p, p ∈ ps → piece_fits l pl p ∧ Z.to_nat (index p) ≠ i) → files_exist l f →
  Z.of_nat (length D) ≤ pl → holds f (c_layout c) i D →
  ∃ f', write_all t ps f = Ok f' ∧ holds f' (c_layout c) i D.
Proof.
  revert f. induction ps as [|p ps IH]; intros f Hps Hex HD Hh; [by exists f|]. cbn [write_all].
  destruct (Hps p ltac:(by left)) as [Hp Hi].
  destruct (WritePieceToFile_spec p f Hp Hex) as (f1 & E & Hex1 & _). rewrite E.
  cbn [mbind outcome_bind]. apply IH; [|done|done|].
  - intros p' Hp'. apply Hps. by right.
  - by eapply (write_keeps p f f1).
Qed.
End Store.

(** ** A single file *)

Lemma fill_single_spec n i path ps fb m :
  0 < ps → 0 ≤ fb → fb + Z.of_nat n * ps < 2 ^ 63 → (∀ j, (i ≤ j)%nat → m !! j = None) →
  let r := fill_single n i path ps fb m in
  fst r = fb + Z.of_nat n * ps ∧
  ∀ j, (i ≤ j < i + n)%nat →
    snd r !! j = Some [mkFileInfo path j 0 (fb + Z.of_nat (j - i) * ps) ps].
Proof.
  intros Hps. revert i fb m. induction n as [|n IH]; intros i fb m Hfb Hb Hm; cbn [fill_single].
  - cbn. split; [lia|]. intros; lia.
  - cbv zeta. rewrite u64_small, !s64_small by lia.
    assert (emplace_back i (mkFileInfo path i 0 fb ps) m = <[i := [mkFileInfo path i 0 fb ps]]> m) as E
      by (unfold emplace_back; by rewrite Hm). rewrite E.
    destruct (IH (S i) (fb + ps) (<[i := [mkFileInfo path i 0 fb ps]]> m)) as [Hf Hj]; [lia|lia|..].
    + intros j Hj. rewrite lookup_insert_ne by lia. apply Hm. lia.
    + split; [cbv zeta in Hf; lia|]. intros j Hr. destruct (decide (j = i)) as [->|Hne].
      * assert (∀ n i' path ps fb m, (i < i')%nat →
          (fill_single n i' path ps fb m).2 !! i = m !! i) as Hkeep.
        { clear. induction n as [|n IH]; intros i' path ps fb m Hlt; cbn [fill_single]; [done|].
          cbv zeta. rewrite IH by lia. unfold emplace_back. by rewrite lookup_insert_ne by lia. }
        rewrite Hkeep by lia. rewrite lookup_insert_eq. do 3 f_equal. lia.
      * cbv zeta in Hj. rewrite Hj by lia. do 3 f_equal.
        replace (j - i)%nat with (S (j - S i)) by lia. lia.
Qed.

(** The metadata of a single-file torrent. *)
Definition single_meta (root : bytes) (meta info : Node) (pl n : Z) (path pieces : bytes) : Prop :=
  (n ← at_key info (str "piece length"); AsNumber n) = Ok pl ∧
  (n ← at_key info (str "length"); AsNumber n) = Ok n ∧
  (∃ name, (n ← at_key info (str "name"); AsString n) = Ok name ∧ path = path_append root name) ∧
  meta_pieces meta = Ok pieces.

Lemma single_file_inv root meta info f pl n path pieces :
  single_meta root meta info pl n path pieces → 0 < pl →
  Z.of_nat (piece_count_of pieces) * pl < 2 ^ 63 → pl < 2 ^ 63 → 0 ≤ n < 2 ^ 63 →
  ∃ t, single_file root meta info f = Ok (t, create_file f path n) ∧
    piece_size_ t = pl ∧ last_piece_size_ t = u64 (Z.rem n pl) ∧
    ∀ j, (j < piece_count_of pieces)%nat →
      pieces_by_files_ t !! j = Some [mkFileInfo path j 0 (Z.of_nat j * pl) pl].
Proof.
  intros (E1 & E2 & (name & E3 & ->) & E4) Hpl Hb Hb2 Hn. unfold single_file.
  rewrite E1. cbn [mbind outcome_bind]. rewrite E2. cbn [mbind outcome_bind].
  rewrite E3. cbn [mbind outcome_bind]. rewrite open_or_create_Ok by done. cbn [mbind outcome_bind].
  rewrite E4. cbn [mbind outcome_bind]. rewrite u64_small by lia.
  destruct (fill_single _ _ _ _ _ _) as [fb m] eqn:E.
  pose proof (fill_single_spec (piece_count_of pieces) 0 (path_append root name) pl 0 ∅) as Hs.
  cbv zeta in Hs. rewrite E in Hs. destruct Hs as [Hfb Hm]; [lia|lia|lia|by intros; apply lookup_empty|].
  unfold rem_ll. destruct (Z.eqb_spec pl 0); [lia|].
  pose proof (Z.quot_le_upper_bound n pl n Hpl ltac:(nia)). pose proof (Z.quot_pos n pl ltac:(lia) Hpl).
  rewrite i64_small by lia. cbn [mbind outcome_bind].
  eexists. split; [done|]. cbn [piece_size_ last_piece_size_ pieces_by_files_].
  split; [done|]. split; [done|]. intros j Hj. unfold emplace_back. rewrite lookup_insert_ne by lia. rewrite Hm by lia.
  by rewrite Nat.sub_0_r.
Qed.

Lemma single_entry_bounds path j pl n :
  0 < pl → 0 ≤ n → n ≤ pl → Z.of_nat j * pl + pl < 2 ^ 62 →
  let e := mkFileInfo path j 0 (Z.of_nat j * pl) pl in
  u64 (n - fi_piece_begin e) `min` u64 (fi_size e) = n.
Proof. intros. cbn. rewrite !u64_small by nia. lia. Qed.

(** The write loop over the one entry of a piece of a single file. *)
Lemma single_write p path pl f c j :
  addressable p → 0 < pl → size p ≤ pl → Z.of_nat j * pl + pl < 2 ^ 62 → f !! path = Some c →
  ∃ c', write_files [mkFileInfo path j 0 (Z.of_nat j * pl) pl] p f = Ok (<[path := c']> f) ∧
    ∀ k, 0 ≤ k → nth (Z.to_nat k) c' x00 =
      if bool_decide (Z.of_nat j * pl ≤ k < Z.of_nat j * pl + size p)
      then nth (Z.to_nat (k - Z.of_nat j * pl)) (piece_data p) x00 else nth (Z.to_nat k) c x00.
Proof.
  intros Hw Hpl Hsz Hb Hc. pose proof (size_data p) as Hd. cbn [write_files fi_path].
  rewrite Hc. cbn [opt_or mbind outcome_bind]. cbv zeta.
  rewrite (single_entry_bounds path j pl (size p)) by lia. cbn [fi_piece_begin fi_file_begin].
  destruct (write_bytes_spec (Z.to_nat (size p)) (Z.to_nat 0) (Z.to_nat (Z.of_nat j * pl)) p c Hw)
    as (c' & -> & Hc'); [lia|].
  cbn [mbind outcome_bind]. exists c'. split; [done|]. intros k Hk. rewrite Hc'.
  assert (0 ≤ Z.of_nat j * pl) by nia.
  destruct (decide (_ ≤ Z.to_nat k < _)%nat).
  - rewrite bool_decide_true by lia. f_equal. lia.
  - rewrite bool_decide_false by lia. done.
Qed.

(** The size of a read wraps around below zero from the second piece on; the
    minimum with the length, and zero standing for the length, save it. *)
Lemma single_read_size i pl beg len :
  0 < pl → Z.of_nat i * pl + pl < 2 ^ 62 → 0 ≤ beg → 0 < len → beg + len ≤ pl →
  let m := u64 (pl - Z.of_nat i * pl - beg) `min` len in (if m =? 0 then len else m) = len.
Proof.
  intros Hpl Hb Hbeg Hlen Hbl m. destruct i as [|i].
  - subst m. rewrite u64_small by lia. destruct (Z.eqb_spec ((pl - Z.of_nat 0 * pl - beg) `min` len) 0); lia.
  - assert (pl - Z.of_nat (S i) * pl - beg ≤ 0) by nia.
    destruct (Z.eq_dec (pl - Z.of_nat (S i) * pl - beg) 0) as [E|].
    + subst m. rewrite E. change (u64 0) with 0. by rewrite Z.min_l by lia.
    + assert (u64 (pl - Z.of_nat (S i) * pl - beg) = pl - Z.of_nat (S i) * pl - beg + 2 ^ 64) as E.
      { unfold u64. rewrite <- (Z.mod_add _ 1) by lia. apply Z.mod_small. lia. }
      subst m. rewrite E, Z.min_r by lia. by destruct (Z.eqb_spec len 0).
Qed.

Lemma single_read t path pl f c D i beg len :
  pieces_by_files_ t !! i = Some [mkFileInfo path i 0 (Z.of_nat i * pl) pl] → f !! path = Some c →
  0 < pl → Z.of_nat i * pl + pl < 2 ^ 62 → 0 ≤ beg → 0 < len → beg + len ≤ Z.of_nat (length D) →
  Z.of_nat (length D) ≤ pl →
  (∀ k, 0 ≤ k < Z.of_nat (length D) →
    nth (Z.to_nat (Z.of_nat i * pl + k)) c x00 = nth (Z.to_nat k) D x00) →
  ReadPieceBlockFromFile t i beg len f
    = Ok (mkBlock (take (Z.to_nat len) (drop (Z.to_nat beg) D)) (u32 (u64 beg))).
Proof.
  intros Ht Hc Hpl Hb Hbeg Hlen Hbl HD Hst. unfold ReadPieceBlockFromFile. rewrite Ht.
  assert (0 ≤ Z.of_nat i * pl) by nia.
  cbn [opt_or mbind outcome_bind upper_bound fi_piece_begin]. rewrite u64_small by lia.
  destruct (Z.ltb_spec beg 0); [lia|]. cbn [lookup list_lookup opt_ub mbind outcome_bind drop].
  cbn [fi_piece_begin]. rewrite Z.sub_0_r, u64_small by lia. cbn [read_files].
  destruct (Z.eqb_spec len 0); [lia|]. cbn [fi_path fi_size fi_file_begin]. rewrite Hc.
  cbn [opt_or mbind outcome_bind].
  rewrite i64_small by lia. cbn [mbind outcome_bind]. rewrite (u64_small (_ + beg)) by lia.
  rewrite (single_read_size i pl beg len) by lia.
  cbn [mbind outcome_bind]. rewrite app_nil_r. do 2 f_equal.
  apply read_bytes_spec; try lia. intros k Hk.
  rewrite <- Z.add_assoc, Hst by lia. done.
Qed.

(** ** Properties *)

(** C35: for a multi-file torrent whose sizes are not negative and add up to less
    than 2^63, laying out the files terminates without an error (no addition of
    the loop overflows) and every entry of piece [i] names the file that holds the piece's bytes at
    the torrent position [i * pl + piece_begin]; conversely every position of
    the torrent is covered by an entry of its piece. *)
Theorem multi_file_layout root info f pl l :
  multi_meta root info pl l → 0 < pl → sizes_nonneg l → total l < 2 ^ 63 →
  ∃ t, multi_file root info f = Ok (t, create_all l f) ∧
    (∀ i e, e ∈ entries (pieces_by_files_ t) i → entry_ok l pl i e) ∧
    (∀ x, 0 ≤ x < total l → ∃ e, e ∈ entries (pieces_by_files_ t) (Z.to_nat (x / pl)) ∧
       fi_piece_begin e ≤ x mod pl < fi_piece_begin e + span e).
Proof.
  intros Hm Hpl Hs H63. destruct (multi_file_inv root info f pl l Hm Hpl Hs H63) as (c & -> & Hi & Hb).
  eexists. split; [done|]. cbn [pieces_by_files_]. split; [apply Hi|]. intros x Hx.
  pose proof (Z.div_mod x pl ltac:(lia)) as Hdm. pose proof (Z.mod_pos_bound x pl Hpl) as Hmod.
  assert (0 ≤ x / pl) as Hq by (apply Z.div_pos; lia).
  pose proof (lay_total _ _ _ Hi) as Ht.
  destruct (lt_eq_lt_dec (Z.to_nat (x / pl)) (c_index c)) as [[Hlt|Heq]|Hgt].
  - destruct (lay_done _ _ _ Hi _ Hlt) as (q & Hc & Hle). eapply chained_cover; [done|lia].
  - pose proof (lay_last _ _ _ Hi) as Hc. rewrite <- Heq in Hc. eapply chained_cover; [done|].
    rewrite <- Heq, Z2Nat.id in Ht by done. lia.
  - assert (Z.of_nat (c_index c) + 1 ≤ x / pl) by lia.
    assert (Z.of_nat (c_index c) * pl + pl ≤ x / pl * pl) by nia. lia.
Qed.


(** In a single-file torrent a block read back after its piece was written is
    the corresponding slice of the piece, for every piece the metadata counts. *)
Theorem single_file_write_read root meta info f0 pl n path pieces t f1 p f beg len :
  single_meta root meta info pl n path pieces → 0 < pl → 0 ≤ n < 2 ^ 63 →
  Z.of_nat (piece_count_of pieces) * pl < 2 ^ 62 →
  single_file root meta info f0 = Ok (t, f1) →
  addressable p → 0 ≤ index p → (Z.to_nat (index p) < piece_count_of pieces)%nat → size p ≤ pl →
  is_Some (f !! path) → 0 ≤ beg → 0 < len → beg + len ≤ size p →
  ∃ f2, WritePieceToFile t p f = Ok f2 ∧
    ReadPieceBlockFromFile t (Z.to_nat (index p)) beg len f2
      = Ok (mkBlock (take (Z.to_nat len) (drop (Z.to_nat beg) (piece_data p))) (u32 (u64 beg))).
Proof.
  intros Hm Hpl Hn Hsmall Hfill Hw Hi Hcount Hsz [c Hc] Hb Hl Hbl.
  destruct (single_file_inv root meta info f0 pl n path pieces Hm Hpl) as (t' & E & _ & _ & Hlay);
    [nia|nia|lia|]. rewrite Hfill in E. injection E as <- _. pose proof (size_data p) as Hd.
  assert (Z.of_nat (Z.to_nat (index p)) * pl + pl < 2 ^ 62) as Hpos by nia.
  unfold WritePieceToFile. rewrite (Hlay _ Hcount). cbn [opt_or mbind outcome_bind].
  destruct (single_write p path pl f c (Z.to_nat (index p))) as (c' & -> & Hc'); try done.
  eexists. split; [done|]. apply (single_read t path pl _ c'); try done; try lia.
  - by apply Hlay.
  - by rewrite lookup_insert_eq.
  - intros k Hk. assert (0 ≤ Z.of_nat (Z.to_nat (index p)) * pl) by nia.
    rewrite Hc' by lia. rewrite bool_decide_true by lia. f_equal. lia.
Qed.

(** A torrent of two files of six bytes cut in pieces of four. *)
Module TwoFiles.
Definition file (name : bytes) (n : Z) : Node :=
  NDict [(str "length", NInt n); (str "path", NArray [NStr name])].
Definition info : Node :=
  NDict [(str "files", NArray [file (str "a") 6; file (str "b") 6]); (str "piece length", NInt 4)].
Definition l : list (bytes * Z) := [(str "d/a", 6); (str "d/b", 6)].
Definition tf : TorrentFiles :=
  match multi_file (str "d") info ∅ with Ok (t, _) => t | _ => mkTorrentFiles 0 0 ∅ end.
Definition f : fsys := create_all l ∅.
Definition piece (i : Z) (b0 b1 b2 b3 : byte) : Piece :=
  mkPiece [mkBlock [b0; b1; b2] 0; mkBlock [b3] 3] 2 2 i.

Lemma meta : multi_meta (str "d") info 4 l.
Proof. split; [reflexivity|]. eexists. split; reflexivity. Qed.

Lemma ready : store_ready l 4.
Proof.
  split; [lia|]. split; [|split; [done|by apply (bool_decide_unpack _); vm_compute]].
  intros x [->|[->|[]%not_elem_of_nil]%elem_of_cons]%elem_of_cons; cbn; lia.
Qed.

Lemma two_tf_eq : multi_file (str "d") info ∅ = Ok (tf, f).
Proof.
  destruct (multi_file_inv (str "d") info ∅ 4 l meta) as (c & E & _); [lia| |done|].
  { intros x Hx. apply ready in Hx. lia. }
  unfold tf, f. by rewrite E.
Qed.

Lemma fits i b0 b1 b2 b3 : i ∈ [0; 1; 2] → piece_fits l 4 (piece i b0 b1 b2 b3).
Proof.
  intros Hi. split.
  { apply well_shaped_addressable. exists (mkBlock [b0; b1; b2] 0), [mkBlock [b3] 3]. split_and!; [done|done|cbn; lia]. }
  apply elem_of_cons in Hi as [->|[->|[->|[]%not_elem_of_nil]%elem_of_cons]%elem_of_cons]; by vm_compute.
Qed.

Lemma exist : files_exist l f.
Proof.
  intros p [->|[->|[]%not_elem_of_nil]%elem_of_cons]%elem_of_cons;
    apply (bool_decide_unpack _); vm_compute; done.
Qed.
End TwoFiles.

Lemma multi_file_layout_witness :
  ∃ t, multi_file (str "d") TwoFiles.info ∅ = Ok (t, create_all TwoFiles.l ∅) ∧
    (∀ i e, e ∈ entries (pieces_by_files_ t) i → entry_ok TwoFiles.l 4 i e) ∧
    (∀ x, 0 ≤ x < total TwoFiles.l → ∃ e, e ∈ entries (pieces_by_files_ t) (Z.to_nat (x / 4)) ∧
       fi_piece_begin e ≤ x mod 4 < fi_piece_begin e + span e).
Proof.
  apply (multi_file_layout (str "d") TwoFiles.info ∅ 4 TwoFiles.l TwoFiles.meta); [lia| |done].
  intros x Hx. apply TwoFiles.ready in Hx. lia.
Defined.

(** The bound is needed: a file of one byte and one of 2^63-1 overflow
    [cur_piece_begin + bytes_size]. *)
Example layout_overflows :
  multi_file (str "d") (NDict [(str "files", NArray [TwoFiles.file (str "a") 1;
      TwoFiles.file (str "b") (2 ^ 63 - 1)]); (str "piece length", NInt 4)])
    {[str "d/a" := []; str "d/b" := []]} = UB.
Proof. vm_compute. reflexivity. Qed.


(** The metadata of a file of ten bytes in pieces of four. *)
Module OneFile.
Definition info : Node :=
  NDict [(str "length", NInt 10); (str "name", NStr (str "x")); (str "piece length", NInt 4);
         (str "pieces", NStr (replicate 60 x00))].
Definition meta : Node := NDict [(str "info", info)].
Definition tf : TorrentFiles :=
  match single_file (str "d") meta info ∅ with Ok (t, _) => t | _ => mkTorrentFiles 0 0 ∅ end.
Definition f : fsys := create_file ∅ (str "d/x") 10.

Lemma meta_ok : single_meta (str "d") meta info 4 10 (str "d/x") (replicate 60 x00).
Proof. split_and!; [done|done| |done]. by exists (str "x"). Qed.

Lemma one_tf_eq : single_file (str "d") meta info ∅ = Ok (tf, f).
Proof.
  destruct (single_file_inv (str "d") meta info ∅ 4 10 _ _ meta_ok) as (t & E & _);
    [lia|by vm_compute|lia|lia|]. unfold tf, f. by rewrite E.
Qed.
End OneFile.

Lemma single_file_write_read_witness :
  ∃ f2, WritePieceToFile OneFile.tf (TwoFiles.piece 2 x01 x02 x03 x04) OneFile.f = Ok f2 ∧
    ReadPieceBlockFromFile OneFile.tf 2 1 2 f2 = Ok (mkBlock [x02; x03] (u32 (u64 1))).
Proof.
  apply (single_file_write_read (str "d") OneFile.meta OneFile.info ∅ 4 10 (str "d/x")
    (replicate 60 x00) OneFile.tf OneFile.f (TwoFiles.piece 2 x01 x02 x03 x04) OneFile.f 1 2).
  - apply OneFile.meta_ok.
  - lia.
  - lia.
  - vm_compute. reflexivity.
  - apply OneFile.one_tf_eq.
  - apply (TwoFiles.fits 2); set_solver.
  - done.
  - apply (bool_decide_unpack _). vm_compute. done.
  - cbn. lia.
  - apply (bool_decide_unpack _). vm_compute. done.
  - lia.
  - lia.
  - cbn. lia.
Defined.

(** ** What the layout gets wrong *)

(** A file that ends inside a piece gets the rest of the piece written after its
    end: [min(piece.size() - piece_begin, size)] uses the size of the whole file. *)
Example write_grows_file :
  (f ← WritePieceToFile TwoFiles.tf (TwoFiles.piece 1 x01 x02 x03 x04) TwoFiles.f;
   Ok (f !! str "d/a")) = Ok (Some [x00; x00; x00; x00; x01; x02; x03; x04]).
Proof. vm_compute. reflexivity. Qed.

(** The last piece of a single file whose size is a multiple of the piece length
    has size zero. *)
Lemma single_last_piece_zero root meta info f pl n path pieces t f1 :
  single_meta root meta info pl n path pieces → 0 < pl < 2 ^ 63 → 0 ≤ n < 2 ^ 63 →
  Z.of_nat (piece_count_of pieces) * pl < 2 ^ 63 → single_file root meta info f = Ok (t, f1) →
  (pl | n) → last_piece_size_ t = 0.
Proof.
  intros Hm Hpl Hn Hb Hf [k ->].
  destruct (single_file_inv root meta info f pl _ path pieces Hm) as (t' & E & _ & Hlast & _); [lia..|].
  rewrite Hf in E. injection E as <- _. rewrite Hlast, Z.rem_mul by lia. done.
Qed.

(** So has the last piece of several files when the last of them ends with the
    piece it began in. *)
Example multi_last_piece_zero :
  (r ← multi_file (str "d") (NDict [(str "files", NArray [TwoFiles.file (str "a") 4]);
                                    (str "piece length", NInt 4)]) ∅;
   Ok (last_piece_size_ (fst r))) = Ok 0.
Proof. vm_compute. reflexivity. Qed.

(** ** Uploads *)

(** No key of [active_requests_] names a peer: the request has been moved into
    the lambda when the key is built from it. *)
Definition keys_null (m : TorrentFilesManager) : Prop :=
  map_Forall (fun (k : request_key) _ => fst (fst (fst k)) = None) (active_requests_ m).

Lemma UploadBlock_keys m req rs id m' rs' :
  keys_null m → UploadBlock m req rs = Ok (id, m', rs') → keys_null m'.
Proof.
  intros Hm H. unfold UploadBlock in H. apply bind_Ok_inv in H as ([[i w] rs1] & _ & H).
  cbn in H. destruct (active_requests_ m !! _) eqn:E; injection H as <- <- <-; [done|].
  by apply map_Forall_insert_2.
Qed.

Inductive manager_reach : TorrentFilesManager → Prop :=
  | reach_new t : manager_reach (mkManager t ∅ new_worker)
  | reach_upload m req rs id m' rs' :
      manager_reach m → UploadBlock m req rs = Ok (id, m', rs') → manager_reach m'
  | reach_cancel m req p m' : manager_reach m → CancelBlock m req = Ok (p, m') → manager_reach m'
  | reach_download m req rs m' rs' :
      manager_reach m → DownloadPiece m req rs = Ok (m', rs') → manager_reach m'
  | reach_run m j id w : manager_reach m → run_round (a_worker_ m) = Some (j, id, w) →
      manager_reach (set_worker m w)
  | reach_entry m req : manager_reach m → manager_reach (snd (upload_entry m req))
  | reach_start m : manager_reach m → manager_reach (set_worker m (Start (a_worker_ m))).

Lemma manager_reach_keys m : manager_reach m → keys_null m.
Proof.
  induction 1 as [t|m req rs id m' rs' _ IH H|m req p m' _ IH H|m req rs m' rs' _ IH H| | |].
  - apply map_Forall_empty.
  - by eapply UploadBlock_keys.
  - unfold CancelBlock in H. destruct (active_requests_ m !! _); [|by injection H as <- <-].
    apply bind_Ok_inv in H as (w & _ & H). apply bind_Ok_inv in H as (q & _ & [= <- <-]).
    by apply map_Forall_delete.
  - unfold DownloadPiece in H. by apply bind_Ok_inv in H as ([[? w] rs1] & _ & [= <- <-]).
  - done.
  - unfold upload_entry. destruct (active_requests_ m !! _); [done|]. by apply map_Forall_delete.
  - done.
Qed.

(** In every reachable state of the file manager, cancelling the upload a peer
    asked for finds no request and changes nothing, and the upload lambda never
    takes its early return: an upload cannot be cancelled. *)
Theorem uploads_never_cancelled m req p :
  manager_reach m → rr_peer req = Some p →
  CancelBlock m req = Ok (None, m) ∧ fst (upload_entry m req) = false.
Proof.
  intros Hm%manager_reach_keys Hp. unfold CancelBlock, upload_entry.
  destruct (active_requests_ m !! key_of req) as [id|] eqn:E; [|done].
  apply Hm in E. unfold key_of in E. cbn in E. by rewrite Hp in E.
Qed.

(** An upload requested by peer 3 and then cancelled by it is still in the queue. *)
Lemma uploads_never_cancelled_witness :
  let req := mkReadRequest (Some 3%nat) 0 0 16384 in
  ∃ m id rs, UploadBlock (mkManager OneFile.tf ∅ new_worker) req [7] = Ok (id, m, rs) ∧
    length (queue_ (a_worker_ m)) = 1%nat ∧
    CancelBlock m req = Ok (None, m) ∧ fst (upload_entry m req) = false.
Proof.
  eexists _, _, _. split; [vm_compute; reflexivity|]. split; [reflexivity|].
  apply (uploads_never_cancelled _ _ 3%nat); [|reflexivity].
  eapply (reach_upload (mkManager OneFile.tf ∅ new_worker) (mkReadRequest (Some 3%nat) 0 0 16384) [7]).
  - apply reach_new.
  - vm_compute. reflexivity.
Defined.

(** ** Validation *)

Section Valid.
Context `{Host} `{S : Sha1} `{!Sha1Laws S}.

Lemma ArePieceValid_eq pieces_sha1 req :
  0 ≤ wr_piece_index req → wr_piece_index req * 20 < 2 ^ 32 →
  (Z.to_nat (wr_piece_index req) < piece_count_of pieces_sha1)%nat →
  ArePieceValid pieces_sha1 req = Ok (bool_decide (GetSHA1 (piece_data (wr_piece req))
    = take 20 (drop (20 * Z.to_nat (wr_piece_index req)) pieces_sha1))).
Proof.
  intros H0 H1 H2. unfold ArePieceValid, piece_count_of in *.
  pose proof (Nat.Div0.mul_div_le (length pieces_sha1) 20) as Hd.
  rewrite u32_small by lia. rewrite GetSHA1FromPiece_data.
  replace (Z.to_nat (wr_piece_index req * 20)) with (20 * Z.to_nat (wr_piece_index req))%nat by lia.
  set (k := Z.to_nat (wr_piece_index req)) in *. set (n := (length pieces_sha1 / 20)%nat) in *.
  assert (20 * k + 20 ≤ length pieces_sha1)%nat by lia.
  rewrite decide_True by lia. do 3 f_equal.
  rewrite drop_app_le, take_app_le by (rewrite ?length_drop; lia). done.
Qed.

(** A downloaded piece is accepted exactly when its SHA-1 is the twenty bytes
    the metadata gives for its index, for every index the metadata covers. *)
Theorem ArePieceValid_correct pieces_sha1 req :
  0 ≤ wr_piece_index req → wr_piece_index req * 20 < 2 ^ 32 →
  (Z.to_nat (wr_piece_index req) < piece_count_of pieces_sha1)%nat →
  ArePieceValid pieces_sha1 req = Ok (bool_decide (GetSHA1 (piece_data (wr_piece req))
    = take 20 (drop (20 * Z.to_nat (wr_piece_index req)) pieces_sha1))).
Proof. apply ArePieceValid_eq. Qed.
End Valid.

Lemma ArePieceValid_correct_witness :
  ArePieceValid (H:=x86_64) (H0:=toy_sha1) (replicate 60 x00)
      (mkWriteRequest None 2 (TwoFiles.piece 2 x01 x02 x03 x04)) = Ok false.
Proof.
  pose proof (ArePieceValid_correct (H:=x86_64) (S:=toy_sha1) (Sha1Laws0:=toy_sha1_laws)
    (replicate 60 x00) (mkWriteRequest None 2 (TwoFiles.piece 2 x01 x02 x03 x04))
    ltac:(cbn; lia) ltac:(cbn; lia) ltac:(vm_compute; lia)) as E.
  rewrite E. vm_compute. reflexivity.
Defined.
