(* ===== verification/Peer.v ===== *)
(** * Peers and the master peer (src/BitTorrent/Peer.h, Peer.cpp)

    A peer's identity and bitfield, the master peer's sets of pieces being
    uploaded and requested, its subscribers by address, and its handshake. *)

From Stdlib Require Import ZArith Lia Strings.Byte.
From coqutil Require Import Byte.
From S2P Require Import Prelude Bytes Streams Text Bitset Bitfield.

Definition MAX_AVAILABLE_UNCHOKE_ONE_TIME : Z := 35.
Definition handshake_length : nat := 68.

Section Peer.
Context {B : Type} `{DynamicBitset B}.

Record Peer := mkPeer {
  id : bytes;
  ip : Z;
  port : Z;
  bitfield_ : B;
}.

(** The constructors; [rs] are the twelve random bytes of a generated id. *)
Definition Peer_generated (rs : bytes) : Peer := mkPeer (str "-CP2060-" ++ rs) 0 0 (db_make 0).
Definition Peer_at (rs : bytes) (ip_address port_number : Z) : Peer :=
  mkPeer (str "-CP2060-" ++ rs) ip_address port_number (db_make 0).
Definition Peer_key (key : bytes) (ip_address port_number : Z) : Peer :=
  mkPeer key ip_address port_number (db_make 0).

Definition set_bitfield (p : Peer) (b : B) : Peer := mkPeer (id p) (ip p) (port p) b.

(** The copy and the move constructor build a peer from the key and the address
    and give it the bitfield; the assignments do the same to a peer that is
    there.  Peers are therefore passed as values below ([Peer_copy_eq]). *)
Definition Peer_copy (cpy : Peer) : Peer :=
  set_bitfield (Peer_key (id cpy) (ip cpy) (port cpy)) (bitfield_ cpy).

Definition Peer_assign (p cpy : Peer) : Peer :=
  set_bitfield (mkPeer (id cpy) (ip cpy) (port cpy) (bitfield_ p)) (bitfield_ cpy).

Lemma Peer_copy_eq p cpy : Peer_copy cpy = cpy ∧ Peer_assign p cpy = cpy.
Proof. by destruct cpy. Qed.

(** [MasterPeer]; the subscribers are numbers of client objects. *)
Record MasterPeer := mkMaster {
  as_peer : Peer;
  handshake_message_ : bytes;
  peers_subscribers_ : gmap Z nat;
  uploaded_pieces_ : gset Z;
  requested_pieces_ : gset Z;
  available_unchoke_count_ : Z;
}.

Definition set_peer (m : MasterPeer) p : MasterPeer :=
  mkMaster p (handshake_message_ m) (peers_subscribers_ m) (uploaded_pieces_ m)
           (requested_pieces_ m) (available_unchoke_count_ m).
Definition set_subscribers (m : MasterPeer) s : MasterPeer :=
  mkMaster (as_peer m) (handshake_message_ m) s (uploaded_pieces_ m)
           (requested_pieces_ m) (available_unchoke_count_ m).
Definition set_uploaded (m : MasterPeer) u : MasterPeer :=
  mkMaster (as_peer m) (handshake_message_ m) (peers_subscribers_ m) u
           (requested_pieces_ m) (available_unchoke_count_ m).
Definition set_requested (m : MasterPeer) r : MasterPeer :=
  mkMaster (as_peer m) (handshake_message_ m) (peers_subscribers_ m) (uploaded_pieces_ m)
           r (available_unchoke_count_ m).

(** [MakeHandshake]: protocol name, eight reserved bytes, info hash, peer id. *)
Definition MakeHandshake (info_hash peer_id : bytes) : bytes :=
  x13 :: str "BitTorrent protocol" ++ replicate 8 x00 ++ take 20 info_hash ++ take 20 peer_id.

Definition new_master (p : Peer) (piece_count : nat) (info_hash : bytes) : MasterPeer :=
  let p := set_bitfield p (Resize (bitfield_ p) piece_count) in
  mkMaster p (MakeHandshake info_hash (id p)) ∅ ∅ ∅ MAX_AVAILABLE_UNCHOKE_ONE_TIME.

Definition MarkRequestedPiece (m : MasterPeer) (piece_id : Z) : MasterPeer :=
  set_requested m ({[piece_id]} ∪ requested_pieces_ m).
Definition UnmarkRequestedPiece (m : MasterPeer) (piece_id : Z) : MasterPeer :=
  set_requested m (requested_pieces_ m ∖ {[piece_id]}).
Definition IsPieceRequested (m : MasterPeer) (piece_id : Z) : bool :=
  bool_decide (piece_id ∈ requested_pieces_ m).
Definition MarkUploadedPiece (m : MasterPeer) (piece_id : Z) : MasterPeer :=
  set_uploaded m ({[piece_id]} ∪ uploaded_pieces_ m).
Definition UnmarkUploadedPiece (m : MasterPeer) (piece_id : Z) : MasterPeer :=
  set_uploaded m (uploaded_pieces_ m ∖ {[piece_id]}).
Definition IsPieceUploaded (m : MasterPeer) (piece_id : Z) : bool :=
  bool_decide (piece_id ∈ uploaded_pieces_ m).
Definition IsPieceDone (m : MasterPeer) (piece_id : Z) : outcome bool :=
  Test (bitfield_ (as_peer m)) (Z.to_nat piece_id).

Definition CanUnchokePeer (m : MasterPeer) (peer_ip : Z) : bool :=
  match peers_subscribers_ m !! u32 peer_ip with
  | None => false
  | Some _ => negb (available_unchoke_count_ m =? 0)
  end.

(** The map's part of [Subscribe]: whether the client is to be processed. *)
Definition subscribe_entry (m : MasterPeer) (sub_ip : Z) (new_sub : nat) : bool * MasterPeer :=
  if decide (IpToStr sub_ip = IpToStr (ip (as_peer m))) then (false, m)
  else match peers_subscribers_ m !! sub_ip with
       | Some _ => (false, m)
       | None => (true, set_subscribers m (<[sub_ip := new_sub]> (peers_subscribers_ m)))
       end.

(** [Unsubscribe]: the log line looks the address up with [at]. *)
Definition Unsubscribe (m : MasterPeer) (unsub_ip : Z) : outcome MasterPeer :=
  _ ← opt_or out_of_range (peers_subscribers_ m !! unsub_ip);
  Ok (set_subscribers m (delete unsub_ip (peers_subscribers_ m))).

(** The range [memcmp] looks at, when the view holds it. *)
Definition slice (data : bytes) (pos n : nat) : outcome bytes :=
  if decide (pos + n ≤ length data)%nat then Ok (take n (drop pos data)) else UB.

(** [check_handshake] of PeerClient.cpp, with its short-circuit evaluation. *)
Definition check_handshake (m : MasterPeer) (data : bytes) : outcome bool :=
  b0 ← opt_ub (data !! 0%nat);
  if decide (b0 = x13) then
    name ← slice data 1 19;
    if decide (name = str "BitTorrent protocol") then
      theirs ← slice data 28 20;
      ours ← slice (handshake_message_ m) 28 20;
      Ok (bool_decide (theirs = ours))
    else Ok false
  else Ok false.
End Peer.

Arguments Peer B : clear implicits.
Arguments MasterPeer B : clear implicits.

(** ** Facts *)

Section PeerFacts.
Context {B : Type} `{DynamicBitset B}.
Implicit Types m : MasterPeer B.

Lemma handshake_layout ih pid :
  length ih = 20%nat → length pid = 20%nat →
  length (MakeHandshake ih pid) = handshake_length ∧
  slice (MakeHandshake ih pid) 28 20 = Ok ih ∧ slice (MakeHandshake ih pid) 48 20 = Ok pid.
Proof.
  intros Hi Hp. unfold MakeHandshake, slice.
  rewrite !take_ge by lia.
  assert (length (x13 :: str "BitTorrent protocol" ++ replicate 8 x00 ++ ih ++ pid) = 68%nat) as Hl.
  { change (length (x13 :: str "BitTorrent protocol" ++ replicate 8 x00 ++ ih ++ pid))
      with (28 + length (ih ++ pid))%nat. rewrite length_app. lia. }
  rewrite Hl. split; [done|]. rewrite !decide_True by lia.
  split; f_equal.
  - change (drop 28 (x13 :: str "BitTorrent protocol" ++ replicate 8 x00 ++ ih ++ pid)) with (ih ++ pid).
    by rewrite take_app_length'.
  - change (drop 48 (x13 :: str "BitTorrent protocol" ++ replicate 8 x00 ++ ih ++ pid))
      with (drop 20 (ih ++ pid)).
    rewrite drop_app_length' by done. by apply take_ge; lia.
Qed.
End PeerFacts.
