(* ===== verification/Tracker.v ===== *)
(** * Trackers (src/BitTorrent/Tracker.h, Tracker.cpp and the data handling of
      src/Network/BitTorrent/TrackerRequester.cpp)

    The address of a tracker, what is asked of it and what it answers: the text
    of an HTTP request, the datagrams of the UDP protocol, and the peers of the
    answers.  The state machines that exchange them are in HttpTracker.v and
    UdpTracker.v. *)

From Stdlib Require Import ZArith Lia Strings.Byte Strings.String.
From coqutil Require Import Byte.
From S2P Require Import Prelude Bytes Streams Bencode Text Bitset Bitfield Message Peer.

(** ** Addresses of trackers *)

(** The two Boost regular expressions of the program: what [regex_split]
    appends for an address, and for the text of an answer. *)
Class Regex := {
  split_url : bytes → list bytes;
  split_bencode : bytes → list bytes;
}.

Record Url := mkUrl {
  Protocol : bytes;
  Host_ : bytes;
  Port : bytes;
  Path : option bytes;
  File : option bytes;
  Parameters : option bytes;
}.

(** The loop over the members of [Url]: each takes the next part while there
    is one. *)
Definition deserialize (urls_parts : list bytes) : Url :=
  mkUrl (default [] (urls_parts !! 0%nat)) (default [] (urls_parts !! 1%nat))
        (default [] (urls_parts !! 2%nat)) (urls_parts !! 3%nat) (urls_parts !! 4%nat)
        (urls_parts !! 5%nat).

Definition Tracker_url `{Regex} (tracker_url_arg : bytes) : outcome Url :=
  match split_url tracker_url_arg with
  | [] => Throw (logic_error "Bad url, can't take it apart")
  | urls_parts => Ok (deserialize urls_parts)
  end.

Definition tolower (b : byte) : byte :=
  let z := byte.unsigned b in
  if (65 <=? z) && (z <=? 90) then byte.of_Z (z + 32) else b.

(** The choice of [MakeRequester]. *)
Definition is_udp (tracker_url : Url) : bool :=
  bool_decide (map tolower (Protocol tracker_url) = str "udp").

(** ** Queries *)

Inductive Event := Empty | Completed | Started | Stopped.

Definition event_id (e : Event) : Z :=
  match e with Empty => 0 | Completed => 1 | Started => 2 | Stopped => 3 end.

(** [events_str.at(event)] *)
Definition events_str (e : Event) : outcome bytes :=
  match e with
  | Empty => Throw out_of_range
  | Completed => Ok (str "completed")
  | Started => Ok (str "started")
  | Stopped => Ok (str "stopped")
  end.

#[export] Instance Event_eq_dec : EqDecision Event.
Proof. solve_decision. Defined.

(** The members of [Query] a request uses. *)
Record Query := mkQuery {
  q_event : Event;
  uploaded : Z;
  downloaded : Z;
  left : Z;
  compact : bool;
  q_ip : option bytes;
  numwant : option Z;
  q_key : option bytes;
}.

(** [GetDefaultTrackerQuery] of Torrent.cpp, with the event [TryConnect] adds. *)
Definition default_query (uploaded_ downloaded_ left_ : Z) (event : Event) : Query :=
  mkQuery event uploaded_ downloaded_ left_ true None None None.

(** What a requester uses of its tracker and the torrent behind it. *)
Record Tracker := mkTracker {
  tracker_url : Url;
  GetInfoHash : bytes;
  GetMasterPeerId : bytes;
  GetPort : Z;
}.

Definition crlf : bytes := [x0d; x0a].

(** The text [httpRequester::Connect] writes. *)
Definition http_request `{Host} (t : Tracker) (query : Query) : outcome bytes :=
  _ ← UrlEncode (GetInfoHash t);
  info_hash ← UrlEncode (GetInfoHash t);
  peer_id ← UrlEncode (take 20 (GetMasterPeerId t));
  event ← (if bool_decide (q_event query = Empty) then Ok []
           else e ← events_str (q_event query); Ok (str "&event=" ++ e));
  Ok (str "GET /" ++ default [] (Path (tracker_url t)) ++ str "?info_hash=" ++ info_hash ++
      str "&peer_id=" ++ peer_id ++ str "&port=" ++ print_dec (GetPort t) ++
      str "&uploaded=" ++ print_dec (uploaded query) ++ str "&downloaded=" ++ print_dec (downloaded query) ++
      str "&left=" ++ print_dec (left query) ++
      str "&compact=" ++ (if compact query then str "1" else str "0") ++ event ++
      str " HTTP/1.0" ++ crlf ++ str "Host: " ++ Host_ (tracker_url t) ++ crlf ++
      str "Accept: */*" ++ crlf ++ str "Connection: close" ++ crlf ++ crlf).

(** [std::stoi]: leading spaces, a sign, decimal digits. *)
Definition stoi (s : bytes) : outcome Z :=
  let '(neg, r) := take_sign (skip_ws s) in
  let '(ds, _) := span_digits r in
  match ds with
  | [] => Throw invalid_argument
  | _ => let v := if neg then - digits_from 0 ds else digits_from 0 ds in
         if decide (- 2 ^ 31 ≤ v < 2 ^ 31) then Ok v else Throw out_of_range
  end.

(** ** Answers *)

Record PeerImage {B : Type} := mkImage { BE_struct : Peer B; BE_bin : bytes }.
Arguments PeerImage B : clear implicits.
Arguments mkImage {B}.

Record Response {B : Type} := mkResponse {
  interval : Z;
  tracker_id : bytes;
  complete : Z;
  incomplete : Z;
  peers : list (PeerImage B);
  warning_message : option bytes;
  min_interval : option Z;
}.
Arguments Response B : clear implicits.
Arguments mkResponse {B}.

Definition tracker_again_request_time_secs : Z := 900.

Section Answers.
Context {B : Type} `{DynamicBitset B} `{Host}.

Definition new_response : Response B :=
  mkResponse tracker_again_request_time_secs [] 0 0 [] None None.

(** *** Peers of six bytes each *)

(** [data[i]] of a view. *)
Definition view_at (data : bytes) (i : nat) : outcome byte := opt_ub (data !! i).
(** [s[i]] of a string: the position past the end holds the terminator. *)
Definition string_at (s : bytes) (i : nat) : outcome byte :=
  if decide (i = length s) then Ok x00 else opt_ub (s !! i).

(** The inner loop: six bytes from [i]. *)
Fixpoint copy_six (at_ : nat → outcome byte) (n i : nat) : outcome bytes :=
  match n with
  | O => Ok []
  | S n => b ← at_ i; r ← copy_six at_ n (S i); Ok (b :: r)
  end.

(** The outer loop: groups of six bytes from [i] until a group starts with a
    zero byte.  A round reads past its group, so no round starts further than
    the bytes there are. *)
Fixpoint peer_groups (at_ : nat → outcome byte) (fuel i : nat) : outcome (list bytes) :=
  match fuel with
  | O => NoFuel
  | S fuel =>
      b ← at_ i;
      if decide (b = x00) then Ok []
      else
        peer ← copy_six at_ 6 i;
        rest ← peer_groups at_ fuel (i + 6);
        Ok (peer :: rest)
  end.

(** A peer from its group; [rs] are the random bytes of its id. *)
Definition image_of (rs peer : bytes) : PeerImage B :=
  let ip := BigToNative 4 (ArrayToValue 4 peer) in
  let port := BigToNative 2 (ArrayToValue 2 (drop 4 peer)) in
  mkImage (Peer_at rs ip port) peer.

(** [fresh k] are the random bytes of the [k]-th peer. *)
Definition images_of (fresh : nat → bytes) (groups : list bytes) : list (PeerImage B) :=
  imap (fun k g => image_of (fresh k) g) groups.

Definition set_peers (r : Response B) ps : Response B :=
  mkResponse (interval r) (tracker_id r) (complete r) (incomplete r) ps (warning_message r) (min_interval r).

(** *** The UDP answer *)

(** The body of [udpRequester::SetResponse] up to the promise. *)
Definition udp_response (fresh : nat → bytes) (data : bytes) : outcome (Response B) :=
  interval4 ← slice data 8 4;
  groups ← peer_groups (view_at data) (S (length data)) 20;
  Ok (mkResponse (BigToNative 4 (ArrayToValue 4 interval4)) [] 0 0 (images_of fresh groups) None None).

(** *** The HTTP answer *)

(** [find] of the first key, else of the second. *)
Definition find_either (k1 k2 : bytes) (d : list (bytes * Bencode.Node)) : option Bencode.Node :=
  match find k1 d with Some v => Some v | None => find k2 d end.

(** Read a member if it is there. *)
Definition if_there {A} (o : option Bencode.Node) (get : Bencode.Node → outcome A) (dflt : A) : outcome A :=
  match o with Some v => get v | None => Ok dflt end.

(** A peer of the list form: [p["ip"]] is the mutable access, which adds what is
    missing; the numbers are written as eight bytes each over
    [peer_as_array], which holds [junk] before. *)
Definition dict_image (rs junk : bytes) (p : Bencode.Node) : outcome (PeerImage B) :=
  let '(p, ipn) := ref_key p (str "ip") in
  ipv ← AsNumber ipn;
  let '(p, portn) := ref_key p (str "port") in
  portv ← AsNumber portn;
  let arr := ValueToArray 8 ipv ++ drop 8 junk in
  let arr := take 4 arr ++ ValueToArray 8 portv ++ drop 12 arr in
  let ip := u32 (BigToNative 8 ipv) in
  let port := u16 (BigToNative 8 portv) in
  idn ← TryAt p (str "peer id");
  match idn with
  | Some v =>
      s ← AsString v;
      key ← slice (s ++ [x00]) 0 20;
      Ok (mkImage (Peer_key key ip port) (take 6 arr ++ key))
  | None => Ok (mkImage (Peer_at rs ip port) arr)
  end.

Fixpoint dict_images (fresh junk : nat → bytes) (k : nat) (l : list Bencode.Node)
    : outcome (list (PeerImage B)) :=
  match l with
  | [] => Ok []
  | p :: l => i ← dict_image (fresh k) (junk k) p; images ← dict_images fresh junk (S k) l; Ok (i :: images)
  end.

(** [boost::posix_time::seconds] keeps 64-bit microseconds of the absolute value:
    a number of seconds whose microseconds do not fit overflows. *)
Definition seconds (n : Z) : outcome Z := _ ← i64 (Z.abs n * 1000000); Ok n.

(** [httpRequester::SetResponse] between the regular expression and the
    promise: [None] when the peers are neither a string nor a list. *)
Definition http_response (fresh junk : nat → bytes) (root : Bencode.Node)
    : outcome (option (Response B)) :=
  d ← AsDict root;
  tid ← if_there (find (str "tracker_id") d) AsString [];
  intv ← if_there (find (str "interval") d) (fun v => n ← AsNumber v; seconds n) tracker_again_request_time_secs;
  comp ← if_there (find (str "complete") d) AsNumber 0;
  incomp ← if_there (find (str "incomplete") d) AsNumber 0;
  mini ← if_there (find_either (str "min_interval") (str "min interval") d)
                  (fun v => n ← AsNumber v; Ok (Some n)) None;
  warn ← if_there (find_either (str "warning_message") (str "warning message") d)
                  (fun v => s ← AsString v; Ok (Some s)) None;
  let resp ps := mkResponse intv tid (u64 comp) (u64 incomp) ps warn mini in
  bencode_peers ← opt_or out_of_range (find (str "peers") d);
  if IsString bencode_peers then
    s ← AsString bencode_peers;
    groups ← peer_groups (string_at s) (S (S (length s))) 0;
    Ok (Some (resp (images_of fresh groups)))
  else if IsArray bencode_peers then
    l ← Bencode.AsArray bencode_peers;
    ps ← dict_images fresh junk 0 l;
    Ok (Some (resp ps))
  else Ok None.

(** ** The datagrams of the UDP protocol *)

(** [memcpy] to [arr + pos]. *)
Definition poke (arr : bytes) (pos : nat) (bs : bytes) : bytes :=
  take pos arr ++ bs ++ drop (pos + length bs) arr.

Definition short_buff_size : nat := 32.
Definition middle_buff_size : nat := 98.
Definition MTU : nat := 1500.

Definition protocol_id : Z := 0x41727101980.

(** [make_announce_request]: what it stores over the bytes of an earlier request. *)
Definition make_announce_request (t : Tracker) (query_ : Query) (announce_req_ : bytes) : outcome bytes :=
  ih ← slice (GetInfoHash t ++ [x00]) 0 20;
  pid ← slice (GetMasterPeerId t) 0 20;
  ipv ← match q_ip query_ with Some a => IpToInt a | None => Ok 0 end;
  keyv ← match q_key query_ with Some k => stoi k | None => Ok 0 end;
  let want := match numwant query_ with Some n => s32 n | None => -1 end in
  let put := fun sz v pos arr => poke arr pos (ValueToArray sz (NativeToBig sz v)) in
  let arr := poke announce_req_ 16 ih in
  let arr := poke arr 36 pid in
  let arr := put 4%nat 1 8%nat arr in
  let arr := put 8%nat (downloaded query_) 56%nat arr in
  let arr := put 8%nat (left query_) 64%nat arr in
  let arr := put 8%nat (uploaded query_) 72%nat arr in
  let arr := put 4%nat (event_id (q_event query_)) 80%nat arr in
  let arr := put 4%nat ipv 84%nat arr in
  let arr := put 4%nat keyv 88%nat arr in
  let arr := put 4%nat want 92%nat arr in
  Ok (put 2%nat (u16 (GetPort t)) 96%nat arr).

(** The datagram of [do_try_connect]. *)
Definition connect_datagram (transaction_id : Z) : SendingMessage :=
  put_fields (sm_make BigEndian) [(8%nat, protocol_id); (4%nat, 0); (4%nat, transaction_id)].
End Answers.
