(* ===== verification/TrackerFacts.v ===== *)
(** * Requests and answers of trackers

    The announce request field by field, six-byte peers and the addresses they
    stand for, and the words of a received datagram: lemmas the facts about
    both kinds of requester use. *)

From Stdlib Require Import ZArith Lia Strings.Byte Strings.String.
From coqutil Require Import Byte Word.LittleEndianList.
From S2P Require Import Prelude Bytes Streams Bencode Text Bitset Bitfield Message Peer Tracker.

(** ** Storing into an array *)

Lemma poke_app pre mid post bs :
  length mid = length bs → poke (pre ++ mid ++ post) (length pre) bs = pre ++ bs ++ post.
Proof.
  intros Hm. unfold poke. rewrite take_app_length. do 2 f_equal.
  by rewrite <- drop_drop, drop_app_length, <- Hm, drop_app_length.
Qed.

Lemma length_concat_sum (cs : list bytes) : length (concat cs) = list_sum (map length cs).
Proof. induction cs as [|c cs IH]; [done|]. cbn [concat map]. rewrite length_app, IH. done. Qed.

Lemma slice_prefix (a b : bytes) n : length a = n → slice (a ++ b) 0 n = Ok a.
Proof.
  intros <-. unfold slice. rewrite decide_True by (rewrite length_app; lia).
  by rewrite drop_0, take_app_length.
Qed.

(** A list cut into pieces of the given lengths and what remains. *)
Lemma cut_pieces ns (l : bytes) :
  (list_sum ns ≤ length l)%nat → ∃ cs last, map length cs = ns ∧ l = concat (cs ++ [last]).
Proof.
  revert l. induction ns as [|n ns IH]; intros l Hl.
  - exists [], l. split; [done|]. cbn. by rewrite app_nil_r.
  - cbn in Hl. change (foldr Nat.add 0%nat ns) with (list_sum ns) in Hl.
    destruct (IH (drop n l)) as (cs & last & Hcs & E); [rewrite length_drop; lia|].
    exists (take n l :: cs), last. cbn. rewrite Hcs, length_take. split; [f_equal; lia|].
    by rewrite <- E, take_drop.
Qed.

(** Storing over the [i]-th of consecutive pieces. *)
Lemma poke_concat cs i pos c bs :
  cs !! i = Some c → pos = list_sum (map length (take i cs)) → length c = length bs →
  poke (concat cs) pos bs = concat (<[i := bs]> cs).
Proof.
  intros Hi -> Hc. rewrite <- (take_drop_middle cs i c Hi) at 1.
  rewrite insert_take_drop by (by eapply lookup_lt_Some). rewrite !concat_app. cbn [concat].
  rewrite <- length_concat_sum. by apply poke_app.
Qed.

(** ** The announce datagram *)

Section Datagrams.
Context `{Host}.

(** The fields from the info hash on. *)
Definition announce_tail (t : Tracker) (q : Query) : bytes :=
  GetInfoHash t ++ GetMasterPeerId t ++ be_split 8 (downloaded q) ++ be_split 8 (left q) ++
  be_split 8 (uploaded q) ++ be_split 4 (event_id (q_event q)) ++ be_split 4 0 ++ be_split 4 0 ++
  be_split 4 (-1) ++ be_split 2 (GetPort t).

Definition announce_datagram (t : Tracker) (q : Query) (connection_id : bytes) (tid : Z) : bytes :=
  connection_id ++ be_split 4 1 ++ be_split 4 tid ++ announce_tail t q.

(** Connection id, transaction id and the spare last byte may hold anything. *)
Definition template (t : Tracker) (q : Query) (arr : bytes) : Prop :=
  ∃ cid tid last, length cid = 8%nat ∧ length tid = 4%nat ∧ length last = 1%nat ∧
    arr = cid ++ be_split 4 1 ++ tid ++ announce_tail t q ++ last.

(** The lengths of the fields of an announce request. *)
Definition announce_layout : list nat := [8; 4; 4; 20; 20; 8; 8; 8; 4; 4; 4; 4; 2]%nat.

Definition good_tracker (t : Tracker) : Prop :=
  length (GetInfoHash t) = 20%nat ∧ length (GetMasterPeerId t) = 20%nat ∧ 0 ≤ GetPort t < 2 ^ 16.
Definition plain_query (q : Query) : Prop := q_ip q = None ∧ q_key q = None ∧ numwant q = None.

Lemma length_announce_tail t q : good_tracker t → length (announce_tail t q) = 82%nat.
Proof.
  intros (Hi & Hp & _). unfold announce_tail. rewrite !length_app, !length_be_split. lia.
Qed.

Lemma make_announce_request_ok t q arr :
  good_tracker t → plain_query q → length arr = 99%nat →
  ∃ arr', make_announce_request t q arr = Ok arr' ∧ template t q arr'.
Proof.
  intros (Hi & Hp & Hport) (Eip & Ekey & Ewant) Hl. unfold make_announce_request.
  rewrite (slice_prefix _ [x00] 20 Hi), <- (app_nil_r (GetMasterPeerId t)), (slice_prefix _ [] 20 Hp), !bind_Ok.
  rewrite Eip, Ekey, Ewant, !bind_Ok. cbv zeta.
  rewrite !NativeToBig_bytes.
  destruct (cut_pieces announce_layout arr) as (cs & last & Hcs & ->); [cbn; lia|].
  rewrite length_concat_sum, map_app, Hcs in Hl. cbn in Hl.
  unfold announce_layout in Hcs.
  destruct cs as [|c0 [|c1 [|c2 [|c3 [|c4 [|c5 [|c6 [|c7 [|c8 [|c9 [|ca [|cb [|cc [|cd cs]]]]]]]]]]]]]]; try discriminate Hcs.
  injection Hcs as L0 L1 L2 L3 L4 L5 L6 L7 L8 L9 La Lb Lc.
  eexists. split; [reflexivity|].
  rewrite (poke_concat _ 3 16 c3), (poke_concat _ 4 36 c4), (poke_concat _ 1 8 c1), (poke_concat _ 5 56 c5),
    (poke_concat _ 6 64 c6), (poke_concat _ 7 72 c7), (poke_concat _ 8 80 c8), (poke_concat _ 9 84 c9),
    (poke_concat _ 10 88 ca), (poke_concat _ 11 92 cb), (poke_concat _ 12 96 cc);
    cbn [insert list_insert take map list_sum foldr app lookup list_lookup]; rewrite ?length_be_split; try (reflexivity || lia).
  exists c0, c2, last. split_and!; [done|done|injection Hl; lia|].
  unfold announce_tail. cbn [concat]. unfold u16. rewrite (Z.mod_small (GetPort t)) by lia.
  by rewrite app_nil_r, <- !app_assoc.
Qed.

(** Connection and transaction id are stored over an earlier request. *)
Lemma template_poke t q arr cid tid :
  good_tracker t → template t q arr → length cid = 8%nat → length tid = 4%nat →
  let arr' := poke (poke arr 0 cid) 12 tid in
  template t q arr' ∧ take middle_buff_size arr' = cid ++ be_split 4 1 ++ tid ++ announce_tail t q.
Proof.
  intros Ht (c & d & last & Lc & Ld & Ll & ->) Lcid Ltid. cbv zeta.
  pose proof (poke_app [] c (be_split 4 1 ++ d ++ announce_tail t q ++ last) cid ltac:(lia)) as E.
  cbn [app length] in E. rewrite E. clear E.
  replace 12%nat with (length (cid ++ be_split 4 1)) by (rewrite length_app, length_be_split; lia).
  rewrite (app_assoc cid), (poke_app _ d), <- app_assoc by lia.
  split; [exists cid, tid, last; by split_and!|].
  rewrite !app_assoc. apply take_app_length'.
  rewrite !length_app, length_announce_tail, length_be_split by done. unfold middle_buff_size. lia.
Qed.
End Datagrams.

(** ** The peers of an answer *)

Definition group_ok (g : bytes) : Prop := length g = 6%nat ∧ head g ≠ Some x00.

Lemma view_at_mid pre b post : view_at (pre ++ b :: post) (length pre) = Ok b.
Proof. unfold view_at. by rewrite lookup_app_r, Nat.sub_diag by lia. Qed.

Lemma view_at_end data : view_at data (length data) = UB.
Proof. unfold view_at. by rewrite lookup_ge_None_2 by lia. Qed.

Lemma copy_six_view pre mid post :
  copy_six (view_at (pre ++ mid ++ post)) (length mid) (length pre) = Ok mid.
Proof.
  revert pre. induction mid as [|b mid IH]; intros pre; [done|]. cbn [length copy_six].
  cbn [app]. rewrite view_at_mid, bind_Ok.
  specialize (IH (pre ++ [b])). rewrite length_app, <- app_assoc, Nat.add_1_r in IH. cbn [app] in IH.
  by rewrite IH.
Qed.

Lemma copy_six_short data n i : (length data < i + n)%nat → n ≠ 0%nat → copy_six (view_at data) n i = UB.
Proof.
  revert i. induction n as [|n IH]; intros i Hi Hn; [done|]. cbn [copy_six].
  destruct (view_at data i) as [b| | | |] eqn:E; unfold view_at in E; destruct (data !! i) as [b'|] eqn:Eb; try done.
  rewrite bind_Ok. clear E. rename Eb into E.
  apply lookup_lt_Some in E. rewrite IH; [done|lia|]. intros ->. lia.
Qed.

Lemma peer_groups_round pre g post fuel :
  group_ok g →
  peer_groups (view_at (pre ++ g ++ post)) (S fuel) (length pre) =
    (rest ← peer_groups (view_at ((pre ++ g) ++ post)) fuel (length (pre ++ g)); Ok (g :: rest)).
Proof.
  intros [Hg Hh]. cbn [peer_groups]. destruct g as [|b g]; [done|]. cbn [app]. rewrite view_at_mid, bind_Ok.
  rewrite decide_False by (intros ->; by apply Hh). change (b :: g ++ post) with ((b :: g) ++ post).
  replace 6%nat with (length (b :: g)) at 1 by done. rewrite copy_six_view, bind_Ok.
  by rewrite <- app_assoc, length_app, Hg.
Qed.

Lemma peer_groups_app pre gs post fuel :
  Forall group_ok gs →
  peer_groups (view_at (pre ++ concat gs ++ post)) (length gs + fuel) (length pre) =
    (rest ← peer_groups (view_at ((pre ++ concat gs) ++ post)) fuel (length (pre ++ concat gs)); Ok (gs ++ rest)).
Proof.
  revert pre. induction gs as [|g gs IH]; intros pre Hgs; cbn [concat length app Nat.add].
  - rewrite !app_nil_r. cbn [app]. by destruct (peer_groups _ _ _).
  - apply list.Forall_cons in Hgs as [Hg Hgs]. rewrite <- (app_assoc g), peer_groups_round by done.
    rewrite IH, <- !app_assoc by done. by destruct (peer_groups _ _ _).
Qed.

(** The groups up to the terminator. *)
Lemma peer_groups_terminated pre gs post fuel :
  Forall group_ok gs → (length gs < fuel)%nat →
  peer_groups (view_at (pre ++ concat gs ++ x00 :: post)) fuel (length pre) = Ok gs.
Proof.
  intros Hgs Hf. replace fuel with (length gs + S (fuel - length gs - 1))%nat by lia.
  rewrite peer_groups_app by done. cbn [peer_groups]. rewrite view_at_mid, bind_Ok, decide_True, bind_Ok by done. by rewrite app_nil_r.
Qed.

(** A rest that is too short for a group and does not start with a zero. *)
Lemma peer_groups_cut pre gs post fuel :
  Forall group_ok gs → (length gs + 1 < fuel)%nat → (0 < length post < 6)%nat → head post ≠ Some x00 →
  peer_groups (view_at (pre ++ concat gs ++ post ++ [x00])) fuel (length pre) = UB.
Proof.
  intros Hgs Hf Hl Hh. replace fuel with (length gs + S (S (fuel - length gs - 2)))%nat by lia.
  rewrite peer_groups_app by done. set (pre' := pre ++ concat gs).
  destruct (decide (length post = 5)%nat) as [E5|Hn5].
  - rewrite <- (app_nil_r (post ++ [x00])), peer_groups_round by (split; [rewrite length_app; cbn; lia|by destruct post]).
    cbn [peer_groups]. by rewrite app_nil_r, view_at_end.
  - set (f := S (fuel - length gs - 2)). cbn [peer_groups]. destruct post as [|b post]; [cbn in Hl; lia|]. cbn [app]. rewrite view_at_mid, bind_Ok.
    rewrite decide_False by (intros ->; by apply Hh).
    rewrite copy_six_short; [reflexivity| |lia]. rewrite length_app. cbn. rewrite length_app. cbn in *. lia.
Qed.

(** Whether bytes read six at a time, until a group starts with a zero byte, end
    within a group. *)
Fixpoint cut (l : bytes) : bool :=
  match l with
  | [] => false
  | b :: l =>
      if decide (b = x00) then false
      else match l with _ :: _ :: _ :: _ :: _ :: l => cut l | _ => true end
  end.

(** Whole groups, and a rest that is cut or starts with a zero byte. *)
Lemma cut_split l : ∃ gs post, Forall group_ok gs ∧
  if cut l then l = concat gs ++ post ∧ (0 < length post < 6)%nat ∧ head post ≠ Some x00
  else l ++ [x00] = concat gs ++ x00 :: post.
Proof.
  induction l as [l IH] using (induction_ltof1 _ (@length byte)). unfold ltof in IH.
  destruct l as [|b l]; [by exists [], []|]. cbn [cut]. destruct (decide (b = x00)) as [->|Hb].
  { exists [], (l ++ [x00]). by split. }
  assert (∀ g l', b :: l = g ++ l' → length g = 6%nat → head g = Some b → cut l = cut l → ∃ gs post, Forall group_ok gs ∧
    if cut l' then b :: l = concat gs ++ post ∧ (0 < length post < 6)%nat ∧ head post ≠ Some x00
    else (b :: l) ++ [x00] = concat gs ++ x00 :: post) as Hgo.
  { intros g l' E Hg Hh _. destruct (IH l') as (gs & post & Hgs & Hc); [rewrite E, length_app; lia|].
    exists (g :: gs), post. split; [constructor; [|done]; split; [done|]; rewrite Hh; congruence|].
    cbn [concat]. rewrite E, <- !app_assoc. destruct (cut l'); [|by rewrite Hc]. destruct Hc as (-> & ? & ?). by rewrite app_assoc. }
  destruct l as [|b1 [|b2 [|b3 [|b4 [|b5 l']]]]];
    [..|by apply (Hgo [b; b1; b2; b3; b4; b5] l')];
    (eexists [], _; split; [constructor|]; split; [reflexivity|]; split; [cbn; lia|cbn; congruence]).
Qed.

Lemma length_groups gs : Forall group_ok gs → length (concat gs) = (6 * length gs)%nat.
Proof.
  induction 1 as [|g gs [Hg _] _ IH]; [done|]. cbn [concat length]. rewrite length_app, IH, Hg. lia.
Qed.

(** The answer made of a header of twenty bytes and groups. *)
Definition udp_answer `{DynamicBitset B} `{Host} (fresh : nat → bytes) (hdr : bytes) (gs : list bytes) : Response B :=
  mkResponse (be_combine (take 4 (drop 8 hdr))) [] 0 0 (images_of fresh gs) None None.

Lemma udp_response_groups `{DynamicBitset B} `{Host} fresh hdr gs post :
  length hdr = 20%nat → Forall group_ok gs →
  udp_response fresh (hdr ++ concat gs ++ x00 :: post) = Ok (udp_answer fresh hdr gs).
Proof.
  intros Hh Hgs. unfold udp_response.
  assert (slice (hdr ++ concat gs ++ x00 :: post) 8 4 = Ok (take 4 (drop 8 hdr))) as ->.
  { unfold slice. rewrite decide_True by (rewrite length_app; lia).
    rewrite drop_app_le, take_app_le by (rewrite ?length_drop; lia). done. }
  rewrite bind_Ok. pose proof (peer_groups_terminated hdr gs post (S (length (hdr ++ concat gs ++ x00 :: post))) Hgs) as E.
  rewrite Hh in E. rewrite E, bind_Ok.
  - unfold udp_answer. rewrite BigToNative_bytes; [done|]. rewrite length_take, length_drop. lia.
  - rewrite !length_app, length_groups by done. cbn. lia.
Qed.

(** An answer with any bytes behind its header. *)
Lemma udp_response_any `{DynamicBitset B} `{Host} fresh hdr l :
  length hdr = 20%nat →
  if cut l then udp_response (B:=B) fresh (hdr ++ l ++ [x00]) = UB
  else ∃ r : Response B, udp_response fresh (hdr ++ l ++ [x00]) = Ok r.
Proof.
  intros Hh. destruct (cut_split l) as (gs & post & Hgs & Hl). destruct (cut l).
  - destruct Hl as (-> & Hp & Hhd). unfold udp_response, slice. rewrite decide_True by (rewrite length_app; lia).
    rewrite bind_Ok, <- app_assoc.
    pose proof (peer_groups_cut hdr gs post (S (length (hdr ++ concat gs ++ post ++ [x00]))) Hgs) as Hcut.
    rewrite Hh in Hcut. rewrite Hcut; [done| |done|done]. rewrite !length_app, length_groups by done. cbn. lia.
  - exists (udp_answer fresh hdr gs). rewrite Hl. by apply udp_response_groups.
Qed.

(** A field of a received datagram. *)
Lemma get_value_at `{Host} sz data pos bsz :
  (pos + sz ≤ length data)%nat →
  let m := {| rm_arr := data; rm_inp_pos := pos; rm_order := BigEndian; rm_body_size := bsz |} in
  get_value sz m = Ok (be_combine (take sz (drop pos data)), rm_set_pos m (pos + sz)).
Proof.
  intros Hl. cbv zeta. unfold get_value, CopyTo. cbn. rewrite decide_True by done. cbn.
  rewrite BigToNative_bytes; [done|]. rewrite length_take, length_drop. lia.
Qed.

Lemma BigToNative_NativeToBig `{Host} sz v :
  0 ≤ v < 2 ^ (Z.of_nat sz * 8) → BigToNative sz (NativeToBig sz v) = v.
Proof.
  intros Hv. assert (ArrayToValue sz (ValueToArray sz (NativeToBig sz v)) = NativeToBig sz v) as E.
  { unfold ArrayToValue, ValueToArray. rewrite take_ge by (by rewrite length_repr).
    rewrite unrepr_repr. apply Z.mod_small. unfold NativeToBig. destruct is_little_endian eqn:L; [|done].
    unfold AsValue, unrepr. rewrite L, endian_changer_rev. pose proof (le_combine_bound (rev (repr sz v))) as Hb.
    rewrite length_rev, length_repr in Hb. by rewrite Z.mul_comm. }
  rewrite <- E, NativeToBig_bytes, BigToNative_bytes by apply length_be_split. by apply be_combine_small.
Qed.

(** The two words a datagram begins with. *)
Lemma datagram_head a b rest :
  let data := be_split 4 a ++ be_split 4 b ++ rest in
  take 4 (drop 0 data) = be_split 4 a ∧ take 4 (drop 4 data) = be_split 4 b ∧ drop 8 data = rest.
Proof.
  cbv zeta. split_and!.
  - rewrite drop_0. apply take_app_length'. by rewrite length_be_split.
  - rewrite drop_app_length' by (by rewrite length_be_split). apply take_app_length'. by rewrite length_be_split.
  - rewrite app_assoc. apply drop_app_length'. by rewrite length_app, !length_be_split.
Qed.

(** ** Addresses of peers *)

Section Addresses.
Context {B : Type} `{DynamicBitset B} `{Host}.

Definition peer_bytes (a : Z * Z) : bytes := be_split 4 a.1 ++ be_split 2 a.2.
Definition peer_address (i : PeerImage B) : Z * Z := (ip (BE_struct i), port (BE_struct i)).
Definition address_ok (a : Z * Z) : Prop := 2 ^ 24 ≤ a.1 < 2 ^ 32 ∧ 0 ≤ a.2 < 2 ^ 16.

Lemma peer_bytes_ok a : address_ok a → group_ok (peer_bytes a).
Proof.
  destruct a as [a p]. intros [Ha _]. cbn in Ha. unfold peer_bytes. cbn [fst snd]. split.
  - by rewrite length_app, !length_be_split.
  - intros E. assert (be_combine (be_split 4 a) < 2 ^ 24) as Hlt; [|rewrite be_combine_small in Hlt by (cbn; lia); lia].
    destruct (be_split 4 a) as [|b l] eqn:Eb; [done|]. cbn in E. injection E as ->.
    pose proof (length_be_split 4 a) as Hl. rewrite Eb in Hl. cbn in Hl.
    unfold be_combine. cbn [rev]. rewrite le_combine_app. change (le_combine [x00]) with 0. rewrite Z.shiftl_0_l, Z.lor_0_r.
    pose proof (le_combine_bound (rev l)) as Hb. rewrite length_rev in Hb.
    replace (length l) with 3%nat in Hb by lia. exact (proj2 Hb).
Qed.

Lemma image_address rs a : address_ok a → peer_address (image_of rs (peer_bytes a)) = a.
Proof.
  destruct a as [a p]. intros [Ha Hp]. cbn in Ha, Hp. unfold peer_address, image_of, peer_bytes. cbn [fst snd BE_struct Peer_at ip port].
  assert (take 4 (be_split 4 a ++ be_split 2 p) = be_split 4 a) as Et
    by (apply take_app_length'; by rewrite length_be_split).
  assert (drop 4 (be_split 4 a ++ be_split 2 p) = be_split 2 p) as Ed
    by (apply drop_app_length'; by rewrite length_be_split).
  unfold ArrayToValue at 1. rewrite Et, Ed.
  rewrite <- (take_ge (be_split 4 a) 4) by (by rewrite length_be_split).
  fold (ArrayToValue 4 (be_split 4 a)). rewrite !BigToNative_bytes by apply length_be_split.
  rewrite !be_combine_small by (cbn; lia). done.
Qed.

Lemma image_addresses fresh ps :
  Forall address_ok ps → map peer_address (images_of fresh (map peer_bytes ps)) = ps.
Proof.
  intros Hps. unfold images_of. revert fresh. induction Hps as [|a ps Ha Hps IH]; intros fresh; [done|].
  cbn [map imap]. rewrite image_address by done. f_equal. apply (IH (fun k => fresh (S k))).
Qed.

Lemma length_peer_bytes ps : length (concat (map peer_bytes ps)) = (6 * length ps)%nat.
Proof.
  induction ps as [|a ps IH]; [done|]. cbn [map concat length]. rewrite length_app, IH.
  unfold peer_bytes. rewrite length_app, !length_be_split. lia.
Qed.

End Addresses.
