(* ===== verification/HttpTracker.v ===== *)
(** * HTTP trackers (src/Network/BitTorrent/TrackerRequester.cpp, httpRequester)

    The requester as a state machine like the one of UdpTracker.v, with the
    [streambuf] that [ReadUntil] and [ReadToEof] of Socket.h read into. *)

From Stdlib Require Import ZArith Lia Strings.Byte Strings.String.
From coqutil Require Import Byte.
From S2P Require Import Prelude Bytes Streams Bencode Text Bitset Bitfield Message Peer Tracker.

Definition newline : string := String (Ascii.ascii_of_nat 10) EmptyString.

(** Which read of the answer. *)
Inductive Stage := RStatus | RHeader | RBody.

Inductive Job :=
  | JConnect
  | JAwait
  | JWrite (msg : bytes)
  | JRead (k : Stage).

(** The delimiter the first two reads wait for. *)
Definition until_str (k : Stage) : bytes :=
  match k with RStatus => crlf | RHeader => crlf ++ crlf | RBody => [] end.

Fixpoint starts_with (d l : bytes) : bool :=
  match d, l with
  | [], _ => true
  | x :: d, y :: l => bool_decide (x = y) && starts_with d l
  | _, [] => false
  end.

(** How many bytes up to the end of the first occurrence of [d]. *)
Fixpoint find_until (d l : bytes) : option nat :=
  if starts_with d l then Some (length d)
  else match l with
       | [] => None
       | _ :: l => n ← find_until d l; Some (S n)
       end.

Section HttpTracker.
Context {B : Type} `{DynamicBitset B} `{Host} `{Regex}.

(** [TrackerRequester], [TCPSocket] and [httpRequester]; [read_streambuff_] is
    what has been read and not consumed. *)
Record httpRequester := mkHttp {
  is_set : bool;
  promise_of_resp : option (Response B + exn);
  future_retrieved : bool;
  can_reconnect_ : bool;
  tracker_reconnect_timeout_ : bool;
  msg_ : SendingMessage;
  read_streambuff_ : bytes;
  timeout_ : bool;
  jobs : list Job;
  connecting : nat;
  pending_writes : list bytes;
  pending_reads : list Stage;
}.

Definition new_requester : httpRequester :=
  mkHttp false None false true false (sm_make BigEndian) [] false [] 0 [] [].

Definition set_done (s : httpRequester) : httpRequester :=
  mkHttp true (promise_of_resp s) (future_retrieved s) (can_reconnect_ s) (tracker_reconnect_timeout_ s)
    (msg_ s) (read_streambuff_ s) false (jobs s) (connecting s) (pending_writes s) (pending_reads s).
Definition set_promise (s : httpRequester) x fr : httpRequester :=
  mkHttp (is_set s) x fr (can_reconnect_ s) (tracker_reconnect_timeout_ s)
    (msg_ s) (read_streambuff_ s) (timeout_ s) (jobs s) (connecting s) (pending_writes s) (pending_reads s).
Definition set_reconnect (s : httpRequester) can armed : httpRequester :=
  mkHttp (is_set s) (promise_of_resp s) (future_retrieved s) can armed
    (msg_ s) (read_streambuff_ s) (timeout_ s) (jobs s) (connecting s) (pending_writes s) (pending_reads s).
Definition set_msg (s : httpRequester) m : httpRequester :=
  mkHttp (is_set s) (promise_of_resp s) (future_retrieved s) (can_reconnect_ s) (tracker_reconnect_timeout_ s)
    m (read_streambuff_ s) (timeout_ s) (jobs s) (connecting s) (pending_writes s) (pending_reads s).
Definition set_streambuff (s : httpRequester) b : httpRequester :=
  mkHttp (is_set s) (promise_of_resp s) (future_retrieved s) (can_reconnect_ s) (tracker_reconnect_timeout_ s)
    (msg_ s) b (timeout_ s) (jobs s) (connecting s) (pending_writes s) (pending_reads s).
Definition set_timeout (s : httpRequester) t : httpRequester :=
  mkHttp (is_set s) (promise_of_resp s) (future_retrieved s) (can_reconnect_ s) (tracker_reconnect_timeout_ s)
    (msg_ s) (read_streambuff_ s) t (jobs s) (connecting s) (pending_writes s) (pending_reads s).
Definition set_jobs (s : httpRequester) js : httpRequester :=
  mkHttp (is_set s) (promise_of_resp s) (future_retrieved s) (can_reconnect_ s) (tracker_reconnect_timeout_ s)
    (msg_ s) (read_streambuff_ s) (timeout_ s) js (connecting s) (pending_writes s) (pending_reads s).
Definition set_pending (s : httpRequester) cs ws rs : httpRequester :=
  mkHttp (is_set s) (promise_of_resp s) (future_retrieved s) (can_reconnect_ s) (tracker_reconnect_timeout_ s)
    (msg_ s) (read_streambuff_ s) (timeout_ s) (jobs s) cs ws rs.

Abbreviation M := (ST httpRequester).

(** ** The promise *)

Definition fulfil (x : Response B + exn) : M unit := fun s =>
  match promise_of_resp s with
  | Some _ => Throw promise_already_satisfied
  | None => Ok (tt, set_promise s (Some x) (future_retrieved s))
  end.

Definition Disconnect : M unit := modify set_done.

Definition SetException (err : string) : M unit :=
  s ← get_st;
  if is_set s then mret tt else _ ← fulfil (inr (BadConnect err)); Disconnect.

(** The document of the text: the last part of the regular expression, read
    with enough fuel for every reader that ends. *)
Definition load_back (text : bytes) : outcome (option Bencode.Node) :=
  match split_bencode text with
  | [] => Ok None
  | p :: ps =>
      let doc := List.last (p :: ps) [] in
      d ← Load (2 * length doc + 3) (is_open doc);
      Ok (Some (GetRoot d))
  end.

Definition SetResponse (fresh junk : nat → bytes) (data : bytes) : M unit :=
  s ← get_st;
  if is_set s then mret tt
  else
    root ← lift (load_back data);
    match root with
    | None => SetException "Bad response, can't split to bencode format"
    | Some root =>
        resp ← lift (http_response fresh junk root);
        match resp with
        | None => _ ← SetException "Invalid peers"; SetException "0 peers!"
        | Some resp =>
            match peers resp with
            | [] => SetException "0 peers!"
            | _ => _ ← fulfil (inl resp); Disconnect
            end
        end
    end.

(** ** The socket *)

Definition Post (j : Job) : M unit := modify (fun s => set_jobs s (jobs s ++ [j])).
Definition Await : M unit := Post JAwait.
Definition ReadFrom (k : Stage) : M unit := Post (JRead k).

Definition do_read_response_status : M unit := _ ← ReadFrom RStatus; Await.
Definition do_read_response_header : M unit := _ ← ReadFrom RHeader; Await.
Definition do_read_response_body : M unit := _ ← ReadFrom RBody; Await.

(** [Send(std::move(msg_), ...)]: the moved-from vector is empty. *)
Definition do_request : M unit :=
  s ← get_st;
  _ ← Post (JWrite (sm_data (msg_ s)));
  modify (fun s => set_msg s {| sm_data := []; sm_out_pos := sm_out_pos (msg_ s); sm_order := sm_order (msg_ s) |}).

(** ** The callbacks *)

Definition on_status (data : bytes) : M unit :=
  '(http_version, m) ← lift (GetString (rm_make data BigEndian));
  '(code, m) ← lift (GetString m);
  v ← lift (stoi code);
  let status_code := u32 v in
  '(_, _) ← lift (GetLine m);
  if negb (bool_decide (take 5 http_version = str "HTTP/")) then SetException ("Invalid response" ++ newline)%string
  else if negb (status_code =? 200) then
    SetException ("Response returned with status code " ++ string_of_list_byte (print_dec status_code) ++ newline)%string
  else do_read_response_header.

Definition on_response_header (data : bytes) : M unit :=
  _ ← modify (fun s => set_msg s (CopyFrom (Clear_message (msg_ s)) data));
  do_read_response_body.

(** The buffer is full. *)
Definition on_body_part (data : bytes) : M unit :=
  _ ← modify (fun s => set_msg s (CopyFrom (msg_ s) data));
  do_read_response_body.

(** The other side has closed the connection. *)
Definition on_body_end (fresh junk : nat → bytes) (data : bytes) : M unit :=
  _ ← modify (fun s => set_msg s (CopyFrom (msg_ s) data));
  s ← get_st;
  SetResponse fresh junk (rm_arr (MakeReading (msg_ s))).

(** ** The requester *)

Definition wait_reconnect : M unit := modify (fun s => set_reconnect s false true).

Definition Connect (t : Tracker) (query : Query) : M unit :=
  s ← get_st;
  if negb (can_reconnect_ s) then mret tt
  else
    text ← lift (http_request t query);
    _ ← modify (fun s => set_msg s (CopyFrom (msg_ s) text));
    _ ← Post JConnect;
    _ ← Await;
    wait_reconnect.

Definition GetResponse : M unit := fun s =>
  if future_retrieved s then Throw future_already_retrieved
  else Ok (tt, set_promise s (promise_of_resp s) true).

Definition Request (t : Tracker) (query : Query) : M unit := _ ← Connect t query; GetResponse.

(** ** Jobs and events *)

Definition run_job (j : Job) : M unit :=
  match j with
  | JConnect => modify (fun s => set_pending s (S (connecting s)) (pending_writes s) (pending_reads s))
  | JAwait => modify (fun s => set_timeout s true)
  | JWrite msg => modify (fun s => set_pending s (connecting s) (pending_writes s ++ [msg]) (pending_reads s))
  | JRead k => modify (fun s => set_pending s (connecting s) (pending_writes s) (pending_reads s ++ [k]))
  end.

Definition stop_await : M unit := modify (fun s => set_timeout s false).

(** [EvUntil more], [EvFull more], [EvEof more]: the read under way has put
    [more] bytes behind what the buffer held. *)
Inductive event :=
  | EvRun
  | EvConnected
  | EvConnectFailed (resolved : bool) (message : string)
  | EvWritten
  | EvWriteFailed (message : string)
  | EvUntil (more : bytes)
  | EvFull (more : bytes)
  | EvEof (more : bytes) (fresh junk : nat → bytes)
  | EvReadFailed (more : bytes) (message : string)
  | EvTimeout
  | EvReconnect.

(** A completed read: the callback sees the whole buffer, then [xfr] bytes of
    it are consumed. *)
Definition finish_read (rs : list Stage) (more : bytes) (xfr : nat) (callback : bytes → M unit) : M unit :=
  _ ← modify (fun s => set_pending s (connecting s) (pending_writes s) rs);
  _ ← modify (fun s => set_streambuff s (read_streambuff_ s ++ more));
  _ ← stop_await;
  s ← get_st;
  _ ← callback (read_streambuff_ s);
  modify (fun s => set_streambuff s (drop xfr (read_streambuff_ s))).

Definition handle_event (e : event) (s : httpRequester) : option (outcome (unit * httpRequester)) :=
  match e with
  | EvRun =>
      match jobs s with
      | j :: js => Some ((_ ← modify (fun s => set_jobs s js); run_job j) s)
      | [] => None
      end
  | EvConnected =>
      match connecting s with
      | S n => Some ((
          _ ← modify (fun s => set_pending s n (pending_writes s) (pending_reads s));
          _ ← stop_await; do_request) s)
      | O => None
      end
  | EvConnectFailed resolved message =>
      match connecting s with
      | S n => Some ((
          _ ← modify (fun s => set_pending s n (pending_writes s) (pending_reads s));
          _ ← when resolved stop_await; SetException message) s)
      | O => None
      end
  | EvWritten =>
      match pending_writes s with
      | _ :: ws => Some ((
          _ ← modify (fun s => set_pending s (connecting s) ws (pending_reads s));
          do_read_response_status) s)
      | [] => None
      end
  | EvWriteFailed message =>
      match pending_writes s with
      | _ :: ws => Some ((
          _ ← modify (fun s => set_pending s (connecting s) ws (pending_reads s));
          SetException message) s)
      | [] => None
      end
  | EvUntil more =>
      match pending_reads s with
      | RBody :: _ | [] => None
      | k :: rs =>
          match find_until (until_str k) (read_streambuff_ s ++ more) with
          | Some xfr =>
              if bool_decide (find_until (until_str k) (read_streambuff_ s) = None ∨ more = []) then
                Some (finish_read rs more xfr
                        (match k with RStatus => on_status | _ => on_response_header end) s)
              else None
          | None => None
          end
      end
  | EvFull more =>
      match pending_reads s with
      | RBody :: rs =>
          if bool_decide (Z.of_nat (length (read_streambuff_ s ++ more)) = SIZE_MAX) then
            Some (finish_read rs more (length more) on_body_part s)
          else None
      | _ => None
      end
  | EvEof more fresh junk =>
      match pending_reads s with
      | RBody :: rs => Some (finish_read rs more (length more) (on_body_end fresh junk) s)
      | _ => None
      end
  | EvReadFailed more message =>
      match pending_reads s with
      | k :: rs =>
          let xfr := match k with RBody => length more | _ => 0%nat end in
          Some (finish_read rs more xfr (fun _ => SetException message) s)
      | [] => None
      end
  | EvTimeout => if timeout_ s then Some (stop_await s) else None
  | EvReconnect => if tracker_reconnect_timeout_ s then Some (modify (fun s => set_reconnect s true false) s) else None
  end.
End HttpTracker.

Arguments httpRequester B : clear implicits.
