(* ===== verification/HttpFacts.v ===== *)
(** * What the HTTP requester does with an answer
      (src/Network/BitTorrent/TrackerRequester.cpp, httpRequester)

    The status line, the text the document is taken from, however the answer is
    cut into reads, and the peers it names. *)

From Stdlib Require Import ZArith Lia Strings.Byte Strings.String.
From coqutil Require Import Byte Word.LittleEndianList.
From S2P Require Import Prelude Bytes Streams Bencode BencodeFacts Text Bitset Bitfield Message Peer.
From S2P Require Import Tracker HttpTracker TrackerFacts.

Section HttpFacts.
Context {B : Type} `{DynamicBitset B} `{Host} `{Regex}.
Implicit Types s : httpRequester B.

(** Events one after the other; [NoFuel] when one cannot happen. *)
Fixpoint events (es : list event) s : outcome (httpRequester B) :=
  match es with
  | [] => Ok s
  | e :: es =>
      match handle_event e s with
      | Some m => '(_, s) ← m; events es s
      | None => NoFuel
      end
  end.

(** ** What goes wrong *)

(** The promise is open as long as the flag is not set. *)
Definition http_ok s : Prop := is_set s = false → promise_of_resp s = None.

(** The words of a status line, and the answer in a text. *)
Definition status_of (data : bytes) : outcome (bytes * Z) :=
  '(http_version, m) ← GetString (rm_make data BigEndian);
  '(code, m) ← GetString m;
  v ← stoi code;
  '(_, _) ← GetLine m;
  Ok (http_version, u32 v).

Definition answer_of (fresh junk : nat → bytes) (data : bytes) : outcome (option (Response B)) :=
  root ← load_back data;
  match root with Some root => http_response fresh junk root | None => Ok None end.

(** The reads whose bytes the requester cannot take apart: what is thrown there,
    or undefined, leaves the handler. *)
Definition unreadable s (e : event) : Prop :=
  match e, pending_reads s with
  | EvUntil more, RStatus :: _ => ¬ is_Ok (status_of (read_streambuff_ s ++ more))
  | EvEof more fresh junk, RBody :: _ =>
      is_set s = false ∧ ¬ is_Ok (answer_of fresh junk (sm_data (msg_ s) ++ read_streambuff_ s ++ more))
  | _, _ => False
  end.

Definition http_safe (m : ST (httpRequester B) unit) s : Prop := wp false m (fun _ => http_ok) s.

Lemma SetException_safe err s : http_ok s → http_safe (SetException err) s.
Proof.
  intros Hs. unfold http_safe, SetException. apply wp_bind, wp_get. destruct (is_set s) eqn:E; [by apply wp_ret|].
  apply wp_bind. unfold wp at 1, fulfil. rewrite (Hs E). done.
Qed.

Lemma modify_safe f m s : http_safe m (f s) → http_safe (_ ← modify f; m) s.
Proof. intros Hm. apply wp_bind. exact Hm. Qed.

Lemma then_safe (m1 m2 : ST (httpRequester B) unit) s :
  http_safe m1 s → (∀ s', http_ok s' → http_safe m2 s') → http_safe (_ ← m1; m2) s.
Proof. intros Hm1 Hm2. apply wp_bind. eapply wp_mono; [exact Hm1|]. cbv beta. auto. Qed.

Lemma on_status_safe data s : http_ok s → is_Ok (status_of data) → http_safe (on_status data) s.
Proof.
  intros Hs [[v c] E]. unfold status_of in E. unfold http_safe, on_status.
  apply bind_Ok_inv in E as ([hv m1] & E1 & E). apply bind_Ok_inv in E as ([code m2] & E2 & E).
  apply bind_Ok_inv in E as (n & E3 & E). apply bind_Ok_inv in E as ([l m3] & E4 & _).
  apply wp_bind. eapply wp_lift; [exact E1|]. cbv iota. apply wp_bind. eapply wp_lift; [exact E2|]. cbv iota.
  apply wp_bind. eapply wp_lift; [exact E3|]. cbv zeta. apply wp_bind. eapply wp_lift; [exact E4|]. cbv iota.
  destruct (negb _); [by apply SetException_safe|]. destruct (negb _); [by apply SetException_safe|]. done.
Qed.

Lemma SetResponse_safe fresh junk data s :
  http_ok s → is_set s = true ∨ is_Ok (answer_of fresh junk data) → http_safe (SetResponse fresh junk data) s.
Proof.
  intros Hs Ha. unfold http_safe, SetResponse. apply wp_bind, wp_get. destruct (is_set s) eqn:E; [by apply wp_ret|].
  destruct Ha as [?|[o Eo]]; [done|]. apply bind_Ok_inv in Eo as (root & Er & Eo).
  apply wp_bind. eapply wp_lift; [exact Er|]. destruct root as [root|]; [|by apply SetException_safe].
  apply wp_bind. eapply wp_lift; [exact Eo|]. destruct o as [resp|].
  - destruct (peers resp); [by apply SetException_safe|]. apply wp_bind. unfold wp at 1, fulfil. by rewrite (Hs E).
  - by apply then_safe; [apply SetException_safe|intros; apply SetException_safe].
Qed.

(** A read: the callback sees the buffer and leaves the flag and the promise to
    its own care. *)
Lemma finish_read_safe rs more xfr callback s :
  (let s1 := set_timeout (set_streambuff (set_pending s (connecting s) (pending_writes s) rs)
               (read_streambuff_ s ++ more)) false in http_safe (callback (read_streambuff_ s ++ more)) s1) →
  http_safe (finish_read rs more xfr callback) s.
Proof.
  cbv zeta. intros Hc. unfold http_safe, finish_read, stop_await, wp. do 4 (erewrite st_bind_Ok by reflexivity; cbv beta).
  cbn [read_streambuff_ set_timeout set_streambuff set_pending]. by apply then_safe.
Qed.

(** Every event of a requester whose promise is open or whose flag is set. *)
Lemma http_event_ok e s m :
  http_ok s → ¬ unreadable s e → handle_event e s = Some m → ∃ s', m = Ok (tt, s') ∧ http_ok s'.
Proof.
  intros Hs Hun E. assert (∀ c, http_safe c s → Some (c s) = Some m → ∃ s', m = Ok (tt, s') ∧ http_ok s') as Hgo.
  { intros c Hc [= <-]. apply wp_Ok in Hc as ([] & s' & E' & Hs'). by exists s'. }
  assert (∀ f g err, (∀ s, http_ok s → http_ok (g s)) → http_ok (f s) →
    http_safe (_ ← modify f; _ ← modify g; SetException err) s) as Hexc.
  { intros f g err Hg Hf. apply then_safe; [done|]. intros s1 Hs1. apply then_safe; [by apply Hg|].
    intros. by apply SetException_safe. }
  unfold unreadable in Hun. destruct e; cbn [handle_event] in E.
  - destruct (jobs s) as [|j js]; [done|]. eapply Hgo, E. apply then_safe; [done|]. intros s1 Hs1. by destruct j.
  - destruct (connecting s); [done|]. eapply Hgo, E. done.
  - destruct (connecting s); [done|]. eapply Hgo, E. destruct resolved; cbn [when].
    + by apply Hexc.
    + apply then_safe; [done|]. intros s1 Hs1. apply then_safe; [done|]. intros. by apply SetException_safe.
  - destruct (pending_writes s); [done|]. eapply Hgo, E. done.
  - destruct (pending_writes s); [done|]. eapply Hgo, E. apply then_safe; [done|]. intros. by apply SetException_safe.
  - destruct (pending_reads s) as [|k rs] eqn:Ep; [done|].
    destruct k; try discriminate E; (destruct (find_until _ _); [|done]); (destruct (bool_decide _); [|done]);
      eapply Hgo, E; apply finish_read_safe; [|done].
    apply on_status_safe; [done|]. destruct (status_of _) as [x| | | |] eqn:Ex; [by eexists|..];
      destruct Hun; intros [? [=]].
  - destruct (pending_reads s) as [|[] rs]; try discriminate E. destruct (bool_decide _); [|done].
    eapply Hgo, E. by apply finish_read_safe.
  - destruct (pending_reads s) as [|[] rs] eqn:Ep; try discriminate E. eapply Hgo, E. apply finish_read_safe.
    cbv zeta. unfold on_body_end, http_safe. apply modify_safe, wp_bind, wp_get.
    apply SetResponse_safe; [done|]. cbn. cbn in Hun.
    destruct (is_set s) eqn:Es; [by left|right].
    destruct (answer_of _ _ _) as [x| | | |] eqn:Ex; [by eexists|..]; destruct Hun; (split; [done|]); intros [? [=]].
  - destruct (pending_reads s) as [|k rs]; [done|]. eapply Hgo, E. apply finish_read_safe.
    by apply SetException_safe.
  - destruct (HttpTracker.timeout_ s); [|done]. by eapply Hgo, E.
  - destruct (tracker_reconnect_timeout_ s); [|done]. by eapply Hgo, E.
Qed.

(** ** The text of an answer *)

(** A requester that waits for the header of the answer. *)
Definition awaits_header s : Prop := pending_reads s = [RHeader] ∧ jobs s = [].

(** The state in which the answer is looked at. *)
Definition answer_state s (text b1 b2 : bytes) : httpRequester B :=
  mkHttp (is_set s) (promise_of_resp s) (future_retrieved s) (can_reconnect_ s) (tracker_reconnect_timeout_ s)
    (CopyFrom (CopyFrom (Clear_message (msg_ s)) (text ++ b1)) (b1 ++ b2)) (b1 ++ b2) false []
    (connecting s) (pending_writes s) [].

(** The rest of the answer has come: first what completes the header, with [b1]
    of the body behind it, then [b2] up to the end of the connection. *)
Definition rest_of_answer (more b2 : bytes) (fresh junk : nat → bytes) : list event :=
  [EvUntil more; EvRun; EvRun; EvEof b2 fresh junk].

Lemma events_step e es s s1 : handle_event e s = Some (Ok (tt, s1)) → events (e :: es) s = events es s1.
Proof. intros E. cbn [events]. by rewrite E. Qed.

(** After the header: the body has been asked for. *)
Definition header_state s (text b1 : bytes) : httpRequester B :=
  mkHttp (is_set s) (promise_of_resp s) (future_retrieved s) (can_reconnect_ s) (tracker_reconnect_timeout_ s)
    (CopyFrom (Clear_message (msg_ s)) (text ++ b1)) b1 false [JRead RBody; JAwait]
    (connecting s) (pending_writes s) [].

Lemma header_read s text b1 more :
  awaits_header s → read_streambuff_ s ++ more = text ++ b1 →
  find_until (crlf ++ crlf) (text ++ b1) = Some (length text) →
  find_until (crlf ++ crlf) (read_streambuff_ s) = None →
  handle_event (EvUntil more) s = Some (Ok (tt, header_state s text b1)).
Proof.
  intros [Hp Hj] Ebuf Efind Hnone. cbn [handle_event]. rewrite Hp. cbn [until_str].
  rewrite Ebuf, Efind, bool_decide_true by auto. unfold finish_read, stop_await. f_equal.
  do 4 (erewrite st_bind_Ok by reflexivity; cbv beta). cbn [read_streambuff_ set_timeout set_streambuff set_pending].
  rewrite Ebuf. erewrite st_bind_Ok by reflexivity. cbv beta.
  unfold modify. cbn. rewrite Hj, drop_app_length. reflexivity.
Qed.

(** The text looked at, however the answer was cut into reads. *)
Lemma answer_text s text b1 more b2 fresh junk :
  awaits_header s → read_streambuff_ s ++ more = text ++ b1 →
  find_until (crlf ++ crlf) (text ++ b1) = Some (length text) →
  find_until (crlf ++ crlf) (read_streambuff_ s) = None →
  events (rest_of_answer more b2 fresh junk) s =
    ('(_, s') ← SetResponse fresh junk (text ++ b1 ++ b1 ++ b2) (answer_state s text b1 b2);
     Ok (set_streambuff s' (drop (length b2) (read_streambuff_ s')))).
Proof.
  intros Hs Ebuf Efind Hnone. unfold rest_of_answer.
  rewrite (events_step _ _ _ _ (header_read s text b1 more Hs Ebuf Efind Hnone)).
  erewrite events_step by reflexivity. erewrite events_step by reflexivity.
  cbn [events handle_event pending_reads set_pending header_state set_timeout set_jobs app].
  unfold finish_read, stop_await. do 4 (erewrite st_bind_Ok by reflexivity; cbv beta).
  unfold on_body_end.
  assert (sm_data (msg_ (answer_state s text b1 b2)) = text ++ b1 ++ b1 ++ b2) as Et
    by (unfold answer_state; cbn; by rewrite <- app_assoc).
  cbv [mbind ST_bind outcome_bind modify get_st]. cbv beta iota.
  rewrite <- Et. set (X := SetResponse fresh junk _ (answer_state s text b1 b2)).
  match goal with |- context [SetResponse ?f ?j ?d ?st] => change (SetResponse f j d st) with X end.
  by destruct X as [[[] s']| | | |].
Qed.

(** ** The peers of an answer *)

Lemma string_at_view (s : bytes) i : string_at s i = view_at (s ++ [x00]) i.
Proof.
  unfold string_at, view_at. destruct (decide (i = length s)) as [->|Hi].
  - by rewrite lookup_app_r, Nat.sub_diag by lia.
  - destruct (decide (i < length s)%nat); [by rewrite lookup_app_l by done|].
    rewrite !lookup_ge_None_2; [done|rewrite length_app; cbn; lia|lia].
Qed.

Lemma copy_six_ext a1 a2 n i : (∀ i, a1 i = a2 i) → copy_six a1 n i = copy_six a2 n i.
Proof. intros E. revert i. induction n as [|n IH]; intros i; cbn; [done|]. by rewrite E, IH. Qed.

Lemma peer_groups_ext a1 a2 fuel i : (∀ i, a1 i = a2 i) → peer_groups a1 fuel i = peer_groups a2 fuel i.
Proof.
  intros E. revert i. induction fuel as [|fuel IH]; intros i; cbn [peer_groups]; [done|].
  rewrite E, (copy_six_ext a1 a2) by done. by rewrite IH.
Qed.

(** The groups of a string of whole peers. *)
Lemma peer_groups_string gs :
  Forall group_ok gs → peer_groups (string_at (concat gs)) (S (S (length (concat gs)))) 0 = Ok gs.
Proof.
  intros Hg. rewrite (peer_groups_ext _ (view_at (concat gs ++ [x00]))) by apply string_at_view.
  apply (peer_groups_terminated [] gs []); [done|]. rewrite length_groups by done. lia.
Qed.

(** The optional members have the kinds the requester expects. *)
Definition number_member (k : bytes) (d : list (bytes * Node)) : Prop :=
  match find k d with Some v => IsNumber v = true | None => True end.
Definition string_member (k : bytes) (d : list (bytes * Node)) : Prop :=
  match find k d with Some v => IsString v = true | None => True end.
Definition members_ok (d : list (bytes * Node)) : Prop :=
  string_member (str "tracker_id") d ∧ number_member (str "interval") d ∧ number_member (str "complete") d ∧
  number_member (str "incomplete") d ∧ number_member (str "min_interval") d ∧ number_member (str "min interval") d ∧
  string_member (str "warning_message") d ∧ string_member (str "warning message") d ∧
  ∀ n, find (str "interval") d = Some (NInt n) → Z.abs n * 1000000 < 2 ^ 63.

Definition interval_of (d : list (bytes * Node)) : Z :=
  match find (str "interval") d with Some (NInt v) => v | _ => tracker_again_request_time_secs end.

Lemma if_there_number k d (dflt : Z) :
  number_member k d →
  if_there (find k d) AsNumber dflt = Ok (match find k d with Some (NInt v) => v | _ => dflt end).
Proof. unfold number_member, if_there. by destruct (find k d) as [[]|]. Qed.

Lemma if_there_interval d dflt :
  number_member (str "interval") d →
  (∀ n, find (str "interval") d = Some (NInt n) → Z.abs n * 1000000 < 2 ^ 63) →
  if_there (find (str "interval") d) (fun v => n ← AsNumber v; seconds n) dflt
  = Ok (match find (str "interval") d with Some (NInt v) => v | _ => dflt end).
Proof.
  unfold number_member, if_there. destruct (find (str "interval") d) as [[]|]; try done. intros _ Hn.
  cbn [AsNumber mbind outcome_bind]. unfold seconds. by rewrite i64_small by (specialize (Hn _ eq_refl); lia).
Qed.

Lemma if_there_string k d (dflt : bytes) :
  string_member k d → ∃ v, if_there (find k d) AsString dflt = Ok v.
Proof. unfold string_member, if_there. destruct (find k d) as [[]|]; eauto; discriminate. Qed.

Lemma either_number k1 k2 d :
  number_member k1 d → number_member k2 d →
  ∃ o, if_there (find_either k1 k2 d) (fun v => n ← AsNumber v; Ok (Some n)) None = Ok o.
Proof.
  unfold number_member, if_there, find_either.
  destruct (find k1 d) as [[]|]; cbn; eauto; try discriminate. intros _.
  destruct (find k2 d) as [[]|]; cbn; eauto; discriminate.
Qed.

Lemma either_string k1 k2 d :
  string_member k1 d → string_member k2 d →
  ∃ o, if_there (find_either k1 k2 d) (fun v => w ← AsString v; Ok (Some w)) None = Ok o.
Proof.
  unfold string_member, if_there, find_either.
  destruct (find k1 d) as [[]|]; cbn; eauto; try discriminate. intros _.
  destruct (find k2 d) as [[]|]; cbn; eauto; discriminate.
Qed.

Lemma http_response_peers fresh junk d ps :
  members_ok d → find (str "peers") d = Some (NStr (concat (map peer_bytes ps))) → Forall address_ok ps →
  ∃ resp : Response B, http_response fresh junk (NDict d) = Ok (Some resp) ∧
    map peer_address (peers resp) = ps ∧ interval resp = interval_of d.
Proof.
  intros (M1 & M2 & M3 & M4 & M5 & M6 & M7 & M8 & M9) Hp Hps. unfold http_response. cbn [AsDict]. rewrite bind_Ok.
  destruct (if_there_string _ d [] M1) as [tid ->]. rewrite bind_Ok, if_there_interval, bind_Ok, !if_there_number, !bind_Ok by done.
  destruct (either_number _ _ d M5 M6) as [mini ->]. rewrite bind_Ok.
  destruct (either_string _ _ d M7 M8) as [warn ->]. rewrite bind_Ok. cbv zeta.
  rewrite Hp. cbn [opt_or]. rewrite bind_Ok. cbn [IsString AsString]. rewrite bind_Ok.
  rewrite peer_groups_string, bind_Ok by (apply list.Forall_fmap; eapply list.Forall_impl; [done|apply peer_bytes_ok]).
  eexists. split; [reflexivity|]. cbn [peers interval]. split; [by apply image_addresses|done].
Qed.

(** What the regular expression does behind a header: it finds the document
    that follows, when no line of the header starts like one. *)
Definition splits_after (text : bytes) : Prop :=
  ∀ body, ∃ ps, split_bencode (text ++ "d"%byte :: body ++ ["e"%byte]) = ps ++ ["d"%byte :: body ++ ["e"%byte]].

Lemma load_back_document text d rest :
  splits_after text → node_ok (NDict d) = true → no_empty_str (NDict d) = true →
  rest = [] ∨ rest = MakeSerialize (NDict d) →
  load_back (text ++ MakeSerialize (NDict d) ++ rest) = Ok (Some (NDict d)).
Proof.
  intros Hsplit Hok Hne Hrest. set (doc := MakeSerialize (NDict d)).
  assert (∃ body, doc ++ rest = "d"%byte :: body ++ ["e"%byte]) as [body Ebody].
  { pose proof (app_nil_r doc) as En. unfold doc in *. cbn [MakeSerialize] in *. set (inner := concat _) in *.
    destruct Hrest as [->| ->]; [by exists inner; rewrite En|].
    exists (inner ++ "e"%byte :: "d"%byte :: inner). cbn [app]. f_equal. rewrite <- !app_assoc. done. }
  destruct (Hsplit body) as [parts E]. unfold load_back. rewrite Ebody, E, <- Ebody.
  destruct (parts ++ [doc ++ rest]) as [|p ps] eqn:Eps; [by destruct parts|].
  assert (List.last (p :: ps) [] = doc ++ rest) as -> by (rewrite <- Eps; apply List.last_last).
  unfold Load. rewrite (loads_all _ Hok Hne); [done|]. rewrite length_app. unfold doc. lia.
Qed.

(** C20: the compact peers of an HTTP answer arrive when its body, a dictionary
    whose members have the kinds the requester expects (and whose interval fits
    64-bit microseconds) with a non-empty compact list of peers, comes in one
    piece, either behind the header in the same read or after it, and no line of
    the header starts like a document: the promise then holds a response with
    exactly these peers and the interval of the document.  A compact peer whose
    address starts with a zero byte ends the list, so the addresses do not; the
    peers of the list form do not arrive ([dict_peers_lost]). *)
Theorem http_peers_received s text d ps more b1 b2 fresh junk :
  awaits_header s → is_set s = false → promise_of_resp s = None →
  read_streambuff_ s ++ more = text ++ b1 →
  find_until (crlf ++ crlf) (text ++ b1) = Some (length text) →
  find_until (crlf ++ crlf) (read_streambuff_ s) = None → splits_after text →
  (b1 = [] ∧ b2 = MakeSerialize (NDict d)) ∨ (b1 = MakeSerialize (NDict d) ∧ b2 = []) →
  node_ok (NDict d) = true → no_empty_str (NDict d) = true → members_ok d →
  find (str "peers") d = Some (NStr (concat (map peer_bytes ps))) → ps ≠ [] → Forall address_ok ps →
  ∃ s' resp, events (rest_of_answer more b2 fresh junk) s = Ok s' ∧
    promise_of_resp s' = Some (inl resp) ∧ map peer_address (peers resp) = ps ∧ interval resp = interval_of d.
Proof.
  intros Hs Hset Hpr Ebuf Efind Hnone Hsplit Hb Hok Hne Hm Hp Hps Haddr.
  destruct (http_response_peers fresh junk d ps Hm Hp Haddr) as (resp & Eresp & Epeers & Eint).
  rewrite (answer_text s text b1 more b2 fresh junk Hs Ebuf Efind Hnone).
  assert (load_back (text ++ b1 ++ b1 ++ b2) = Ok (Some (NDict d))) as Eload.
  { destruct Hb as [[-> ->]|[-> ->]]; cbn [app].
    - rewrite <- (app_nil_r (MakeSerialize _)). apply load_back_document; auto.
    - rewrite app_nil_r. apply load_back_document; auto. }
  set (s1 := answer_state s text b1 b2).
  assert (SetResponse fresh junk (text ++ b1 ++ b1 ++ b2) s1 =
    Ok (tt, set_done (set_promise s1 (Some (inl resp)) (future_retrieved s1)))) as ->.
  { unfold SetResponse. erewrite st_bind_Ok by reflexivity. cbv beta. cbn [is_set s1 answer_state]. rewrite Hset.
    erewrite st_bind_Ok by (unfold lift; rewrite Eload; reflexivity). cbv beta iota.
    erewrite st_bind_Ok by (unfold lift; rewrite Eresp; reflexivity). cbv beta iota.
    destruct (peers resp) as [|i images] eqn:E; [by destruct ps|].
    unfold fulfil. erewrite st_bind_Ok; [reflexivity|]. cbn. by rewrite Hpr. }
  eexists _, resp. split_and!; [reflexivity|done|done|done].
Qed.

(** What part of the body comes with the header is looked at twice: the
    text given to the regular expression is the header, [b1], [b1] again and the
    rest of the body; it is the answer of the tracker only when no byte of the
    body came with the header. *)
Theorem http_split_body_doubled s text b1 more b2 fresh junk :
  awaits_header s → read_streambuff_ s ++ more = text ++ b1 →
  find_until (crlf ++ crlf) (text ++ b1) = Some (length text) →
  find_until (crlf ++ crlf) (read_streambuff_ s) = None →
  ∃ seen s1,
    events (rest_of_answer more b2 fresh junk) s =
      ('(_, s') ← SetResponse fresh junk seen s1;
       Ok (set_streambuff s' (drop (length b2) (read_streambuff_ s')))) ∧
    is_set s1 = is_set s ∧ promise_of_resp s1 = promise_of_resp s ∧
    seen = text ++ b1 ++ b1 ++ b2 ∧ (seen = text ++ b1 ++ b2 ↔ b1 = []).
Proof.
  intros Hs Ebuf Efind Hnone. exists (text ++ b1 ++ b1 ++ b2), (answer_state s text b1 b2).
  split_and!; [by apply answer_text|done|done|done|]. split; [|by intros ->].
  intros E. apply (f_equal length) in E. rewrite !length_app in E. destruct b1; [done|cbn in E; lia].
Qed.

(** ** The status line *)

Definition word (w : bytes) : Prop := w ≠ [] ∧ Forall (fun b => isspace b = false) w.

Lemma take_while_word f w rest :
  Forall (fun b => f b = true) w → match rest with b :: _ => f b = false | [] => True end →
  take_while f (w ++ rest) = w.
Proof.
  intros Hw Hr. induction Hw as [|b w Hb Hw IH]; cbn.
  - destruct rest as [|b rest]; [done|]. cbn. by rewrite Hr.
  - by rewrite Hb, IH.
Qed.

Lemma GetString_word m pre w rest :
  rm_arr m = pre ++ w ++ " "%byte :: rest → rm_inp_pos m = length pre → word w →
  match rest with b :: _ => isspace b = false | [] => True end →
  GetString m = Ok (w, rm_set_pos m (length (pre ++ w ++ [" "%byte]))).
Proof.
  intros Ea Ep [Hne Hw] Hr. unfold GetString, get_token. rewrite Ea, Ep.
  rewrite decide_True by (rewrite length_app; lia). rewrite drop_app_length. cbv zeta.
  rewrite take_while_word; [|by eapply list.Forall_impl; [exact Hw|]; intros b ->|done].
  rewrite drop_app_length.
  assert (take_while isspace (" "%byte :: rest) = [" "%byte]) as ->.
  { cbn. destruct rest as [|b rest]; [done|]. cbn. by rewrite Hr. }
  do 3 f_equal. rewrite !length_app. cbn. lia.
Qed.

Lemma GetLine_ok m : (rm_inp_pos m ≤ length (rm_arr m))%nat → ∃ l m', GetLine m = Ok (l, m').
Proof. intros Hp. unfold GetLine, get_token. rewrite decide_True by done. by eexists _, _. Qed.

(** The line is split into version, code and the rest. *)
Lemma on_status_words s version code reason :
  word version → word code → match reason with b :: _ => isspace b = false | [] => False end →
  on_status (version ++ " "%byte :: code ++ " "%byte :: reason) s =
    (match stoi code with
     | Ok v =>
         if negb (bool_decide (take 5 version = str "HTTP/")) then SetException ("Invalid response" ++ newline)%string
         else if negb (u32 v =? 200) then
           SetException ("Response returned with status code " ++ string_of_list_byte (print_dec (u32 v)) ++ newline)%string
         else do_read_response_header
     | Throw e => lift (Throw e)
     | UB => lift UB | Abort_assert => lift Abort_assert | NoFuel => lift NoFuel
     end) s.
Proof.
  intros Hv Hc Hr. unfold on_status. set (m0 := rm_make _ BigEndian).
  erewrite st_bind_Ok; [|unfold lift; rewrite (GetString_word m0 [] version (code ++ " "%byte :: reason));
    [reflexivity|done|done|done|destruct Hc as [Hne Hc]; by destruct Hc]]. cbv beta iota.
  erewrite st_bind_Ok; [|unfold lift; rewrite (GetString_word _ (version ++ [" "%byte]) code reason);
    [reflexivity|by rewrite <- app_assoc|done|done|by destruct reason]]. cbv beta iota.
  destruct (stoi code) as [v|e| | |]; try reflexivity. erewrite st_bind_Ok by reflexivity. cbv beta zeta.
  match goal with |- context [GetLine ?m] => destruct (GetLine_ok m) as (l & m' & ->) end.
  - cbn. rewrite !length_app. cbn. rewrite length_app. cbn. lia.
  - by erewrite st_bind_Ok by reflexivity.
Qed.

Lemma stoi_cases code : match stoi code with Ok _ | Throw _ => True | _ => False end.
Proof.
  unfold stoi. destruct (take_sign _) as [neg r]. destruct (span_digits r) as [[|b ds] rest]; [done|].
  cbv zeta. by destruct (decide _).
Qed.

Lemma SetException_open s err :
  is_set s = false → promise_of_resp s = None →
  SetException err s = Ok (tt, set_done (set_promise s (Some (inr (BadConnect err))) (future_retrieved s))).
Proof.
  intros Hset Hp. unfold SetException. erewrite st_bind_Ok by reflexivity. cbv beta. rewrite Hset.
  unfold fulfil. by erewrite st_bind_Ok by (rewrite Hp; reflexivity).
Qed.

Definition waits_for_status s : Prop :=
  pending_reads s = [RStatus] ∧ read_streambuff_ s = [] ∧ is_set s = false ∧ promise_of_resp s = None.

(** A status line is accepted exactly when it starts with HTTP/ and its
    second word is the number 200: the header is read next.  With another
    number, or another protocol, the promise holds an exception.  When the
    second word is no number the exception of [stoi] leaves the handler. *)
Theorem http_status_line s version code reason xfr :
  waits_for_status s → word version → word code → match reason with b :: _ => isspace b = false | [] => False end →
  let line := version ++ " "%byte :: code ++ " "%byte :: reason in
  find_until crlf line = Some xfr →
  match stoi code with
  | Ok v =>
      ∃ s', handle_event (EvUntil line) s = Some (Ok (tt, s')) ∧
        if bool_decide (take 5 version = str "HTTP/" ∧ u32 v = 200)
        then jobs s' = jobs s ++ [JRead RHeader; JAwait] ∧ promise_of_resp s' = None
        else ∃ what, promise_of_resp s' = Some (inr (BadConnect what)) ∧ is_set s' = true
  | Throw e => handle_event (EvUntil line) s = Some (Throw e)
  | _ => False
  end.
Proof.
  intros (Hp & Hb & Hset & Hpr) Hv Hc Hr line Hf.
  assert (handle_event (EvUntil line) s = Some (finish_read [] line xfr on_status s)) as E.
  { cbn [handle_event]. rewrite Hp, Hb. cbn [app until_str]. rewrite Hf. by rewrite bool_decide_true by (by left). }
  set (s1 := set_timeout (set_streambuff (set_pending s (connecting s) (pending_writes s) []) line) false).
  assert (finish_read [] line xfr on_status s =
    (_ ← on_status line; modify (fun s => set_streambuff s (drop xfr (read_streambuff_ s)))) s1) as E1.
  { unfold finish_read, stop_await. do 4 (erewrite st_bind_Ok by reflexivity; cbv beta).
    cbn [read_streambuff_ set_timeout set_streambuff set_pending]. by rewrite Hb. }
  assert (is_set s1 = false ∧ promise_of_resp s1 = None) as [Hset1 Hpr1] by done.
  pose proof (on_status_words s1 version code reason Hv Hc Hr) as Ew. fold line in Ew.
  pose proof (stoi_cases code) as Hcases. rewrite E, E1. clear E E1.
  destruct (stoi code) as [v|e| | |]; [|unfold mbind, ST_bind; by rewrite Ew|done..].
  destruct (bool_decide (take 5 version = str "HTTP/")) eqn:Ev; cbn [negb] in Ew.
  - apply bool_decide_eq_true in Ev. destruct (Z.eqb_spec (u32 v) 200) as [E200|Hne]; cbn [negb] in Ew.
    + rewrite bool_decide_true by done. unfold mbind, ST_bind. rewrite Ew.
      eexists. split; [reflexivity|]. cbn. by rewrite <- app_assoc.
    + rewrite bool_decide_false by naive_solver. rewrite SetException_open in Ew by done.
      erewrite st_bind_Ok by exact Ew. eexists. split; [reflexivity|]. by eexists.
  - apply bool_decide_eq_false in Ev. rewrite bool_decide_false by naive_solver.
    rewrite SetException_open in Ew by done. erewrite st_bind_Ok by exact Ew. eexists. split; [reflexivity|]. by eexists.
Qed.

(** ** Peers as dictionaries *)

(** A small number swapped in eight bytes has nothing in its low bytes. *)
Lemma swapped_low v k :
  is_little_endian = true → (k ≤ 8)%nat → 0 ≤ v < 2 ^ (Z.of_nat (8 - k) * 8) →
  BigToNative 8 v mod 2 ^ (8 * Z.of_nat k) = 0.
Proof.
  intros L Hk Hv. unfold BigToNative, AsValue, unrepr. rewrite L, endian_changer_rev. unfold repr. rewrite L.
  set (l := le_split (8 - k) v ++ List.repeat x00 k).
  assert (le_split 8 v = l) as ->.
  { rewrite <- (split_le_combine' l 8); unfold l.
    - f_equal. rewrite le_combine_app_0, le_combine_split. symmetry. by apply Z.mod_small.
    - rewrite length_app, length_le_split, repeat_length. lia. }
  rewrite <- le_combine_firstn. unfold l. rewrite rev_app_distr, rev_repeat.
  rewrite take_app_length' by (by rewrite repeat_length). apply le_combine_0.
Qed.

(** On a little-endian host every peer of the dictionary form gets the
    address 0.0.0.0 and the port 0: the numbers are swapped in the eight bytes
    of [long long] and cut to four and two. *)
Theorem dict_peers_lost rs junk d (i : PeerImage B) ipv portv :
  is_little_endian = true → 0 ≤ ipv < 2 ^ 32 → 0 ≤ portv < 2 ^ 16 →
  keys_sorted d = true → find (str "ip") d = Some (NInt ipv) → find (str "port") d = Some (NInt portv) →
  dict_image rs junk (NDict d) = Ok i → peer_address i = (0, 0).
Proof.
  intros L Hip Hport Hd Eip Eport. unfold dict_image, ref_key.
  assert (∀ k k' v d', keys_sorted d' = true → find k d' = Some v → find k (emplace k' (NInt 0) d') = Some v) as Hkeep.
  { intros k k' v d' Hs' Ek. rewrite find_emplace by done. destruct (decide _) as [<-|]; [|done]. by rewrite Ek. }
  rewrite (Hkeep _ _ _ _ Hd Eip). change (AsNumber (default (NInt 0) (Some (NInt ipv)))) with (Ok ipv).
  rewrite bind_Ok. cbv beta iota zeta.
  pose proof (emplace_sorted (str "ip") (NInt 0) d Hd) as Hd1.
  rewrite (Hkeep _ _ _ _ Hd1 (Hkeep _ _ _ _ Hd Eport)).
  change (AsNumber (default (NInt 0) (Some (NInt portv)))) with (Ok portv). rewrite bind_Ok. cbv beta iota zeta.
  assert (u32 (BigToNative 8 ipv) = 0) as -> by (apply (swapped_low ipv 4 L); [lia|done]).
  assert (u16 (BigToNative 8 portv) = 0) as -> by (apply (swapped_low portv 2 L); [lia|cbn; lia]).
  intros (o & _ & E)%bind_Ok_inv. destruct o as [v|]; [|by injection E as <-].
  apply bind_Ok_inv in E as (w & _ & E). apply bind_Ok_inv in E as (key & _ & E). by injection E as <-.
Qed.
End HttpFacts.

(** ** An exchange with a tracker *)

(** A regular expression engine for the document: everything from the first
    line that starts with [d]. *)
Fixpoint from_line_d (start : bool) (l : bytes) : list bytes :=
  match l with
  | [] => []
  | b :: r => if start && bool_decide (b = "d"%byte) then [l] else from_line_d (bool_decide (b = x0a)) r
  end.

#[local] Instance lines_regex : Regex := {| split_url _ := []; split_bencode := from_line_d true |}.
#[local] Existing Instance x86_64.

Definition example_header : bytes := str "Content-Type: text/plain" ++ crlf ++ crlf.
Definition example_peers : list (Z * Z) := [(0x0A000001, 6881); (0xC0A80101, 51413)].
Definition example_document : list (bytes * Node) :=
  [(str "interval", NInt 1800); (str "peers", NStr (concat (map peer_bytes example_peers)))].

(** The status line has been accepted. *)
Definition example_open : httpRequester (list bool) :=
  mkHttp false None true true false (sm_make BigEndian) [] false [] 0 [] [RHeader].

(** The request has been sent. *)
Definition example_sent : httpRequester (list bool) :=
  mkHttp false None true true false (sm_make BigEndian) [] false [] 0 [] [RStatus].

Lemma example_splits : splits_after example_header.
Proof. intros body. exists []. vm_compute. reflexivity. Qed.

Lemma http_peers_received_witness :
  ∃ s' resp,
    events (rest_of_answer example_header (MakeSerialize (NDict example_document)) (fun _ => []) (fun _ => []))
      example_open = Ok s' ∧
    promise_of_resp s' = Some (inl resp) ∧ map peer_address (peers resp) = example_peers ∧ interval resp = 1800.
Proof.
  apply (http_peers_received example_open example_header example_document example_peers example_header []
           (MakeSerialize (NDict example_document)) (fun _ => []) (fun _ => [])).
  - split; reflexivity.
  - reflexivity.
  - reflexivity.
  - rewrite app_nil_r. reflexivity.
  - vm_compute. reflexivity.
  - vm_compute. reflexivity.
  - exact example_splits.
  - left. split; reflexivity.
  - vm_compute. reflexivity.
  - vm_compute. reflexivity.
  - repeat split. intros n [= <-]. vm_compute. reflexivity.
  - vm_compute. reflexivity.
  - discriminate.
  - repeat constructor; cbn; lia.
Defined.

(** An interval of 2^53 seconds is undefined. *)
Example interval_overflows :
  http_response (B:=list bool) (fun _ => []) (fun _ => [])
    (NDict [(str "interval", NInt (2 ^ 53)); (str "peers", NStr [])]) = UB.
Proof. vm_compute. reflexivity. Qed.

Lemma http_split_body_doubled_witness :
  ∃ seen s1,
    events (rest_of_answer (example_header ++ str "d5:peers6:") (str "ABCDEFe") (fun _ => []) (fun _ => []))
      example_open =
      ('(_, s') ← SetResponse (fun _ => []) (fun _ => []) seen s1;
       Ok (set_streambuff s' (drop 7 (read_streambuff_ s')))) ∧
    seen = example_header ++ str "d5:peers6:d5:peers6:ABCDEFe".
Proof.
  destruct (http_split_body_doubled example_open example_header (str "d5:peers6:")
              (example_header ++ str "d5:peers6:") (str "ABCDEFe") (fun _ => []) (fun _ => []))
    as (seen & s1 & E & _ & _ & Es & _).
  - split; reflexivity.
  - reflexivity.
  - vm_compute. reflexivity.
  - vm_compute. reflexivity.
  - exists seen, s1. split; [exact E|exact Es].
Defined.

(** A code that is no number. *)
Lemma http_status_line_witness :
  handle_event (EvUntil (str "HTTP/1.1 OK hello" ++ crlf)) example_sent = Some (Throw invalid_argument) ∧
  ∃ s', handle_event (EvUntil (str "HTTP/1.1 200 OK" ++ crlf)) example_sent = Some (Ok (tt, s')) ∧
    jobs s' = [JRead RHeader; JAwait].
Proof.
  split.
  - apply (http_status_line example_sent (str "HTTP/1.1") (str "OK") (str "hello" ++ crlf) 19).
    + repeat split.
    + split; [discriminate|]. repeat constructor.
    + split; [discriminate|]. repeat constructor.
    + reflexivity.
    + vm_compute. reflexivity.
  - destruct (http_status_line example_sent (str "HTTP/1.1") (str "200") (str "OK" ++ crlf) 17)
      as (s' & E & R).
    + repeat split.
    + split; [discriminate|]. repeat constructor.
    + split; [discriminate|]. repeat constructor.
    + reflexivity.
    + vm_compute. reflexivity.
    + exists s'. split; [exact E|]. revert R. rewrite bool_decide_true by (split; reflexivity).
      intros [R _]. exact R.
Defined.

Lemma dict_peers_lost_witness :
  ∃ i : PeerImage (list bool),
    dict_image [] (replicate 26 x00) (NDict [(str "ip", NInt 0x0A000001); (str "port", NInt 6881)]) = Ok i ∧
    peer_address i = (0, 0).
Proof.
  eexists. split; [vm_compute; reflexivity|].
  apply (dict_peers_lost [] (replicate 26 x00) [(str "ip", NInt 0x0A000001); (str "port", NInt 6881)] _ 0x0A000001 6881);
    try reflexivity; lia.
Defined.
