(* ===== verification/UdpTracker.v ===== *)
(** * The UDP tracker protocol (src/Network/BitTorrent/TrackerRequester.cpp, udpRequester)

    The requester as a state machine: member functions are computations in the
    state monad, a lambda posted to the strand is a value of [Job], the
    completions of the socket and of the timers are the events.  The endpoints
    are those from [endpoint_iter_] on. *)

From Stdlib Require Import ZArith Lia Strings.Byte Strings.String.
From coqutil Require Import Byte.
From S2P Require Import Prelude Bytes Streams Bencode Text Bitset Bitfield Message Peer Tracker.

Definition MAX_CONNECT_ATTEMPTS : Z := 4.
Definition MAX_ANNOUNCE_ATTEMPTS : Z := 3.
(** [connection_waiting_time + epsilon] and [announce_waiting_time + epsilon], in milliseconds. *)
Definition connect_waiting_ : Z := 2015.
Definition announce_waiting_ : Z := 1015.

(** What a timer does after cancelling the operations. *)
Inductive Then := TNothing | TConnect | TAnnounce.

(** Which request a datagram is, or which answer is waited for. *)
Inductive Phase := PConnect | PAnnounce.

Inductive Job :=
  | JResolve
  | JAwait (k : Then)
  | JSend (msg : bytes) (k : Phase)
  | JReceive (max_size : nat) (k : Phase).

#[export] Instance Then_eq_dec : EqDecision Then.
Proof. solve_decision. Defined.
#[export] Instance Phase_eq_dec : EqDecision Phase.
Proof. solve_decision. Defined.
#[export] Instance Job_eq_dec : EqDecision Job.
Proof. solve_decision. Defined.

Section UdpTracker.
Context {B : Type} `{DynamicBitset B} `{Host}.

(** [TrackerRequester], [UDPSocket] and [udpRequester]; of the promise, what it
    was set to, and whether [get_future] was called. *)
Record udpRequester := mkUdp {
  is_set : bool;
  promise_of_resp : option (Response B + exn);
  future_retrieved : bool;
  can_reconnect_ : bool;
  tracker_reconnect_timeout_ : bool;
  connect_attempts_ : Z;
  announce_attempts_ : Z;
  query_ : Query;
  c_req_transaction_id : Z;
  c_resp_transaction_id : Z;
  c_resp_connection_id : Z;
  announce_req_ : bytes;
  endpoints_ : list Z;
  is_endpoints_dried : bool;
  socket_open : bool;
  timeout_ : option Then;
  jobs : list Job;
  resolving : nat;
  pending_sends : list (bytes * Z * Phase);
  pending_receives : list (nat * Phase);
}.

Definition new_requester : udpRequester :=
  mkUdp false None false true false MAX_CONNECT_ATTEMPTS MAX_ANNOUNCE_ATTEMPTS
        (mkQuery Empty 0 0 0 false None None None) 0 0 0 (replicate 99 x00) [] false false None [] 0 [] [].

Definition set_done (s : udpRequester) : udpRequester :=
  mkUdp true (promise_of_resp s) (future_retrieved s) (can_reconnect_ s) (tracker_reconnect_timeout_ s)
    (connect_attempts_ s) (announce_attempts_ s) (query_ s) (c_req_transaction_id s)
    (c_resp_transaction_id s) (c_resp_connection_id s) (announce_req_ s) (endpoints_ s)
    (is_endpoints_dried s) (socket_open s) None (jobs s) (resolving s) (pending_sends s) (pending_receives s).
Definition set_promise (s : udpRequester) x fr : udpRequester :=
  mkUdp (is_set s) x fr (can_reconnect_ s) (tracker_reconnect_timeout_ s)
    (connect_attempts_ s) (announce_attempts_ s) (query_ s) (c_req_transaction_id s)
    (c_resp_transaction_id s) (c_resp_connection_id s) (announce_req_ s) (endpoints_ s)
    (is_endpoints_dried s) (socket_open s) (timeout_ s) (jobs s) (resolving s) (pending_sends s) (pending_receives s).
Definition set_reconnect (s : udpRequester) can armed : udpRequester :=
  mkUdp (is_set s) (promise_of_resp s) (future_retrieved s) can armed
    (connect_attempts_ s) (announce_attempts_ s) (query_ s) (c_req_transaction_id s)
    (c_resp_transaction_id s) (c_resp_connection_id s) (announce_req_ s) (endpoints_ s)
    (is_endpoints_dried s) (socket_open s) (timeout_ s) (jobs s) (resolving s) (pending_sends s) (pending_receives s).
Definition set_attempts (s : udpRequester) c a : udpRequester :=
  mkUdp (is_set s) (promise_of_resp s) (future_retrieved s) (can_reconnect_ s) (tracker_reconnect_timeout_ s)
    c a (query_ s) (c_req_transaction_id s)
    (c_resp_transaction_id s) (c_resp_connection_id s) (announce_req_ s) (endpoints_ s)
    (is_endpoints_dried s) (socket_open s) (timeout_ s) (jobs s) (resolving s) (pending_sends s) (pending_receives s).
Definition set_request (s : udpRequester) q tid arr : udpRequester :=
  mkUdp (is_set s) (promise_of_resp s) (future_retrieved s) (can_reconnect_ s) (tracker_reconnect_timeout_ s)
    (connect_attempts_ s) (announce_attempts_ s) q tid
    (c_resp_transaction_id s) (c_resp_connection_id s) arr (endpoints_ s)
    (is_endpoints_dried s) (socket_open s) (timeout_ s) (jobs s) (resolving s) (pending_sends s) (pending_receives s).
Definition set_response (s : udpRequester) tid cid : udpRequester :=
  mkUdp (is_set s) (promise_of_resp s) (future_retrieved s) (can_reconnect_ s) (tracker_reconnect_timeout_ s)
    (connect_attempts_ s) (announce_attempts_ s) (query_ s) (c_req_transaction_id s)
    tid cid (announce_req_ s) (endpoints_ s)
    (is_endpoints_dried s) (socket_open s) (timeout_ s) (jobs s) (resolving s) (pending_sends s) (pending_receives s).
Definition set_endpoints (s : udpRequester) eps dried : udpRequester :=
  mkUdp (is_set s) (promise_of_resp s) (future_retrieved s) (can_reconnect_ s) (tracker_reconnect_timeout_ s)
    (connect_attempts_ s) (announce_attempts_ s) (query_ s) (c_req_transaction_id s)
    (c_resp_transaction_id s) (c_resp_connection_id s) (announce_req_ s) eps
    dried (socket_open s) (timeout_ s) (jobs s) (resolving s) (pending_sends s) (pending_receives s).
Definition set_timeout (s : udpRequester) t : udpRequester :=
  mkUdp (is_set s) (promise_of_resp s) (future_retrieved s) (can_reconnect_ s) (tracker_reconnect_timeout_ s)
    (connect_attempts_ s) (announce_attempts_ s) (query_ s) (c_req_transaction_id s)
    (c_resp_transaction_id s) (c_resp_connection_id s) (announce_req_ s) (endpoints_ s)
    (is_endpoints_dried s) (socket_open s) t (jobs s) (resolving s) (pending_sends s) (pending_receives s).
Definition set_jobs (s : udpRequester) js : udpRequester :=
  mkUdp (is_set s) (promise_of_resp s) (future_retrieved s) (can_reconnect_ s) (tracker_reconnect_timeout_ s)
    (connect_attempts_ s) (announce_attempts_ s) (query_ s) (c_req_transaction_id s)
    (c_resp_transaction_id s) (c_resp_connection_id s) (announce_req_ s) (endpoints_ s)
    (is_endpoints_dried s) (socket_open s) (timeout_ s) js (resolving s) (pending_sends s) (pending_receives s).
Definition set_pending (s : udpRequester) rs ss vs : udpRequester :=
  mkUdp (is_set s) (promise_of_resp s) (future_retrieved s) (can_reconnect_ s) (tracker_reconnect_timeout_ s)
    (connect_attempts_ s) (announce_attempts_ s) (query_ s) (c_req_transaction_id s)
    (c_resp_transaction_id s) (c_resp_connection_id s) (announce_req_ s) (endpoints_ s)
    (is_endpoints_dried s) (socket_open s) (timeout_ s) (jobs s) rs ss vs.

Definition set_open (s : udpRequester) : udpRequester :=
  mkUdp (is_set s) (promise_of_resp s) (future_retrieved s) (can_reconnect_ s) (tracker_reconnect_timeout_ s)
    (connect_attempts_ s) (announce_attempts_ s) (query_ s) (c_req_transaction_id s)
    (c_resp_transaction_id s) (c_resp_connection_id s) (announce_req_ s) (endpoints_ s)
    (is_endpoints_dried s) true (timeout_ s) (jobs s) (resolving s) (pending_sends s) (pending_receives s).

Abbreviation M := (ST udpRequester).

(** ** The promise *)

Definition fulfil (x : Response B + exn) : M unit := fun s =>
  match promise_of_resp s with
  | Some _ => Throw promise_already_satisfied
  | None => Ok (tt, set_promise s (Some x) (future_retrieved s))
  end.

Definition GetResponse : M unit := fun s =>
  if future_retrieved s then Throw future_already_retrieved
  else Ok (tt, set_promise s (promise_of_resp s) true).

(** [cancel_operation] cancels the timer; a cancelled operation fails later. *)
Definition Disconnect : M unit := modify set_done.

Definition SetException (err : string) : M unit :=
  s ← get_st;
  if is_set s then mret tt else _ ← fulfil (inr (BadConnect err)); Disconnect.

(** [fresh k] are the random bytes of the id of the [k]-th peer. *)
Definition SetResponse (fresh : nat → bytes) (data : bytes) : M unit :=
  s ← get_st;
  if is_set s then mret tt
  else
    resp ← lift (udp_response fresh data);
    match peers resp with
    | [] => SetException "0 peers!"
    | _ => _ ← fulfil (inl resp); Disconnect
    end.

(** ** The socket *)

Definition Post (j : Job) : M unit := modify (fun s => set_jobs s (jobs s ++ [j])).
Definition Await (k : Then) : M unit := Post (JAwait k).
Definition Send (msg : bytes) (k : Phase) : M unit := Post (JSend msg k).
Definition Receive (max_size : nat) (k : Phase) : M unit := Post (JReceive max_size k).

(** [Promote]: advancing an exhausted iterator is undefined. *)
Definition Promote : M unit := fun s =>
  match endpoints_ s with
  | [] => UB
  | _ :: eps => Ok (tt, set_endpoints s eps (bool_decide (eps = []) || is_endpoints_dried s))
  end.

(** [socket_.open(protocol)], the overload that throws. *)
Definition open_socket : M unit := fun s =>
  if socket_open s then Throw already_open else Ok (tt, set_open s).

(** ** Connecting *)

Definition update_endpoint (retry : M unit) : M unit :=
  _ ← Promote;
  s ← get_st;
  if is_endpoints_dried s then SetException "all endpoints were polled but without success" else retry.

(** [do_try_connect] and [update_endpoint] call each other; the attempts are
    never used up twice in a row, so two levels are enough. *)
Fixpoint try_connect (levels : nat) : M unit :=
  match levels with
  | O => lift NoFuel
  | S levels =>
      s ← get_st;
      _ ← modify (fun s => set_attempts s (u64 (connect_attempts_ s - 1)) (announce_attempts_ s));
      if connect_attempts_ s =? 0 then
        _ ← modify (fun s => set_attempts s MAX_CONNECT_ATTEMPTS (announce_attempts_ s));
        update_endpoint (try_connect levels)
      else Send (sm_data (connect_datagram (c_req_transaction_id s))) PConnect
  end.
Definition do_try_connect : M unit := try_connect 2.

(** [dur]: the time that has passed by the local clock, in milliseconds. *)
Definition do_try_connect_delay (dur : Z) : M unit :=
  if 0 <=? connect_waiting_ - dur then Await TConnect else do_try_connect.

Definition do_connect_response : M unit := _ ← Receive short_buff_size PConnect; Await TNothing.

(** ** Announcing *)

Definition do_try_announce : M unit :=
  s ← get_st;
  _ ← modify (fun s => set_attempts s (connect_attempts_ s) (u64 (announce_attempts_ s - 1)));
  if announce_attempts_ s =? 0 then
    _ ← modify (fun s => set_attempts s (connect_attempts_ s) MAX_ANNOUNCE_ATTEMPTS);
    do_try_connect
  else
    let arr := poke (announce_req_ s) 0 (ValueToArray 8 (c_resp_connection_id s)) in
    let arr := poke arr 12 (ValueToArray 4 (c_resp_transaction_id s)) in
    _ ← modify (fun s => set_request s (query_ s) (c_req_transaction_id s) arr);
    Send (take middle_buff_size arr) PAnnounce.

Definition do_try_announce_delay (dur : Z) : M unit :=
  if 0 <=? announce_waiting_ - dur then Await TAnnounce else do_try_announce.

Definition do_announce_response : M unit := _ ← Receive MTU PAnnounce; Await TNothing.

(** ** The callbacks *)

(** A datagram of [bytes_transferred] bytes has been sent. *)
Definition on_sent (k : Phase) (bytes_transferred dur : Z) : M unit :=
  match k with
  | PConnect =>
      if bytes_transferred <? 16 then
        _ ← modify (fun s => set_attempts s 0 (announce_attempts_ s));
        do_try_connect_delay dur
      else do_connect_response
  | PAnnounce =>
      if negb (bytes_transferred =? Z.of_nat middle_buff_size) then
        _ ← modify (fun s => set_attempts s 0 0);
        do_try_announce_delay dur
      else do_announce_response
  end.

Definition on_send_failed (k : Phase) : M unit :=
  match k with
  | PConnect => _ ← modify (fun s => set_attempts s 0 (announce_attempts_ s)); do_try_connect
  | PAnnounce => do_try_announce
  end.

Definition on_connect_response (data : bytes) (dur : Z) : M unit :=
  if (length data <? 16)%nat then do_try_connect_delay dur
  else
    s ← get_st;
    '(action, m) ← lift (get_value 4 (rm_make data BigEndian));
    '(value, m) ← lift (get_value 4 m);
    if (value =? c_req_transaction_id s) && (action =? 0) then
      '(connection_id, _) ← lift (get_value 8 m);
      _ ← modify (fun s => set_response s (NativeToBig 4 value) (NativeToBig 8 connection_id));
      do_try_announce
    else do_try_connect_delay dur.

(** A C string: the bytes up to the first zero byte.  Reading on behind the
    bytes there are is undefined. *)
Fixpoint c_string (l : bytes) : outcome bytes :=
  match l with
  | [] => UB
  | b :: l => if decide (b = x00) then Ok [] else s ← c_string l; Ok (b :: s)
  end.

(** The error message of an answer is logged from [&data[8]] on. *)
Definition on_announce_response (fresh : nat → bytes) (data : bytes) (dur : Z) : M unit :=
  if (length data <? 8)%nat then do_try_announce_delay dur
  else
    s ← get_st;
    '(action, m) ← lift (get_value 4 (rm_make data BigEndian));
    '(val, _) ← lift (get_value 4 m);
    if (20 <=? length data)%nat && (val =? BigToNative 4 (c_resp_transaction_id s)) && (action =? 1) then
      let msg := CopyFrom_message (sm_make BigEndian) (rm_make data BigEndian) in
      SetResponse fresh (rm_arr (MakeReading (put_value msg 1 0)))
    else if (0 <? length data)%nat && (val =? BigToNative 4 (c_resp_transaction_id s)) && (action =? 3) then
      _ ← lift (c_string (drop 8 data));
      do_try_announce_delay dur
    else do_try_announce_delay dur.

(** ** The requester *)

(** [wait_reconnect] of [TrackerRequester]. *)
Definition wait_reconnect : M unit := modify (fun s => set_reconnect s false true).

(** [Connect]; [r] is the random number of the transaction. *)
Definition Connect (t : Tracker) (query : Query) (r : Z) : M unit :=
  s ← get_st;
  if negb (can_reconnect_ s) then mret tt
  else
    _ ← modify (fun s => set_request s query (u32 r) (announce_req_ s));
    s ← get_st;
    arr ← lift (make_announce_request t query (announce_req_ s));
    _ ← modify (fun s => set_request s query (u32 r) arr);
    _ ← Post JResolve;
    _ ← Await TNothing;
    wait_reconnect.

(** [Tracker::Request] with the requester made before. *)
Definition Request (t : Tracker) (query : Query) (r : Z) : M unit := _ ← Connect t query r; GetResponse.

(** ** Jobs and events *)

(** The datagrams go to, and come from, [*endpoint_iter_]. *)
Definition endpoint : M Z := s ← get_st; lift (opt_ub (head (endpoints_ s))).

Definition run_job (j : Job) : M unit :=
  match j with
  | JResolve => modify (fun s => set_pending s (S (resolving s)) (pending_sends s) (pending_receives s))
  | JAwait k => modify (fun s => set_timeout s (Some k))
  | JSend msg k =>
      ep ← endpoint;
      modify (fun s => set_pending s (resolving s) (pending_sends s ++ [(msg, ep, k)]) (pending_receives s))
  | JReceive max_size k =>
      _ ← endpoint;
      modify (fun s => set_pending s (resolving s) (pending_sends s) (pending_receives s ++ [(max_size, k)]))
  end.

Definition stop_await : M unit := modify (fun s => set_timeout s None).

(** What may happen next: the strand runs a job, an operation completes or
    fails, a timer expires. *)
Inductive event :=
  | EvRun
  | EvResolved (eps : list Z)
  | EvResolveFailed (message : string)
  | EvSent (bytes_transferred dur : Z)
  | EvSendFailed
  | EvReceived (data : bytes) (dur : Z) (fresh : nat → bytes)
  | EvReceiveFailed
  | EvTimeout
  | EvReconnect.

Definition handle_event (e : event) (s : udpRequester) : option (outcome (unit * udpRequester)) :=
  match e with
  | EvRun =>
      match jobs s with
      | j :: js => Some ((_ ← modify (fun s => set_jobs s js); run_job j) s)
      | [] => None
      end
  | EvResolved eps =>
      match resolving s, eps with
      | S n, _ :: _ => Some ((
          _ ← modify (fun s => set_pending s n (pending_sends s) (pending_receives s));
          _ ← modify (fun s => set_endpoints s eps (is_endpoints_dried s));
          _ ← stop_await;
          _ ← open_socket;
          do_try_connect) s)
      | _, _ => None
      end
  | EvResolveFailed message =>
      match resolving s with
      | S n => Some ((
          _ ← modify (fun s => set_pending s n (pending_sends s) (pending_receives s));
          SetException ("Unable to resolve host: " ++ message)%string) s)
      | O => None
      end
  | EvSent n dur =>
      match pending_sends s with
      | (_, _, k) :: ss => Some ((
          _ ← modify (fun s => set_pending s (resolving s) ss (pending_receives s));
          on_sent k n dur) s)
      | [] => None
      end
  | EvSendFailed =>
      match pending_sends s with
      | (_, _, k) :: ss => Some ((
          _ ← modify (fun s => set_pending s (resolving s) ss (pending_receives s));
          on_send_failed k) s)
      | [] => None
      end
  | EvReceived data dur fresh =>
      match pending_receives s with
      | (max_size, k) :: vs =>
          if bool_decide (length data ≤ max_size)%nat then Some ((
            _ ← modify (fun s => set_pending s (resolving s) (pending_sends s) vs);
            _ ← stop_await;
            match k with
            | PConnect => on_connect_response data dur
            | PAnnounce => on_announce_response fresh data dur
            end) s)
          else None
      | [] => None
      end
  | EvReceiveFailed =>
      match pending_receives s with
      | (_, k) :: vs => Some ((
          _ ← modify (fun s => set_pending s (resolving s) (pending_sends s) vs);
          _ ← stop_await;
          match k with PConnect => do_try_connect | PAnnounce => do_try_announce end) s)
      | [] => None
      end
  | EvTimeout =>
      match timeout_ s with
      | Some k => Some ((
          _ ← stop_await;
          match k with
          | TNothing => mret tt
          | TConnect => do_try_connect
          | TAnnounce => do_try_announce
          end) s)
      | None => None
      end
  | EvReconnect =>
      if tracker_reconnect_timeout_ s then Some (modify (fun s => set_reconnect s true false) s) else None
  end.

(** Besides, [Tracker::Stop] posts [Disconnect] to the service: it may run
    between any two events. *)
Inductive action :=
  | AEvent (e : event)
  | AStop.

Definition handle (a : action) (s : udpRequester) : option (outcome (unit * udpRequester)) :=
  match a with
  | AEvent e => handle_event e s
  | AStop => Some (Disconnect s)
  end.
End UdpTracker.

Arguments udpRequester B : clear implicits.
