(* ===== verification/UdpFacts.v ===== *)
(** * What the UDP requester does (src/Network/BitTorrent/TrackerRequester.cpp)

    The datagrams it sends, the peers it reads from an answer, and the state
    machine: at any time one thing is under way, nothing but two kinds of answer
    goes wrong ([bad_reply]), and after boundedly many events the promise is set,
    unless [Tracker::Stop] has come first. *)

From Stdlib Require Import ZArith Lia Strings.Byte Strings.String.
From coqutil Require Import Byte Word.LittleEndianList.
From S2P Require Import Prelude Bytes Streams Bencode Text Bitset Bitfield Message Peer Tracker UdpTracker TrackerFacts.

(** ** The state machine *)

Section Machine.
Context {B : Type} `{DynamicBitset B} `{Host}.
(** [st]: a [Stop] has run; [nmax]: how many addresses are found at most. *)
Variables (t : Tracker) (q : Query) (tid : Z) (st : Prop) (nmax : nat).
Hypothesis Hrange : 0 ≤ tid < 2 ^ 32.
Implicit Types s : udpRequester B.

Definition awaits (l : list Job) : Prop := Forall (fun j => j = JAwait TNothing) l.
Definition quiet_timer (o : option Then) : Prop := o = None ∨ o = Some TNothing.
Definition nothing_pending s : Prop := resolving s = 0%nat ∧ pending_sends s = [] ∧ pending_receives s = [].

(** Nothing under way but timers that cancel what is under way. *)
Definition idle s : Prop := awaits (jobs s) ∧ nothing_pending s ∧ quiet_timer (timeout_ s).

(** The connection id of the tracker has been received. *)
Definition announcing s : Prop := c_resp_transaction_id s = NativeToBig 4 tid.
Definition phase_ok s (k : Phase) : Prop := k = PAnnounce → announcing s.
Definition then_ok s (k : Then) : Prop := k ≠ TNothing ∧ (k = TAnnounce → announcing s).

Definition connect_bytes : bytes := be_split 8 protocol_id ++ be_split 4 0 ++ be_split 4 tid.

Definition datagram_ok s (msg : bytes) (k : Phase) : Prop :=
  match k with
  | PConnect => msg = connect_bytes
  | PAnnounce => announcing s ∧ msg = announce_datagram t q (repr 8 (c_resp_connection_id s)) tid
  end.

(** The one thing under way. *)
Inductive under_way s : Prop :=
  | to_send l msg k : jobs s = l ++ [JSend msg k] → awaits l → nothing_pending s →
      quiet_timer (timeout_ s) → datagram_ok s msg k → under_way s
  | sending msg ep k : pending_sends s = [(msg, ep, k)] → awaits (jobs s) → resolving s = 0%nat →
      pending_receives s = [] → quiet_timer (timeout_ s) → datagram_ok s msg k → under_way s
  | to_receive l n k : jobs s = l ++ [JReceive n k; JAwait TNothing] → awaits l → nothing_pending s →
      quiet_timer (timeout_ s) → phase_ok s k → under_way s
  | receiving n k : pending_receives s = [(n, k)] → awaits (jobs s) → resolving s = 0%nat →
      pending_sends s = [] → quiet_timer (timeout_ s) → phase_ok s k → under_way s
  | to_wait l k : jobs s = l ++ [JAwait k] → awaits l → nothing_pending s →
      quiet_timer (timeout_ s) → then_ok s k → under_way s
  | waiting k : timeout_ s = Some k → jobs s = [] → nothing_pending s → then_ok s k → under_way s.

(** The host's addresses have not been asked for, or not been found yet. *)
Inductive unresolved s : Prop :=
  | to_resolve : jobs s = [JResolve; JAwait TNothing] → nothing_pending s → quiet_timer (timeout_ s) → unresolved s
  | being_resolved : resolving s = 1%nat → awaits (jobs s) → pending_sends s = [] →
      pending_receives s = [] → quiet_timer (timeout_ s) → unresolved s.

Record counters s : Prop := {
  ctr_connect : 0 ≤ connect_attempts_ s ≤ MAX_CONNECT_ATTEMPTS;
  ctr_announce : 0 ≤ announce_attempts_ s ≤ MAX_ANNOUNCE_ATTEMPTS;
  ctr_open : (is_set s = true → st) ∧ promise_of_resp s = None ∧ is_endpoints_dried s = false;
  ctr_tid : c_req_transaction_id s = tid;
  ctr_template : template t q (announce_req_ s);
}.

Definition done s : Prop := is_set s = true ∧ (is_Some (promise_of_resp s) ∨ st) ∧ idle s.

Inductive live s : Prop :=
  | live_done : done s → live s
  | live_busy : counters s → endpoints_ s ≠ [] → under_way s → live s.

Inductive inv s : Prop :=
  | inv_unresolved : counters s → endpoints_ s = [] → socket_open s = false → unresolved s → inv s
  | inv_live : live s → inv s.

(** *** How much is left to do *)

(** Ten for each datagram that may still be sent. *)
Definition budget s : Z :=
  match endpoints_ s with
  | [] => 0
  | _ :: eps => Z.max 0 (16 * Z.of_nat (length eps) + 4 * connect_attempts_ s + announce_attempts_ s)
  end.

(** The datagrams of [nmax] addresses. *)
Definition resolve_cost : Z := 160 * Z.of_nat nmax + 31.

Definition job_weight (j : Job) : Z :=
  match j with JResolve => resolve_cost + 1 | JAwait _ => 2 | JSend _ _ => 10 | JReceive _ _ => 4 end.
Definition weight (l : list Job) : Z := foldr Z.add 0 (map job_weight l).

Definition potential s : Z :=
  10 * budget s + weight (jobs s) + match resolving s with O => 0 | S _ => resolve_cost end + 9 * Z.of_nat (length (pending_sends s)) +
  3 * Z.of_nat (length (pending_receives s)) + (if timeout_ s then 1 else 0) +
  (if tracker_reconnect_timeout_ s then 1 else 0).

Lemma weight_app l l' : weight (l ++ l') = weight l + weight l'.
Proof. unfold weight. induction l as [|j l IH]; [done|]. cbn in *. lia. Qed.

Lemma weight_one j : weight [j] = job_weight j.
Proof. unfold weight. cbn. lia. Qed.

Lemma weight_nonneg l : 0 ≤ weight l.
Proof. unfold weight. induction l as [|[] l IH]; cbn in *; unfold resolve_cost; lia. Qed.

#[local] Arguments weight : simpl never.
#[local] Arguments resolve_cost : simpl never.

Lemma connect_datagram_bytes : sm_data (connect_datagram tid) = connect_bytes.
Proof.
  unfold connect_datagram. destruct (put_fields_data (sm_make BigEndian)
    [(8%nat, protocol_id); (4%nat, 0); (4%nat, tid)]) as [-> _]. cbn. by rewrite app_nil_r.
Qed.

(** *** The steps that go on *)

(** At most [d] more is left to do afterwards. *)
Definition goes_on (m : ST (udpRequester B) unit) (d : Z) s : Prop :=
  wp false m (fun _ s' => live s' ∧ potential s' ≤ potential s + d) s.

Definition sent_connect s : udpRequester B :=
  set_jobs (set_attempts s (connect_attempts_ s - 1) (announce_attempts_ s))
           (jobs s ++ [JSend connect_bytes PConnect]).

Lemma try_connect_send levels s :
  counters s → connect_attempts_ s ≠ 0 → try_connect (S levels) s = Ok (tt, sent_connect s).
Proof.
  intros [Hc _ _ Htid _] Hne. cbn [try_connect]. st_run. destruct (Z.eqb_spec (connect_attempts_ s) 0); [done|].
  unfold Send, Post, modify, sent_connect. do 2 f_equal. cbn [connect_attempts_ set_attempts announce_attempts_ jobs].
  unfold MAX_CONNECT_ATTEMPTS in Hc. rewrite u64_small by lia. by rewrite Htid, connect_datagram_bytes.
Qed.

Lemma sent_connect_ok s :
  counters s → connect_attempts_ s ≠ 0 → endpoints_ s ≠ [] → idle s →
  live (sent_connect s) ∧ potential (sent_connect s) ≤ potential s - 30.
Proof.
  intros [Hc Ha Ho Ht Htem] Hne He (Hj & Hn & Hq). split.
  - apply live_busy; [|done|by eapply to_send].
    split; cbn; try done. lia.
  - unfold potential, budget, sent_connect. cbn. rewrite weight_app, weight_one. cbn. destruct (endpoints_ s); [done|]. lia.
Qed.

(** The promise is set, unless a [Stop] has come first. *)
Lemma fulfilled x s :
  promise_of_resp s = None → idle s →
  wp false (_ ← fulfil x; Disconnect) (fun _ s' => done s' ∧ potential s' ≤ potential s) s.
Proof.
  intros Hp (Hj & Hn & Hq). unfold wp, fulfil. erewrite st_bind_Ok by (rewrite Hp; reflexivity). cbv beta.
  unfold Disconnect, modify. split.
  - split_and!; [done|left; by eexists|]. split_and!; [done|done|by left].
  - unfold potential, budget. cbn. destruct (timeout_ s); lia.
Qed.

Lemma SetException_ok err s :
  (is_set s = true → st) → promise_of_resp s = None → idle s →
  wp false (SetException err) (fun _ s' => done s' ∧ potential s' ≤ potential s) s.
Proof.
  intros Hset Hp Hi. unfold wp, SetException. st_run. destruct (is_set s) eqn:E; [|by apply fulfilled].
  split; [|lia]. split_and!; [done|right; by apply Hset|done|apply Hi..].
Qed.

(** The next endpoint, when the attempts are used up. *)
Definition promoted s : udpRequester B :=
  let s := set_attempts s MAX_CONNECT_ATTEMPTS (announce_attempts_ s) in
  set_endpoints s (tl (endpoints_ s)) (bool_decide (tl (endpoints_ s) = [])).

Lemma try_connect_promote levels s :
  counters s → connect_attempts_ s = 0 → endpoints_ s ≠ [] →
  try_connect (S levels) s =
    if is_endpoints_dried (promoted s)
    then SetException "all endpoints were polled but without success" (promoted s)
    else try_connect levels (promoted s).
Proof.
  intros [Hc Ha (Hset & Hp & Hd) Ht Htem] E He. cbn [try_connect]. st_run. rewrite E. change (0 =? 0) with true. cbv iota. st_run.
  unfold update_endpoint. destruct (endpoints_ s) as [|ep eps] eqn:Eeps; [done|].
  erewrite st_bind_Ok by (unfold Promote; cbn; rewrite Eeps; reflexivity). cbv beta.
  unfold promoted. cbn. rewrite Eeps, Hd, orb_false_r. st_run. cbn. by destruct (bool_decide (eps = [])). 
Qed.

Lemma promoted_ok s :
  counters s → connect_attempts_ s = 0 → endpoints_ s ≠ [] → idle s →
  idle (promoted s) ∧ announce_attempts_ (promoted s) = announce_attempts_ s ∧
  potential (promoted s) ≤ potential s ∧
  (is_endpoints_dried (promoted s) = true → potential (promoted s) ≤ potential s - 10 * announce_attempts_ s) ∧
  (is_endpoints_dried (promoted s) = false → counters (promoted s) ∧ endpoints_ (promoted s) ≠ []).
Proof.
  intros [Hc Ha (Hset & Hp & Hd) Ht Htem] E He Hi. split_and!; [done|done|..].
  - unfold potential, budget, promoted. cbn. destruct (endpoints_ s) as [|ep [|ep' eps]]; [done|..]; cbn;
      rewrite E; unfold MAX_CONNECT_ATTEMPTS, MAX_ANNOUNCE_ATTEMPTS in *; lia.
  - unfold potential, budget, promoted. cbn. intros Hdr%bool_decide_eq_true.
    destruct (endpoints_ s) as [|ep eps]; [done|]. cbn in Hdr. subst eps. cbn. rewrite E. lia.
  - unfold promoted. cbn. intros Hdr. apply bool_decide_eq_false in Hdr. split; [|done].
    split; cbn; try done. split_and!; try done. by apply bool_decide_eq_false.
Qed.

Lemma try_connect_ok s : counters s → endpoints_ s ≠ [] → idle s → goes_on do_try_connect (- (10 * announce_attempts_ s)) s.
Proof.
  intros Hs He Hi. unfold goes_on, do_try_connect. pose proof (ctr_announce s Hs) as Ha. unfold MAX_ANNOUNCE_ATTEMPTS in Ha.
  destruct (decide (connect_attempts_ s = 0)) as [E|Hne].
  - unfold wp. rewrite try_connect_promote by done.
    destruct (promoted_ok s Hs E He Hi) as (Hi' & Ha' & Hpot & Hdried & Hgo).
    destruct (is_endpoints_dried (promoted s)) eqn:Edr.
    + eapply wp_mono; [apply SetException_ok; [apply Hs..|done]|]. intros _ s' [Hdone Hle].
      specialize (Hdried eq_refl). split; [by apply live_done|lia].
    + destruct (Hgo eq_refl) as [Hs' He'].
      eapply wp_from_Ok; [by apply try_connect_send|].
      destruct (sent_connect_ok _ Hs' ltac:(done) He' Hi') as [??]. split; [done|lia].
  - eapply wp_from_Ok; [by apply try_connect_send|]. destruct (sent_connect_ok s Hs Hne He Hi). split; [done|lia].
Qed.

Lemma goes_on_weaken m d d' s : goes_on m d s → d ≤ d' → goes_on m d' s.
Proof. intros Hm Hd. eapply wp_mono; [exact Hm|]. intros _ s' [??]. split; [done|lia]. Qed.

(** The attempts of a request may be given up. *)
Lemma set_attempts_ok s c a :
  counters s → c = 0 ∨ c = connect_attempts_ s → a = 0 ∨ a = announce_attempts_ s →
  counters (set_attempts s c a) ∧ potential (set_attempts s c a) ≤ potential s.
Proof.
  intros [Hc Ha Ho Ht Htem] Hc' Ha'. unfold MAX_CONNECT_ATTEMPTS, MAX_ANNOUNCE_ATTEMPTS in *. split.
  - split; cbn; try done; unfold MAX_CONNECT_ATTEMPTS, MAX_ANNOUNCE_ATTEMPTS; lia.
  - unfold potential, budget. cbn. destruct (endpoints_ s); lia.
Qed.

Lemma try_announce_ok s :
  good_tracker t → counters s → announcing s → endpoints_ s ≠ [] → idle s → goes_on do_try_announce 0 s.
Proof.
  intros Htr Hs Hann He Hi. unfold do_try_announce, goes_on, wp. st_run.
  pose proof (ctr_announce s Hs) as Ha. pose proof (ctr_connect s Hs) as Hc.
  unfold MAX_ANNOUNCE_ATTEMPTS in Ha. unfold MAX_CONNECT_ATTEMPTS in Hc.
  destruct (Z.eqb_spec (announce_attempts_ s) 0) as [E|Hne]; st_run.
  - set (s1 := set_attempts _ _ _).
    assert (counters s1) as Hs1 by (destruct Hs as [Hc' _ Ho Ht Htem]; by split).
    assert (potential s1 = potential s + 30) as Hp1
      by (unfold potential, budget; cbn; rewrite E; unfold MAX_ANNOUNCE_ATTEMPTS; destruct (endpoints_ s); [done|lia]).
    eapply wp_mono; [by apply try_connect_ok|]. intros _ s' [Hinv Hle]. split; [done|].
    change (announce_attempts_ s1) with 3 in Hle. lia.
  - rewrite u64_small by lia.
    rewrite Hann. destruct Hs as [Hc' _ Ho Ht Htem].
    destruct (template_poke t q (announce_req_ s) (ValueToArray 8 (c_resp_connection_id s))
                (ValueToArray 4 (NativeToBig 4 tid)) Htr Htem) as [Htem' Hmsg];
      [apply length_repr..|].
    cbv zeta in Htem', Hmsg. unfold Send, Post, modify. rewrite Hmsg. destruct Hi as (Hj & Hn & Hq). split.
    + apply live_busy; [split; cbn; try done; unfold MAX_ANNOUNCE_ATTEMPTS; lia|done|].
      eapply (to_send _ (jobs s)); try done. split; [done|]. unfold announce_datagram.
      by rewrite NativeToBig_bytes.
    + unfold potential, budget. cbn. rewrite weight_app, weight_one. cbn. destruct (endpoints_ s); [done|]. lia.
Qed.

Lemma posted_wait_ok s k :
  counters s → endpoints_ s ≠ [] → idle s → then_ok s k → goes_on (Await k) 2 s.
Proof.
  intros Hs He (Hj & Hn & Hq) Hk. unfold goes_on, wp, Await, Post, modify. split.
  - apply live_busy; [by destruct Hs; split|done|]. by eapply (to_wait _ (jobs s)).
  - unfold potential, budget. cbn. rewrite weight_app, weight_one. cbn. lia.
Qed.

Lemma try_connect_delay_ok dur s :
  counters s → endpoints_ s ≠ [] → idle s → goes_on (do_try_connect_delay dur) 2 s.
Proof.
  intros Hs He Hi. unfold do_try_connect_delay. destruct (_ <=? _).
  - by apply posted_wait_ok.
  - eapply goes_on_weaken; [by apply try_connect_ok|]. pose proof (ctr_announce s Hs). lia.
Qed.

Lemma try_announce_delay_ok dur s :
  good_tracker t → counters s → announcing s → endpoints_ s ≠ [] → idle s →
  goes_on (do_try_announce_delay dur) 2 s.
Proof.
  intros Ht Hs Ha He Hi. unfold do_try_announce_delay. destruct (_ <=? _).
  - by apply posted_wait_ok.
  - eapply goes_on_weaken; [by apply try_announce_ok|lia].
Qed.

Lemma receive_ok n k s :
  counters s → endpoints_ s ≠ [] → idle s → phase_ok s k →
  goes_on (_ ← Receive n k; Await TNothing) 6 s.
Proof.
  intros Hs He (Hj & Hn & Hq) Hk. unfold goes_on, wp. st_run. unfold Receive, Await, Post, modify. split.
  - apply live_busy; [by destruct Hs; split|done|]. eapply (to_receive _ (jobs s)); cbn; try done.
    by rewrite <- app_assoc.
  - unfold potential, budget. cbn. rewrite !weight_app, !weight_one. cbn. lia.
Qed.

(** *** The callbacks *)

Definition ready s : Prop := counters s ∧ endpoints_ s ≠ [] ∧ idle s.

Lemma ready_set_attempts s c a :
  ready s → c = 0 ∨ c = connect_attempts_ s → a = 0 ∨ a = announce_attempts_ s →
  ready (set_attempts s c a) ∧ potential (set_attempts s c a) ≤ potential s.
Proof. intros (Hs & He & Hi) Hc Ha. destruct (set_attempts_ok s c a Hs Hc Ha). by split_and!. Qed.

(** Give up attempts, then go on. *)
Lemma goes_on_attempts m fc fa d s :
  ready s → fc s = 0 ∨ fc s = connect_attempts_ s → fa s = 0 ∨ fa s = announce_attempts_ s →
  (ready (set_attempts s (fc s) (fa s)) → goes_on m d (set_attempts s (fc s) (fa s))) →
  goes_on (_ ← modify (fun s => set_attempts s (fc s) (fa s)); m) d s.
Proof.
  intros Hr Hc Ha Hm. destruct (ready_set_attempts s (fc s) (fa s) Hr Hc Ha) as [Hr' Hp].
  unfold goes_on. apply wp_bind. unfold wp at 1, modify. eapply wp_mono; [by apply Hm|].
  intros _ s' [Hi Hle]. split; [done|lia].
Qed.

Lemma ready_connect s : ready s → goes_on do_try_connect 0 s.
Proof.
  intros (Hs & He & Hi). eapply goes_on_weaken; [by apply try_connect_ok|]. pose proof (ctr_announce s Hs). lia.
Qed.

Lemma on_sent_ok k n dur s :
  good_tracker t → ready s → phase_ok s k → goes_on (on_sent k n dur) 6 s.
Proof.
  intros Ht Hr Hk. pose proof Hr as (Hs & He & Hi). destruct k; cbn [on_sent].
  - destruct (n <? 16); [|by apply receive_ok].
    apply (goes_on_attempts _ (fun _ => 0) announce_attempts_); [done|by left|by right|]. intros (? & ? & ?).
    by eapply goes_on_weaken; [apply try_connect_delay_ok|].
  - destruct (negb _); [|by apply receive_ok].
    apply (goes_on_attempts _ (fun _ => 0) (fun _ => 0)); [done|by left|by left|]. intros (? & ? & ?).
    by eapply goes_on_weaken; [apply try_announce_delay_ok; [..|by apply Hk| |]|].
Qed.

Lemma on_send_failed_ok k s :
  good_tracker t → ready s → phase_ok s k → goes_on (on_send_failed k) 0 s.
Proof.
  intros Ht Hr Hk. pose proof Hr as (Hs & He & Hi). destruct k; cbn [on_send_failed].
  - apply (goes_on_attempts _ (fun _ => 0) announce_attempts_); [done|by left|by right|]. apply ready_connect.
  - by apply try_announce_ok; [..|apply Hk| |].
Qed.

Lemma on_connect_response_ok data dur s :
  good_tracker t → ready s → goes_on (on_connect_response data dur) 2 s.
Proof.
  intros Ht Hr. pose proof Hr as (Hs & He & Hi). unfold on_connect_response.
  destruct (Nat.ltb_spec (length data) 16) as [Hl|Hl]; [by apply try_connect_delay_ok|].
  unfold goes_on, wp. st_run. unfold rm_make.
  erewrite st_bind_Ok by (unfold lift; rewrite get_value_at by lia; reflexivity). cbv beta iota.
  erewrite st_bind_Ok by (unfold lift, rm_set_pos; rewrite get_value_at by (cbn; lia); reflexivity). cbv beta iota.
  destruct (_ && _) eqn:E; [|by apply try_connect_delay_ok].
  apply andb_true_iff in E as [E%Z.eqb_eq _].
  erewrite st_bind_Ok by (unfold lift, rm_set_pos; rewrite get_value_at by (cbn; lia); reflexivity). cbv beta iota.
  st_run. rewrite E, (ctr_tid s Hs).
  set (s1 := set_response _ _ _).
  assert (counters s1) as Hs1 by (destruct Hs; by split).
  change (goes_on do_try_announce 2 s1).
  by eapply goes_on_weaken; [apply try_announce_ok|].
Qed.

(** The right answer to the connect request. *)
Lemma on_connect_response_right s cid dur :
  counters s → length cid = 8%nat →
  on_connect_response (be_split 4 0 ++ be_split 4 tid ++ cid) dur s =
    do_try_announce (set_response s (NativeToBig 4 tid) (NativeToBig 8 (be_combine cid))).
Proof.
  intros Hs Hc. destruct (datagram_head 0 tid cid) as (E0 & E1 & E2).
  set (data := be_split 4 0 ++ be_split 4 tid ++ cid) in *.
  assert (length data = 16%nat) as Hl by (unfold data; rewrite !length_app, !length_be_split; lia).
  unfold on_connect_response. destruct (Nat.ltb_spec (length data) 16) as [?|_]; [lia|].
  erewrite st_bind_Ok by reflexivity. cbv beta. unfold rm_make.
  erewrite st_bind_Ok by (unfold lift; rewrite get_value_at by lia; reflexivity). cbv beta iota.
  erewrite st_bind_Ok by (unfold lift, rm_set_pos; rewrite get_value_at by (cbn; lia); reflexivity). cbv beta iota.
  cbn [rm_inp_pos rm_set_pos rm_arr rm_order]. change (0 + 4)%nat with 4%nat. rewrite E0, E1, !be_combine_small by (cbn; lia).
  rewrite (ctr_tid s Hs), Z.eqb_refl. cbn [andb Z.eqb].
  erewrite st_bind_Ok by (unfold lift, rm_set_pos; rewrite get_value_at by (cbn; lia); reflexivity). cbv beta iota.
  cbn [rm_inp_pos rm_set_pos rm_arr]. change (4 + 4)%nat with 8%nat. rewrite E2, take_ge by lia.
  by erewrite st_bind_Ok by reflexivity.
Qed.

(** An announce request while there are attempts left. *)
Lemma try_announce_send s :
  good_tracker t → counters s → announcing s → announce_attempts_ s ≠ 0 →
  ∃ s', do_try_announce s = Ok (tt, s') ∧
    jobs s' = jobs s ++ [JSend (announce_datagram t q (repr 8 (c_resp_connection_id s)) tid) PAnnounce].
Proof.
  intros Ht Hs Ha Hne. eexists. unfold do_try_announce. erewrite st_bind_Ok by reflexivity. cbv beta.
  destruct (Z.eqb_spec (announce_attempts_ s) 0) as [?|_]; [done|]. st_run. split; [reflexivity|].
  cbn [jobs set_jobs set_request set_attempts]. do 3 f_equal. rewrite Ha.
  destruct (template_poke t q (announce_req_ s) (ValueToArray 8 (c_resp_connection_id s))
                (ValueToArray 4 (NativeToBig 4 tid)) Ht (ctr_template s Hs)) as [_ Hmsg]; [apply length_repr..|].
  cbv zeta in Hmsg. rewrite Hmsg. unfold announce_datagram. by rewrite NativeToBig_bytes.
Qed.

Lemma SetResponse_ok fresh data s :
  ready s → (20 ≤ length data)%nat → cut (drop 20 data) = false ∨ is_set s = true →
  wp false (SetResponse fresh (data ++ [x00])) (fun _ s' => done s' ∧ potential s' ≤ potential s) s.
Proof.
  intros (Hs & He & Hi) Hl Hc. pose proof (ctr_open s Hs) as (Hset & Hp & _).
  unfold wp, SetResponse. st_run. destruct (is_set s) eqn:Es.
  { split; [|lia]. split_and!; [done|right; by apply Hset|done|apply Hi..]. }
  destruct Hc as [Hc|?]; [|done].
  pose proof (udp_response_any (B:=B) fresh (take 20 data) (drop 20 data) ltac:(rewrite length_take; lia)) as Hr.
  rewrite Hc, app_assoc, take_drop in Hr. destruct Hr as [r Er].
  erewrite st_bind_Ok by (unfold lift; rewrite Er; reflexivity). cbv beta.
  destruct (peers r); [apply SetException_ok; [by rewrite Es|done..]|by apply fulfilled].
Qed.

(** The words of an answer to an announce request, and what it may do: be read
    past its end as a list of peers, or as an error message. *)
Definition answer_action (data : bytes) : Z := be_combine (take 4 data).
Definition answer_own (data : bytes) : bool := be_combine (take 4 (drop 4 data)) =? tid.

Definition bad_answer s (data : bytes) : bool :=
  (8 <=? length data)%nat && answer_own data &&
  (((20 <=? length data)%nat && (answer_action data =? 1) && negb (is_set s) && cut (drop 20 data)) ||
   ((answer_action data =? 3) && negb (bool_decide (x00 ∈ drop 8 data)))).

Lemma c_string_cases l : if bool_decide (x00 ∈ l) then is_Ok (c_string l) else c_string l = UB.
Proof.
  induction l as [|b l IH]; cbn [c_string]; [done|].
  destruct (decide (b = x00)) as [->|Hb]; [rewrite bool_decide_true by (by left); by eexists|].
  rewrite (bool_decide_ext _ (x00 ∈ l)) by (rewrite elem_of_cons; naive_solver).
  destruct (bool_decide (x00 ∈ l)); [destruct IH as [r ->]; by eexists|by rewrite IH].
Qed.

(** The answer read: what becomes of it. *)
Lemma on_announce_response_eq fresh data dur s :
  announcing s → (8 ≤ length data)%nat →
  on_announce_response fresh data dur s =
    if (20 <=? length data)%nat && answer_own data && (answer_action data =? 1) then
      SetResponse fresh (data ++ [x00]) s
    else if answer_own data && (answer_action data =? 3) then
      (_ ← lift (c_string (drop 8 data)); do_try_announce_delay dur) s
    else do_try_announce_delay dur s.
Proof.
  intros Ha Hl. unfold on_announce_response. destruct (Nat.ltb_spec (length data) 8) as [?|_]; [lia|].
  st_run. unfold rm_make.
  erewrite st_bind_Ok by (unfold lift; rewrite get_value_at by lia; reflexivity). cbv beta iota.
  erewrite st_bind_Ok by (unfold lift, rm_set_pos; rewrite get_value_at by (cbn; lia); reflexivity). cbv beta iota.
  cbn [rm_inp_pos rm_set_pos rm_arr rm_order]. change (0 + 4)%nat with 4%nat.
  rewrite Ha, BigToNative_NativeToBig by (cbn; lia). rewrite drop_0. fold (answer_own data) (answer_action data).
  destruct (Nat.ltb_spec 0 (length data)) as [_|?]; [|lia]. cbn [andb].
  cbn [CopyFrom_message CopyFrom rm_arr]. rewrite put_value_bytes. cbn [MakeReading rm_make rm_arr sm_data CopyFrom sm_order].
  change (field_bytes _ 1 0) with [x00]. by repeat case_match.
Qed.

Lemma on_announce_response_ok fresh data dur s :
  good_tracker t → ready s → announcing s → bad_answer s data = false →
  goes_on (on_announce_response fresh data dur) 2 s.
Proof.
  intros Ht Hr Ha Hb. pose proof Hr as (Hs & He & Hi). unfold goes_on, wp.
  destruct (decide (8 ≤ length data)%nat) as [Hl|Hl].
  2:{ unfold on_announce_response. destruct (Nat.ltb_spec (length data) 8) as [_|?]; [|lia]. by apply try_announce_delay_ok. }
  rewrite on_announce_response_eq by done. unfold bad_answer in Hb.
  destruct (Nat.leb_spec 8 (length data)) as [_|?]; [|lia]. cbn [andb] in Hb.
  destruct (answer_own data); cbn [andb] in *; rewrite ?andb_false_r, ?andb_true_r in *; [|by apply try_announce_delay_ok].
  destruct (_ && (answer_action data =? 1)) eqn:E; cbn [andb orb] in Hb.
  - apply andb_true_iff in E as [E%Nat.leb_le _].
    eapply (wp_mono false (SetResponse fresh (data ++ [x00]))); [apply SetResponse_ok; [done|done|]|].
    { destruct (is_set s); [by right|left]. cbn [negb andb] in Hb. by apply orb_false_iff in Hb as [Hb _]. }
    intros _ s' [Hd Hp]. split; [by apply live_done|lia].
  - destruct (answer_action data =? 3); [|by apply try_announce_delay_ok]. cbn [andb] in Hb.
    apply negb_false_iff in Hb. pose proof (c_string_cases (drop 8 data)) as Hc.
    rewrite Hb in Hc. destruct Hc as [msg Hc].
    erewrite st_bind_Ok by (unfold lift; rewrite Hc; reflexivity). by apply try_announce_delay_ok.
Qed.

Lemma on_announce_response_bad fresh data dur s :
  announcing s → bad_answer s data = true → on_announce_response fresh data dur s = UB.
Proof.
  intros Ha Hb. unfold bad_answer in Hb. apply andb_true_iff in Hb as [[Hl%Nat.leb_le Ho]%andb_true_iff Hb].
  rewrite on_announce_response_eq, Ho by done. rewrite andb_true_r. cbn [andb].
  apply orb_true_iff in Hb as [[[[Hl2%Nat.leb_le H1]%andb_true_iff Hset%negb_true_iff]%andb_true_iff Hc]%andb_true_iff
    |[H3 Hx%negb_true_iff]%andb_true_iff].
  - rewrite (proj2 (Nat.leb_le _ _) Hl2), H1. cbn [andb]. unfold SetResponse. st_run. rewrite Hset.
    pose proof (udp_response_any (B:=B) fresh (take 20 data) (drop 20 data) ltac:(rewrite length_take; lia)) as Hr.
    rewrite Hc, app_assoc, take_drop in Hr. unfold mbind, ST_bind, lift. by rewrite Hr.
  - apply Z.eqb_eq in H3. rewrite H3, andb_false_r. cbn [Z.eqb Pos.eqb].
    pose proof (c_string_cases (drop 8 data)) as Hs. rewrite Hx in Hs.
    unfold mbind, ST_bind, lift. by rewrite Hs.
Qed.

(** *** Events *)

(** The datagrams the requester cannot cope with: an answer to its announce
    request whose list of peers ends within a peer, and an error message
    without a terminator. *)
Definition bad_reply s (e : event) : bool :=
  match e, pending_receives s with
  | EvReceived data _ _, (max_size, PAnnounce) :: _ => (length data <=? max_size)%nat && bad_answer s data
  | _, _ => false
  end.

(** A computation that ends in a live state with strictly less to do than [s]. *)
Definition decreases s (m : outcome (unit * udpRequester B)) : Prop :=
  ∃ s', m = Ok (tt, s') ∧ live s' ∧ potential s' < potential s.

Lemma goes_on_decreases m d s0 s :
  goes_on m d s0 → potential s0 + d < potential s → decreases s (m s0).
Proof.
  intros Hm Hp. apply wp_Ok in Hm as ([] & s' & E & Hl & Hle). exists s'. split_and!; [done|done|lia].
Qed.

Lemma head_await l (x : list Job) j js :
  awaits l → l ++ x = j :: js →
  (j = JAwait TNothing ∧ ∃ l', awaits l' ∧ js = l' ++ x) ∨ x = j :: js.
Proof.
  intros Hl E. destruct Hl as [|j' l -> Hl]; [by right|]. injection E as <- <-. left. eauto.
Qed.

Lemma awaits_inv j js : awaits (j :: js) → j = JAwait TNothing ∧ awaits js.
Proof. intros Hl. by apply list.Forall_cons in Hl. Qed.

(** The timer a finished operation leaves behind is set again. *)
Definition await_run s js : udpRequester B := set_timeout (set_jobs s js) (Some TNothing).

Lemma await_run_potential s js :
  jobs s = JAwait TNothing :: js → potential (await_run s js) < potential s.
Proof.
  intros E. unfold potential, budget. cbn. rewrite E. change (weight (?j :: js)) with (job_weight j + weight js).
  cbn. destruct (timeout_ s); lia.
Qed.

Lemma await_run_live s js : live s → jobs s = JAwait TNothing :: js → live (await_run s js).
Proof.
  intros [(Hset & Hp & Hj & Hn & Hq)|Hs He Hu] E.
  - rewrite E in Hj. apply awaits_inv in Hj as [_ Hj]. apply live_done. split_and!; [done|done|].
    split_and!; [done|done|by right].
  - apply live_busy; [by destruct Hs; split|done|].
    destruct Hu as [l msg k Ej Hl Hn Hq Hd|msg ep k Ep Hl Hr Hv Hq Hd|l n k Ej Hl Hn Hq Hk|n k Ep Hl Hr Hv Hq Hk
      |l k Ej Hl Hn Hq Hk|k Et Ej Hn Hk]; rewrite E in *.
    + destruct (head_await l _ _ _ Hl (eq_sym Ej)) as [(_ & l' & Hl' & ->)|[=]].
      eapply (to_send _ l'); try done. by right.
    + apply awaits_inv in Hl as [_ Hl]. eapply sending; try done. by right.
    + destruct (head_await l _ _ _ Hl (eq_sym Ej)) as [(_ & l' & Hl' & ->)|[=]].
      eapply (to_receive _ l'); try done. by right.
    + apply awaits_inv in Hl as [_ Hl]. eapply receiving; try done. by right.
    + destruct (head_await l _ _ _ Hl (eq_sym Ej)) as [(_ & l' & Hl' & ->)|[= -> <-]]; [|by destruct Hk].
      eapply (to_wait _ l'); try done. by right.
    + discriminate Ej.
Qed.

Lemma endpoint_ok s : endpoints_ s ≠ [] → ∃ ep, endpoint s = Ok (ep, s).
Proof. intros He. unfold endpoint. destruct (endpoints_ s) as [|ep eps] eqn:E; [done|]. exists ep. by st_run; rewrite E. Qed.

Lemma run_live s j js :
  live s → jobs s = j :: js → decreases s ((_ ← modify (fun s => set_jobs s js); run_job j) s).
Proof.
  intros Hlive E. st_run. destruct (decide (j = JAwait TNothing)) as [->|Hj].
  { exists (await_run s js). split_and!; [done|by apply await_run_live|by apply await_run_potential]. }
  destruct Hlive as [(Hset & Hp & Hjs & Hn & Hq)|Hs He Hu].
  { rewrite E in Hjs. by apply awaits_inv in Hjs as [? _]. }
  destruct Hu as [l msg k Ej Hl Hn Hq Hd|msg ep k Ep Hl Hr Hv Hq Hd|l n k Ej Hl Hn Hq Hk|n k Ep Hl Hr Hv Hq Hk
      |l k Ej Hl Hn Hq Hk|k Et Ej Hn Hk]; rewrite E in *.
  all: try (by apply awaits_inv in Hl as [? _]).
  all: try discriminate Ej.
  all: destruct (head_await l _ _ _ Hl (eq_sym Ej)) as [[? _]|Ex]; [done|]; injection Ex as <- <-.
  - destruct (endpoint_ok (set_jobs s []) He) as [ep Eep]. cbn [run_job]. erewrite st_bind_Ok by exact Eep. cbv beta.
    destruct Hn as (Hr & Hss & Hv). eexists. split_and!; [reflexivity|..].
    + apply live_busy; [by destruct Hs; split|done|]. eapply (sending _ msg ep k); cbn; try done; [by rewrite Hss|by constructor].
    + unfold potential, budget. cbn. rewrite E, Hss. unfold weight. cbn. lia.
  - destruct (endpoint_ok (set_jobs s [JAwait TNothing]) He) as [ep Eep]. cbn [run_job].
    erewrite st_bind_Ok by exact Eep. cbv beta.
    destruct Hn as (Hr & Hss & Hv). eexists. split_and!; [reflexivity|..].
    + apply live_busy; [by destruct Hs; split|done|]. eapply (receiving _ n k); cbn; try done; [by rewrite Hv|].
      by constructor.
    + unfold potential, budget. cbn. rewrite E, Hv. unfold weight. cbn. lia.
  - eexists. split_and!; [reflexivity|..].
    + apply live_busy; [by destruct Hs; split|done|]. by eapply (waiting _ k).
    + unfold potential, budget. cbn. rewrite E. unfold weight. cbn. destruct (timeout_ s); lia.
Qed.

(** An operation has completed: nothing is pending any more. *)
Lemma sending_inv s msg ep k ss :
  live s → pending_sends s = (msg, ep, k) :: ss →
  ss = [] ∧ counters s ∧ endpoints_ s ≠ [] ∧ datagram_ok s msg k ∧ awaits (jobs s) ∧ resolving s = 0%nat ∧
  pending_receives s = [] ∧ quiet_timer (timeout_ s).
Proof.
  intros [(_ & _ & _ & (_ & E & _) & _)|Hs He Hu] Ep; [congruence|].
  destruct Hu as [? ? ? _ _ (_ & E & _) _ _|? ? ? E ? ? ? ? ?|? ? ? _ _ (_ & E & _) _ _|? ? _ _ _ E _ _|
    ? ? _ _ (_ & E & _) _ _|? _ _ (_ & E & _) _]; rewrite Ep in E; try discriminate E.
  injection E as <- <- <- ->. by split_and!.
Qed.

Lemma receiving_inv s n k vs :
  live s → pending_receives s = (n, k) :: vs →
  vs = [] ∧ counters s ∧ endpoints_ s ≠ [] ∧ phase_ok s k ∧ awaits (jobs s) ∧ resolving s = 0%nat ∧
  pending_sends s = [] ∧ quiet_timer (timeout_ s).
Proof.
  intros [(_ & _ & _ & (_ & _ & E) & _)|Hs He Hu] Ep; [congruence|].
  destruct Hu as [? ? ? _ _ (_ & _ & E) _ _|? ? ? _ _ _ E _ _|? ? ? _ _ (_ & _ & E) _ _|? ? E ? ? ? ? ?|
    ? ? _ _ (_ & _ & E) _ _|? _ _ (_ & _ & E) _]; rewrite Ep in E; try discriminate E.
  injection E as <- <- ->. by split_and!.
Qed.

Definition sent_state s : udpRequester B := set_pending s (resolving s) [] (pending_receives s).
Definition received_state s : udpRequester B := set_timeout (set_pending s (resolving s) (pending_sends s) []) None.

Lemma sent_state_ready s msg ep k ss :
  live s → pending_sends s = (msg, ep, k) :: ss →
  ss = [] ∧ ready (sent_state s) ∧ phase_ok (sent_state s) k ∧ potential (sent_state s) = potential s - 9.
Proof.
  intros Hl Ep. destruct (sending_inv s msg ep k ss Hl Ep) as (-> & Hs & He & Hd & Hj & Hr & Hv & Hq).
  split_and!; [done|..].
  - split_and!; [by destruct Hs; split|done|]. by split_and!.
  - intros ->. apply Hd.
  - unfold potential, budget. cbn. rewrite Ep. cbn. lia.
Qed.

Lemma received_state_ready s n k vs :
  live s → pending_receives s = (n, k) :: vs →
  vs = [] ∧ ready (received_state s) ∧ phase_ok (received_state s) k ∧
  potential (received_state s) ≤ potential s - 3.
Proof.
  intros Hl Ep. destruct (receiving_inv s n k vs Hl Ep) as (-> & Hs & He & Hd & Hj & Hr & Hv & Hq).
  split_and!; [done|..].
  - split_and!; [by destruct Hs; split|done|]. split_and!; [done|by split_and!|by left].
  - exact Hd.
  - unfold potential, budget. cbn. rewrite Ep. cbn. destruct (timeout_ s); lia.
Qed.

Lemma timeout_live s k :
  good_tracker t → live s → timeout_ s = Some k →
  decreases s ((_ ← stop_await; match k with
     | TNothing => mret tt | TConnect => do_try_connect | TAnnounce => do_try_announce end) s).
Proof.
  intros Ht Hlive Et. unfold stop_await. st_run. set (s1 := set_timeout s None).
  assert (potential s1 = potential s - 1) as Hp by (unfold potential, budget; cbn; rewrite Et; lia).
  destruct (decide (k = TNothing)) as [->|Hk].
  - exists s1. split_and!; [done| |lia]. destruct Hlive as [(Hset & Hpr & Hj & Hn & Hq)|Hs He Hu].
    + apply live_done. split_and!; [done|done|]. split_and!; [done|done|by left].
    + apply live_busy; [by destruct Hs; split|done|].
      destruct Hu as [l msg k Ej Hl Hn Hq Hd|msg ep k Ep Hl Hr Hv Hq Hd|l n k Ej Hl Hn Hq Hk|n k Ep Hl Hr Hv Hq Hk
        |l k Ej Hl Hn Hq Hk|k Et' Ej Hn Hk].
      * eapply (to_send _ l); try done. by left.
      * eapply sending; try done. by left.
      * eapply (to_receive _ l); try done. by left.
      * eapply receiving; try done. by left.
      * eapply (to_wait _ l); try done. by left.
      * rewrite Et in Et'. injection Et' as <-. by destruct Hk.
  - assert (ready s1 ∧ then_ok s1 k) as [Hr Hok].
    { destruct Hlive as [(_ & _ & _ & _ & Hq)|Hs He Hu]; [rewrite Et in Hq; by destruct Hq as [|[= ->]]|].
      destruct Hu as [? ? ? _ _ _ Hq _|? ? ? _ _ _ _ Hq _|? ? ? _ _ _ Hq _|? ? _ _ _ _ Hq _|? ? _ _ _ Hq _|k' Et' Ej Hn Hk'].
      1-5: rewrite Et in Hq; by destruct Hq as [|[= ->]].
      rewrite Et in Et'. injection Et' as <-. split; [|done].
      split_and!; [by destruct Hs; split|done|]. split_and!; [change (awaits (jobs s)); rewrite Ej; by constructor|done|by left]. }
    destruct k; [done|..].
    + eapply goes_on_decreases; [by apply ready_connect|lia].
    + destruct Hr as (? & ? & ?). eapply goes_on_decreases; [apply try_announce_ok; try done; by apply Hok|lia].
Qed.

(** Every event of a live requester. *)
Lemma live_step s e m :
  good_tracker t → live s → bad_reply s e = false → handle_event e s = Some m → decreases s m.
Proof.
  intros Ht Hl Hw E. destruct e as [|eps|msg|n dur| |data dur fresh| | |]; cbn [handle_event] in E.
  - destruct (jobs s) as [|j js] eqn:Ej; [done|]. injection E as <-. by apply run_live.
  - assert (resolving s = 0%nat) as Hr.
    { destruct Hl as [(_ & _ & _ & (Hr & _) & _)|_ _ Hu]; [done|]. by destruct Hu as [? ? ? _ _ [] _ _|
        |? ? ? _ _ [] _ _| |? ? _ _ [] _ _|? _ _ [] _]. }
    by rewrite Hr in E.
  - assert (resolving s = 0%nat) as Hr.
    { destruct Hl as [(_ & _ & _ & (Hr & _) & _)|_ _ Hu]; [done|]. by destruct Hu as [? ? ? _ _ [] _ _|
        |? ? ? _ _ [] _ _| |? ? _ _ [] _ _|? _ _ [] _]. }
    by rewrite Hr in E.
  - destruct (pending_sends s) as [|[[msg ep] k] ss] eqn:Ep; [done|]. injection E as <-.
    destruct (sent_state_ready s msg ep k ss Hl Ep) as (-> & Hr & Hk & Hp). st_run.
    eapply goes_on_decreases; [by apply on_sent_ok|]. fold (sent_state s). lia.
  - destruct (pending_sends s) as [|[[msg ep] k] ss] eqn:Ep; [done|]. injection E as <-.
    destruct (sent_state_ready s msg ep k ss Hl Ep) as (-> & Hr & Hk & Hp). st_run.
    eapply goes_on_decreases; [by apply on_send_failed_ok|]. fold (sent_state s). lia.
  - destruct (pending_receives s) as [|[n k] vs] eqn:Ep; [done|].
    destruct (bool_decide _) eqn:Emax; [|done]. injection E as <-. apply bool_decide_eq_true in Emax.
    unfold bad_reply in Hw. rewrite Ep in Hw.
    destruct (received_state_ready s n k vs Hl Ep) as (-> & Hr & Hk & Hp). unfold stop_await. st_run.
    fold (received_state s). destruct k.
    + eapply goes_on_decreases; [by apply on_connect_response_ok|]. lia.
    + rewrite (proj2 (Nat.leb_le _ _) Emax) in Hw. cbn [andb] in Hw.
      eapply goes_on_decreases; [apply on_announce_response_ok; try done; by apply Hk|]. lia.
  - destruct (pending_receives s) as [|[n k] vs] eqn:Ep; [done|]. injection E as <-.
    destruct (received_state_ready s n k vs Hl Ep) as (-> & Hr & Hk & Hp). unfold stop_await. st_run.
    fold (received_state s). destruct k.
    + eapply goes_on_decreases; [by apply ready_connect|]. lia.
    + destruct Hr as (? & ? & ?). eapply goes_on_decreases; [apply try_announce_ok; try done; by apply Hk|]. lia.
  - destruct (timeout_ s) as [k|] eqn:Et; [|done]. injection E as <-. by apply timeout_live.
  - destruct (tracker_reconnect_timeout_ s) eqn:Er; [|done]. injection E as <-. unfold modify.
    exists (set_reconnect s true false). split_and!; [done| |unfold potential, budget; cbn; rewrite Er; lia].
    destruct Hl as [|Hs He Hu]; [by apply live_done|]. apply live_busy; [by destruct Hs; split|done|].
    destruct Hu; [by eapply to_send|by eapply sending|by eapply to_receive|by eapply receiving|by eapply to_wait|by eapply waiting].
Qed.

(** A datagram it cannot cope with. *)
Lemma bad_step s e : live s → bad_reply s e = true → handle_event e s = Some UB.
Proof.
  intros Hl Hb. unfold bad_reply in Hb. destruct e as [| | | | |data dur fresh| | |]; try discriminate Hb.
  cbn [handle_event]. destruct (pending_receives s) as [|[n []] vs] eqn:Ep; try discriminate Hb.
  apply andb_true_iff in Hb as [Hn%Nat.leb_le Hb]. rewrite bool_decide_true by done.
  destruct (received_state_ready s n _ vs Hl Ep) as (-> & Hr & Hk & _). unfold stop_await. f_equal. st_run.
  fold (received_state s). apply on_announce_response_bad; [by apply Hk|exact Hb].
Qed.

(** *** Before the addresses are known *)

Definition bounded (e : event) : Prop :=
  match e with EvResolved eps => (length eps ≤ nmax)%nat | _ => True end.

(** A step of either kind: the result is in the invariant, with less to do. *)
Definition proceeds s (m : outcome (unit * udpRequester B)) : Prop :=
  ∃ s', m = Ok (tt, s') ∧ inv s' ∧ potential s' < potential s.

Lemma decreases_proceeds s m : decreases s m → proceeds s m.
Proof. intros (s' & -> & Hl & Hp). exists s'. split_and!; [done|by apply inv_live|done]. Qed.

(** Still unresolved. *)
Lemma proceeds_unresolved s s' :
  counters s' → endpoints_ s' = [] → socket_open s' = false → unresolved s' → potential s' < potential s →
  proceeds s (Ok (tt, s')).
Proof. intros Hs' He' Ho Hu Hp. exists s'. split_and!; [done|by apply inv_unresolved|done]. Qed.

Lemma unresolved_pending s : unresolved s → pending_sends s = [] ∧ pending_receives s = [] ∧ quiet_timer (timeout_ s).
Proof. by intros [_ (_ & ? & ?) ?|_ _ ? ? ?]. Qed.

Lemma unresolved_run s j js :
  counters s → endpoints_ s = [] → socket_open s = false → unresolved s → jobs s = j :: js →
  proceeds s ((_ ← modify (fun s => set_jobs s js); run_job j) s).
Proof.
  intros Hs He Ho Hu Ej. st_run. destruct Hu as [E (Hr & Hss & Hv) Hq|Hr Hj Hss Hv Hq]; rewrite Ej in *.
  - injection E as -> ->. cbn [run_job]. apply proceeds_unresolved; try done; [by destruct Hs; split|..].
    + apply being_resolved; cbn; try done; [by rewrite Hr|by constructor].
    + unfold potential, budget. cbn. rewrite He, Ej, Hr. unfold weight. cbn. lia.
  - apply awaits_inv in Hj as [-> Hj]. cbn [run_job]. fold (await_run s js).
    apply proceeds_unresolved; try done; [by destruct Hs; split|..].
    + apply being_resolved; try done. by right.
    + by apply await_run_potential.
Qed.

Lemma unresolved_quiet s :
  counters s → endpoints_ s = [] → socket_open s = false → unresolved s → timeout_ s ≠ None → proceeds s (stop_await s).
Proof.
  intros Hs He Ho Hu Ht. apply proceeds_unresolved; try done; [by destruct Hs; split|..].
  - destruct Hu; [apply to_resolve|apply being_resolved]; try done; by left.
  - unfold potential, budget. cbn. destruct (timeout_ s); [lia|done].
Qed.

Definition resolved_state s eps : udpRequester B :=
  set_open (set_timeout
    (set_endpoints (set_pending s 0 (pending_sends s) (pending_receives s)) eps (is_endpoints_dried s)) None).

Lemma unresolved_resolved s eps :
  counters s → endpoints_ s = [] → unresolved s → resolving s = 1%nat → eps ≠ [] → (length eps ≤ nmax)%nat →
  proceeds s (do_try_connect (resolved_state s eps)).
Proof.
  intros Hs He Hu Hr Hne Hn. set (s1 := resolved_state s eps).
  assert (ready s1) as Hr1.
  { split_and!; [by destruct Hs; split|done|]. destruct Hu as [_ [Hr0 _] _|_ Hj Hss Hv _]; [congruence|].
    split_and!; [done|by split_and!|by left]. }
  assert (potential s1 < potential s) as Hp.
  { destruct Hs as [Hc Ha _ _ _]. unfold MAX_CONNECT_ATTEMPTS, MAX_ANNOUNCE_ATTEMPTS in *.
    unfold potential, budget. cbn. rewrite He, Hr. unfold resolve_cost. destruct eps as [|ep eps]; [done|]. cbn in Hn.
    destruct (timeout_ s); lia. }
  pose proof (ready_connect s1 Hr1) as Hgo. apply wp_Ok in Hgo as ([] & s' & E & Hl & Hle).
  exists s'. split_and!; [done|by apply inv_live|]. lia.
Qed.

Lemma unresolved_failed s msg :
  counters s → unresolved s → resolving s = 1%nat →
  proceeds s (SetException msg (set_pending s 0 (pending_sends s) (pending_receives s))).
Proof.
  intros Hs Hu Hr. set (s1 := set_pending _ _ _ _). pose proof (ctr_open s Hs) as (Hset & Hp & _).
  assert (wp false (SetException msg) (fun _ s' => done s' ∧ potential s' ≤ potential s1) s1) as Hw.
  { apply SetException_ok; [done|done|]. destruct Hu as [_ [Hr0 _] _|_ Hj Hss Hv Hq]; [congruence|].
    by split_and!. }
  apply wp_Ok in Hw as ([] & s' & E & Hd & Hle). exists s'.
  split_and!; [done|by apply inv_live, live_done|].
  assert (potential s1 < potential s) by (unfold potential, budget; cbn; rewrite Hr; unfold resolve_cost; lia). lia.
Qed.

(** Every event of a requester in the invariant. *)
Lemma inv_step s e m :
  good_tracker t → inv s → bad_reply s e = false → bounded e → handle_event e s = Some m → proceeds s m.
Proof.
  intros Ht [Hs He Ho Hu|Hl] Hw Hb E; [|by eapply decreases_proceeds, live_step].
  destruct (unresolved_pending s Hu) as (Hss & Hv & Hq).
  assert (resolving s ≤ 1)%nat as Hr1 by (destruct Hu as [_ [-> _] _| -> _ _ _ _]; lia).
  destruct e as [|eps|msg|k dur| |data dur fresh| | |]; cbn [handle_event] in E;
    rewrite ?Hss, ?Hv in E; try done.
  - destruct (jobs s) as [|j js] eqn:Ej; [done|]. injection E as <-. by apply unresolved_run.
  - destruct (resolving s) as [|[]] eqn:Er, eps as [|ep eps]; try done; [|lia]. injection E as <-.
    unfold stop_await. st_run. unfold open_socket. erewrite st_bind_Ok by (cbn; rewrite Ho; reflexivity). cbv beta.
    change (proceeds s (do_try_connect (resolved_state s (ep :: eps)))). by apply unresolved_resolved.
  - destruct (resolving s) as [|[]] eqn:Er; try done; [|lia]. injection E as <-. st_run.
    by apply unresolved_failed.
  - destruct (timeout_ s) as [k|] eqn:Et; [|done]. destruct Hq as [|[= ->]]; [done|]. injection E as <-.
    change (proceeds s (stop_await s)). apply unresolved_quiet; congruence.
  - destruct (tracker_reconnect_timeout_ s) eqn:Er; [|done]. injection E as <-.
    apply proceeds_unresolved; try done; [by destruct Hs; split|..].
    + destruct Hu; [by apply to_resolve|by apply being_resolved].
    + unfold potential, budget. cbn. rewrite Er. lia.
Qed.

(** A [Stop] takes away a timer that was waited for, and nothing else. *)
Lemma inv_stop s : st → inv s → inv (set_done s) ∧ potential (set_done s) ≤ potential s.
Proof.
  intros Hst Hi. split; [|unfold potential, budget; cbn; destruct (timeout_ s); lia].
  destruct Hi as [Hs He Ho Hu|[(Hset & Hp & Hj & Hn & Hq)|Hs He Hu]].
  - apply inv_unresolved; [by destruct Hs as [? ? (_ & ? & ?) ? ?]; split|done|done|].
    destruct Hu; [apply to_resolve|apply being_resolved]; try done; by left.
  - apply inv_live, live_done. split_and!; [done|by right|]. split_and!; [done|done|by left].
  - assert (counters (set_done s)) as Hs' by (destruct Hs as [? ? (_ & ? & ?) ? ?]; by split).
    apply inv_live. destruct Hu as [l msg k Ej Hl Hn Hq Hd|msg ep k Ep Hl Hr Hv Hq Hd|l n k Ej Hl Hn Hq Hk|n k Ep Hl Hr Hv Hq Hk
      |l k Ej Hl Hn Hq Hk|k Et Ej Hn Hk].
    6: { apply live_done. split_and!; [done|by right|]. split_and!; [cbn; rewrite Ej; constructor|done|by left]. }
    all: apply live_busy; [done|done|].
    + eapply (to_send _ l); try done. by left.
    + eapply sending; try done. by left.
    + eapply (to_receive _ l); try done. by left.
    + eapply receiving; try done. by left.
    + eapply (to_wait _ l); try done. by left.
Qed.

(** As long as there is no answer something can happen. *)
Lemma inv_progress s : inv s → promise_of_resp s = None → st ∨ ∃ e, is_Some (handle_event e s).
Proof.
  intros [Hs He _ [Ej _ _|Hr _ _ _ _]|[(_ & [[x Hp]|Hst] & _)|Hs He Hu]] Hnone; try (right; fail).
  all: try (by left). all: try right.
  - exists EvRun. cbn. rewrite Ej. by eexists.
  - exists (EvResolveFailed ""). cbn. rewrite Hr. by eexists.
  - congruence.
  - destruct Hu as [l msg k Ej _ _ _ _|msg ep k Ep _ _ _ _ _|l n k Ej _ _ _ _|n k Ep _ _ _ _ _|l k Ej _ _ _ _|k Et _ _ _].
    + exists EvRun. cbn. rewrite Ej. destruct l; by eexists.
    + exists EvSendFailed. cbn. rewrite Ep. by eexists.
    + exists EvRun. cbn. rewrite Ej. destruct l; by eexists.
    + exists EvReceiveFailed. cbn. rewrite Ep. by eexists.
    + exists EvRun. cbn. rewrite Ej. destruct l; by eexists.
    + exists EvTimeout. cbn. rewrite Et. by eexists.
Qed.

(** The state [Connect] leaves. *)
Lemma Connect_inv s r s0 :
  good_tracker t → plain_query q → u32 r = tid → s = new_requester →
  Connect t q r s = Ok (tt, s0) → inv s0 ∧ potential s0 = 160 * Z.of_nat nmax + 35.
Proof.
  intros Ht Hq Hr -> E. unfold Connect in E. erewrite st_bind_Ok in E by reflexivity. cbv beta in E.
  change (negb (can_reconnect_ new_requester)) with false in E. cbv iota in E.
  erewrite st_bind_Ok in E by reflexivity. cbv beta in E. erewrite st_bind_Ok in E by reflexivity. cbv beta in E.
  destruct (make_announce_request_ok t q (replicate 99 x00) Ht Hq ltac:(by rewrite length_replicate)) as (arr & Earr & Htem).
  erewrite st_bind_Ok in E by (unfold lift; cbn [announce_req_ set_request new_requester]; rewrite Earr; reflexivity).
  cbv beta in E. do 3 (erewrite st_bind_Ok in E by reflexivity; cbv beta in E). injection E as <-.
  assert (counters (set_reconnect (set_jobs (set_jobs (set_request new_requester q (u32 r) arr) [JResolve])
    [JResolve; JAwait TNothing]) false true)) as Hc.
  { split; cbn; try done; unfold MAX_CONNECT_ATTEMPTS, MAX_ANNOUNCE_ATTEMPTS; lia. }
  split.
  - apply inv_unresolved; [exact Hc|done|done|]. apply to_resolve; try done. by left.
  - unfold potential, budget, weight. cbn. unfold resolve_cost. lia.
Qed.
End Machine.

(** ** Runs from a request *)

Section Runs.
Context {B : Type} `{DynamicBitset B} `{Host}.
Implicit Types s : udpRequester B.

(** What a [Stop] more allows. *)
Lemma inv_mono t q tid (st st' : Prop) s : (st → st') → inv t q tid st s → inv t q tid st' s.
Proof.
  intros Hst. assert (counters t q tid st s → counters t q tid st' s) as Hc by (intros [? ? (? & ? & ?) ? ?]; split; auto).
  intros [Hs He Ho Hu|[(Hset & Hp & Hi)|Hs He Hu]].
  - apply inv_unresolved; auto.
  - apply inv_live, live_done. split_and!; [done|destruct Hp; auto|exact Hi].
  - apply inv_live, live_busy; auto.
Qed.

(** [run n k m s s']: [k] events and [m] calls of [Stop] lead from [s] to [s'],
    at most [n] addresses being found. *)
Inductive run (n : nat) : nat → nat → udpRequester B → udpRequester B → Prop :=
  | run_refl s : run n 0 0 s s
  | run_event k m s1 s2 e s3 : run n k m s1 s2 → bounded n e →
      handle (AEvent e) s2 = Some (Ok (tt, s3)) → run n (S k) m s1 s3
  | run_stop k m s1 s2 s3 : run n k m s1 s2 → handle AStop s2 = Some (Ok (tt, s3)) → run n k (S m) s1 s3.

Lemma not_bad t q tid st (n : nat) s e s' :
  0 ≤ tid < 2 ^ 32 → inv t q tid st s → handle_event e s = Some (Ok (tt, s')) → bad_reply tid s e = false.
Proof.
  intros Hr Hs E. destruct (bad_reply tid s e) eqn:Eb; [|done]. destruct Hs as [_ _ _ Hu|Hl].
  - apply unresolved_pending in Hu as (_ & Hv & _). unfold bad_reply in Eb. rewrite Hv in Eb. destruct e; discriminate Eb.
  - rewrite (bad_step t q tid st n Hr s e Hl Eb) in E. discriminate E.
Qed.

Lemma run_inv t q tid n k m s s' :
  0 ≤ tid < 2 ^ 32 → good_tracker t → run n k m s s' → inv t q tid False s →
  inv t q tid (0 < m)%nat s' ∧ Z.of_nat k + potential n s' ≤ potential n s.
Proof.
  intros Hr Ht Hrun Hs. induction Hrun as [s|k m s1 s2 e s3 Hrun IH Hb E|k m s1 s2 s3 Hrun IH E].
  - split; [|lia]. by apply (inv_mono t q tid False).
  - destruct (IH Hs) as [Hs2 Hk]. pose proof (not_bad t q tid _ n s2 e s3 Hr Hs2 E) as Hw.
    destruct (inv_step t q tid _ n Hr s2 e _ Ht Hs2 Hw Hb E) as (s3' & [= <-] & Hs3 & Hd). split; [done|lia].
  - destruct (IH Hs) as [Hs2 Hk]. injection E as <-.
    destruct (inv_stop t q tid (0 < S m)%nat n s2) as [Hs3 Hle]; [lia| |split; [exact Hs3|lia]].
    apply (inv_mono t q tid (0 < m)%nat); [lia|done].
Qed.

Lemma potential_nonneg n s : 0 ≤ potential n s.
Proof.
  unfold potential, budget, resolve_cost. pose proof (weight_nonneg n (jobs s)).
  destruct (endpoints_ s), (timeout_ s), (tracker_reconnect_timeout_ s), (resolving s); lia.
Qed.

(** What holds after a request of a new requester and [k] events. *)
Lemma run_from_request t q r n k m s0 s :
  good_tracker t → plain_query q → Connect t q r new_requester = Ok (tt, s0) → run n k m s0 s →
  inv t q (u32 r) (0 < m)%nat s ∧ Z.of_nat k ≤ 160 * Z.of_nat n + 35.
Proof.
  intros Ht Hq E Hrun. destruct (Connect_inv t q (u32 r) False n _ r s0 Ht Hq eq_refl eq_refl E) as [Hi Ht0].
  destruct (run_inv t q (u32 r) n k m s0 s (u32_range r) Ht Hrun Hi) as [Hs Hk]. split; [done|].
  pose proof (potential_nonneg n s). lia.
Qed.

Lemma live_receiving t q tid st s max k vs :
  inv t q tid st s → pending_receives s = (max, k) :: vs → live t q tid st s.
Proof. intros [_ _ _ Hu|Hl] E; [|done]. apply unresolved_pending in Hu as (_ & ? & _). congruence. Qed.

(** When the promise and the flag are set. *)
Lemma inv_promise t q tid st s :
  inv t q tid st s → (is_Some (promise_of_resp s) → is_set s = true) ∧
    (is_set s = true → is_Some (promise_of_resp s) ∨ st).
Proof.
  intros [[_ _ (Hset & -> & _) _ _] _ _ _|[(-> & Hp & _)|[_ _ (Hset & -> & _) _ _] _ _]].
  all: split; auto; by intros [? [=]].
Qed.

(** C17: in every state a UDP request can reach, with [Tracker::Stop] called at
    any time and any number of times, every event and every [Stop] is handled to
    its end: nothing throws, reads outside a buffer, dereferences the end of the
    endpoints, opens the socket again or sets the promise a second time.  The
    exceptions are exactly the datagrams of [bad_reply], whose handling is
    undefined: an answer to the announce request that ends within a peer, and an
    error message without a terminator.  A set promise sets the flag; a set flag
    means that the promise is set or a [Stop] has come first. *)
Theorem udp_requester_safe t q r n k m s0 s a o :
  good_tracker t → plain_query q → Connect t q r new_requester = Ok (tt, s0) → run n k m s0 s →
  match a with AEvent e => bounded n e | AStop => True end → handle a s = Some o →
  if match a with AEvent e => bad_reply (u32 r) s e | AStop => false end then o = UB
  else ∃ s', o = Ok (tt, s') ∧ (is_Some (promise_of_resp s') → is_set s' = true) ∧
    (is_set s' = true → is_Some (promise_of_resp s') ∨ (0 < m)%nat ∨ a = AStop).
Proof.
  intros Ht Hq E Hrun Hb Eo. destruct (run_from_request t q r n k m s0 s Ht Hq E Hrun) as [Hs _].
  destruct a as [e|].
  - destruct (bad_reply (u32 r) s e) eqn:Eb.
    + destruct Hs as [_ _ _ Hu|Hl].
      * apply unresolved_pending in Hu as (_ & Hv & _). unfold bad_reply in Eb. rewrite Hv in Eb. destruct e; discriminate Eb.
      * cbn [handle] in Eo. rewrite (bad_step t q _ _ n (u32_range r) s e Hl Eb) in Eo. by injection Eo.
    + destruct (inv_step t q _ _ n (u32_range r) s e o Ht Hs Eb Hb Eo) as (s' & -> & Hs' & _). exists s'.
      apply inv_promise in Hs' as [H1 H2]. split_and!; [done|done|]. intros Hset. destruct (H2 Hset); auto.
  - injection Eo as <-. exists (set_done s). split_and!; [done|done|by right; right].
Qed.

(** C16: a UDP request is answered: whatever is lost, late or wrong, at most
    [160 n + 35] events happen when [n] addresses are found for the tracker
    (a datagram of [bad_reply], being undefined, ends the run), and when nothing
    can happen any more the promise holds a response or an exception, unless
    [Tracker::Stop] has been called. *)
Theorem udp_terminates t q r n k m s0 s :
  good_tracker t → plain_query q → Connect t q r new_requester = Ok (tt, s0) → run n k m s0 s →
  Z.of_nat k ≤ 160 * Z.of_nat n + 35 ∧
  ((∀ e, handle_event e s = None) → is_Some (promise_of_resp s) ∨ (0 < m)%nat).
Proof.
  intros Ht Hq E Hrun. destruct (run_from_request t q r n k m s0 s Ht Hq E Hrun) as [Hs Hk]. split; [done|].
  intros Hstuck. destruct (promise_of_resp s) eqn:Ep; [left; by eexists|right].
  destruct (inv_progress t q (u32 r) _ s Hs Ep) as [|(e & [x He])]; [done|]. by rewrite Hstuck in He.
Qed.

(** C21: The datagrams of a UDP request are those of the protocol: the connect
    request is the magic constant, action 0 and the transaction id, the
    announce request carries the connection id received, action 1, the same
    transaction id and the fields of the query at their offsets, all in
    network order; and the right answer to the connect request is followed by
    the announce request with the connection id of that answer. *)
Theorem udp_datagrams t q r n k m s0 s :
  good_tracker t → plain_query q → Connect t q r new_requester = Ok (tt, s0) → run n k m s0 s →
  (∀ msg ep p, (msg, ep, p) ∈ pending_sends s →
     match p with
     | PConnect => msg = be_split 8 0x41727101980 ++ be_split 4 0 ++ be_split 4 (u32 r)
     | PAnnounce => ∃ cid, length cid = 8%nat ∧ msg = announce_datagram t q cid (u32 r)
     end) ∧
  (∀ max vs cid dur fresh,
     pending_receives s = (max, PConnect) :: vs → (16 ≤ max)%nat → length cid = 8%nat → announce_attempts_ s ≠ 0 →
     ∃ s', handle_event (EvReceived (be_split 4 0 ++ be_split 4 (u32 r) ++ cid) dur fresh) s = Some (Ok (tt, s')) ∧
           ∃ js, jobs s' = js ++ [JSend (announce_datagram t q cid (u32 r)) PAnnounce]).
Proof.
  intros Ht Hq E Hrun. destruct (run_from_request t q r n k m s0 s Ht Hq E Hrun) as [Hs _]. split.
  - intros msg ep p Hin. destruct Hs as [_ _ _ Hu|Hl].
    { apply unresolved_pending in Hu as (Es & _). rewrite Es in Hin. by apply not_elem_of_nil in Hin. }
    destruct (pending_sends s) as [|[[msg' ep'] p'] ss] eqn:Ep; [by apply not_elem_of_nil in Hin|].
    destruct (sending_inv t q (u32 r) _ s msg' ep' p' ss Hl Ep) as (-> & _ & _ & Hd & _).
    apply list_elem_of_singleton in Hin as [= -> -> ->]. destruct p'; [done|]. destruct Hd as [_ ->].
    eexists. split; [|done]. apply length_repr.
  - intros max vs cid dur fresh Ep Hmax Hcid Hatt. pose proof (live_receiving t q (u32 r) _ s _ _ _ Hs Ep) as Hl.
    destruct (received_state_ready t q (u32 r) _ n s _ _ vs Hl Ep) as (-> & Hr & _ & _).
    set (s1 := set_response (received_state s) (NativeToBig 4 (u32 r)) (NativeToBig 8 (be_combine cid))).
    destruct (try_announce_send t q (u32 r) (0 < m)%nat s1 Ht) as (s' & Es' & Ej); [by destruct Hr as [[] _]; split|done|done|].
    exists s'. cbn [handle_event]. rewrite Ep, bool_decide_true by (rewrite !length_app, !length_be_split; lia).
    unfold stop_await. split.
    + do 2 (erewrite st_bind_Ok by reflexivity; cbv beta). fold (received_state s).
      rewrite (on_connect_response_right t q (u32 r) (0 < m)%nat (u32_range r) _ cid dur (proj1 Hr) Hcid). fold s1. by rewrite Es'.
    + exists (jobs s1). rewrite Ej. do 4 f_equal.
      change (repr 8 (c_resp_connection_id s1)) with (ValueToArray 8 (NativeToBig 8 (be_combine cid))).
      by rewrite NativeToBig_bytes, <- Hcid, be_split_combine.
Qed.

(** *** The answer to an announce request *)

Definition announce_answer (intv : Z) (counts : bytes) (r : Z) (payload : bytes) : bytes :=
  be_split 4 1 ++ be_split 4 r ++ (be_split 4 intv ++ counts ++ payload).

(** What the requester does with the answer it waits for. *)
Lemma announce_answer_received t q r s max vs intv counts payload dur fresh :
  inv t q (u32 r) False s → pending_receives s = (max, PAnnounce) :: vs → length counts = 8%nat →
  (20 + length payload ≤ max)%nat →
  handle_event (EvReceived (announce_answer intv counts (u32 r) payload) dur fresh) s =
    Some (SetResponse fresh (announce_answer intv counts (u32 r) payload ++ [x00]) (received_state s)) ∧
  is_set (received_state s) = false ∧ promise_of_resp (received_state s) = None.
Proof.
  intros Hs Ep Hc Hmax. pose proof (u32_range r) as Hrange. pose proof (live_receiving t q (u32 r) _ s _ _ _ Hs Ep) as Hl.
  destruct (received_state_ready t q (u32 r) False 0 s _ _ vs Hl Ep) as (-> & Hr & Hk & _).
  destruct (ctr_open _ _ _ _ _ (proj1 Hr)) as (Hset & Hp & _).
  split; [|split; [destruct (is_set (received_state s)); [by destruct Hset|done]|done]]. destruct (datagram_head 1 (u32 r) (be_split 4 intv ++ counts ++ payload)) as (E0 & E1 & E2).
  unfold announce_answer. set (data := be_split 4 1 ++ _) in *.
  assert (length data = 20 + length payload)%nat as Hlen
    by (unfold data; rewrite !length_app, !length_be_split; lia).
  cbn [handle_event]. rewrite Ep, bool_decide_true by lia. unfold stop_await. f_equal.
  do 2 (erewrite st_bind_Ok by reflexivity; cbv beta). fold (received_state s).
  rewrite (on_announce_response_eq (u32 r)) by (done || lia || by apply Hk).
  unfold answer_action, answer_own. rewrite drop_0 in E0. rewrite E0, E1, !be_combine_small, Z.eqb_refl by (cbn; lia).
  by destruct (Nat.leb_spec 20 (length data)) as [_|?]; [|lia].
Qed.

Lemma length_header intv counts r :
  length counts = 8%nat → length (be_split 4 1 ++ be_split 4 r ++ be_split 4 intv ++ counts) = 20%nat.
Proof. intros Hc. rewrite !length_app, !length_be_split. lia. Qed.

(** C19: The peers a tracker announces arrive: as long as nobody has stopped the
    request, when the awaited answer carries the addresses and ports of peers in
    network order (no address below 1.0.0.0), the promise holds a response with exactly these peers and the
    interval of the answer. *)
Theorem udp_peers_received t q r n k s0 s max vs intv counts ps dur fresh :
  good_tracker t → plain_query q → Connect t q r new_requester = Ok (tt, s0) → run n k 0 s0 s →
  pending_receives s = (max, PAnnounce) :: vs → (20 + 6 * length ps ≤ max)%nat →
  0 ≤ intv < 2 ^ 32 → length counts = 8%nat → ps ≠ [] → Forall address_ok ps →
  ∃ s' resp,
    handle_event (EvReceived (announce_answer intv counts (u32 r) (concat (map peer_bytes ps))) dur fresh) s
      = Some (Ok (tt, s')) ∧
    promise_of_resp s' = Some (inl resp) ∧ interval resp = intv ∧ map peer_address (peers resp) = ps.
Proof.
  intros Ht Hq E Hrun Ep Hmax Hintv Hc Hne Hps. destruct (run_from_request t q r n k 0 s0 s Ht Hq E Hrun) as [Hs%(inv_mono t q (u32 r) _ False) _]; [|lia].
  destruct (announce_answer_received t q r s max vs intv counts (concat (map peer_bytes ps)) dur fresh Hs Ep Hc)
    as (-> & Hset & Hpr); [rewrite length_peer_bytes; lia|].
  set (hdr := be_split 4 1 ++ be_split 4 (u32 r) ++ be_split 4 intv ++ counts).
  assert (announce_answer intv counts (u32 r) (concat (map peer_bytes ps)) ++ [x00]
          = hdr ++ concat (map peer_bytes ps) ++ x00 :: []) as -> by (unfold announce_answer, hdr; by rewrite <- !app_assoc).
  assert (Forall group_ok (map peer_bytes ps)) as Hg
    by (apply list.Forall_fmap; eapply list.Forall_impl; [done|apply peer_bytes_ok]).
  unfold SetResponse. erewrite st_bind_Ok by reflexivity. cbv beta. rewrite Hset.
  erewrite st_bind_Ok by (unfold lift; rewrite udp_response_groups by (done || by apply length_header); reflexivity).
  cbv beta. set (resp := udp_answer fresh hdr (map peer_bytes ps)).
  assert (map peer_address (peers resp) = ps) as Haddr by (by apply image_addresses).
  destruct (peers resp) as [|i images] eqn:Epeers; [by destruct ps|].
  exists (set_done (set_promise (received_state s) (Some (inl resp)) (future_retrieved (received_state s)))), resp.
  split_and!; [|reflexivity| |by rewrite Epeers].
  - unfold fulfil. f_equal. erewrite st_bind_Ok by (rewrite Hpr; reflexivity). reflexivity.
  - unfold resp, udp_answer, hdr. cbn [interval]. rewrite (app_assoc (be_split 4 1)).
    rewrite drop_app_length' by (by rewrite length_app, !length_be_split).
    rewrite take_app_length' by (by rewrite length_be_split). by apply be_combine_small.
Qed.

(** An answer that ends within a peer is read past its end: the bytes of
    the last group and then the position after the terminator are taken
    without looking at the size of the datagram. *)
Theorem udp_cut_answer_undefined t q r n k s0 s max vs intv counts ps rest dur fresh :
  good_tracker t → plain_query q → Connect t q r new_requester = Ok (tt, s0) → run n k 0 s0 s →
  pending_receives s = (max, PAnnounce) :: vs → (20 + 6 * length ps + length rest ≤ max)%nat →
  length counts = 8%nat → Forall address_ok ps → (0 < length rest < 6)%nat → head rest ≠ Some x00 →
  handle_event (EvReceived (announce_answer intv counts (u32 r) (concat (map peer_bytes ps) ++ rest)) dur fresh) s
    = Some UB.
Proof.
  intros Ht Hq E Hrun Ep Hmax Hc Hps Hrest Hhead. destruct (run_from_request t q r n k 0 s0 s Ht Hq E Hrun) as [Hs%(inv_mono t q (u32 r) _ False) _]; [|lia].
  destruct (announce_answer_received t q r s max vs intv counts (concat (map peer_bytes ps) ++ rest) dur fresh Hs Ep Hc)
    as (-> & Hset & _); [rewrite length_app, length_peer_bytes; lia|].
  pose proof (length_header intv counts (u32 r) Hc) as Hl.
  set (hdr := be_split 4 1 ++ be_split 4 (u32 r) ++ be_split 4 intv ++ counts) in *.
  assert (announce_answer intv counts (u32 r) (concat (map peer_bytes ps) ++ rest) ++ [x00]
          = hdr ++ concat (map peer_bytes ps) ++ rest ++ [x00]) as -> by (unfold announce_answer, hdr; by rewrite <- !app_assoc).
  assert (Forall group_ok (map peer_bytes ps)) as Hg
    by (apply list.Forall_fmap; eapply list.Forall_impl; [done|apply peer_bytes_ok]).
  f_equal. unfold SetResponse. erewrite st_bind_Ok by reflexivity. cbv beta. rewrite Hset.
  unfold mbind, ST_bind. assert (udp_response (B:=B) fresh (hdr ++ concat (map peer_bytes ps) ++ rest ++ [x00]) = UB) as Eub.
  { unfold udp_response, slice. rewrite decide_True by (rewrite length_app; lia). rewrite bind_Ok.
    pose proof (peer_groups_cut hdr (map peer_bytes ps) rest
      (S (length (hdr ++ concat (map peer_bytes ps) ++ rest ++ [x00]))) Hg) as Hcut.
    rewrite Hl in Hcut. rewrite Hcut; [done| |done|done].
    rewrite !length_app, length_peer_bytes, length_map. cbn. lia. }
  unfold lift. by rewrite Eub.
Qed.

(** A list of events run one after the other, checked on the way. *)
Definition boundedb (n : nat) (e : event) : bool :=
  match e with EvResolved eps => bool_decide (length eps ≤ n)%nat | _ => true end.

Fixpoint play (n : nat) (es : list event) s : option (udpRequester B) :=
  match es with
  | [] => Some s
  | e :: es =>
      match handle_event e s with
      | Some (Ok (_, s')) => if boundedb n e then play n es s' else None
      | _ => None
      end
  end.

Lemma play_run n es k m s0 s s' :
  run n k m s0 s → play n es s = Some s' → run n (k + length es) m s0 s'.
Proof.
  revert k s. induction es as [|e es IH]; intros k s Hrun E; cbn [play length] in *.
  - injection E as ->. by rewrite Nat.add_0_r.
  - destruct (handle_event e s) as [[[[] s1]| | | |]|] eqn:Ee; try done.
    destruct (boundedb n e) eqn:Ea; [|done]. rewrite <- Nat.add_succ_comm. apply (IH _ s1); [|done].
    eapply run_event; [done| |done]. destruct e; try done. by apply bool_decide_eq_true in Ea.
Qed.
End Runs.

(** *** A request to one address *)

Definition example_tracker : Tracker :=
  mkTracker (mkUrl (str "udp") (str "tracker.example") (str "80") None None None)
            (replicate 20 "h"%byte) (replicate 20 "p"%byte) 6881.
Definition example_query : Query := default_query 1 2 3 Started.

#[local] Existing Instance x86_64.

Definition example_start : udpRequester (list bool) :=
  match Connect example_tracker example_query 77 new_requester with Ok (_, s) => s | _ => new_requester end.

Definition connect_answer : bytes := be_split 4 0 ++ be_split 4 77 ++ str "CONNECID".

(** Resolved, connect request sent, its answer awaited. *)
Definition connect_events : list event :=
  [EvRun; EvRun; EvResolved [1]; EvRun; EvSent 16 5; EvRun; EvRun].
(** The announce request sent and its answer awaited. *)
Definition announce_events : list event :=
  connect_events ++ [EvReceived connect_answer 5 (fun _ => []); EvRun; EvSent 98 5; EvRun; EvRun].

Definition after (es : list event) : udpRequester (list bool) := default example_start (play 1 es example_start).

Lemma example_tracker_good : good_tracker example_tracker.
Proof. split_and!; vm_compute; try done. Qed.
Lemma example_query_plain : plain_query example_query.
Proof. by split_and!. Qed.
Lemma example_connect : Connect example_tracker example_query 77 new_requester = Ok (tt, example_start).
Proof. vm_compute. reflexivity. Qed.
Lemma example_connected : run 1 7 0 example_start (after connect_events).
Proof. apply (play_run 1 connect_events 0 0 _ example_start); [apply run_refl|vm_compute; reflexivity]. Qed.
Lemma example_announced : run 1 12 0 example_start (after announce_events).
Proof. apply (play_run 1 announce_events 0 0 _ example_start); [apply run_refl|vm_compute; reflexivity]. Qed.

Lemma example_stopped : run 1 12 1 example_start (set_done (after announce_events)).
Proof. eapply run_stop; [exact example_announced|reflexivity]. Qed.

(** An error message without a terminator. *)
Definition error_reply : bytes := be_split 4 3 ++ be_split 4 77 ++ str "no".

Definition cut_answer : bytes := announce_answer 1800 (replicate 8 x00) (u32 77) (str "abc").

Lemma udp_requester_safe_witness :
  (∀ data o, data ∈ [error_reply; cut_answer] →
     handle_event (EvReceived data 5 (fun _ => [])) (after announce_events) = Some o → o = UB) ∧
  (∀ o, handle_event EvReceiveFailed (set_done (after announce_events)) = Some o →
     ∃ s', o = Ok (tt, s') ∧ (is_Some (promise_of_resp s') → is_set s' = true)).
Proof.
  split.
  - intros data o Hd Eo.
    pose proof (udp_requester_safe example_tracker example_query 77 1 12 0 example_start (after announce_events)
      (AEvent (EvReceived data 5 (fun _ => []))) o example_tracker_good example_query_plain example_connect
      example_announced I Eo) as Hs. cbv beta iota in Hs.
    assert (bad_reply (u32 77) (after announce_events) (EvReceived data 5 (fun _ => [])) = true) as Hb.
    { apply elem_of_cons in Hd as [->|Hd%list_elem_of_singleton]; [|subst data]; vm_compute; reflexivity. }
    rewrite Hb in Hs. exact Hs.
  - intros o Eo.
    pose proof (udp_requester_safe example_tracker example_query 77 1 12 1 example_start
      (set_done (after announce_events)) (AEvent EvReceiveFailed) o example_tracker_good
      example_query_plain example_connect example_stopped I Eo) as Hs. cbv beta iota in Hs.
    cbn [bad_reply] in Hs. destruct Hs as (s' & -> & Hp & _). exists s'. split; [reflexivity|exact Hp].
Defined.

Lemma udp_terminates_witness :
  Z.of_nat 12 ≤ 160 * Z.of_nat 1 + 35 ∧
  ((∀ e, handle_event e (after announce_events) = None) →
   is_Some (promise_of_resp (after announce_events)) ∨ (0 < 0)%nat).
Proof.
  exact (udp_terminates example_tracker example_query 77 1 12 0 example_start (after announce_events)
           example_tracker_good example_query_plain example_connect example_announced).
Defined.

Lemma udp_datagrams_witness :
  ∃ s' js, handle_event (EvReceived connect_answer 5 (fun _ => [])) (after connect_events) = Some (Ok (tt, s')) ∧
     jobs s' = js ++ [JSend (announce_datagram example_tracker example_query (str "CONNECID") (u32 77)) PAnnounce].
Proof.
  destruct (udp_datagrams example_tracker example_query 77 1 7 0 example_start (after connect_events)
              example_tracker_good example_query_plain example_connect example_connected) as [_ Hans].
  destruct (Hans 32%nat [] (str "CONNECID") 5 (fun _ => [])) as (s' & E & js & Ej);
    [vm_compute; reflexivity|lia|reflexivity|vm_compute; discriminate|].
  exists s', js. split; [exact E|exact Ej].
Defined.

Lemma udp_peers_received_witness :
  ∃ s' resp,
    handle_event (EvReceived (announce_answer 1800 (replicate 8 x00) (u32 77)
                    (concat (map peer_bytes [(0x0A000001, 6881); (0xC0A80101, 51413)]))) 5 (fun _ => []))
      (after announce_events) = Some (Ok (tt, s')) ∧
    promise_of_resp s' = Some (inl resp) ∧ interval resp = 1800 ∧
    map peer_address (peers resp) = [(0x0A000001, 6881); (0xC0A80101, 51413)].
Proof.
  apply (udp_peers_received example_tracker example_query 77 1 12 example_start (after announce_events) MTU []).
  - exact example_tracker_good.
  - exact example_query_plain.
  - exact example_connect.
  - exact example_announced.
  - vm_compute. reflexivity.
  - cbn. unfold MTU. lia.
  - lia.
  - reflexivity.
  - discriminate.
  - repeat constructor; cbn; lia.
Defined.

Lemma udp_cut_answer_undefined_witness :
  handle_event (EvReceived (announce_answer 1800 (replicate 8 x00) (u32 77)
                  (concat (map peer_bytes [(0x0A000001, 6881)]) ++ str "abc")) 5 (fun _ => []))
    (after announce_events) = Some UB.
Proof.
  apply (udp_cut_answer_undefined example_tracker example_query 77 1 12 example_start (after announce_events) MTU []).
  - exact example_tracker_good.
  - exact example_query_plain.
  - exact example_connect.
  - exact example_announced.
  - vm_compute. reflexivity.
  - cbn. unfold MTU. lia.
  - reflexivity.
  - repeat constructor; cbn; lia.
  - cbn. lia.
  - discriminate.
Defined.
