(* ===== verification/World.v ===== *)
(** * The running client (state of src/Network/BitTorrent/PeerClient.h, src/BitTorrent/Torrent.h)

    One torrent with its master peer, the peer clients it is connected to, its
    file manager and its strategy.  A client object is a number; a lambda given
    to [Post] is a value of [Job] in the client's strand, which runs its jobs
    one at a time in the order they were posted.  Member functions are
    computations in the state monad over [World]; each runs to its end before
    another one starts. *)

From Stdlib Require Import ZArith Lia Strings.Byte.
From coqutil Require Import Byte.
From S2P Require Import Prelude Bytes Streams Worker Bencode Text Piece Files.
From S2P Require Import Bitset Bitfield Message Peer.

(** The bits of [status_]. *)
Definition am_choking : Z := 1.
Definition am_interested : Z := 2.
Definition peer_choking : Z := 4.
Definition peer_interested : Z := 8.

Definition MAX_CONNECT_ATTEMPTS : Z := 4.
Definition REQUEST_MAX_QUEUE_SIZE : Z := 150.
Definition END_GAME_STARTED_FROM : Z := 92.

(** What a pending timer of [Await] does after cancelling the operations. *)
Inductive Awaited := ACancel | ADisconnect.

(** The callback of a write: [send_msg], [verify_handshake], [send_handshake]. *)
Inductive OnWritten := WRemind | WAccess | WReadHandshake.

(** The callback of a read: header, body, handshake. *)
Inductive OnRead := RHeader | RBody | RHandshake.

(** The lambdas posted to a strand. *)
Inductive Job :=
  | JConnect
  | JAwait (k : Awaited)
  | JCancelOperation
  | JVerifyHandshake (v : bytes)
  | JWrite (msg : bytes) (k : OnWritten)
  | JRead (size : Z) (k : OnRead)
  | JPieceTimeout
  | JClearAndTry
  | JTryToRequest
  | JCancelPiece (id : Z)
  | JCancelIfActive (piece_id : Z)
  | JChoked
  | JBlock (index begin : Z) (data : bytes).

#[export] Instance Awaited_eq_dec : EqDecision Awaited.
Proof. solve_decision. Defined.
#[export] Instance OnWritten_eq_dec : EqDecision OnWritten.
Proof. solve_decision. Defined.
#[export] Instance OnRead_eq_dec : EqDecision OnRead.
Proof. solve_decision. Defined.
#[export] Instance Job_eq_dec : EqDecision Job.
Proof. solve_decision. Defined.

(** [BittorrentStrategy], or [OptimalStrategy] with its [end_game_] flag. *)
Inductive Strategy := BittorrentStrategy | OptimalStrategy (end_game : bool).

Section World.
Context {B : Type} `{DynamicBitset B}.

(** [PeerClient] with its strand.  The flags of the two deadline timers tell
    whether they are armed; [connecting], [pending_reads], [pending_writes] are the
    asynchronous operations started and not completed, [wire] the bytes handed
    to the socket so far. *)
Record PeerClient := mkClient {
  slave_peer_ : Peer B;
  active_piece_ : option (Piece * Z);
  status_ : Z;
  is_disconnected : bool;
  connect_attempts : Z;
  msg_to_read_ : ReceivingMessage;
  keep_alive_timeout_ : bool;
  piece_wait_timeout_ : bool;
  timeout_ : option Awaited;
  strand : list Job;
  connecting : nat;
  pending_reads : list (Z * OnRead);
  pending_writes : list OnWritten;
  wire : bytes;
}.

Definition new_client (p : Peer B) : PeerClient :=
  mkClient p None (Z.lor am_choking peer_choking) false MAX_CONNECT_ATTEMPTS
           (rm_make [] BigEndian) false false None [] 0 [] [] [].

Definition set_slave (c : PeerClient) x := mkClient x (active_piece_ c) (status_ c) (is_disconnected c)
  (connect_attempts c) (msg_to_read_ c) (keep_alive_timeout_ c) (piece_wait_timeout_ c) (timeout_ c)
  (strand c) (connecting c) (pending_reads c) (pending_writes c) (wire c).
Definition set_active_piece (c : PeerClient) x := mkClient (slave_peer_ c) x (status_ c) (is_disconnected c)
  (connect_attempts c) (msg_to_read_ c) (keep_alive_timeout_ c) (piece_wait_timeout_ c) (timeout_ c)
  (strand c) (connecting c) (pending_reads c) (pending_writes c) (wire c).
Definition set_status (c : PeerClient) x := mkClient (slave_peer_ c) (active_piece_ c) x (is_disconnected c)
  (connect_attempts c) (msg_to_read_ c) (keep_alive_timeout_ c) (piece_wait_timeout_ c) (timeout_ c)
  (strand c) (connecting c) (pending_reads c) (pending_writes c) (wire c).
Definition set_disconnected (c : PeerClient) x := mkClient (slave_peer_ c) (active_piece_ c) (status_ c) x
  (connect_attempts c) (msg_to_read_ c) (keep_alive_timeout_ c) (piece_wait_timeout_ c) (timeout_ c)
  (strand c) (connecting c) (pending_reads c) (pending_writes c) (wire c).
Definition set_attempts (c : PeerClient) x := mkClient (slave_peer_ c) (active_piece_ c) (status_ c)
  (is_disconnected c) x (msg_to_read_ c) (keep_alive_timeout_ c) (piece_wait_timeout_ c) (timeout_ c)
  (strand c) (connecting c) (pending_reads c) (pending_writes c) (wire c).
Definition set_msg (c : PeerClient) x := mkClient (slave_peer_ c) (active_piece_ c) (status_ c)
  (is_disconnected c) (connect_attempts c) x (keep_alive_timeout_ c) (piece_wait_timeout_ c) (timeout_ c)
  (strand c) (connecting c) (pending_reads c) (pending_writes c) (wire c).
Definition set_keep_alive (c : PeerClient) x := mkClient (slave_peer_ c) (active_piece_ c) (status_ c)
  (is_disconnected c) (connect_attempts c) (msg_to_read_ c) x (piece_wait_timeout_ c) (timeout_ c)
  (strand c) (connecting c) (pending_reads c) (pending_writes c) (wire c).
Definition set_piece_wait (c : PeerClient) x := mkClient (slave_peer_ c) (active_piece_ c) (status_ c)
  (is_disconnected c) (connect_attempts c) (msg_to_read_ c) (keep_alive_timeout_ c) x (timeout_ c)
  (strand c) (connecting c) (pending_reads c) (pending_writes c) (wire c).
Definition set_timeout (c : PeerClient) x := mkClient (slave_peer_ c) (active_piece_ c) (status_ c)
  (is_disconnected c) (connect_attempts c) (msg_to_read_ c) (keep_alive_timeout_ c) (piece_wait_timeout_ c) x
  (strand c) (connecting c) (pending_reads c) (pending_writes c) (wire c).
Definition set_strand (c : PeerClient) x := mkClient (slave_peer_ c) (active_piece_ c) (status_ c)
  (is_disconnected c) (connect_attempts c) (msg_to_read_ c) (keep_alive_timeout_ c) (piece_wait_timeout_ c)
  (timeout_ c) x (connecting c) (pending_reads c) (pending_writes c) (wire c).
Definition set_reads (c : PeerClient) x := mkClient (slave_peer_ c) (active_piece_ c) (status_ c)
  (is_disconnected c) (connect_attempts c) (msg_to_read_ c) (keep_alive_timeout_ c) (piece_wait_timeout_ c)
  (timeout_ c) (strand c) (connecting c) x (pending_writes c) (wire c).
Definition set_connecting (c : PeerClient) x := mkClient (slave_peer_ c) (active_piece_ c) (status_ c)
  (is_disconnected c) (connect_attempts c) (msg_to_read_ c) (keep_alive_timeout_ c) (piece_wait_timeout_ c)
  (timeout_ c) (strand c) x (pending_reads c) (pending_writes c) (wire c).
Definition set_writes (c : PeerClient) x w := mkClient (slave_peer_ c) (active_piece_ c) (status_ c)
  (is_disconnected c) (connect_attempts c) (msg_to_read_ c) (keep_alive_timeout_ c) (piece_wait_timeout_ c)
  (timeout_ c) (strand c) (connecting c) (pending_reads c) x w.

(** What the constructed torrent keeps of its metadata: [info.pieces] and the
    info hash. *)
Record World := mkWorld {
  meta_pieces_ : bytes;
  info_hash_ : bytes;
  master_peer_ : MasterPeer B;
  clients : gmap nat PeerClient;
  strategy_ : Strategy;
  ready_pieces_num_ : Z;
  file_manager_ : TorrentFilesManager;
  disk : fsys;
  random_ : list Z;
}.

Definition set_master (w : World) x := mkWorld (meta_pieces_ w) (info_hash_ w) x (clients w) (strategy_ w)
  (ready_pieces_num_ w) (file_manager_ w) (disk w) (random_ w).
Definition set_clients (w : World) x := mkWorld (meta_pieces_ w) (info_hash_ w) (master_peer_ w) x (strategy_ w)
  (ready_pieces_num_ w) (file_manager_ w) (disk w) (random_ w).
Definition set_strategy (w : World) x := mkWorld (meta_pieces_ w) (info_hash_ w) (master_peer_ w) (clients w) x
  (ready_pieces_num_ w) (file_manager_ w) (disk w) (random_ w).
Definition set_ready (w : World) x := mkWorld (meta_pieces_ w) (info_hash_ w) (master_peer_ w) (clients w)
  (strategy_ w) x (file_manager_ w) (disk w) (random_ w).
Definition set_manager (w : World) x := mkWorld (meta_pieces_ w) (info_hash_ w) (master_peer_ w) (clients w)
  (strategy_ w) (ready_pieces_num_ w) x (disk w) (random_ w).
Definition set_disk (w : World) x := mkWorld (meta_pieces_ w) (info_hash_ w) (master_peer_ w) (clients w)
  (strategy_ w) (ready_pieces_num_ w) (file_manager_ w) x (random_ w).
Definition set_random (w : World) x := mkWorld (meta_pieces_ w) (info_hash_ w) (master_peer_ w) (clients w)
  (strategy_ w) (ready_pieces_num_ w) (file_manager_ w) (disk w) x.

Abbreviation M := (ST World).

(** ** Access to objects *)

Definition get_client (i : nat) : M PeerClient := fun w => c ← opt_ub (clients w !! i); Ok (c, w).
Definition modify_client (i : nat) (f : PeerClient → PeerClient) : M unit := fun w =>
  c ← opt_ub (clients w !! i); Ok (tt, set_clients w (<[i := f c]> (clients w))).
Definition get_master : M (MasterPeer B) := fun w => Ok (master_peer_ w, w).
Definition modify_master (f : MasterPeer B → MasterPeer B) : M unit :=
  modify (fun w => set_master w (f (master_peer_ w))).

(** [GetNumberBetween(a, b)]: the next number of the generator brought into range. *)
Definition GetNumberBetween (a b : Z) : M Z := fun w =>
  match random_ w with
  | [] => NoFuel
  | r :: rs => Ok (a + r mod (b - a + 1), set_random w rs)
  end.

(** [GetPieceCount] of Torrent.h, on what [fill_files] has read already. *)
Definition TotalPiecesCount : M Z := fun w => Ok (Z.of_nat (piece_count_of (meta_pieces_ w)), w).
Definition GetPieceSize : M Z := fun w => Ok (piece_size_ (files_ (file_manager_ w)), w).
Definition GetLastPieceSize : M Z := fun w => Ok (last_piece_size_ (files_ (file_manager_ w)), w).

Definition flag (status bit : Z) : bool := negb (Z.land status bit =? 0).
Definition IsClientChoked (c : PeerClient) : bool := flag (status_ c) am_choking.
Definition IsRemoteChoked (c : PeerClient) : bool := flag (status_ c) peer_choking.
Definition IsClientInterested (c : PeerClient) : bool := flag (status_ c) am_interested.
Definition IsRemoteInterested (c : PeerClient) : bool := flag (status_ c) peer_interested.

(** [status_ |= bit] and [status_ &= ~bit] on a [uint8_t]. *)
Definition set_flag (i : nat) (bit : Z) : M unit :=
  modify_client i (fun c => set_status c (u8 (Z.lor (status_ c) bit))).
Definition clear_flag (i : nat) (bit : Z) : M unit :=
  modify_client i (fun c => set_status c (u8 (Z.land (status_ c) (Z.lnot bit)))).

(** ** The socket (Primitives/Socket.h) *)

Definition Post (i : nat) (j : Job) : M unit :=
  modify_client i (fun c => set_strand c (strand c ++ [j])).
Definition Await (i : nat) (k : Awaited) : M unit := Post i (JAwait k).
Definition Cancel (i : nat) : M unit := Post i JCancelOperation.
Definition Send (i : nat) (msg : SendingMessage) (k : OnWritten) : M unit := Post i (JWrite (sm_data msg) k).
Definition Read (i : nat) (size : Z) (k : OnRead) : M unit := Post i (JRead size k).
Definition Connect (i : nat) : M unit := Post i JConnect.

(** ** Connection state (PeerClient.cpp) *)

Definition PieceDone (idx : Z) : M bool := m ← get_master; lift (IsPieceDone m (u32 idx)).
Definition PieceRequested (idx : Z) : M bool := m ← get_master; mret (IsPieceRequested m (u32 idx)).
Definition PieceUploaded (idx : Z) : M bool := m ← get_master; mret (IsPieceUploaded m (u32 idx)).
Definition BindUpload (id : Z) : M unit := modify_master (fun m => MarkUploadedPiece m id).
Definition UnbindUpload (id : Z) : M unit := modify_master (fun m => UnmarkUploadedPiece m id).
Definition BindRequest (id : Z) : M unit := modify_master (fun m => MarkRequestedPiece m id).
Definition UnbindRequest (id : Z) : M unit := modify_master (fun m => UnmarkRequestedPiece m id).

Definition Disconnect (i : nat) : M unit :=
  c ← get_client i;
  if is_disconnected c then mret tt
  else
    _ ← Cancel i;
    m ← get_master;
    m ← lift (Unsubscribe m (ip (slave_peer_ c)));
    _ ← modify_master (fun _ => m);
    modify_client i (fun c => set_disconnected (set_piece_wait (set_keep_alive c false) false) true).

Definition try_again_connect (i : nat) : M unit :=
  c ← get_client i;
  if is_disconnected c then mret tt
  else
    let attempts := u64 (connect_attempts c - 1) in
    _ ← modify_client i (fun c => set_attempts c attempts);
    if negb (attempts =? 0) then _ ← Connect i; Await i ACancel
    else Disconnect i.

(** The socket of a client made by the listener is open. *)
Definition Process (i : nat) (handshake : option bytes) : M unit :=
  match handshake with
  | Some v => Post i (JVerifyHandshake v)
  | None => _ ← Connect i; Await i ACancel
  end.

Definition Subscribe (i : nat) (handshake : option bytes) : M unit :=
  c ← get_client i;
  m ← get_master;
  let '(fresh, m) := subscribe_entry m (ip (slave_peer_ c)) i in
  _ ← modify_master (fun _ => m);
  when fresh (Process i handshake).

Definition drop_timeout (i : nat) : M unit := Await i ADisconnect.
Definition remind_about_self (i : nat) : M unit := modify_client i (fun c => set_keep_alive c true).
Definition wait_piece (i : nat) : M unit := modify_client i (fun c => set_piece_wait c true).

Definition do_read_header (i : nat) : M unit :=
  c ← get_client i;
  if is_disconnected c then mret tt else Read i (Z.of_nat header_length) RHeader.
Definition do_read_body (i : nat) : M unit :=
  c ← get_client i;
  if is_disconnected c then mret tt else Read i (rm_body_size (msg_to_read_ c)) RBody.

(** ** Sending *)

Section Sending.
Context `{Host}.

Definition send_msg (i : nat) (data : SendingMessage) : M unit :=
  c ← get_client i;
  if is_disconnected c then mret tt
  else data ← lift (EncodeHeader data); Send i data WRemind.

Definition peer_msg : SendingMessage := SendingPeerMessage BigEndian.

Definition send_keep_alive (i : nat) : M unit := send_msg i peer_msg.
Definition send_choke (i : nat) : M unit :=
  _ ← set_flag i am_choking; send_msg i (put_type peer_msg choke).
Definition send_unchoke (i : nat) : M unit :=
  _ ← clear_flag i am_choking; send_msg i (put_type peer_msg unchoke).
Definition send_interested (i : nat) : M unit :=
  _ ← set_flag i am_interested; send_msg i (put_type peer_msg interested).
Definition send_not_interested (i : nat) : M unit :=
  _ ← clear_flag i am_interested; send_msg i (put_type peer_msg not_interested).
Definition send_have (i : nat) (idx : Z) : M unit :=
  send_msg i (put_value (put_type peer_msg have) 4 (u32 idx)).

(** [(float)n] for a size: rounded to 24 significant bits, ties to even. *)
Definition to_float (n : Z) : Z :=
  let k := Z.log2 n - 23 in
  if k <=? 0 then n
  else
    let q := n / 2 ^ k in let r := n mod 2 ^ k in
    let q := if (r <? 2 ^ (k - 1)) || ((r =? 2 ^ (k - 1)) && Z.even q) then q else q + 1 in
    q * 2 ^ k.

Definition send_bitfield (i : nat) : M unit :=
  m ← get_master;
  let bits := bitfield_ (as_peer m) in
  let bytesToSend := (to_float (Z.of_nat (Size bits)) + 7) / 8 in
  let bits_like_bytes := GetCast bits in
  data ← lift (slice bits_like_bytes 0 (Z.to_nat bytesToSend));
  send_msg i (CopyFrom (put_type peer_msg bitfield) data).

Definition send_request (i : nat) (piece_request_index begin length : Z) : M unit :=
  send_msg i (put_fields (put_type peer_msg request)
    [(4%nat, u32 piece_request_index); (4%nat, u32 begin); (4%nat, u32 length)]).

Definition send_block (i : nat) (pieceIdx offset : Z) (data : bytes) : M unit :=
  send_msg i (CopyFrom (put_fields (put_type peer_msg piece_block)
    [(4%nat, u32 pieceIdx); (4%nat, u32 offset)]) data).

(** The counter of the active piece is a [size_t]. *)
Definition dec_blocks_num (c : PeerClient) : PeerClient :=
  match active_piece_ c with
  | Some (p, begin) => set_active_piece c (Some
      (mkPiece (blocks p) (u64 (current_blocks_num p - 1)) (block_count p) (index p), begin))
  | None => c
  end.

Definition send_cancel (i : nat) (pieceIdx offset length : Z) : M unit :=
  _ ← send_msg i (put_fields (put_type peer_msg cancel)
        [(4%nat, u32 pieceIdx); (4%nat, u32 offset); (4%nat, u32 length)]);
  modify_client i dec_blocks_num.

Definition send_port (i : nat) (p : Z) : M unit :=
  send_msg i (put_value (put_type peer_msg Message.port) 8 (u64 p)).

(** ** Handshakes *)

Definition access (i : nat) : M unit :=
  m ← get_master;
  _ ← modify_client i (fun c => set_slave c
        (set_bitfield (slave_peer_ c) (Bitfield_sized (Size (bitfield_ (as_peer m))))));
  _ ← send_bitfield i;
  _ ← drop_timeout i;
  _ ← remind_about_self i;
  do_read_header i.

Definition verify_handshake (i : nat) (v : bytes) : M unit :=
  _ ← modify_client i (fun c => set_msg c (SetBuffer (msg_to_read_ c) v));
  m ← get_master;
  ok ← lift (check_handshake m v);
  if (ok : bool) then Send i (CopyFrom (sm_make BigEndian) v) WAccess else Disconnect i.

Definition send_handshake (i : nat) : M unit :=
  m ← get_master;
  Send i (CopyFrom (sm_make BigEndian) (handshake_message_ m)) WReadHandshake.

(** The callback of the handshake's read. *)
Definition on_handshake (i : nat) (data : bytes) : M unit :=
  m ← get_master;
  is_handshake_correct ← lift (check_handshake m data);
  if bool_decide (handshake_length ≤ length data)%nat then
    ok ← lift (check_handshake m data);
    if (ok : bool) then
      theirs ← lift (slice data 28 20);
      ours ← lift (slice (handshake_message_ m) 28 20);
      when (bool_decide (theirs = ours)) (access i)
    else mret tt
  else mret tt.
End Sending.
End World.

Arguments PeerClient B : clear implicits.
Arguments World B : clear implicits.
