(* ===== verification/PeerClient.v ===== *)
(** * The peer protocol (src/Network/BitTorrent/PeerClient.cpp,
      src/BitTorrent/Primitives/BittorrentStrategy.cpp, src/BitTorrent/Torrent.cpp)

    Requesting pieces, the reaction to every peer message, both strategies, the
    callbacks of the file workers, and the steps of the whole client. *)

From Stdlib Require Import ZArith Lia Strings.Byte.
From coqutil Require Import Byte.
From S2P Require Import Prelude Bytes Streams Worker Bencode Text Piece Files.
From S2P Require Import Bitset Bitfield Message Peer World.

Section PeerClient.
Context {B : Type} `{DynamicBitset B} `{Host} `{Sha1}.
Abbreviation M := (ST (World B)).

(** ** Choosing a piece *)

Definition is_optimal (s : Strategy) : bool := match s with OptimalStrategy _ => true | _ => false end.
Definition end_game_ (s : Strategy) : bool := match s with OptimalStrategy e => e | _ => false end.

(** The loop that collects [pieces_ids]. *)
Fixpoint collect_pieces (available : B) (m : MasterPeer B) (end_game : bool) (l : list nat)
    : outcome (list Z) :=
  match l with
  | [] => Ok []
  | i :: l =>
      t ← Test available i;
      rest ← collect_pieces available m end_game l;
      let i := Z.of_nat i in
      Ok (if t && (end_game || negb (IsPieceRequested m i)) then u32 i :: rest else rest)
  end.

(** [BittorrentStrategy::ChoosePiece], which marks what it chooses. *)
Definition BittorrentStrategy_ChoosePiece (peer_neigh : Peer B) : M (option Z) :=
  m ← get_master;
  available ← lift (GetMismatchedBitfield (bitfield_ (as_peer m)) (bitfield_ peer_neigh));
  if (Popcount available =? 0)%nat then mret None
  else
    ids ← lift (collect_pieces available m false (seq 0 (Size available)));
    match ids with
    | [] => mret None
    | _ =>
        k ← GetNumberBetween 0 (Z.of_nat (length ids) - 1);
        chosen_piece ← lift (opt_ub (ids !! Z.to_nat k));
        _ ← BindRequest chosen_piece;
        mret (Some chosen_piece)
    end.

(** [OptimalStrategy::ChoosePiece]: in the end game a piece may be asked for twice. *)
Definition OptimalStrategy_ChoosePiece (end_game : bool) (peer_neigh : Peer B) : M (option Z) :=
  m ← get_master;
  available ← lift (GetMismatchedBitfield (bitfield_ (as_peer m)) (bitfield_ peer_neigh));
  if (Popcount available =? 0)%nat then mret None
  else
    ids ← lift (collect_pieces available m end_game (seq 0 (Size available)));
    match ids with
    | [] => mret None
    | _ =>
        k ← GetNumberBetween 0 (Z.of_nat (length ids) - 1);
        chosen_piece ← lift (opt_ub (ids !! Z.to_nat k));
        _ ← when (negb end_game) (BindRequest chosen_piece);
        mret (Some chosen_piece)
    end.

(** [DetermineNextPiece] of Torrent.cpp: the virtual call. *)
Definition ChoosePiece (peer_neigh : Peer B) : M (option Z) :=
  w ← get_st;
  match strategy_ w with
  | BittorrentStrategy => BittorrentStrategy_ChoosePiece peer_neigh
  | OptimalStrategy end_game => OptimalStrategy_ChoosePiece end_game peer_neigh
  end.

(** ** Requesting blocks *)

(** The size of a piece: the last one has its own. *)
Definition piece_size_of (idx : Z) : M Z :=
  total ← TotalPiecesCount;
  if idx =? u64 (total - 1) then GetLastPieceSize else GetPieceSize.

(** [ceil((double)piece_size / (double)most_request_size)], exact below [2^53]. *)
Definition block_count_of (piece_size : Z) : Z := (piece_size + most_request_size - 1) / most_request_size.

(** The index and the position [begin] of the active piece; [begin] moves on. *)
Definition active (i : nat) : M (Piece * Z) :=
  c ← get_client i; lift (opt_or bad_optional_access (active_piece_ c)).
Definition advance (i : nat) (n : Z) : M unit :=
  modify_client i (fun c =>
    match active_piece_ c with
    | Some (p, begin) => set_active_piece c (Some (p, u64 (begin + n)))
    | None => c
    end).

(** The loop of [TryToRequestPiece]; [req_count] bounds its rounds and is what
    the counter ends with, less than zero when it ran out. *)
Fixpoint request_loop (req_count : nat) (i : nat) (piece_size : Z) : M (Z * Z) :=
  if piece_size >? most_request_size then
    match req_count with
    | O => mret (piece_size, -1)
    | S req_count =>
        '(p, begin) ← active i;
        _ ← send_request i (index p) begin most_request_size;
        _ ← advance i most_request_size;
        request_loop req_count i (piece_size - most_request_size)
    end
  else mret (piece_size, Z.of_nat req_count).

Definition request_blocks (i : nat) (piece_size : Z) : M unit :=
  '(piece_size, req_count) ← request_loop (Z.to_nat REQUEST_MAX_QUEUE_SIZE) i piece_size;
  _ ← when (req_count >? 0)
        ('(p, begin) ← active i;
         _ ← send_request i (index p) begin piece_size;
         advance i piece_size);
  wait_piece i.

Definition TryToRequestPiece (i : nat) : M unit :=
  c ← get_client i;
  match active_piece_ c with
  | None =>
      m ← get_master;
      total ← TotalPiecesCount;
      if Z.of_nat (Popcount (bitfield_ (as_peer m))) =? total then send_not_interested i
      else if IsRemoteChoked c then mret tt
      else
        _ ← when (negb (IsClientInterested c)) (send_interested i);
        chosen ← ChoosePiece (slave_peer_ c);
        match chosen with
        | None => mret tt
        | Some chosen_piece_index =>
            piece_size ← piece_size_of chosen_piece_index;
            _ ← modify_client i (fun c => set_active_piece c
                  (Some (new_piece chosen_piece_index (block_count_of piece_size), 0)));
            request_blocks i piece_size
        end
  | Some (p, begin) =>
      piece_size ← piece_size_of (index p);
      if u64 (piece_size - begin) =? 0 then mret tt else request_blocks i piece_size
  end.

Definition ClearAndTryRequest (i : nat) : M unit := Post i JClearAndTry.

Definition cancel_piece (i : nat) (id : Z) : M unit := Post i (JCancelPiece (u32 id)).

(** The lambda of [cancel_piece]; [n] bounds the rounds of its loop. *)
Fixpoint cancel_loop (n : nat) (i : nat) (id begin length : Z) : M unit :=
  if length >? most_request_size then
    match n with
    | O => lift NoFuel
    | S n =>
        _ ← send_cancel i id begin most_request_size;
        cancel_loop n i id (begin + most_request_size) (length - most_request_size)
    end
  else send_cancel i id begin length.

Definition run_cancel_piece (i : nat) (id : Z) : M unit :=
  c ← get_client i;
  match active_piece_ c with
  | Some (p, _) =>
      if index p =? id then
        length ← piece_size_of id;
        _ ← cancel_loop (Z.to_nat (block_count_of length)) i id 0 length;
        modify_client i (fun c => set_active_piece c None)
      else mret tt
  | None => mret tt
  end.

(** ** The torrent's part (Torrent.cpp) and the other peers (Peer.cpp) *)

(** Every subscriber; the order of the hash table is not specified. *)
Definition subscribers : M (list nat) := m ← get_master; mret (map snd (map_to_list (peers_subscribers_ m))).

Definition SendHaveToAll (piece_num : Z) : M unit :=
  peers ← subscribers;
  for_each peers (fun j => c ← get_client j; when (IsRemoteInterested c) (send_have j piece_num)).

Definition CancelPiece (piece_id : Z) : M unit :=
  peers ← subscribers; for_each peers (fun j => Post j (JCancelIfActive piece_id)).

Definition TryToRequestAgain : M unit :=
  peers ← subscribers; for_each peers (fun j => Post j JTryToRequest).

Fixpoint count_distributors (l : list nat) : M Z :=
  match l with
  | [] => mret 0
  | j :: l =>
      c ← get_client j; n ← count_distributors l;
      mret (n + if IsClientInterested c && negb (IsRemoteChoked c) then 1 else 0)
  end.
Definition DistributorsCount : M Z := peers ← subscribers; count_distributors peers.

Definition UploadPieceBlock (req : ReadRequest) : M Z :=
  w ← get_st;
  '(id, m, rs) ← lift (UploadBlock (file_manager_ w) req (random_ w));
  _ ← put_st (set_random (set_manager w m) rs);
  mret id.

Definition CancelBlockUpload (req : ReadRequest) : M unit :=
  w ← get_st;
  '(peer, m) ← lift (CancelBlock (file_manager_ w) req);
  _ ← put_st (set_manager w m);
  when (bool_decide (is_Some peer)) (UnbindUpload (rr_piece_index req)).

Definition Torrent_DownloadPiece (req : WriteRequest) : M unit :=
  w ← get_st;
  '(m, rs) ← lift (DownloadPiece (file_manager_ w) req (random_ w));
  put_st (set_random (set_manager w m) rs).

Definition Have (piece_num : Z) : M unit :=
  m ← get_master;
  bits ← lift (Set_ (bitfield_ (as_peer m)) (Z.to_nat piece_num));
  _ ← modify_master (fun m => set_peer m (set_bitfield (as_peer m) bits));
  SendHaveToAll piece_num.

(** What [BittorrentStrategy::OnPieceDownloaded] does besides its output. *)
Definition BittorrentStrategy_OnPieceDownloaded (id : Z) : M unit :=
  _ ← DistributorsCount; mret tt.

(** The end game starts from 92 percent; the quotient of doubles compares like
    the fraction for piece counts below [2^40]. *)
Definition OptimalStrategy_OnPieceDownloaded (end_game : bool) (id : Z) : M unit :=
  _ ← (if end_game then CancelPiece id
       else
         w ← get_st;
         total ← TotalPiecesCount;
         when (END_GAME_STARTED_FROM * total <=? 100 * ready_pieces_num_ w)
              (modify (fun w => set_strategy w (OptimalStrategy true))));
  BittorrentStrategy_OnPieceDownloaded id.

Definition Strategy_OnPieceDownloaded (id : Z) : M unit :=
  w ← get_st;
  match strategy_ w with
  | BittorrentStrategy => BittorrentStrategy_OnPieceDownloaded id
  | OptimalStrategy end_game => OptimalStrategy_OnPieceDownloaded end_game id
  end.

Definition OnPieceDownloaded (id : Z) : M unit :=
  _ ← modify (fun w => set_ready w (u64 (ready_pieces_num_ w + 1)));
  Strategy_OnPieceDownloaded id.

Definition SetPiece (piece_index : Z) : M unit := _ ← Have piece_index; OnPieceDownloaded piece_index.

(** ** Reactions of the strategy *)

Definition OnChoked (i : nat) : M unit := Post i JChoked.

Definition run_choked (i : nat) : M unit :=
  c ← get_client i;
  match active_piece_ c with
  | Some (p, _) =>
      _ ← UnbindRequest (index p);
      modify_client i (fun c => set_active_piece c None)
  | None => mret tt
  end.

Definition OnUnchoked (i : nat) : M unit := TryToRequestPiece i.

Definition OnInterested (i : nat) : M unit :=
  c ← get_client i;
  m ← get_master;
  _ ← when (IsClientChoked c && CanUnchokePeer m (ip (slave_peer_ c))) (send_unchoke i);
  c ← get_client i;
  when (negb (IsRemoteChoked c)) (TryToRequestPiece i).

Definition OnNotInterested (i : nat) : M unit :=
  c ← get_client i;
  when (negb (IsClientChoked c) && IsRemoteChoked c) (send_choke i).

Definition OnHave (i : nat) (idx : Z) : M unit :=
  total ← TotalPiecesCount;
  if total <=? idx then Disconnect i
  else
    done ← PieceDone idx;
    when (negb done) (TryToRequestPiece i).

Definition OnBitfield (i : nat) : M unit :=
  m ← get_master;
  c ← get_client i;
  mis ← lift (GetMismatchedBitfield (bitfield_ (as_peer m)) (bitfield_ (slave_peer_ c)));
  _ ← when (negb (Popcount mis =? 0)%nat) (send_interested i);
  TryToRequestPiece i.

Definition OnRequest (i : nat) (index begin length : Z) : M unit :=
  total ← TotalPiecesCount;
  if total <=? index then Disconnect i
  else
    done ← PieceDone index;
    if (done : bool) then
      id ← UploadPieceBlock (mkReadRequest (Some i) index begin length);
      BindUpload id
    else mret tt.

Definition BittorrentStrategy_OnPieceBlock (i : nat) (index begin : Z) (data : bytes) : M unit :=
  total ← TotalPiecesCount;
  if total <=? index then Disconnect i
  else if most_request_size <? Z.of_nat (length data) then mret tt
  else
    requested ← PieceRequested index;
    if negb requested then mret tt
    else
      done ← PieceDone index;
      if (done : bool) then cancel_piece i index
      else
        _ ← modify_client i (fun c => set_piece_wait c false);
        Post i (JBlock index begin data).

(** The optimal one does not look at the requested set in the end game. *)
Definition OptimalStrategy_OnPieceBlock (end_game : bool) (i : nat) (index begin : Z) (data : bytes) : M unit :=
  total ← TotalPiecesCount;
  if total <=? index then Disconnect i
  else if most_request_size <? Z.of_nat (length data) then mret tt
  else
    requested ← PieceRequested index;
    if negb end_game && negb requested then mret tt
    else
      done ← PieceDone index;
      if (done : bool) then cancel_piece i index
      else
        _ ← modify_client i (fun c => set_piece_wait c false);
        Post i (JBlock index begin data).

Definition OnPieceBlock (i : nat) (index begin : Z) (data : bytes) : M unit :=
  w ← get_st;
  match strategy_ w with
  | BittorrentStrategy => BittorrentStrategy_OnPieceBlock i index begin data
  | OptimalStrategy end_game => OptimalStrategy_OnPieceBlock end_game i index begin data
  end.

(** The lambda it posts: [index] is the one of the message. *)
Definition run_block (i : nat) (index begin : Z) (data : bytes) : M unit :=
  '(cur_piece, next) ← active i;
  let blockIndex := Z.to_nat (u32 (begin / most_request_size)) in
  _ ← lift (opt_ub (blocks cur_piece !! blockIndex));
  let cur_piece := mkPiece (<[blockIndex := mkBlock data begin]> (blocks cur_piece))
                           (u64 (current_blocks_num cur_piece + 1))
                           (block_count cur_piece) (Piece.index cur_piece) in
  _ ← modify_client i (fun c => set_active_piece c (Some (cur_piece, next)));
  if current_blocks_num cur_piece =? block_count cur_piece then
    _ ← Torrent_DownloadPiece (mkWriteRequest (Some i) index cur_piece);
    _ ← modify_client i (fun c => set_active_piece c (Some (moved_from cur_piece, next)));
    ClearAndTryRequest i
  else
    when (current_blocks_num cur_piece mod REQUEST_MAX_QUEUE_SIZE =? 0) (TryToRequestPiece i).

Definition OnCancel (i : nat) (index begin length : Z) : M unit :=
  total ← TotalPiecesCount;
  if total <=? index then Disconnect i
  else
    uploaded ← PieceUploaded index;
    when uploaded (CancelBlockUpload (mkReadRequest (Some i) index begin length)).

Definition OnBlockReadyToSend (i : nat) (pieceIdx offset : Z) (block : Block) : M unit :=
  total ← TotalPiecesCount;
  if total <=? pieceIdx then Disconnect i else send_block i pieceIdx offset (data_ block).

Definition OnPort (i : nat) (p : Z) : M unit := mret tt.

(** ** Messages from the peer *)

(** [payload >> x] for an integer of [sz] bytes. *)
Definition read_value (i : nat) (sz : nat) : M Z :=
  c ← get_client i;
  '(v, m) ← lift (get_value sz (msg_to_read_ c));
  _ ← modify_client i (fun c => set_msg c m);
  mret v.

(** The bits of a bitfield message, byte by byte from the most significant bit. *)
Definition set_bit (total : nat) (payload : bytes) (bits : outcome B) (ix : nat * nat) : outcome B :=
  bits ← bits;
  let '(i, x) := ix in
  b ← opt_ub (payload !! i);
  if negb (Z.land (byte.unsigned b) (Z.shiftl 1 (7 - Z.of_nat x)) =? 0) then
    let idx := ((i - 1) * 8 + x)%nat in
    if decide (idx < total)%nat then Set_ bits idx else Ok bits
  else Ok bits.

Definition set_bits (total payload_size : nat) (payload : bytes) (bits : B) : outcome B :=
  foldl (set_bit total payload) (Ok bits)
    (i ← seq 1 (payload_size - 1); x ← seq 0 8; [(i, x)]).

(** The last two cases of [handle_response]. *)
Definition response_cancel (i : nat) (payload_size : Z) : M unit :=
  if negb (payload_size =? 13) then Disconnect i
  else
    index ← read_value i 4;
    begin ← read_value i 4;
    length ← read_value i 4;
    OnCancel i index begin length.

Definition response_port (i : nat) (payload_size : Z) : M unit :=
  if negb (payload_size =? 3) then Disconnect i
  else p ← read_value i 2; OnPort i p.

Definition handle_response (i : nat) : M unit :=
  c ← get_client i;
  message_type ← lift (rm_Type (msg_to_read_ c));
  let payload_size := rm_body_size (msg_to_read_ c) in
  let payload := rm_arr (msg_to_read_ c) in
  match type_of_id message_type with
  | Some choke =>
      if negb (payload_size =? 1) then Disconnect i
      else _ ← set_flag i peer_choking; OnChoked i
  | Some unchoke =>
      if negb (payload_size =? 1) then Disconnect i
      else _ ← clear_flag i peer_choking; OnUnchoked i
  | Some interested =>
      if negb (payload_size =? 1) then Disconnect i
      else _ ← set_flag i peer_interested; OnInterested i
  | Some not_interested =>
      if negb (payload_size =? 1) then Disconnect i
      else _ ← clear_flag i peer_interested; OnNotInterested i
  | Some have =>
      if negb (payload_size =? 5) then Disconnect i
      else
        idx ← read_value i 4;
        total ← TotalPiecesCount;
        if total <=? idx then mret tt
        else
          c ← get_client i;
          bits ← lift (Set_ (bitfield_ (slave_peer_ c)) (Z.to_nat idx));
          _ ← modify_client i (fun c => set_slave c (set_bitfield (slave_peer_ c) bits));
          OnHave i idx
  | Some bitfield =>
      if payload_size <? 1 then mret tt
      else
        total ← TotalPiecesCount;
        if (total + 7) / 8 <? payload_size - 1 then Disconnect i
        else
          bits ← lift (set_bits (Z.to_nat total) (Z.to_nat payload_size) payload
                                (bitfield_ (slave_peer_ c)));
          _ ← modify_client i (fun c => set_slave c (set_bitfield (slave_peer_ c) bits));
          OnBitfield i
  | Some request =>
      if negb (payload_size =? 13) then Disconnect i
      else if negb (IsRemoteInterested c) then Disconnect i
      else if IsClientChoked c then Disconnect i
      else
        index ← read_value i 4;
        begin ← read_value i 4;
        length ← read_value i 4;
        OnRequest i index begin length
  | Some piece_block =>
      if payload_size <? 9 then Disconnect i
      else
        index ← read_value i 4;
        begin ← read_value i 4;
        data ← lift (slice payload 9 (Z.to_nat (u32 (payload_size - 9))));
        OnPieceBlock i index begin data
  | Some cancel => response_cancel i payload_size
  | Some Message.port => response_port i payload_size
  | None => mret tt
  end.

(** The callbacks of the two reads of the message loop. *)
Definition on_header (i : nat) (data : bytes) : M unit :=
  _ ← drop_timeout i;
  '(header, _) ← lift (get_value 4 (rm_make data BigEndian));
  _ ← modify_client i (fun c => set_msg c (DecodeHeader (msg_to_read_ c) (u32 header)));
  c ← get_client i;
  if rm_body_size (msg_to_read_ c) =? 0 then mret tt else do_read_body i.

Definition on_body (i : nat) (data : bytes) : M unit :=
  c ← get_client i;
  body ← lift (slice data 0 (Z.to_nat (rm_body_size (msg_to_read_ c))));
  _ ← modify_client i (fun c => set_msg c (SetBuffer (msg_to_read_ c) body));
  _ ← handle_response i;
  do_read_header i.

(** ** The file workers *)

(** The lambda of [UploadBlock]. *)
Definition run_upload (req : ReadRequest) : M unit :=
  w ← get_st;
  let '(returns, m) := upload_entry (file_manager_ w) req in
  _ ← put_st (set_manager w m);
  if returns then mret tt
  else
    block ← lift (ReadPieceBlockFromFile (files_ m) (Z.to_nat (rr_piece_index req))
                                         (rr_begin req) (rr_length req) (disk w));
    peer ← lift (opt_ub (rr_peer req));
    _ ← OnBlockReadyToSend peer (rr_piece_index req) (rr_begin req) block;
    UnbindUpload (rr_piece_index req).

(** The lambda of [DownloadPiece]. *)
Definition run_download (req : WriteRequest) : M unit :=
  w ← get_st;
  let req := mkWriteRequest (wr_peer req) (wr_piece_index req) (sort_blocks (wr_piece req)) in
  valid ← lift (ArePieceValid (meta_pieces_ w) req);
  _ ← (if (valid : bool) then
         f ← lift (WritePieceToFile (files_ (file_manager_ w)) (wr_piece req) (disk w));
         _ ← modify (fun w => set_disk w f);
         SetPiece (wr_piece_index req)
       else mret tt);
  UnbindRequest (wr_piece_index req).

(** ** Jobs and events *)

Definition cancel_operation (c : PeerClient B) : PeerClient B := set_timeout c None.

Definition run_job (i : nat) (j : Job) : M unit :=
  match j with
  | JConnect => modify_client i (fun c => set_connecting c (S (connecting c)))
  | JAwait k => modify_client i (fun c => set_timeout c (Some k))
  | JCancelOperation => modify_client i cancel_operation
  | JVerifyHandshake v => verify_handshake i v
  | JWrite msg k => modify_client i (fun c => set_writes c (pending_writes c ++ [k]) (wire c ++ msg))
  | JRead size k => modify_client i (fun c => set_reads c (pending_reads c ++ [(size, k)]))
  | JPieceTimeout =>
      c ← get_client i;
      match active_piece_ c with
      | Some (p, _) =>
          _ ← UnbindRequest (index p);
          _ ← TryToRequestAgain;
          when (negb (IsRemoteChoked c)) (cancel_piece i (index p))
      | None => mret tt
      end
  | JClearAndTry =>
      _ ← modify_client i (fun c => set_active_piece c None); TryToRequestPiece i
  | JTryToRequest => TryToRequestPiece i
  | JCancelPiece id => run_cancel_piece i id
  | JCancelIfActive piece_id =>
      c ← get_client i;
      match active_piece_ c with
      | Some (p, _) =>
          if index p =? piece_id then _ ← cancel_piece i piece_id; TryToRequestPiece i else mret tt
      | None => mret tt
      end
  | JChoked => run_choked i
  | JBlock index begin data => run_block i index begin data
  end.

(** What may happen next.  [EvAccept] is the listener handing over a connection
    whose handshake names the torrent (Listener.cpp), [EvDial] one of the peers
    of [InitiateJob].  The events of the network and of the timers come
    from outside; a failed operation ends in [error_callback] or, while
    connecting, in [try_again_connect] (without [stop_await] when it is the name
    that could not be resolved). *)
Inductive event :=
  | EvRun (i : nat)
  | EvConnected (i : nat)
  | EvConnectFailed (i : nat) (resolved : bool)
  | EvWritten (i : nat)
  | EvWriteFailed (i : nat)
  | EvRead (i : nat) (data : bytes)
  | EvReadFailed (i : nat)
  | EvTimeout (i : nat)
  | EvKeepAlive (i : nat)
  | EvPieceTimeout (i : nat)
  | EvWorker
  | EvAccept (i : nat) (p : Peer B) (handshake : bytes)
  | EvDial (i : nat) (p : Peer B).

Definition stop_await (i : nat) : M unit := modify_client i (fun c => set_timeout c None).

Definition keep_alive_fired (i : nat) : M unit :=
  _ ← modify_client i (fun c => set_keep_alive c false);
  c ← get_client i;
  if IsClientInterested c || negb (IsRemoteChoked c) then
    _ ← send_keep_alive i;
    c ← get_client i;
    when (IsClientInterested c) (TryToRequestPiece i)
  else mret tt.

Definition new_object (i : nat) (p : Peer B) : M unit := fun w =>
  match clients w !! i with
  | Some _ => UB
  | None => Ok (tt, set_clients w (<[i := new_client p]> (clients w)))
  end.

(** [None]: the event cannot happen now. *)
Definition handle_event (e : event) (w : World B) : option (outcome (unit * World B)) :=
  let on i (f : PeerClient B → option (M unit)) :=
    c ← clients w !! i; m ← f c; Some (m w) in
  match e with
  | EvRun i => on i (fun c =>
      match strand c with
      | j :: js => Some (_ ← modify_client i (fun c => set_strand c js); run_job i j)
      | [] => None
      end)
  | EvConnected i => on i (fun c =>
      match connecting c with
      | S n => Some (_ ← modify_client i (fun c => set_connecting c n);
                     _ ← stop_await i; send_handshake i)
      | O => None
      end)
  | EvConnectFailed i resolved => on i (fun c =>
      match connecting c with
      | S n => Some (_ ← modify_client i (fun c => set_connecting c n);
                     _ ← when resolved (stop_await i); try_again_connect i)
      | O => None
      end)
  | EvWritten i => on i (fun c =>
      match pending_writes c with
      | k :: ks => Some (
          _ ← modify_client i (fun c => set_writes c ks (wire c));
          match k with
          | WRemind => remind_about_self i
          | WAccess => access i
          | WReadHandshake =>
              _ ← Read i (Z.of_nat handshake_length) RHandshake; Await i ACancel
          end)
      | [] => None
      end)
  | EvWriteFailed i => on i (fun c =>
      match pending_writes c with
      | k :: ks => Some (
          _ ← modify_client i (fun c => set_writes c ks (wire c));
          match k with WReadHandshake => try_again_connect i | _ => Disconnect i end)
      | [] => None
      end)
  | EvRead i data => on i (fun c =>
      match pending_reads c with
      | (size, k) :: rs =>
          if bool_decide (Z.of_nat (length data) = size) then Some (
            _ ← modify_client i (fun c => set_reads c rs);
            _ ← stop_await i;
            match k with
            | RHeader => on_header i data
            | RBody => on_body i data
            | RHandshake => on_handshake i data
            end)
          else None
      | [] => None
      end)
  | EvReadFailed i => on i (fun c =>
      match pending_reads c with
      | (_, k) :: rs => Some (
          _ ← modify_client i (fun c => set_reads c rs);
          _ ← stop_await i;
          match k with RHandshake => try_again_connect i | _ => Disconnect i end)
      | [] => None
      end)
  | EvTimeout i => on i (fun c =>
      match timeout_ c with
      | Some k => Some (
          _ ← modify_client i cancel_operation;
          match k with ADisconnect => Disconnect i | ACancel => mret tt end)
      | None => None
      end)
  | EvKeepAlive i => on i (fun c => if keep_alive_timeout_ c then Some (keep_alive_fired i) else None)
  | EvPieceTimeout i => on i (fun c =>
      if piece_wait_timeout_ c then Some (
        _ ← modify_client i (fun c => set_piece_wait c false); Post i JPieceTimeout)
      else None)
  | EvWorker =>
      '(j, _, a) ← run_round (a_worker_ (file_manager_ w));
      Some (match j with UploadJob req => run_upload req | DownloadJob req => run_download req end
              (set_manager w (set_worker (file_manager_ w) a)))
  | EvAccept i p v =>
      match clients w !! i, slice v 28 20 with
      | None, Ok info_hash =>
          if bool_decide (length v = handshake_length) && bool_decide (info_hash = info_hash_ w) then
            Some ((_ ← new_object i p; Subscribe i (Some v)) w)
          else None
      | _, _ => None
      end
  | EvDial i p =>
      match clients w !! i with
      | None => Some ((_ ← new_object i p; Subscribe i None) w)
      | Some _ => None
      end
  end.

Inductive step : World B → World B → Prop :=
  | step_event w e w' : handle_event e w = Some (Ok (tt, w')) → step w w'.

(** The state the constructor of the torrent leaves. *)
Definition initial (pieces info_hash : bytes) (p : Peer B) (s : Strategy) (t : TorrentFiles) (f : fsys)
    (random : list Z) : World B :=
  mkWorld pieces info_hash (new_master p (piece_count_of pieces) info_hash) ∅ s 0
          (mkManager t ∅ (Start new_worker)) f random.

Inductive reachable (w0 : World B) : World B → Prop :=
  | reachable_refl : reachable w0 w0
  | reachable_step w w' : reachable w0 w → step w w' → reachable w0 w'.
End PeerClient.
