(* ===== verification/PeerFacts.v ===== *)
(** * What the peer protocol does: messages, requests, choices

    Functional behaviour of the handlers of PeerClient.v on one client: the
    frames they send, the requests that tile a piece, the piece they choose. *)

From Stdlib Require Import ZArith Lia Strings.Byte Strings.String.
From coqutil Require Import Byte Word.LittleEndianList.
From S2P Require Import Prelude Bytes Streams Worker Bencode Text Piece Files.
From S2P Require Import Bitset Bitfield Message Peer World PeerClient.

(** ** One client of a world *)

Section OneClient.
Context {B : Type} `{DynamicBitset B} `{Host}.
Implicit Types (w : World B) (c : PeerClient B).

Definition put (i : nat) c w : World B := set_clients w (<[i := c]> (clients w)).

Definition posted c (js : list Job) : PeerClient B := set_strand c (strand c ++ js).

Lemma put_put i c c' w : put i c' (put i c w) = put i c' w.
Proof. unfold put, set_clients. cbn. by rewrite insert_insert_eq. Qed.

Lemma put_same i c w : clients w !! i = Some c → put i c w = w.
Proof. intros E. unfold put. rewrite insert_id by done. by destruct w. Qed.

Lemma get_client_put i c w : get_client i (put i c w) = Ok (c, put i c w).
Proof. unfold get_client, put. cbn. by rewrite lookup_insert_eq. Qed.

Lemma modify_client_put i f c w : modify_client i f (put i c w) = Ok (tt, put i (f c) w).
Proof.
  unfold modify_client, put, set_clients. cbn. rewrite lookup_insert_eq. cbn. by rewrite insert_insert_eq.
Qed.

Lemma Post_put i j c w : Post i j (put i c w) = Ok (tt, put i (posted c [j]) w).
Proof. apply modify_client_put. Qed.

Lemma posted_posted c js js' : posted (posted c js) js' = posted c (js ++ js').
Proof. unfold posted, set_strand. cbn. by rewrite app_assoc. Qed.

Lemma posted_nil c : posted c [] = c.
Proof. unfold posted, set_strand. rewrite app_nil_r. by destruct c. Qed.

(** A frame on the wire: the length of the body, then the body. *)
Definition frame (body : bytes) : bytes := be_split 4 (Z.of_nat (length body)) ++ body.

Definition connected c : Prop := is_disconnected c = false.

Lemma send_msg_put i m body c w :
  connected c → sm_data m = replicate header_length x00 ++ body → Z.of_nat (length body) < 2 ^ 32 →
  send_msg i m (put i c w) = Ok (tt, put i (posted c [JWrite (frame body) WRemind]) w).
Proof.
  intros Hc Hd Hl. unfold send_msg. erewrite st_bind_Ok by apply get_client_put. rewrite Hc.
  erewrite st_bind_Ok by (unfold lift; rewrite (EncodeHeader_frame m body Hd Hl); reflexivity).
  apply Post_put.
Qed.

Lemma send_msg_disconnected i m c w :
  is_disconnected c = true → send_msg i m (put i c w) = Ok (tt, put i c w).
Proof. intros Hc. unfold send_msg. erewrite st_bind_Ok by apply get_client_put. by rewrite Hc. Qed.

(** The bytes a typed message is made of. *)
Lemma peer_msg_type t :
  sm_data (put_type peer_msg t) = replicate header_length x00 ++ [byte.of_Z (type_id t)].
Proof.
  unfold put_type. rewrite put_value_bytes. cbn [CopyFrom sm_data sm_order peer_msg SendingPeerMessage].
  by destruct t.
Qed.

Lemma put_type_order t : sm_order (put_type peer_msg t) = BigEndian.
Proof. unfold put_type. by rewrite put_value_bytes. Qed.

Definition body_of (t : PEER_MESSAGE_TYPE) (fs : list (nat * Z)) : bytes :=
  byte.of_Z (type_id t) :: concat (map (fun '(sz, v) => be_split sz v) fs).

Lemma peer_msg_fields t fs :
  sm_data (put_fields (put_type peer_msg t) fs) = replicate header_length x00 ++ body_of t fs.
Proof.
  destruct (put_fields_data (put_type peer_msg t) fs) as [-> _].
  rewrite put_type_order, peer_msg_type. by rewrite <- app_assoc.
Qed.

Lemma length_body_of t fs : length (body_of t fs) = S (list_sum (map fst fs)).
Proof.
  unfold body_of. cbn [length]. f_equal. induction fs as [|[sz v] fs IH]; [done|].
  cbn [map concat list_sum foldr fst]. rewrite length_app, length_be_split, IH. done.
Qed.

Definition request_frame (idx begin len : Z) : bytes :=
  frame (body_of request [(4%nat, u32 idx); (4%nat, u32 begin); (4%nat, u32 len)]).

Lemma send_request_put i idx begin len c w :
  connected c → send_request i idx begin len (put i c w)
    = Ok (tt, put i (posted c [JWrite (request_frame idx begin len) WRemind]) w).
Proof.
  intros Hc. unfold send_request. apply send_msg_put; [done|apply peer_msg_fields|].
  by rewrite length_body_of.
Qed.

(** ** The requests for a piece *)

(** How many whole blocks a batch of at most [n] requests. *)
Fixpoint full_rounds (n : nat) (piece_size : Z) : nat :=
  if piece_size >? most_request_size then
    match n with O => O | S n => S (full_rounds n (piece_size - most_request_size)) end
  else O.

(** The requests for [r] whole blocks from position [b] of piece [idx]. *)
Definition whole_requests (idx b : Z) (r : nat) : list Job :=
  map (fun k => JWrite (request_frame idx (b + Z.of_nat k * most_request_size) most_request_size) WRemind)
      (seq 0 r).

Lemma whole_requests_S idx b r :
  whole_requests idx b (S r) =
    JWrite (request_frame idx b most_request_size) WRemind
      :: whole_requests idx (b + most_request_size) r.
Proof.
  unfold whole_requests. cbn [seq map]. f_equal; [do 2 f_equal; lia|].
  rewrite <- seq_shift, map_map. apply map_ext. intros k. do 2 f_equal. lia.
Qed.

Lemma full_rounds_le n ps : 0 < ps → Z.of_nat (full_rounds n ps) * most_request_size < ps.
Proof.
  revert ps. induction n as [|n IH]; intros ps Hps; cbn [full_rounds];
    destruct (Z.gtb_spec ps most_request_size) as [Hg|Hg]; try (cbn; lia).
  specialize (IH (ps - most_request_size) ltac:(lia)). lia.
Qed.

Lemma request_loop_put n i ps p b c w :
  connected c → active_piece_ c = Some (p, b) → 0 ≤ b → 0 < ps → b + ps < 2 ^ 64 →
  let r := full_rounds n ps in
  let ps' := ps - Z.of_nat r * most_request_size in
  request_loop n i ps (put i c w) =
    Ok ((ps', if ps' >? most_request_size then -1 else Z.of_nat n - Z.of_nat r),
        put i (set_active_piece (posted c (whole_requests (index p) b r))
                 (Some (p, b + Z.of_nat r * most_request_size))) w).
Proof.
  revert ps b c. induction n as [|n IH]; intros ps b c Hc Ha Hb Hps Hbound; cbn [request_loop full_rounds].
  all: destruct (Z.gtb_spec ps most_request_size) as [Hg|Hg]; cbv zeta iota.
  - rewrite Z.sub_0_r, Z.add_0_r. destruct (Z.gtb_spec ps most_request_size); [|lia].
    unfold mret, ST_ret. do 3 f_equal. cbn [whole_requests seq map]. rewrite posted_nil.
    unfold set_active_piece. rewrite <- Ha. by destruct c.
  - rewrite Z.sub_0_r, Z.add_0_r. destruct (Z.gtb_spec ps most_request_size); [lia|].
    unfold mret, ST_ret. do 3 f_equal. cbn [whole_requests seq map]. rewrite posted_nil.
    unfold set_active_piece. rewrite <- Ha. by destruct c.
  - erewrite st_bind_Ok; [|unfold active; erewrite st_bind_Ok by apply get_client_put;
      rewrite Ha; reflexivity]. cbv iota.
    erewrite st_bind_Ok by (by apply send_request_put).
    erewrite st_bind_Ok by apply modify_client_put. cbn [active_piece_ posted set_strand].
    rewrite Ha. set (F := full_rounds n (ps - most_request_size)).
    rewrite (IH _ (u64 (b + most_request_size))); clear IH; fold F.
    + rewrite u64_small by (unfold most_request_size in *; lia).
      replace (ps - Z.of_nat (S F) * most_request_size)
        with (ps - most_request_size - Z.of_nat F * most_request_size) by lia.
      replace (Z.of_nat (S n) - Z.of_nat (S F)) with (Z.of_nat n - Z.of_nat F) by lia.
      do 2 f_equal. rewrite whole_requests_S. f_equal. unfold posted, set_active_piece, set_strand. cbn.
      rewrite <- app_assoc. cbn. f_equal. do 2 f_equal. lia.
    + done.
    + done.
    + rewrite u64_small; unfold most_request_size in *; lia.
    + lia.
    + rewrite u64_small; unfold most_request_size in *; lia.
  - rewrite Z.sub_0_r, Z.add_0_r. destruct (Z.gtb_spec ps most_request_size); [lia|].
    replace (Z.of_nat (S n) - Z.of_nat 0) with (Z.of_nat (S n)) by lia.
    unfold mret, ST_ret. do 2 f_equal. cbn [whole_requests seq map]. rewrite posted_nil.
    unfold set_active_piece. rewrite <- Ha. by destruct c.
Qed.

(** Consecutive ranges of at most one block from [b] to [e]. *)
Fixpoint tiles (b : Z) (l : list (Z * Z)) (e : Z) : Prop :=
  match l with
  | [] => b = e
  | (begin, len) :: l => begin = b ∧ 0 < len ≤ most_request_size ∧ tiles (b + len) l e
  end.

Definition requests (idx : Z) (l : list (Z * Z)) : list Job :=
  map (fun '(begin, len) => JWrite (request_frame idx begin len) WRemind) l.

Definition whole_blocks (b : Z) (r : nat) : list (Z * Z) :=
  map (fun k => (b + Z.of_nat k * most_request_size, most_request_size)) (seq 0 r).

Lemma whole_requests_blocks idx b r : whole_requests idx b r = requests idx (whole_blocks b r).
Proof. unfold whole_requests, requests, whole_blocks. by rewrite map_map. Qed.

Lemma whole_blocks_S b r :
  whole_blocks b (S r) = (b, most_request_size) :: whole_blocks (b + most_request_size) r.
Proof.
  unfold whole_blocks. cbn [seq map]. f_equal; [f_equal; lia|].
  rewrite <- seq_shift, map_map. apply map_ext. intros k. f_equal. lia.
Qed.

Lemma tiles_app b l1 m l2 e : tiles b l1 m → tiles m l2 e → tiles b (l1 ++ l2) e.
Proof.
  revert b. induction l1 as [|[x len] l1 IH]; intros b; cbn; [by intros ->|].
  intros (-> & Hl & Ht) H2. split_and!; [done|lia|lia|]. by apply IH.
Qed.

Lemma tiles_whole b r : tiles b (whole_blocks b r) (b + Z.of_nat r * most_request_size).
Proof.
  revert b. induction r as [|r IH]; intros b; [cbn; lia|].
  rewrite whole_blocks_S. cbn [tiles]. specialize (IH (b + most_request_size)).
  unfold most_request_size in *. split_and!; [done|lia|lia|].
  replace (b + Z.of_nat (S r) * 16384) with (b + 16384 + Z.of_nat r * 16384) by lia. done.
Qed.

(** A batch that is not cut off ends with the remainder. *)
Lemma full_rounds_small n ps :
  0 < ps ≤ Z.of_nat n * most_request_size →
  (full_rounds n ps < n)%nat ∧ ps - Z.of_nat (full_rounds n ps) * most_request_size ≤ most_request_size ∧
  Z.of_nat (full_rounds n ps) = block_count_of ps - 1.
Proof.
  revert ps. induction n as [|n IH]; intros ps Hps; [unfold most_request_size in *; lia|].
  cbn [full_rounds]. unfold block_count_of, most_request_size in *.
  destruct (Z.gtb_spec ps 16384) as [Hg|Hg].
  - destruct (IH (ps - 16384) ltac:(lia)) as (H1 & H2 & H3). split; [lia|]. split; [lia|].
    replace (ps + 16384 - 1) with (ps - 16384 + 16384 - 1 + 1 * 16384) by lia.
    rewrite Z.div_add by lia. lia.
  - split; [lia|]. split; [lia|]. replace (ps + 16384 - 1) with (ps - 1 + 1 * 16384) by lia.
    rewrite Z.div_add, Z.div_small by lia. lia.
Qed.

Lemma full_rounds_cut n ps :
  Z.of_nat n * most_request_size < ps → full_rounds n ps = n.
Proof.
  revert ps. induction n as [|n IH]; intros ps Hps; cbn [full_rounds].
  - by destruct (Z.gtb_spec ps most_request_size).
  - unfold most_request_size in *. destruct (Z.gtb_spec ps 16384); [|lia]. f_equal. apply IH. lia.
Qed.

(** The blocks a piece of [ps] bytes is asked for in, from position [b] on. *)
Definition block_tiles (b ps : Z) : list (Z * Z) :=
  let r := Z.to_nat (block_count_of ps - 1) in
  whole_blocks b r ++ [(b + Z.of_nat r * most_request_size, ps - Z.of_nat r * most_request_size)].

Lemma block_count_bounds ps :
  0 < ps → 0 ≤ block_count_of ps - 1 ∧
  0 < ps - (block_count_of ps - 1) * most_request_size ≤ most_request_size.
Proof.
  intros Hps. unfold block_count_of, most_request_size.
  replace (ps + 16384 - 1) with (ps - 1 + 1 * 16384) by lia. rewrite Z.div_add by lia.
  pose proof (Z.div_mod (ps - 1) 16384 ltac:(lia)). pose proof (Z.mod_pos_bound (ps - 1) 16384 ltac:(lia)).
  assert (0 ≤ (ps - 1) / 16384) by (apply Z.div_pos; lia). lia.
Qed.

Lemma length_block_tiles b ps : 0 < ps → Z.of_nat (length (block_tiles b ps)) = block_count_of ps.
Proof.
  intros Hps. pose proof (block_count_bounds ps Hps). unfold block_tiles, whole_blocks.
  rewrite length_app, length_map, length_seq. cbn [length]. lia.
Qed.

Lemma tiles_block_tiles b ps : 0 < ps → tiles b (block_tiles b ps) (b + ps).
Proof.
  intros Hps. destruct (block_count_bounds ps Hps) as [Hn Hr]. eapply tiles_app; [apply tiles_whole|].
  rewrite Z2Nat.id by done. cbn [tiles]. split_and!; lia.
Qed.

(** The client when a piece has been asked for from position [b] on. *)
Definition asked c (p : Piece) (b ps : Z) : PeerClient B :=
  set_piece_wait (set_active_piece (posted c (requests (index p) (block_tiles b ps))) (Some (p, b + ps))) true.

(** A batch for a piece of at most 150 blocks asks for all of it. *)
Lemma request_blocks_all i ps p b c w :
  connected c → active_piece_ c = Some (p, b) → 0 ≤ b → b + ps < 2 ^ 64 →
  0 < ps ≤ REQUEST_MAX_QUEUE_SIZE * most_request_size →
  request_blocks i ps (put i c w) = Ok (tt, put i (asked c p b ps) w).
Proof.
  intros Hc Ha Hb Hbound Hps. destruct (full_rounds_small 150 ps) as (Hr & Hrem & Hcount); [exact Hps|].
  set (r := full_rounds 150 ps) in *. set (rem := ps - Z.of_nat r * most_request_size) in *.
  pose proof (full_rounds_le 150 ps ltac:(lia)) as Hpos. fold r in Hpos.
  assert (block_tiles b ps = whole_blocks b r ++ [(b + Z.of_nat r * most_request_size, rem)]) as Etiles.
  { unfold block_tiles. rewrite <- Hcount, Nat2Z.id. done. }
  unfold request_blocks. change (Z.to_nat REQUEST_MAX_QUEUE_SIZE) with 150%nat.
  erewrite st_bind_Ok by (apply request_loop_put; try done; lia). cbv iota zeta. fold r. fold rem.
  destruct (Z.gtb_spec rem most_request_size) as [|_]; [lia|]. unfold when.
  destruct (Z.gtb_spec (Z.of_nat 150 - Z.of_nat r) 0) as [_|]; [|lia].
  set (c1 := set_active_piece _ _).
  erewrite st_bind_Ok.
  2:{ erewrite st_bind_Ok by (unfold active; erewrite st_bind_Ok by apply get_client_put; reflexivity).
      cbv iota. erewrite st_bind_Ok by (by apply send_request_put). apply modify_client_put. }
  unfold wait_piece. rewrite modify_client_put. do 3 f_equal.
  subst c1. cbn [active_piece_ posted set_strand set_active_piece].
  rewrite u64_small by (subst rem; unfold most_request_size in *; lia).
  unfold asked. rewrite Etiles, whole_requests_blocks. unfold requests. rewrite map_app. subst rem.
  unfold set_piece_wait, posted, set_active_piece, set_strand. cbn.
  rewrite <- app_assoc. do 2 f_equal. f_equal. lia.
Qed.

(** A larger piece gets 150 whole blocks and no more. *)
Lemma request_blocks_cut i ps p b c w :
  connected c → active_piece_ c = Some (p, b) → 0 ≤ b → b + ps < 2 ^ 64 →
  REQUEST_MAX_QUEUE_SIZE * most_request_size < ps →
  request_blocks i ps (put i c w) = Ok (tt, put i (set_piece_wait
    (set_active_piece (posted c (requests (index p) (whole_blocks b 150)))
       (Some (p, b + REQUEST_MAX_QUEUE_SIZE * most_request_size))) true) w).
Proof.
  intros Hc Ha Hb Hbound Hps. unfold request_blocks. change (Z.to_nat REQUEST_MAX_QUEUE_SIZE) with 150%nat.
  erewrite st_bind_Ok by (apply request_loop_put; unfold REQUEST_MAX_QUEUE_SIZE, most_request_size in *; try done; lia).
  cbv iota zeta. rewrite (full_rounds_cut 150 ps) by exact Hps. unfold when.
  match goal with |- context [(if ?x >? 0 then _ else _)] =>
    assert ((x >? 0) = false) as -> end.
  { destruct (_ >? most_request_size); done. }
  erewrite st_bind_Ok by reflexivity. unfold wait_piece. rewrite modify_client_put.
  by rewrite whole_requests_blocks.
Qed.
(** Batch after batch, each from where the one before it ended. *)
Lemma request_batches i ps p w m s b c :
  connected c → active_piece_ c = Some (p, b) → 0 ≤ b →
  REQUEST_MAX_QUEUE_SIZE * most_request_size < ps →
  b + Z.of_nat m * (REQUEST_MAX_QUEUE_SIZE * most_request_size) + ps < 2 ^ 64 →
  ∃ c', for_each (seq s m) (fun _ => request_blocks i ps) (put i c w) = Ok (tt, put i c' w) ∧
    connected c' ∧ active_piece_ c' = Some (p, b + Z.of_nat m * (REQUEST_MAX_QUEUE_SIZE * most_request_size)).
Proof.
  intros Hc Ha Hb Hps Hbound. revert s b c Hc Ha Hb Hbound.
  induction m as [|m IH]; intros s b c Hc Ha Hb Hbound; cbn [seq for_each].
  - exists c. by rewrite Z.add_0_r.
  - assert (0 ≤ Z.of_nat m * (REQUEST_MAX_QUEUE_SIZE * most_request_size))
      by (apply Z.mul_nonneg_nonneg; [lia|done]).
    erewrite st_bind_Ok by (apply (request_blocks_cut i ps p b); try done;
      unfold REQUEST_MAX_QUEUE_SIZE, most_request_size in *; lia).
    cbv beta. edestruct (IH (S s) (b + REQUEST_MAX_QUEUE_SIZE * most_request_size)) as (c' & E & Hc' & Ha');
      [..|exists c'; split; [exact E|split; [exact Hc'|]]].
    + exact Hc.
    + reflexivity.
    + unfold REQUEST_MAX_QUEUE_SIZE, most_request_size. lia.
    + lia.
    + rewrite Ha'. do 2 f_equal. lia.
Qed.
End OneClient.

(** ** The choice of a piece *)

Section Choice.
Context {B : Type} `{DynamicBitsetLaws B} `{Host}.
Implicit Types (w : World B) (c : PeerClient B) (m : MasterPeer B).

(** A piece the neighbour has, we lack, and (unless the end game has begun)
    nobody was asked for. *)
Definition eligible w (neigh : B) (n : nat) : Prop :=
  (n < Size (bitfield_ (as_peer (master_peer_ w))))%nat ∧
  db_test (bitfield_ (as_peer (master_peer_ w))) n = false ∧ db_test neigh n = true ∧
  (end_game_ (strategy_ w) = true ∨ Z.of_nat n ∉ requested_pieces_ (master_peer_ w)).

Lemma collect_pieces_spec (a : B) m e l :
  (∀ n, n ∈ l → (n < Size a)%nat ∧ Z.of_nat n < 2 ^ 32) →
  ∃ ids, collect_pieces a m e l = Ok ids ∧ ∀ k, k ∈ ids ↔ ∃ n, k = Z.of_nat n ∧ n ∈ l ∧
    db_test a n = true ∧ (e = true ∨ k ∉ requested_pieces_ m).
Proof.
  induction l as [|n l IH]; intros Hl; cbn [collect_pieces].
  { exists []. split; [done|]. intros k. split; [by intros ?%not_elem_of_nil|].
    by intros (n & _ & ?%not_elem_of_nil & _). }
  destruct (Hl n ltac:(by left)) as [Hn H32]. rewrite (Test_in a n Hn). cbn [mbind outcome_bind].
  destruct IH as (ids & -> & Hids); [by intros; apply Hl; right|]. cbn [mbind outcome_bind].
  eexists. split; [done|]. intros k. rewrite u32_small by lia. unfold IsPieceRequested.
  destruct (db_test a n && (e || negb (bool_decide (Z.of_nat n ∈ requested_pieces_ m)))) eqn:E.
  - apply andb_true_iff in E as [Et Ee]. rewrite elem_of_cons, Hids. split.
    + intros [->|(n' & ? & ? & ?)]; [|exists n'; split_and!; [done|by right|naive_solver..]].
      exists n. split_and!; [done|by left|done|]. apply orb_true_iff in Ee as [|Ee]; [by left|right].
      by apply negb_true_iff, bool_decide_eq_false in Ee.
    + intros (n' & -> & [->|Hin]%elem_of_cons & ?); [by left|right]. by exists n'.
  - rewrite Hids. split; intros (n' & -> & Hin & Ht & He).
    + exists n'. split_and!; [done|by right|done|done].
    + exists n'. apply elem_of_cons in Hin as [->|Hin]; [|done]. exfalso. rewrite Ht in E. cbn in E.
      apply orb_false_iff in E as [-> E]. apply negb_false_iff, bool_decide_eq_true in E.
      destruct He as [|He]; done.
Qed.

(** The world after a choice: only the requested set and the generator change. *)
Definition chosen_world w (k : Z) (rs : list Z) : World B :=
  let w := set_random w rs in
  if end_game_ (strategy_ w) then w else set_master w (MarkRequestedPiece (master_peer_ w) k).

(** *** The two strategies

    The plain one is the optimal one outside the end game. *)

Lemma BittorrentStrategy_ChoosePiece_eq (neigh : Peer B) :
  BittorrentStrategy_ChoosePiece neigh = OptimalStrategy_ChoosePiece false neigh.
Proof. reflexivity. Qed.

Lemma ChoosePiece_any (neigh : Peer B) w :
  ChoosePiece neigh w = OptimalStrategy_ChoosePiece (end_game_ (strategy_ w)) neigh w.
Proof. unfold ChoosePiece. erewrite st_bind_Ok by reflexivity. by destruct (strategy_ w) as [|[]]. Qed.

Lemma OnPieceBlock_any i index begin data w :
  OnPieceBlock i index begin data w
    = OptimalStrategy_OnPieceBlock (end_game_ (strategy_ w)) i index begin data w.
Proof. unfold OnPieceBlock. erewrite st_bind_Ok by reflexivity. by destruct (strategy_ w) as [|[]]. Qed.

Lemma ChoosePiece_spec (neigh : Peer B) w :
  Size (bitfield_ neigh) = Size (bitfield_ (as_peer (master_peer_ w))) →
  Z.of_nat (Size (bitfield_ neigh)) < 2 ^ 32 →
  match ChoosePiece neigh w with
  | Ok (Some k, w') => ∃ n, k = Z.of_nat n ∧ eligible w (bitfield_ neigh) n ∧ w' = chosen_world w k (tail (random_ w))
  | Ok (None, w') => w' = w ∧ ∀ n, ¬ eligible w (bitfield_ neigh) n
  | NoFuel => random_ w = []
  | _ => False
  end.
Proof.
  intros Hs H32. set (m := master_peer_ w) in *. rewrite ChoosePiece_any. set (e := end_game_ (strategy_ w)).
  unfold OptimalStrategy_ChoosePiece. erewrite st_bind_Ok by reflexivity. fold m.
  destruct (Mismatched_Ok (bitfield_ (as_peer m)) (bitfield_ neigh) (eq_sym Hs)) as (a & Ea & Hsa & Ht).
  erewrite st_bind_Ok by (unfold lift; rewrite Ea; reflexivity). cbv iota.
  assert (∀ n, eligible w (bitfield_ neigh) n ↔
    (n < Size a)%nat ∧ db_test a n = true ∧ (e = true ∨ Z.of_nat n ∉ requested_pieces_ m)) as Hel.
  { intros n. unfold eligible. fold m e. rewrite Hsa. split.
    - intros (Hn & Ho & Hg & Hr). split_and!; [done| |done]. by rewrite Ht, Ho, Hg.
    - intros (Hn & Hta & Hr). rewrite Ht in Hta by done. apply andb_true_iff in Hta as [Ho Hg].
      apply negb_true_iff in Ho. done. }
  destruct (Nat.eqb_spec (Popcount a) 0) as [Hz|_].
  { unfold mret, ST_ret. split; [done|]. intros n (Hn & Hta & _)%Hel.
    pose proof (proj1 (Popcount_zero a) Hz n Hn). congruence. }
  destruct (collect_pieces_spec a m e (seq 0 (Size a))) as (ids & Eids & Hids).
  { intros n Hn. apply list_elem_of_In, in_seq in Hn. rewrite Hsa in *. lia. }
  erewrite st_bind_Ok by (unfold lift; rewrite Eids; reflexivity).
  assert (∀ n, eligible w (bitfield_ neigh) n ↔ Z.of_nat n ∈ ids) as Hin.
  { intros n. rewrite Hel, Hids. split.
    - intros (Hn & ? & ?). exists n. split_and!; [done|apply list_elem_of_In, in_seq; lia|done|done].
    - intros (n' & ->%Nat2Z.inj & Hn%list_elem_of_In%in_seq & ? & ?). split; [lia|done]. }
  destruct ids as [|i0 ids']; [unfold mret, ST_ret; split; [done|]; intros n Hn;
    by apply Hin, not_elem_of_nil in Hn|].
  set (l := i0 :: ids') in *. destruct (random_ w) as [|r rs] eqn:Er.
  { unfold mbind, ST_bind, GetNumberBetween. rewrite Er. done. }
  erewrite st_bind_Ok by (unfold GetNumberBetween; rewrite Er; reflexivity).
  assert (0 < Z.of_nat (length l)) as Hlen by (subst l; cbn; lia).
  replace (Z.of_nat (length l) - 1 - 0 + 1) with (Z.of_nat (length l)) by lia.
  pose proof (Z.mod_pos_bound r _ Hlen) as Hmod. rewrite Z.add_0_l.
  destruct (lookup_lt_is_Some_2 l (Z.to_nat (r mod Z.of_nat (length l))) ltac:(lia)) as [k Hk].
  erewrite st_bind_Ok by (unfold lift; rewrite Hk; reflexivity).
  assert (k ∈ l) as Hkl by (by eapply list_elem_of_lookup_2).
  destruct (proj1 (Hids k) Hkl) as (n & -> & _).
  assert ((when (negb e) (BindRequest (Z.of_nat n)) ≫= λ _, mret (Some (Z.of_nat n))) (set_random w rs)
    = Ok (Some (Z.of_nat n), chosen_world w (Z.of_nat n) rs)) as ->.
  { unfold chosen_world. cbn [strategy_ set_random]. fold e. by destruct e. }
  exists n. split; [done|]. split; [by apply Hin|done].
Qed.

(** ** A fresh piece *)

(** The size of a piece as [TryToRequestPiece] and [cancel_piece] compute it. *)
Definition psize w (idx : Z) : Z :=
  if idx =? u64 (Z.of_nat (piece_count_of (meta_pieces_ w)) - 1)
  then last_piece_size_ (files_ (file_manager_ w)) else piece_size_ (files_ (file_manager_ w)).

Lemma piece_size_of_spec idx w : piece_size_of idx w = Ok (psize w idx, w).
Proof. unfold piece_size_of, psize. erewrite st_bind_Ok by reflexivity. by destruct (_ =? _). Qed.

Definition interested_job : Job := JWrite (frame (body_of interested [])) WRemind.

Lemma send_interested_put i c w :
  connected c → send_interested i (put i c w) = Ok (tt,
    put i (posted (set_status c (u8 (Z.lor (status_ c) am_interested))) [interested_job]) w).
Proof.
  intros Hc. unfold send_interested. erewrite st_bind_Ok by apply modify_client_put.
  apply send_msg_put; [done| |done]. apply (peer_msg_fields interested []).
Qed.

(** What requesting a fresh piece [n] of [sz] bytes does to a client. *)
Definition requested_client (c c' : PeerClient B) (n : nat) (sz : Z) : Prop :=
  ∃ l pre, tiles 0 l sz ∧ Z.of_nat (length l) = block_count_of sz ∧
    active_piece_ c' = Some (new_piece (Z.of_nat n) (block_count_of sz), sz) ∧
    strand c' = strand c ++ pre ++ requests (Z.of_nat n) l ∧
    pre = (if IsClientInterested c then [] else [interested_job]) ∧
    piece_wait_timeout_ c' = true.

(** A client that tells the other side it is interested, unless it has. *)
Definition interested_client c : PeerClient B :=
  if IsClientInterested c then c
  else posted (set_status c (u8 (Z.lor (status_ c) am_interested))) [interested_job].

Lemma interested_client_put i c w :
  connected c → when (negb (IsClientInterested c)) (send_interested i) (put i c w)
    = Ok (tt, put i (interested_client c) w).
Proof. intros Hc. unfold interested_client. destruct (IsClientInterested c); [done|]. by apply send_interested_put. Qed.

Lemma interested_client_connected c : connected c → connected (interested_client c).
Proof. unfold interested_client. by destruct (IsClientInterested c). Qed.

(** The client when the fresh piece [n] of [sz] bytes has been asked for. *)
Definition asking c (n : nat) (sz : Z) : PeerClient B :=
  let p := new_piece (Z.of_nat n) (block_count_of sz) in
  asked (set_active_piece (interested_client c) (Some (p, 0))) p 0 sz.

Lemma asking_requested c n sz : 0 < sz → requested_client c (asking c n sz) n sz.
Proof.
  intros Hsz. exists (block_tiles 0 sz), (if IsClientInterested c then [] else [interested_job]).
  split_and!; [by apply (tiles_block_tiles 0)|by apply length_block_tiles|done| |done|done].
  unfold asking, interested_client. destruct (IsClientInterested c); [done|]. cbn. by rewrite <- app_assoc.
Qed.

Lemma choose_total neigh w :
  Size (bitfield_ neigh) = Size (bitfield_ (as_peer (master_peer_ w))) →
  Z.of_nat (Size (bitfield_ neigh)) < 2 ^ 32 → random_ w ≠ [] →
  ∃ r w', ChoosePiece neigh w = Ok (r, w') ∧ match r with
  | Some k => ∃ n, k = Z.of_nat n ∧ eligible w (bitfield_ neigh) n ∧ w' = chosen_world w k (tail (random_ w))
  | None => w' = w ∧ ∀ n, ¬ eligible w (bitfield_ neigh) n
  end.
Proof.
  intros Hs H32 Hr. pose proof (ChoosePiece_spec neigh w Hs H32) as Hc.
  destruct (ChoosePiece neigh w) as [[r w']| | | |]; [|done..]. exists r, w'. split; [done|]. by destruct r.
Qed.

(** A new piece is asked for when there is one left and the peer lets us. *)
Definition may_request w c : bool :=
  negb (Z.of_nat (Popcount (bitfield_ (as_peer (master_peer_ w)))) =? Z.of_nat (piece_count_of (meta_pieces_ w)))
  && negb (IsRemoteChoked c).

Definition asked_fresh w c c' : Prop :=
  if may_request w c then
    (∃ n, eligible w (bitfield_ (slave_peer_ c)) n ∧ requested_client c c' n (psize w (Z.of_nat n)))
    ∨ (active_piece_ c' = None ∧ ∀ n, ¬ eligible w (bitfield_ (slave_peer_ c)) n)
  else active_piece_ c' = None ∧ ∀ idx b l, JWrite (request_frame idx b l) WRemind ∈ strand c' →
    JWrite (request_frame idx b l) WRemind ∈ strand c.

Lemma not_interested_not_request idx b l :
  JWrite (request_frame idx b l) WRemind ≠ JWrite (frame (body_of not_interested [])) WRemind.
Proof.
  intros [=].
Qed.

(** With pieces left and not choked, a client without a piece asks for one. *)
Lemma TryToRequestPiece_put i c w :
  connected c → active_piece_ c = None → may_request w c = true →
  Size (bitfield_ (slave_peer_ c)) = Size (bitfield_ (as_peer (master_peer_ w))) →
  Z.of_nat (Size (bitfield_ (slave_peer_ c))) < 2 ^ 32 → random_ w ≠ [] →
  (∀ n, eligible w (bitfield_ (slave_peer_ c)) n →
     0 < psize w (Z.of_nat n) ≤ REQUEST_MAX_QUEUE_SIZE * most_request_size) →
  (∃ n, eligible w (bitfield_ (slave_peer_ c)) n ∧
     TryToRequestPiece i (put i c w) = Ok (tt, put i (asking c n (psize w (Z.of_nat n)))
       (chosen_world w (Z.of_nat n) (tail (random_ w))))) ∨
  ((∀ n, ¬ eligible w (bitfield_ (slave_peer_ c)) n) ∧
   TryToRequestPiece i (put i c w) = Ok (tt, put i (interested_client c) w)).
Proof.
  intros Hc Ha [Hleft Hch]%andb_true_iff Hs H32 Hr Hps. apply negb_true_iff in Hleft, Hch.
  unfold TryToRequestPiece. erewrite st_bind_Ok by apply get_client_put. cbv beta. rewrite Ha.
  erewrite st_bind_Ok by reflexivity. erewrite st_bind_Ok by reflexivity.
  cbn [put set_clients master_peer_ meta_pieces_]. rewrite Hleft, Hch.
  erewrite st_bind_Ok by (by apply interested_client_put). cbv beta. set (c1 := interested_client c).
  destruct (choose_total (slave_peer_ c) (put i c1 w) Hs H32 Hr) as (r & w1 & Er & Hcho).
  erewrite st_bind_Ok by exact Er. destruct r as [k|]; [|right; destruct Hcho as [-> Hno]; done].
  destruct Hcho as (n & -> & Hel & ->). left. exists n. split; [exact Hel|].
  specialize (Hps n Hel). cbn [put set_clients random_]. set (rs := tail (random_ w)).
  assert (chosen_world (put i c1 w) (Z.of_nat n) rs = put i c1 (chosen_world w (Z.of_nat n) rs)) as ->
    by (unfold chosen_world, put; cbn; by destruct (end_game_ (strategy_ w))).
  erewrite st_bind_Ok by apply piece_size_of_spec. cbv beta.
  assert (psize (put i c1 (chosen_world w (Z.of_nat n) rs)) (Z.of_nat n) = psize w (Z.of_nat n)) as ->
    by (unfold psize, chosen_world; cbn; by destruct (end_game_ (strategy_ w))).
  erewrite st_bind_Ok by apply modify_client_put. cbv beta.
  rewrite (request_blocks_all i _ (new_piece (Z.of_nat n) (block_count_of (psize w (Z.of_nat n)))) 0);
    [done|by apply interested_client_connected|done|lia| |done].
  unfold REQUEST_MAX_QUEUE_SIZE, most_request_size in *. lia.
Qed.

Lemma TryToRequestPiece_fresh i c w :
  clients w !! i = Some c → connected c → active_piece_ c = None →
  Size (bitfield_ (slave_peer_ c)) = Size (bitfield_ (as_peer (master_peer_ w))) →
  Z.of_nat (Size (bitfield_ (slave_peer_ c))) < 2 ^ 32 → random_ w ≠ [] →
  (∀ idx, 0 < psize w idx ≤ REQUEST_MAX_QUEUE_SIZE * most_request_size) →
  ∃ w' c', TryToRequestPiece i w = Ok (tt, w') ∧ clients w' !! i = Some c' ∧ asked_fresh w c c'.
Proof.
  intros Hi Hc Ha Hs H32 Hr Hps. assert (TryToRequestPiece i w = TryToRequestPiece i (put i c w)) as -> by (by rewrite put_same).
  unfold asked_fresh. destruct (may_request w c) eqn:Hmay.
  - destruct (TryToRequestPiece_put i c w) as [(n & Hel & E)|[Hno E]]; try done; rewrite E;
      (eexists _, _; split; [done|]; split; [apply lookup_insert_eq|]).
    + left. exists n. split; [done|]. apply asking_requested, Hps.
    + right. split; [|done]. unfold interested_client. by destruct (IsClientInterested c).
  - unfold TryToRequestPiece. erewrite st_bind_Ok by apply get_client_put. cbv beta. rewrite Ha.
    erewrite st_bind_Ok by reflexivity. erewrite st_bind_Ok by reflexivity.
    cbn [put set_clients master_peer_ meta_pieces_]. unfold may_request in Hmay.
    destruct (_ =? _); cbn [negb andb] in Hmay.
    + unfold send_not_interested. erewrite st_bind_Ok by apply modify_client_put.
      erewrite send_msg_put; [|done|apply (peer_msg_fields not_interested [])|done].
      eexists _, _. split; [done|]. split; [apply lookup_insert_eq|]. split; [done|].
      intros idx b l [Hin|Hin%list_elem_of_singleton]%elem_of_app; [done|].
      by apply not_interested_not_request in Hin.
    + apply negb_false_iff in Hmay. rewrite Hmay.
      eexists _, _. split; [done|]. by split; [apply lookup_insert_eq|].
Qed.
End Choice.

(** ** Properties *)

(** C23: the piece chosen for a neighbour is one it has and we lack, which nobody
    else was asked for unless the end game has begun, and outside the end game
    it is in the requested set afterwards; no piece is chosen only if there is
    none; nothing else of the world changes. *)
Theorem ChoosePiece_correct {B : Type} `{DynamicBitsetLaws B} `{Host} (neigh : Peer B) (w : World B) :
  Size (bitfield_ neigh) = Size (bitfield_ (as_peer (master_peer_ w))) →
  Z.of_nat (Size (bitfield_ neigh)) < 2 ^ 32 → random_ w ≠ [] →
  ∃ r w', ChoosePiece neigh w = Ok (r, w') ∧ match r with
  | Some k => ∃ n rs, k = Z.of_nat n ∧ eligible w (bitfield_ neigh) n ∧ w' = chosen_world w k rs ∧
      (end_game_ (strategy_ w) = false → IsPieceRequested (master_peer_ w') k = true)
  | None => w' = w ∧ ∀ n, ¬ eligible w (bitfield_ neigh) n
  end.
Proof.
  intros Hs H32 Hr. destruct (choose_total neigh w Hs H32 Hr) as (r & w' & E & Hspec).
  exists r, w'. split; [done|]. destruct r as [k|]; [|done]. destruct Hspec as (n & -> & He & ->).
  exists n, (tail (random_ w)). split_and!; [done|done|done|]. intros Hend. unfold chosen_world, IsPieceRequested.
  cbn [strategy_ set_random]. rewrite Hend. cbn. apply bool_decide_true. set_solver.
Qed.

(** C22: when a connected client without an active piece asks for one (pieces of
    at most 150 blocks): with pieces left and not choked, it asks for exactly
    the bytes of one eligible piece, or there is none; the requests posted,
    after an interested message if it was not interested, tile the piece in
    blocks of at most 16384 bytes, as many as the piece expects, and the timeout
    is armed.  Otherwise it requests nothing. *)
Theorem fresh_piece_requests {B : Type} `{DynamicBitsetLaws B} `{Host} i c (w : World B) :
  clients w !! i = Some c → connected c → active_piece_ c = None →
  Size (bitfield_ (slave_peer_ c)) = Size (bitfield_ (as_peer (master_peer_ w))) →
  Z.of_nat (Size (bitfield_ (slave_peer_ c))) < 2 ^ 32 → random_ w ≠ [] →
  (∀ idx, 0 < psize w idx ≤ REQUEST_MAX_QUEUE_SIZE * most_request_size) →
  ∃ w' c', TryToRequestPiece i w = Ok (tt, w') ∧ clients w' !! i = Some c' ∧ asked_fresh w c c'.
Proof. apply TryToRequestPiece_fresh. Qed.

(** C26: a piece of more than 150 blocks is asked for in batches of 150 whole
    blocks, and every batch starts again from the full piece size: for every
    piece larger than 150 blocks whose size is not a multiple of 150 blocks, the
    last batch asks for bytes past the end of the piece. *)
Theorem last_batch_overruns {B : Type} `{DynamicBitset B} `{Host} i ps p c (w : World B) (m : nat) :
  let K := REQUEST_MAX_QUEUE_SIZE * most_request_size in
  connected c → active_piece_ c = Some (p, 0) → ps < 2 ^ 32 →
  (1 ≤ m)%nat → Z.of_nat m * K < ps < (Z.of_nat m + 1) * K →
  ∃ c1 c2 begin len,
    for_each (seq 0 m) (fun _ => request_blocks i ps) (put i c w) = Ok (tt, put i c1 w) ∧
    active_piece_ c1 = Some (p, Z.of_nat m * K) ∧
    request_blocks i ps (put i c1 w) = Ok (tt, put i c2 w) ∧
    JWrite (request_frame (index p) begin len) WRemind ∈ strand c2 ∧
    Z.of_nat m * K ≤ begin ∧ 0 < len ∧ ps < begin + len.
Proof.
  intros K Hc Ha H32 Hm Hps. assert (K = 2457600) as HK by done. assert (K < ps) as Hbig by lia.
  destruct (request_batches i ps p w m 0 0 c Hc Ha) as (c1 & E1 & Hc1 & Ha1); [lia|exact Hbig|fold K; lia|].
  rewrite Z.add_0_l in Ha1. fold K in Ha1. exists c1. set (b := Z.of_nat m * K) in *.
  eexists _, (b + 149 * most_request_size), most_request_size. split; [exact E1|]. split; [exact Ha1|]. split.
  { apply (request_blocks_cut i ps p b); try done; lia. }
  unfold most_request_size in *. split; [|lia].
  cbn [strand set_piece_wait set_active_piece posted set_strand]. apply elem_of_app. right.
  unfold requests. apply list_elem_of_In, in_map_iff. exists (b + Z.of_nat 149 * 16384, 16384).
  split; [done|]. unfold whole_blocks. apply in_map_iff. exists 149%nat. split; [done|].
  apply in_seq. lia.
Qed.

(** ** A small world: three pieces of 40000, 40000 and 20000 bytes, one neighbour *)

#[local] Existing Instance x86_64.

Module Sample.
Definition files : TorrentFiles := mkTorrentFiles 40000 20000 ∅.
Definition info_hash : bytes := replicate 20 xab.
Definition me : Peer (list bool) := Peer_at (replicate 12 x01) 0x7f000001 6881.
Definition him (bits : list bool) : Peer (list bool) :=
  set_bitfield (Peer_at (replicate 12 x02) 0x0a000001 6882) bits.
Definition client (bits : list bool) (status : Z) : PeerClient (list bool) :=
  set_status (new_client (him bits)) status.
Definition world (mine : list bool) (c : PeerClient (list bool)) : World (list bool) :=
  let m := new_master me 3 info_hash in
  mkWorld (replicate 60 x00) info_hash
    (set_subscribers (set_peer m (set_bitfield (as_peer m) mine)) {[0x0a000001 := 0%nat]})
    {[0%nat := c]} BittorrentStrategy 0 (mkManager files ∅ (Start new_worker)) ∅ [1; 2; 3; 4].
End Sample.

Lemma ChoosePiece_correct_witness :
  let w := Sample.world [true; false; false] (Sample.client [true; true; true] 0) in
  let neigh := Sample.him [true; true; true] in
  ∃ r w', ChoosePiece neigh w = Ok (r, w') ∧ match r with
  | Some k => ∃ n rs, k = Z.of_nat n ∧ eligible w (bitfield_ neigh) n ∧ w' = chosen_world w k rs ∧
      (end_game_ (strategy_ w) = false → IsPieceRequested (master_peer_ w') k = true)
  | None => w' = w ∧ ∀ n, ¬ eligible w (bitfield_ neigh) n
  end.
Proof.
  apply (ChoosePiece_correct
    (Sample.him [true; true; true])
    (Sample.world [true; false; false] (Sample.client [true; true; true] 0))).
  - reflexivity.
  - vm_compute. reflexivity.
  - discriminate.
Defined.

Lemma fresh_piece_requests_witness :
  let c := Sample.client [true; true; true] 0 in
  let w := Sample.world [true; false; false] c in
  may_request w c = true ∧
  ∃ w' c', TryToRequestPiece 0 w = Ok (tt, w') ∧ clients w' !! 0%nat = Some c' ∧ asked_fresh w c c'.
Proof.
  split; [vm_compute; reflexivity|].
  apply (fresh_piece_requests 0%nat
    (Sample.client [true; true; true] 0)
    (Sample.world [true; false; false] (Sample.client [true; true; true] 0))).
  - reflexivity.
  - reflexivity.
  - reflexivity.
  - reflexivity.
  - vm_compute. reflexivity.
  - discriminate.
  - intros idx. unfold psize. destruct (_ =? _); vm_compute; split; congruence.
Defined.

Lemma last_batch_overruns_witness :
  let p := new_piece 0 301 in
  let c := set_active_piece (Sample.client [true; true; true] 0) (Some (p, 0)) in
  let w := Sample.world [true; false; false] c in
  ∃ c1 c2 begin len,
    for_each (seq 0 2) (fun _ => request_blocks 0 4920000) (put 0 c w) = Ok (tt, put 0 c1 w) ∧
    active_piece_ c1 = Some (p, 2 * (REQUEST_MAX_QUEUE_SIZE * most_request_size)) ∧
    request_blocks 0 4920000 (put 0 c1 w) = Ok (tt, put 0 c2 w) ∧
    JWrite (request_frame (index p) begin len) WRemind ∈ strand c2 ∧
    2 * (REQUEST_MAX_QUEUE_SIZE * most_request_size) ≤ begin ∧ 0 < len ∧ 4920000 < begin + len.
Proof.
  apply (last_batch_overruns 0%nat 4920000 (new_piece 0 301)
    (set_active_piece (Sample.client [true; true; true] 0) (Some (new_piece 0 301, 0))) _ 2).
  - reflexivity.
  - reflexivity.
  - lia.
  - lia.
  - vm_compute. split; reflexivity.
Defined.
