(* ===== verification/Exchange.v ===== *)
(** * Messages between two clients

    What a client reads from the frames another one sends: the read loop, the
    state flags, the numbers of a message and the bitfield. *)

From Stdlib Require Import ZArith Lia Strings.Byte Strings.String.
From coqutil Require Import Byte Word.LittleEndianList.
From S2P Require Import Prelude Bytes Streams Worker Bencode Text Piece Files.
From S2P Require Import Bitset Bitfield Message Peer World PeerClient PeerFacts.

Section Reading.
Context {B : Type} `{DynamicBitset B} `{Host}.
Implicit Types (w : World B) (c : PeerClient B).

(** A client about to handle a message of which [pos] bytes have been read. *)
Definition received (body : bytes) (pos : nat) c : PeerClient B :=
  set_msg c {| rm_arr := body; rm_inp_pos := pos; rm_order := BigEndian;
               rm_body_size := Z.of_nat (length body) |}.

Lemma read_value_put i sz v pre post c w :
  0 ≤ v < 2 ^ (8 * Z.of_nat sz) →
  read_value i sz (put i (received (pre ++ be_split sz v ++ post) (length pre) c) w)
    = Ok (v, put i (received (pre ++ be_split sz v ++ post) (length pre + sz) c) w).
Proof.
  intros Hv. unfold read_value. erewrite st_bind_Ok by apply get_client_put. cbv beta.
  set (m := msg_to_read_ _).
  assert (get_value sz m = Ok (v, rm_set_pos m (length pre + sz))) as E.
  { rewrite (get_value_app m pre sz v post) by done. by rewrite Z.mod_small. }
  erewrite st_bind_Ok by (unfold lift; rewrite E; reflexivity). cbv iota.
  erewrite st_bind_Ok by apply modify_client_put. unfold mret, ST_ret. do 3 f_equal.
Qed.

(** The numbers of a message, read one after the other. *)
Lemma read_value_body i sz v k pre fs fs' c w :
  0 ≤ v < 2 ^ (8 * Z.of_nat sz) → fs = pre ++ (sz, v) :: fs' → k = list_sum (map fst pre) →
  ∀ b, let body := b :: concat (map (fun '(sz, v) => be_split sz v) fs) in
  read_value i sz (put i (received body (S k) c) w) = Ok (v, put i (received body (S k + sz) c) w).
Proof.
  intros Hv -> -> b body.
  assert (length (concat (map (fun '(sz, v) => be_split sz v) pre)) = list_sum (map fst pre)) as Hl.
  { clear. induction pre as [|[s x] pre IH]; [done|]. cbn [map concat list_sum foldr fst].
    by rewrite length_app, length_be_split, IH. }
  assert (body = (b :: concat (map (fun '(sz, v) => be_split sz v) pre)) ++ be_split sz v
    ++ concat (map (fun '(sz, v) => be_split sz v) fs')) as ->.
  { subst body. rewrite map_app, concat_app. done. }
  pose proof (read_value_put i sz v (b :: concat (map (fun '(sz, v) => be_split sz v) pre))
    (concat (map (fun '(sz, v) => be_split sz v) fs')) c w Hv) as E.
  cbn [length] in E. by rewrite Hl in E.
Qed.
End Reading.

Section Handling.
Context {B : Type} `{DynamicBitset B} `{Host}.
Implicit Types (w : World B) (c : PeerClient B).

Lemma rm_Type_received body pos c b :
  head body = Some b → rm_Type (msg_to_read_ (received body pos c)) = Ok b.
Proof. intros Hb. unfold rm_Type. cbn. by destruct body; cbn in *; simplify_eq. Qed.

Lemma type_of_type_id t : type_of_id (byte.of_Z (type_id t)) = Some t.
Proof. by destruct t. Qed.

End Handling.

(** Entering [handle_response] with a message of type [t]. *)
Ltac enter_handler t :=
  unfold handle_response; erewrite st_bind_Ok by apply get_client_put; cbv beta;
  erewrite st_bind_Ok by (unfold lift; erewrite rm_Type_received by reflexivity; reflexivity);
  cbv beta; change (type_of_id _) with (type_of_id (byte.of_Z (type_id t)));
  rewrite type_of_type_id; cbv iota zeta; unfold response_cancel, response_port;
  cbn [msg_to_read_ received set_msg rm_body_size rm_arr]; rewrite ?length_body_of.

(** The size check passes. *)
Ltac size_matches :=
  match goal with |- context [negb (Z.of_nat ?x =? ?y)] =>
    change (negb (Z.of_nat x =? y)) with false end; cbv iota.

(** Reading the next field of the message. *)
Ltac read_field pre :=
  erewrite st_bind_Ok by
    (eapply (read_value_body _ _ _ _ pre); [|reflexivity|reflexivity]; lia); cbv beta.

Section Handlers.
Context {B : Type} `{DynamicBitset B} `{Host}.
Implicit Types (w : World B) (c : PeerClient B).

Lemma handle_choke i c w :
  handle_response i (put i (received (body_of choke []) 1 c) w)
  = Ok (tt, put i (posted (set_status (received (body_of choke []) 1 c)
      (u8 (Z.lor (status_ c) peer_choking))) [JChoked]) w).
Proof.
  enter_handler choke. size_matches.
  erewrite st_bind_Ok by apply modify_client_put. apply Post_put.
Qed.

Lemma handle_unchoke i c w :
  handle_response i (put i (received (body_of unchoke []) 1 c) w)
  = TryToRequestPiece i (put i (set_status (received (body_of unchoke []) 1 c)
      (u8 (Z.land (status_ c) (Z.lnot peer_choking)))) w).
Proof.
  enter_handler unchoke. size_matches.
  by erewrite st_bind_Ok by apply modify_client_put.
Qed.

Lemma handle_interested i c w :
  handle_response i (put i (received (body_of interested []) 1 c) w)
  = OnInterested i (put i (set_status (received (body_of interested []) 1 c)
      (u8 (Z.lor (status_ c) peer_interested))) w).
Proof.
  enter_handler interested. size_matches.
  by erewrite st_bind_Ok by apply modify_client_put.
Qed.

Lemma handle_not_interested i c w :
  handle_response i (put i (received (body_of not_interested []) 1 c) w)
  = OnNotInterested i (put i (set_status (received (body_of not_interested []) 1 c)
      (u8 (Z.land (status_ c) (Z.lnot peer_interested)))) w).
Proof.
  enter_handler not_interested. size_matches.
  by erewrite st_bind_Ok by apply modify_client_put.
Qed.

Definition request_fields (idx begin len : Z) : list (nat * Z) :=
  [(4%nat, idx); (4%nat, begin); (4%nat, len)].

Lemma handle_request i c w idx begin len :
  0 ≤ idx < 2 ^ 32 → 0 ≤ begin < 2 ^ 32 → 0 ≤ len < 2 ^ 32 →
  let body := body_of request (request_fields idx begin len) in
  handle_response i (put i (received body 1 c) w) =
    if IsRemoteInterested c && negb (IsClientChoked c)
    then OnRequest i idx begin len (put i (received body 13 c) w)
    else Disconnect i (put i (received body 1 c) w).
Proof.
  intros Hi Hb Hl body. subst body. enter_handler request.
  size_matches.
  change (IsRemoteInterested (received _ _ c)) with (IsRemoteInterested c).
  change (IsClientChoked (received _ _ c)) with (IsClientChoked c).
  destruct (IsRemoteInterested c); [|done]. destruct (IsClientChoked c); [done|].
  cbn [negb andb]. unfold body_of, request_fields.
  read_field (@nil (nat * Z)). read_field [(4%nat, idx)]. read_field [(4%nat, idx); (4%nat, begin)].
  done.
Qed.

Lemma handle_cancel i c w idx begin len :
  0 ≤ idx < 2 ^ 32 → 0 ≤ begin < 2 ^ 32 → 0 ≤ len < 2 ^ 32 →
  let body := body_of cancel (request_fields idx begin len) in
  handle_response i (put i (received body 1 c) w) = OnCancel i idx begin len (put i (received body 13 c) w).
Proof.
  intros Hi Hb Hl body. subst body. enter_handler cancel.
  size_matches. unfold body_of, request_fields.
  read_field (@nil (nat * Z)). read_field [(4%nat, idx)]. read_field [(4%nat, idx); (4%nat, begin)].
  done.
Qed.

Definition block_fields (idx begin : Z) : list (nat * Z) := [(4%nat, idx); (4%nat, begin)].

Lemma handle_piece_block i c w idx begin data :
  0 ≤ idx < 2 ^ 32 → 0 ≤ begin < 2 ^ 32 → Z.of_nat (length data) < 2 ^ 32 →
  let body := body_of piece_block (block_fields idx begin) ++ data in
  handle_response i (put i (received body 1 c) w)
    = OnPieceBlock i idx begin data (put i (received body 9 c) w).
Proof.
  intros Hi Hb Hl body. subst body. unfold body_of. cbn [block_fields map concat app].
  enter_handler piece_block. rewrite app_nil_r.
  assert (length (byte.of_Z (type_id piece_block) :: (be_split 4 idx ++ be_split 4 begin) ++ data)
    = 9 + length data)%nat as El.
  { cbn [length]. rewrite !length_app, !length_be_split. lia. }
  rewrite El. destruct (Z.ltb_spec (Z.of_nat (9 + length data)) 9); [lia|].
  erewrite st_bind_Ok.
  2:{ rewrite <- app_assoc.
      apply (read_value_put i 4 idx [byte.of_Z (type_id piece_block)] (be_split 4 begin ++ data)). lia. }
  cbv beta. erewrite st_bind_Ok.
  2:{ pose proof (read_value_put i 4 begin (byte.of_Z (type_id piece_block) :: be_split 4 idx) data c w
        ltac:(lia)) as E. cbn [app length] in E. rewrite length_be_split in E. exact E. }
  cbv beta. erewrite st_bind_Ok; [|unfold lift, slice].
  2:{ rewrite El, u32_small by lia. rewrite decide_True by lia.
      replace (Z.to_nat (Z.of_nat (9 + length data) - 9)) with (length data) by lia.
      change (drop 9 (?b :: ?l)) with (drop 8 l).
      cbn [drop]. rewrite drop_app_length' by (by rewrite length_app, !length_be_split).
      rewrite take_ge by lia. reflexivity. }
  cbv beta. rewrite <- app_assoc. done.
Qed.

Lemma handle_port i c w p :
  0 ≤ p < 2 ^ 16 →
  handle_response i (put i (received (body_of Message.port [(2%nat, p)]) 1 c) w)
    = Ok (tt, put i (received (body_of Message.port [(2%nat, p)]) 3 c) w).
Proof.
  intros Hp. enter_handler Message.port. size_matches. unfold body_of.
  read_field (@nil (nat * Z)). done.
Qed.

(** Messages whose length is not the one of their type end the connection. *)
Lemma handle_bad_size i c w t body :
  head body = Some (byte.of_Z (type_id t)) →
  match t with
  | choke | unchoke | interested | not_interested => length body ≠ 1%nat
  | have => length body ≠ 5%nat
  | request | cancel => length body ≠ 13%nat
  | piece_block => (length body < 9)%nat
  | Message.port => length body ≠ 3%nat
  | bitfield => ((piece_count_of (meta_pieces_ w) + 7) / 8 < length body - 1)%nat
  end →
  handle_response i (put i (received body 1 c) w) = Disconnect i (put i (received body 1 c) w).
Proof.
  intros Hh Hl. assert (0 < length body)%nat as Hpos by (destruct body; [done|cbn; lia]).
  unfold handle_response. erewrite st_bind_Ok by apply get_client_put. cbv beta.
  erewrite st_bind_Ok by (unfold lift; erewrite rm_Type_received by exact Hh; reflexivity).
  cbv beta. rewrite type_of_type_id. cbv iota zeta. unfold response_cancel, response_port.
  cbn [msg_to_read_ received set_msg rm_body_size rm_arr].
  assert (∀ n, Z.of_nat (length body) ≠ n → negb (Z.of_nat (length body) =? n) = true) as Hneq.
  { intros n Hn. by apply negb_true_iff, Z.eqb_neq. }
  destruct t; try (rewrite Hneq by lia; done).
  - destruct (Z.ltb_spec (Z.of_nat (length body)) 1); [lia|]. cbv iota.
    erewrite st_bind_Ok by reflexivity. cbv beta. cbn [put set_clients meta_pieces_].
    pose proof (Nat2Z.inj_div (piece_count_of (meta_pieces_ w) + 7) 8) as Hd. rewrite Nat2Z.inj_add in Hd.
    change (Z.of_nat 7) with 7 in Hd. change (Z.of_nat 8) with 8 in Hd. rewrite <- Hd.
    destruct (Z.ltb_spec (Z.of_nat ((piece_count_of (meta_pieces_ w) + 7) / 8))
      (Z.of_nat (length body) - 1)); [done|lia].
  - destruct (Z.ltb_spec (Z.of_nat (length body)) 9); [done|lia].
Qed.

(** ** The read loop *)

Lemma received_SetBuffer body c :
  rm_order (msg_to_read_ c) = BigEndian →
  set_msg c (SetBuffer (DecodeHeader (msg_to_read_ c) (Z.of_nat (length body))) body) = received body 1 c.
Proof. intros Ho. unfold received, SetBuffer, DecodeHeader. cbn. by rewrite Ho. Qed.

(** The frame [f] reaches [handler] at the other side: its header is read, then
    its body, the handler runs with [pos] bytes consumed, and the next header
    is waited for. *)
Definition arrives (f : bytes) (P : PeerClient B → Prop) (pos : nat) (handler : nat → ST (World B) unit) : Prop :=
  ∀ j c w, connected c → rm_order (msg_to_read_ c) = BigEndian → P c →
  let n := Z.of_nat (length f) - 4 in
  let c1 := set_msg c (DecodeHeader (msg_to_read_ c) n) in
  on_header j (take 4 f) (put j c w)
    = Ok (tt, put j (set_msg (posted c [JAwait ADisconnect; JRead n RBody])
                             (DecodeHeader (msg_to_read_ c) n)) w) ∧
  on_body j (drop 4 f) (put j c1 w)
    = (handler j ≫= fun _ => do_read_header j) (put j (received (drop 4 f) pos c) w).

Lemma on_header_put i (body : bytes) c w :
  connected c → 0 < Z.of_nat (length body) < 2 ^ 32 →
  let n := Z.of_nat (length body) in
  on_header i (be_split 4 n) (put i c w)
    = Ok (tt, put i (set_msg (posted c [JAwait ADisconnect; JRead n RBody])
                             (DecodeHeader (msg_to_read_ c) n)) w).
Proof.
  intros Hc Hn n. unfold on_header. erewrite st_bind_Ok by apply Post_put. cbv beta.
  erewrite st_bind_Ok.
  2:{ unfold lift. rewrite (get_value_app (rm_make (be_split 4 n) BigEndian) [] 4 n []);
        [reflexivity|by rewrite app_nil_r|done]. }
  cbv iota. erewrite st_bind_Ok by apply modify_client_put. cbv beta.
  erewrite st_bind_Ok by apply get_client_put. cbv beta.
  cbn [msg_to_read_ set_msg posted set_strand DecodeHeader rm_body_size].
  rewrite Z.mod_small, u32_small by (subst n; lia).
  destruct (Z.eqb_spec n 0); [subst n; lia|].
  unfold do_read_body. erewrite st_bind_Ok by apply get_client_put. cbv beta.
  cbn [is_disconnected set_msg posted set_strand]. rewrite Hc. unfold Read. rewrite Post_put.
  do 3 f_equal. unfold posted, set_msg, set_strand. cbn. by rewrite <- app_assoc.
Qed.

Lemma on_body_put i (body : bytes) c w :
  connected c → rm_order (msg_to_read_ c) = BigEndian →
  on_body i body (put i (set_msg c (DecodeHeader (msg_to_read_ c) (Z.of_nat (length body)))) w)
    = (handle_response i ≫= fun _ => do_read_header i) (put i (received body 1 c) w).
Proof.
  intros Hc Ho. unfold on_body. erewrite st_bind_Ok by apply get_client_put. cbv beta.
  erewrite st_bind_Ok.
  2:{ unfold lift, slice. cbn [msg_to_read_ set_msg DecodeHeader rm_body_size]. rewrite Nat2Z.id.
      rewrite decide_True by lia. rewrite drop_0, take_ge by lia. reflexivity. }
  cbv beta. erewrite st_bind_Ok by apply modify_client_put. cbv beta.
  rewrite <- (received_SetBuffer body c Ho). done.
Qed.

Lemma frame_arrives (body : bytes) P pos (handler : nat → ST (World B) unit) :
  0 < Z.of_nat (length body) < 2 ^ 32 →
  (∀ j c w, connected c → P c →
     handle_response j (put j (received body 1 c) w) = handler j (put j (received body pos c) w)) →
  arrives (frame body) P pos handler.
Proof.
  intros Hl Hh j c w Hc Ho HP n c1.
  assert (n = Z.of_nat (length body)) as En.
  { subst n. unfold frame. rewrite length_app, length_be_split. lia. }
  assert (take 4 (frame body) = be_split 4 (Z.of_nat (length body))) as ->
    by (unfold frame; by rewrite take_app_length' by by rewrite length_be_split).
  assert (drop 4 (frame body) = body) as ->
    by (unfold frame; by rewrite drop_app_length' by by rewrite length_be_split).
  subst c1. rewrite En. split; [by apply on_header_put|].
  rewrite on_body_put by done. unfold mbind, ST_bind. by rewrite Hh.
Qed.

(** A keep-alive is a header of zero: nothing is read after it. *)
Lemma keep_alive_stops i c w :
  on_header i (frame []) (put i c w)
    = Ok (tt, put i (set_msg (posted c [JAwait ADisconnect]) (DecodeHeader (msg_to_read_ c) 0)) w).
Proof.
  unfold on_header. erewrite st_bind_Ok by apply Post_put. cbv beta. erewrite st_bind_Ok.
  2:{ unfold lift. rewrite (get_value_app (rm_make (frame []) BigEndian) [] 4 0 []); [reflexivity|done|done]. }
  cbv iota. erewrite st_bind_Ok by apply modify_client_put. cbv beta.
  by erewrite st_bind_Ok by apply get_client_put.
Qed.
End Handlers.

(** ** Bitfields *)

Section Bits.
Context {B : Type} `{DynamicBitsetLaws B} `{Host}.
Implicit Types (w : World B) (c : PeerClient B).

Lemma foldl_Ok {A X} (P : nat → A → Prop) (f : outcome A → X → outcome A) l a0 :
  P 0%nat a0 → (∀ k x a, l !! k = Some x → P k a → ∃ a', f (Ok a) x = Ok a' ∧ P (S k) a') →
  ∃ a', foldl f (Ok a0) l = Ok a' ∧ P (length l) a'.
Proof.
  revert P a0. induction l as [|x l IH]; intros P a0 H0' Hf; [by exists a0|]. cbn [foldl length].
  destruct (Hf 0%nat x a0 eq_refl H0') as (a1 & -> & H1').
  apply (IH (fun k => P (S k)) a1 H1'). intros k y a Hk. by apply (Hf (S k)).
Qed.

(** The positions of the double loop in [handle_response]. *)
Lemma bit_positions n k :
  (k < 8 * n)%nat →
  (i ← seq 1 n; x ← seq 0 8; [(i, x)]) !! k = Some (S (k / 8), k mod 8)%nat.
Proof.
  assert (∀ a, (k < 8 * n)%nat →
    (i ← seq a n; x ← seq 0 8; [(i, x)]) !! k = Some (a + k / 8, k mod 8)%nat) as E; [|apply E].
  revert k. induction n as [|n IH]; intros k a Hk; [lia|]. cbn [seq]. rewrite bind_cons.
  destruct (decide (k < 8)%nat) as [Hk8|Hk8].
  - rewrite Nat.div_small, Nat.mod_small by done. rewrite Nat.add_0_r.
    rewrite lookup_app_l by (cbn; lia). do 8 (destruct k as [|k]; [done|]). lia.
  - rewrite lookup_app_r by (cbn; lia).
    change (length _) with 8%nat. rewrite IH by lia.
    pose proof (Nat.div_mod k 8 ltac:(lia)). pose proof (Nat.mod_upper_bound k 8 ltac:(lia)).
    destruct (nat_div_mod_unique (k / 8 - 1) (k mod 8) 8) as [E1 E2]; [lia|].
    assert (1 ≤ k / 8)%nat by (apply Nat.div_le_lower_bound; lia).
    replace (8 * (k / 8 - 1) + k mod 8)%nat with (k - 8)%nat in E1, E2 by lia.
    rewrite E1, E2. do 2 f_equal. lia.
Qed.

Lemma land_bit b x : (x < 8)%nat →
  negb (Z.land (byte.unsigned b) (Z.shiftl 1 (7 - Z.of_nat x)) =? 0) = byte_bit b (7 - x).
Proof.
  intros Hx. unfold byte_bit. replace (7 - Z.of_nat x) with (Z.of_nat (7 - x)) by lia.
  rewrite Z.shiftl_1_l. destruct (Z.testbit (byte.unsigned b) (Z.of_nat (7 - x))) eqn:E.
  - apply negb_true_iff, Z.eqb_neq. intros E0.
    assert (Z.testbit (Z.land (byte.unsigned b) (2 ^ Z.of_nat (7 - x))) (Z.of_nat (7 - x)) = true) as E1.
    { rewrite Z.land_spec, E, Z.pow2_bits_true by lia. done. }
    by rewrite E0, Z.bits_0 in E1.
  - apply negb_false_iff, Z.eqb_eq. apply Z.bits_inj'. intros n Hn. rewrite Z.land_spec, Z.bits_0.
    destruct (Z.eq_dec n (Z.of_nat (7 - x))) as [->|Hne]; [by rewrite E|].
    rewrite Z.pow2_bits_false by lia. by rewrite andb_false_r.
Qed.

(** A bitfield message adds the bits it carries, in wire order, and drops those
    past the last piece. *)
Lemma set_bits_spec b0 v (bits : B) :
  ∃ bits', set_bits (Size bits) (S (length v)) (b0 :: v) bits = Ok bits' ∧ Size bits' = Size bits ∧
    ∀ n, (n < Size bits)%nat → db_test bits' n =
      db_test bits n || (bool_decide (n < 8 * length v)%nat && wire_bit v n).
Proof.
  unfold set_bits. rewrite Nat.sub_succ, Nat.sub_0_r.
  set (l := (i ← seq 1 (length v); x ← seq 0 8; [(i, x)])).
  assert (length l = 8 * length v)%nat as Hlen.
  { assert (∀ n a, length (i ← seq a n; x ← seq 0 8; [(i, x)]) = (8 * n)%nat) as Hb; [|apply Hb].
    induction n as [|n IH]; intros a; [done|]. cbn [seq]. rewrite bind_cons, length_app, IH.
    change (length _) with 8%nat. lia. }
  destruct (foldl_Ok (fun k (a : B) => Size a = Size bits ∧ ∀ n, (n < Size bits)%nat → db_test a n =
      db_test bits n || (bool_decide (n < k)%nat && wire_bit v n))
    (set_bit (Size bits) (b0 :: v)) l bits) as (bits' & E & Hs & Ht).
  - split; [done|]. intros n Hn. by rewrite bool_decide_false, orb_false_r by lia.
  - intros k [i x] a Hk (Hs & Ht).
    assert (k < 8 * length v)%nat as Hkl by (rewrite <- Hlen; by eapply lookup_lt_Some).
    subst l. rewrite bit_positions in Hk by done.
    assert (i = S (k / 8) ∧ x = k mod 8)%nat as [-> ->] by (split; congruence). clear Hk.
    pose proof (Nat.div_mod k 8 ltac:(lia)). pose proof (Nat.mod_upper_bound k 8 ltac:(lia)).
    assert (k / 8 < length v)%nat as Hk8 by (apply Nat.Div0.div_lt_upper_bound; lia).
    destruct (lookup_lt_is_Some_2 v (k / 8) Hk8) as [b Hb].
    unfold set_bit. cbn [mbind outcome_bind].
    change ((b0 :: v) !! S (k / 8)%nat) with (v !! (k / 8)%nat). rewrite Hb.
    cbn [opt_ub mbind outcome_bind]. rewrite land_bit by done.
    replace ((S (k / 8) - 1) * 8 + k mod 8)%nat with k by lia.
    assert (byte_bit b (7 - k mod 8) = wire_bit v k) as -> by (unfold wire_bit; by rewrite nth_lookup_default, Hb).
    assert (∀ n, bool_decide (n < S k)%nat = bool_decide (n < k)%nat || bool_decide (n = k)) as Hbd.
    { intros n. do 3 case_bool_decide; try done; lia. }
    destruct (wire_bit v k) eqn:Ew; [case_decide as Hkt|].
    + destruct (Set_in a k ltac:(lia)) as (a' & -> & Hs' & Ht'). exists a'. split; [done|].
      split; [by rewrite Hs'|]. intros n Hn. rewrite Ht', Ht, Hbd by lia.
      case_bool_decide as Hnk; [subst n; rewrite Ew|]; destruct (db_test bits _), (bool_decide _);
        cbn; rewrite ?orb_true_r; try done; by rewrite ?orb_false_r.
    + exists a. split; [done|]. split; [done|]. intros n Hn. rewrite Ht, Hbd by done.
      rewrite (bool_decide_false (n = k)) by lia. by rewrite orb_false_r.
    + exists a. split; [done|]. split; [done|]. intros n Hn. rewrite Ht, Hbd by done.
      destruct (decide (n = k)) as [->|]; [rewrite Ew, !andb_false_r; done|].
      rewrite (bool_decide_false (n = k)) by done. by rewrite orb_false_r.
  - exists bits'. split; [done|]. split; [done|]. by rewrite <- Hlen.
Qed.

Lemma handle_bitfield i c w v :
  let total := piece_count_of (meta_pieces_ w) in
  (length v ≤ (total + 7) / 8)%nat → Size (bitfield_ (slave_peer_ c)) = total →
  ∃ bits, Size bits = total ∧ (∀ n, (n < total)%nat → db_test bits n =
      db_test (bitfield_ (slave_peer_ c)) n || (bool_decide (n < 8 * length v)%nat && wire_bit v n)) ∧
    let body := byte.of_Z (type_id bitfield) :: v in
    handle_response i (put i (received body 1 c) w) =
      OnBitfield i (put i (set_slave (received body 1 c) (set_bitfield (slave_peer_ c) bits)) w).
Proof.
  intros total Hl Hs. destruct (set_bits_spec (byte.of_Z (type_id bitfield)) v (bitfield_ (slave_peer_ c)))
    as (bits & E & Hs' & Ht). rewrite Hs in *. exists bits. split; [done|]. split; [done|]. cbv zeta.
  unfold handle_response. erewrite st_bind_Ok by apply get_client_put. cbv beta.
  erewrite st_bind_Ok by (unfold lift; erewrite rm_Type_received by reflexivity; reflexivity).
  cbv beta. rewrite type_of_type_id. cbv iota zeta. cbn [msg_to_read_ received set_msg rm_body_size rm_arr].
  cbn [length]. destruct (Z.ltb_spec (Z.of_nat (S (length v))) 1); [lia|]. cbv iota.
  erewrite st_bind_Ok by reflexivity. cbv beta. cbn [put set_clients meta_pieces_]. fold total.
  pose proof (Nat2Z.inj_div (total + 7) 8) as Hd. rewrite Nat2Z.inj_add in Hd.
  change (Z.of_nat 7) with 7 in Hd. change (Z.of_nat 8) with 8 in Hd. rewrite <- Hd.
  destruct (Z.ltb_spec (Z.of_nat ((total + 7) / 8)) (Z.of_nat (S (length v)) - 1)); [lia|]. cbv iota.
  erewrite st_bind_Ok.
  2:{ unfold lift. rewrite !Nat2Z.id. cbn [slave_peer_ received set_msg]. rewrite E. reflexivity. }
  cbv beta. erewrite st_bind_Ok by apply modify_client_put. reflexivity.
Qed.

Lemma to_float_small n : 0 ≤ n < 2 ^ 24 → to_float n = n.
Proof.
  intros Hn. unfold to_float. destruct (Z.leb_spec (Z.log2 n - 23) 0) as [|Hk]; [done|].
  destruct (Z.eq_dec n 0) as [->|]; [done|].
  pose proof (Z.log2_lt_pow2 n 24 ltac:(lia)). lia.
Qed.

Definition bitfield_body (bits : B) : bytes := byte.of_Z (type_id bitfield) :: GetCast bits.

(** The bitfield of the other side, read by a client that knew of no piece of it. *)
Lemma handle_hello i c w (bits : B) :
  let total := piece_count_of (meta_pieces_ w) in
  Size bits = total → Size (bitfield_ (slave_peer_ c)) = total →
  (∀ n, (n < total)%nat → db_test (bitfield_ (slave_peer_ c)) n = false) →
  ∃ bits', bits' ≡ bits ∧
    handle_response i (put i (received (bitfield_body bits) 1 c) w) =
      OnBitfield i (put i (set_slave (received (bitfield_body bits) 1 c)
                                     (set_bitfield (slave_peer_ c) bits')) w).
Proof.
  intros total Hs Hs' Hz. destruct (handle_bitfield i c w (GetCast bits)) as (bits' & Hsb & Ht & E); [|done|].
  { by rewrite length_GetCast, Hs. }
  exists bits'. split; [|exact E]. split; [change (Size bits' = Size bits); by rewrite Hsb, Hs|].
  change (db_size bits') with (Size bits'). rewrite Hsb. fold total. intros n Hn. rewrite Ht, Hz by done. cbn [orb].
  rewrite GetCast_bit, bool_decide_true; [done| |by rewrite Hs].
  rewrite length_GetCast, Hs. pose proof (Nat.div_mod (total + 7) 8 ltac:(lia)).
  pose proof (Nat.mod_upper_bound (total + 7) 8 ltac:(lia)). lia.
Qed.

Lemma send_bitfield_put i c w :
  connected c → Z.of_nat (Size (bitfield_ (as_peer (master_peer_ w)))) < 2 ^ 24 →
  send_bitfield i (put i c w) = Ok (tt, put i (posted c
    [JWrite (frame (bitfield_body (bitfield_ (as_peer (master_peer_ w))))) WRemind]) w).
Proof.
  intros Hc Hs. unfold send_bitfield. erewrite st_bind_Ok by reflexivity. cbv beta zeta.
  cbn [put set_clients master_peer_]. set (bits := bitfield_ (as_peer (master_peer_ w))) in *.
  pose proof (length_GetCast bits) as Hl. erewrite st_bind_Ok.
  2:{ unfold lift, slice. rewrite to_float_small by lia.
      replace (Z.to_nat ((Z.of_nat (Size bits) + 7) / 8)) with (length (GetCast bits)).
      - rewrite decide_True by lia. rewrite drop_0, take_ge by lia. reflexivity.
      - rewrite Hl. change 7 with (Z.of_nat 7). change 8 with (Z.of_nat 8).
        rewrite <- Nat2Z.inj_add, <- Nat2Z.inj_div. by rewrite Nat2Z.id. }
  cbv beta. apply send_msg_put; [done| |].
  - cbn [CopyFrom sm_data]. rewrite peer_msg_type. by rewrite <- app_assoc.
  - unfold bitfield_body. cbn [length]. rewrite Hl.
    pose proof (Nat.Div0.div_le_mono (Size bits + 7) (Size bits * 8 + 7) 8 ltac:(lia)) as Hd.
    assert (((Size bits * 8 + 7) / 8 ≤ Size bits + 1)%nat).
    { apply Nat.lt_succ_r, Nat.Div0.div_lt_upper_bound. lia. }
    lia.
Qed.
End Bits.

Section Sending.
Context {B : Type} `{DynamicBitset B} `{Host}.
Implicit Types (w : World B) (c : PeerClient B).

(** What a have message makes of piece [idx]. *)
Definition learn_have (idx : Z) (j : nat) : ST (World B) unit :=
  total ← TotalPiecesCount;
  if total <=? idx then mret tt
  else
    c ← get_client j;
    bits ← lift (Set_ (bitfield_ (slave_peer_ c)) (Z.to_nat idx));
    _ ← modify_client j (fun c => set_slave c (set_bitfield (slave_peer_ c) bits));
    OnHave j idx.

Lemma handle_have i c w idx :
  0 ≤ idx < 2 ^ 32 →
  let body := body_of have [(4%nat, idx)] in
  handle_response i (put i (received body 1 c) w) = learn_have idx i (put i (received body 5 c) w).
Proof.
  intros Hi body. subst body. enter_handler have. size_matches. unfold body_of.
  read_field (@nil (nat * Z)). reflexivity.
Qed.

Definition have_frame (idx : Z) : bytes := frame (body_of have [(4%nat, u32 idx)]).
Definition cancel_frame (idx begin len : Z) : bytes :=
  frame (body_of cancel (request_fields (u32 idx) (u32 begin) (u32 len))).
Definition block_frame (idx begin : Z) (data : bytes) : bytes :=
  frame (body_of piece_block (block_fields (u32 idx) (u32 begin)) ++ data).

Lemma send_have_put i idx c w :
  connected c → send_have i idx (put i c w) = Ok (tt, put i (posted c [JWrite (have_frame idx) WRemind]) w).
Proof.
  intros Hc. unfold send_have. apply send_msg_put; [done| |by rewrite length_body_of].
  apply (peer_msg_fields have [(4%nat, u32 idx)]).
Qed.

Lemma send_cancel_put i idx begin len c w :
  connected c → send_cancel i idx begin len (put i c w)
    = Ok (tt, put i (dec_blocks_num (posted c [JWrite (cancel_frame idx begin len) WRemind])) w).
Proof.
  intros Hc. unfold send_cancel. erewrite st_bind_Ok.
  2:{ apply send_msg_put; [done|apply peer_msg_fields|by rewrite length_body_of]. }
  apply modify_client_put.
Qed.

Lemma send_block_put i idx begin data c w :
  connected c → Z.of_nat (length data) < 2 ^ 31 → send_block i idx begin data (put i c w)
    = Ok (tt, put i (posted c [JWrite (block_frame idx begin data) WRemind]) w).
Proof.
  intros Hc Hl. unfold send_block. apply send_msg_put; [done| |].
  - cbn [CopyFrom sm_data]. rewrite peer_msg_fields. by rewrite <- app_assoc.
  - rewrite length_app, length_body_of. cbn. lia.
Qed.
End Sending.

(** ** Properties *)

(** C6: the frames of have, request, cancel and block messages sent by a connected
    client, read by any other one through its header and body reads, reach the
    strategy with the numbers and bytes they were sent with (a request when the
    reader knows the other side is interested and does not choke it), after
    which the next header is waited for. *)
Theorem message_exchange {B : Type} `{DynamicBitset B} `{Host} i c (w : World B) idx begin len data :
  connected c → 0 ≤ idx < 2 ^ 32 → 0 ≤ begin < 2 ^ 32 → 0 ≤ len < 2 ^ 32 →
  Z.of_nat (length data) < 2 ^ 31 →
  (send_request i idx begin len (put i c w)
     = Ok (tt, put i (posted c [JWrite (request_frame idx begin len) WRemind]) w) ∧
   arrives (B:=B) (request_frame idx begin len)
     (fun c' => IsRemoteInterested c' = true ∧ IsClientChoked c' = false) 13
     (fun j => OnRequest j idx begin len)) ∧
  (send_cancel i idx begin len (put i c w)
     = Ok (tt, put i (dec_blocks_num (posted c [JWrite (cancel_frame idx begin len) WRemind])) w) ∧
   arrives (B:=B) (cancel_frame idx begin len) (fun _ => True) 13 (fun j => OnCancel j idx begin len)) ∧
  (send_block i idx begin data (put i c w)
     = Ok (tt, put i (posted c [JWrite (block_frame idx begin data) WRemind]) w) ∧
   arrives (B:=B) (block_frame idx begin data) (fun _ => True) 9 (fun j => OnPieceBlock j idx begin data)) ∧
  (send_have i idx (put i c w) = Ok (tt, put i (posted c [JWrite (have_frame idx) WRemind]) w) ∧
   arrives (B:=B) (have_frame idx) (fun _ => True) 5 (learn_have idx)).
Proof.
  intros Hc Hi Hb Hl Hd. split_and!.
  - by apply send_request_put.
  - apply frame_arrives; [rewrite length_body_of; cbn; lia|]. intros j c' w' _ [Hint Hch].
    rewrite !u32_small by done.
    change [(4%nat, idx); (4%nat, begin); (4%nat, len)] with (request_fields idx begin len).
    rewrite handle_request, Hint, Hch by done. done.
  - by apply send_cancel_put.
  - apply frame_arrives; [rewrite length_body_of; cbn; lia|]. intros j c' w' _ _.
    rewrite !u32_small by done. by apply handle_cancel.
  - by apply send_block_put.
  - apply frame_arrives; [rewrite length_app, length_body_of; cbn; lia|]. intros j c' w' _ _.
    rewrite !u32_small by done. apply handle_piece_block; [done|done|lia].
  - by apply send_have_put.
  - apply frame_arrives; [rewrite length_body_of; cbn; lia|]. intros j c' w' _ _.
    rewrite u32_small by done. by apply handle_have.
Qed.

#[local] Existing Instance x86_64.

Lemma message_exchange_witness :
  let c := Sample.client [true; true; true] 0 in
  let w := Sample.world [true; false; false] c in
  arrives (B:=list bool) (block_frame 2 16384 [x01; x02; x03]) (fun _ => True) 9
    (fun j => OnPieceBlock j 2 16384 [x01; x02; x03]) ∧
  send_request 0 2 16384 3 (put 0 c w)
    = Ok (tt, put 0 (posted c [JWrite (request_frame 2 16384 3) WRemind]) w).
Proof.
  destruct (message_exchange 0 (Sample.client [true; true; true] 0)
    (Sample.world [true; false; false] (Sample.client [true; true; true] 0)) 2 16384 3 [x01; x02; x03])
    as ((Hr & _) & _ & (_ & Hb) & _).
  - reflexivity.
  - lia.
  - lia.
  - lia.
  - vm_compute. reflexivity.
  - split; [exact Hb|exact Hr].
Defined.

(** C36: the bitfield one client sends is the bitfield the other one has of it
    afterwards: the message built from [bits] (up to 2^24 pieces) read by a
    client of the same torrent whose picture of the sender was empty. *)
Theorem bitfield_exchange {B : Type} `{DynamicBitsetLaws B} `{Host} i c (w : World B) j c' (w' : World B) :
  let bits := bitfield_ (as_peer (master_peer_ w)) in
  let total := piece_count_of (meta_pieces_ w') in
  connected c → Size bits = total → Z.of_nat total < 2 ^ 24 →
  Size (bitfield_ (slave_peer_ c')) = total →
  (∀ n, (n < total)%nat → db_test (bitfield_ (slave_peer_ c')) n = false) →
  send_bitfield i (put i c w) = Ok (tt, put i (posted c [JWrite (frame (bitfield_body bits)) WRemind]) w) ∧
  ∃ bits', bits' ≡ bits ∧
    handle_response j (put j (received (bitfield_body bits) 1 c') w') =
      OnBitfield j (put j (set_slave (received (bitfield_body bits) 1 c')
                                     (set_bitfield (slave_peer_ c') bits')) w').
Proof.
  intros bits total Hc Hs Hlt Hs' Hz. split; [apply send_bitfield_put; [done|]; fold bits; lia|]. by apply handle_hello.
Qed.

Lemma bitfield_exchange_witness :
  let c := Sample.client [false; false; false] 5 in
  let w := Sample.world [true; false; true] c in
  ∃ bits', bits' ≡ [true; false; true] ∧
    handle_response 0 (put 0 (received [x05; xa0] 1 c) w) =
      OnBitfield 0 (put 0 (set_slave (received [x05; xa0] 1 c) (set_bitfield (slave_peer_ c) bits')) w).
Proof.
  destruct (bitfield_exchange 0 (Sample.client [false; false; false] 5)
    (Sample.world [true; false; true] (Sample.client [false; false; false] 5)) 0
    (Sample.client [false; false; false] 5)
    (Sample.world [true; false; true] (Sample.client [false; false; false] 5))) as (_ & bits' & Hb & E).
  - reflexivity.
  - reflexivity.
  - vm_compute. reflexivity.
  - reflexivity.
  - intros n Hn. vm_compute in Hn. do 3 (destruct n as [|n]; [reflexivity|]). lia.
  - exists bits'. split; [exact Hb|exact E].
Defined.

(** Each of the one-byte messages changes exactly the flag it is about and
    then does what the strategy says: choke drops the piece under way, unchoke
    asks for a piece, interested and not interested decide about unchoking. *)
Theorem control_messages {B : Type} `{DynamicBitset B} `{Host} i c (w : World B) :
  0 ≤ status_ c < 16 →
  ∃ c1 c2 c3 c4,
    handle_response i (put i (received (body_of choke []) 1 c) w) = Ok (tt, put i (posted c1 [JChoked]) w) ∧
    handle_response i (put i (received (body_of unchoke []) 1 c) w) = TryToRequestPiece i (put i c2 w) ∧
    handle_response i (put i (received (body_of interested []) 1 c) w) = OnInterested i (put i c3 w) ∧
    handle_response i (put i (received (body_of not_interested []) 1 c) w) = OnNotInterested i (put i c4 w) ∧
    (IsRemoteChoked c1, IsRemoteInterested c1, IsClientChoked c1, IsClientInterested c1)
      = (true, IsRemoteInterested c, IsClientChoked c, IsClientInterested c) ∧
    (IsRemoteChoked c2, IsRemoteInterested c2, IsClientChoked c2, IsClientInterested c2)
      = (false, IsRemoteInterested c, IsClientChoked c, IsClientInterested c) ∧
    (IsRemoteChoked c3, IsRemoteInterested c3, IsClientChoked c3, IsClientInterested c3)
      = (IsRemoteChoked c, true, IsClientChoked c, IsClientInterested c) ∧
    (IsRemoteChoked c4, IsRemoteInterested c4, IsClientChoked c4, IsClientInterested c4)
      = (IsRemoteChoked c, false, IsClientChoked c, IsClientInterested c).
Proof.
  intros Hs. eexists _, _, _, _. split; [apply handle_choke|]. split; [apply handle_unchoke|].
  split; [apply handle_interested|]. split; [apply handle_not_interested|].
  assert (∃ n, (n < 16)%nat ∧ status_ c = Z.of_nat n) as (n & Hn & E) by (exists (Z.to_nat (status_ c)); lia).
  unfold IsRemoteChoked, IsRemoteInterested, IsClientChoked, IsClientInterested.
  cbn [status_ set_status received set_msg]. rewrite E. clear E Hs.
  do 16 (destruct n as [|n]; [vm_compute; split_and!; reflexivity|]). lia.
Qed.

Lemma control_messages_witness :
  let c := Sample.client [true; true; true] 13 in
  let w := Sample.world [true; false; false] c in
  ∃ c2, handle_response 0 (put 0 (received (body_of unchoke []) 1 c) w) = TryToRequestPiece 0 (put 0 c2 w) ∧
    IsRemoteChoked c2 = false ∧ IsRemoteInterested c2 = true.
Proof.
  destruct (control_messages 0 (Sample.client [true; true; true] 13)
    (Sample.world [true; false; false] (Sample.client [true; true; true] 13)))
    as (c1 & c2 & c3 & c4 & _ & E2 & _ & _ & _ & F2 & _); [cbn; lia|].
  exists c2. split; [exact E2|]. by injection F2 as -> -> _ _.
Defined.

(** a message whose length is not the one its type requires ends the
    connection and has no other effect. *)
Theorem bad_size_disconnects {B : Type} `{DynamicBitset B} `{Host} i c (w : World B) t body :
  head body = Some (byte.of_Z (type_id t)) →
  match t with
  | choke | unchoke | interested | not_interested => length body ≠ 1%nat
  | have => length body ≠ 5%nat
  | request | cancel => length body ≠ 13%nat
  | piece_block => (length body < 9)%nat
  | Message.port => length body ≠ 3%nat
  | bitfield => ((piece_count_of (meta_pieces_ w) + 7) / 8 < length body - 1)%nat
  end →
  handle_response i (put i (received body 1 c) w) = Disconnect i (put i (received body 1 c) w).
Proof. apply handle_bad_size. Qed.

Lemma bad_size_disconnects_witness :
  let c := Sample.client [true; true; true] 0 in
  let w := Sample.world [true; false; false] c in
  handle_response 0 (put 0 (received [x05; xff; xff] 1 c) w)
    = Disconnect 0 (put 0 (received [x05; xff; xff] 1 c) w).
Proof.
  apply (bad_size_disconnects 0 (Sample.client [true; true; true] 0)
    (Sample.world [true; false; false] (Sample.client [true; true; true] 0)) bitfield [x05; xff; xff]).
  - reflexivity.
  - vm_compute. lia.
Defined.

(** A keep-alive stops the read loop: after the header of a keep-alive the
    client has posted the timeout that will disconnect it and no read. *)
Theorem keep_alive_stops_reading {B : Type} `{DynamicBitset B} `{Host} i c (w : World B) :
  send_keep_alive i (put i c w) = (if is_disconnected c then Ok (tt, put i c w)
    else Ok (tt, put i (posted c [JWrite (frame []) WRemind]) w)) ∧
  on_header i (frame []) (put i c w)
    = Ok (tt, put i (set_msg (posted c [JAwait ADisconnect]) (DecodeHeader (msg_to_read_ c) 0)) w).
Proof.
  split; [|apply keep_alive_stops]. unfold send_keep_alive. destruct (is_disconnected c) eqn:Hc.
  - by apply send_msg_disconnected.
  - by apply send_msg_put.
Qed.
