(* ===== verification/Download.v ===== *)
(** * From blocks to files and back

    The blocks of a piece put together in any order, the finished piece
    validated and written by a file worker, and a stored block served. *)

From Stdlib Require Import ZArith Lia Strings.Byte Strings.String.
From coqutil Require Import Byte Word.LittleEndianList.
From stdpp Require Import sorting.
From S2P Require Import Prelude Bytes Streams Worker Bencode Text Piece Files FilesFacts.
From S2P Require Import Bitset Bitfield Message Peer World PeerClient PeerFacts Exchange.

(** ** Cutting a piece into blocks *)

Definition B16 : nat := 16384.

Lemma B16_Z : Z.of_nat B16 = 16384.
Proof. reflexivity. Qed.
Lemma B16_pos : (0 < B16)%nat.
Proof. pose proof B16_Z. lia. Qed.
#[local] Opaque B16.

Definition block_at (D : bytes) (k : nat) : bytes := take B16 (drop (k * B16) D).

Definition blocks_of (D : bytes) : nat := Z.to_nat (block_count_of (Z.of_nat (length D))).

Lemma blocks_of_bounds D :
  (blocks_of D * B16 < length D + B16)%nat ∧ (length D ≤ blocks_of D * B16)%nat.
Proof.
  unfold blocks_of, block_count_of, most_request_size.
  pose proof (Z.div_mod (Z.of_nat (length D) + 16384 - 1) 16384 ltac:(lia)) as Hd.
  pose proof (Z.mod_pos_bound (Z.of_nat (length D) + 16384 - 1) 16384 ltac:(lia)) as Hm.
  remember ((Z.of_nat (length D) + 16384 - 1) / 16384) as q eqn:Eq. clear Eq.
  pose proof B16_Z as HB. generalize dependent B16. intros b HB.
  assert (0 ≤ q) by lia. split; nia.
Qed.

Lemma concat_blocks_upto D n : concat (map (block_at D) (seq 0 n)) = take (n * B16) D.
Proof.
  induction n as [|n IH]; [done|]. rewrite seq_S, map_app, concat_app, IH. cbn [map concat Nat.add].
  rewrite app_nil_r. unfold block_at. rewrite take_take_drop. f_equal. lia.
Qed.

Lemma concat_blocks D : concat (map (block_at D) (seq 0 (blocks_of D))) = D.
Proof.
  rewrite concat_blocks_upto. apply take_ge. apply blocks_of_bounds.
Qed.

Lemma length_block_at D k : length (block_at D k) = Nat.min B16 (length D - k * B16).
Proof. unfold block_at. by rewrite length_take, length_drop. Qed.

(** ** A piece with some of its blocks *)

Definition partial_block (D : bytes) (got : list nat) (k : nat) : Block :=
  if decide (k ∈ got) then mkBlock (block_at D k) (Z.of_nat k * most_request_size) else empty_block.

Definition partial (D : bytes) (idx : Z) (got : list nat) : Piece :=
  mkPiece (map (partial_block D got) (seq 0 (blocks_of D)))
          (Z.of_nat (length got)) (Z.of_nat (blocks_of D)) idx.

Definition full (D : bytes) (idx : Z) (order : list nat) : Piece := partial D idx order.

Lemma partial_nil D idx : partial D idx [] = new_piece idx (block_count_of (Z.of_nat (length D))).
Proof.
  unfold partial, new_piece. assert (0 ≤ block_count_of (Z.of_nat (length D))) as Hp.
  { unfold block_count_of, most_request_size. apply Z.div_pos; lia. }
  fold (blocks_of D). f_equal.
  - apply (list_eq_nth empty_block); [by rewrite length_map, length_seq, length_replicate|].
    intros i Hi. rewrite length_map, length_seq in Hi.
    rewrite !nth_lookup_default, list_lookup_fmap, lookup_replicate_2 by done.
    rewrite lookup_seq_lt by done. cbn. unfold partial_block. rewrite decide_False; [done|].
    apply not_elem_of_nil.
  - unfold blocks_of. lia.
Qed.

Lemma partial_insert D idx got k :
  (k < blocks_of D)%nat →
  <[k := mkBlock (block_at D k) (Z.of_nat k * most_request_size)]> (blocks (partial D idx got))
    = blocks (partial D idx (k :: got)).
Proof.
  intros Hk. cbn [blocks partial]. apply (list_eq_nth empty_block).
  - by rewrite length_insert, !length_map.
  - rewrite length_insert, length_map, length_seq. intros i Hi. rewrite !nth_lookup_default.
    destruct (decide (i = k)) as [->|Hne].
    + rewrite list_lookup_insert_eq by (by rewrite length_map, length_seq).
      rewrite list_lookup_fmap, lookup_seq_lt by done. cbn. unfold partial_block.
      rewrite decide_True; [done|by left].
    + rewrite list_lookup_insert_ne by done. rewrite !list_lookup_fmap, lookup_seq_lt by done. cbn.
      unfold partial_block. destruct (decide (i ∈ got)).
      * rewrite decide_True; [done|by right].
      * rewrite decide_False; [done|]. by intros [?|?]%elem_of_cons.
Qed.

Lemma full_blocks D idx order :
  order ≡ₚ seq 0 (blocks_of D) →
  blocks (full D idx order)
    = map (fun k => mkBlock (block_at D k) (Z.of_nat k * most_request_size)) (seq 0 (blocks_of D)).
Proof.
  intros Hp. cbn. apply map_ext_in. intros k Hk. unfold partial_block.
  rewrite decide_True; [done|]. rewrite Hp. by apply list_elem_of_In.
Qed.

Lemma full_data D idx order : order ≡ₚ seq 0 (blocks_of D) → piece_data (full D idx order) = D.
Proof.
  intros Hp. unfold piece_data. rewrite (full_blocks D idx order Hp), map_map. cbn. apply concat_blocks.
Qed.

Lemma uniform_blocks D a n :
  (a + n ≤ blocks_of D)%nat →
  uniform B16 (map (fun k => mkBlock (block_at D k) (Z.of_nat k * most_request_size)) (seq a n)).
Proof.
  revert a. induction n as [|n IH]; intros a Ha; [done|]. cbn [seq map].
  destruct n as [|n]; [cbn [seq map uniform data_]; rewrite length_block_at; lia|]. cbn [seq map uniform]. split.
  - cbn [data_]. rewrite length_block_at. pose proof (blocks_of_bounds D). nia.
  - apply (IH (S a)). lia.
Qed.

Lemma full_well_shaped D idx order :
  order ≡ₚ seq 0 (blocks_of D) → (0 < length D)%nat → well_shaped (full D idx order).
Proof.
  intros Hp HD. pose proof (blocks_of_bounds D) as Hb. unfold well_shaped.
  rewrite (full_blocks D idx order Hp). pose proof (uniform_blocks D 0 (blocks_of D) ltac:(lia)) as Hu.
  destruct (blocks_of D) as [|n] eqn:En; [lia|]. cbn [seq map] in *. eexists _, _. split; [done|].
  pose proof B16_pos. cbn [data_] in *. rewrite length_block_at. cbn [Nat.mul]. rewrite Nat.sub_0_r.
  split; [lia|]. destruct n as [|n].
  - cbn [seq map uniform data_]. rewrite length_block_at. lia.
  - assert (B16 ≤ length D)%nat by nia. by rewrite Nat.min_l.
Qed.

(** The blocks are in order already when the file worker sorts them. *)
Lemma full_sorted D idx order :
  order ≡ₚ seq 0 (blocks_of D) → sort_blocks (full D idx order) = full D idx order.
Proof.
  intros Hp. unfold sort_blocks. destruct (full D idx order) as [bs cur cnt ix] eqn:E. f_equal.
  assert (bs = map (fun k => mkBlock (block_at D k) (Z.of_nat k * most_request_size)) (seq 0 (blocks_of D))) as ->.
  { rewrite <- (full_blocks D idx order Hp), E. done. }
  cbn [blocks]. set (l := map _ _).
  assert (∀ a n, StronglySorted block_le
    (map (fun k => mkBlock (block_at D k) (Z.of_nat k * most_request_size)) (seq a n))) as Hsorted.
  { intros a n. revert a. induction n as [|n IH]; intros a; cbn [seq map]; constructor; [apply IH|].
    apply List.Forall_forall. intros b (k & <- & Hk%in_seq)%in_map_iff. unfold block_le. cbn.
    unfold most_request_size. lia. }
  apply (StronglySorted_unique_strong block_le).
  - intros b1 b2 H1 H2 H12 H21. rewrite merge_sort_Permutation in H1. subst l.
    apply list_elem_of_In, in_map_iff in H1 as (k1 & <- & _).
    apply list_elem_of_In, in_map_iff in H2 as (k2 & <- & _).
    unfold block_le in *. cbn in *. unfold most_request_size in *. assert (k1 = k2) as -> by lia. done.
  - apply StronglySorted_merge_sort; unfold block_le; [intros ? ? ? ? ?; lia|intros ? ?; lia].
  - apply Hsorted.
  - apply merge_sort_Permutation.
Qed.

(** ** Receiving the blocks of a piece *)

Section Assembly.
Context {B : Type} `{DynamicBitset B} `{Host}.
Implicit Types (w : World B) (c : PeerClient B).

(** The job for a complete piece is queued and the storage given away. *)
Definition finished c D idx order next : PeerClient B :=
  posted (set_active_piece c (Some (moved_from (full D idx order), next))) [JClearAndTry].

Definition queued_world w (id : Z) (rs : list Z) (req : WriteRequest) : World B :=
  let m := file_manager_ w in
  let a := a_worker_ m in
  set_random (set_manager w (set_worker m
    (mkWorker (queue_ a ++ [mkNode (next_addr a) (DownloadJob req) id])
              (<[id := next_addr a]> (executing_callbacks_ a)) (quit_ a) (stopped_ a) (S (next_addr a))))) rs.

Lemma Torrent_DownloadPiece_spec req id rs w :
  draw_id (executing_callbacks_ (a_worker_ (file_manager_ w))) (random_ w) = Ok (id, rs) →
  Torrent_DownloadPiece req w = Ok (tt, queued_world w id rs req).
Proof.
  intros Hd. unfold Torrent_DownloadPiece. erewrite st_bind_Ok by reflexivity. cbv beta.
  erewrite st_bind_Ok.
  2:{ unfold lift, DownloadPiece, Enqueue. rewrite Hd. reflexivity. }
  reflexivity.
Qed.

(** One block of the piece under way. *)
Lemma run_block_put i D idx got k next c w :
  active_piece_ c = Some (partial D idx got, next) →
  (k < blocks_of D ≤ 150)%nat → (length got < blocks_of D)%nat →
  let c1 := set_active_piece c (Some (partial D idx (k :: got), next)) in
  run_block i idx (Z.of_nat k * most_request_size) (block_at D k) (put i c w) =
    if decide (S (length got) = blocks_of D) then
      (_ ← Torrent_DownloadPiece (mkWriteRequest (Some i) idx (partial D idx (k :: got)));
       _ ← modify_client i (fun c => set_active_piece c (Some (moved_from (partial D idx (k :: got)), next)));
       ClearAndTryRequest i) (put i c1 w)
    else Ok (tt, put i c1 w).
Proof.
  intros Ha Hk Hgot c1. unfold run_block.
  erewrite st_bind_Ok by (unfold active; erewrite st_bind_Ok by apply get_client_put; rewrite Ha; reflexivity).
  cbv iota. rewrite Z.div_mul by (unfold most_request_size; lia). rewrite u32_small by lia. rewrite Nat2Z.id.
  destruct (lookup_lt_is_Some_2 (blocks (partial D idx got)) k) as [b Hb].
  { cbn. rewrite length_map, length_seq. lia. }
  erewrite st_bind_Ok by (unfold lift; rewrite Hb; reflexivity). cbv beta zeta.
  rewrite partial_insert by lia. cbn [partial current_blocks_num block_count index].
  rewrite u64_small by lia.
  assert (mkPiece (blocks (partial D idx (k :: got))) (Z.of_nat (length got) + 1) (Z.of_nat (blocks_of D)) idx
    = partial D idx (k :: got)) as Ep by (unfold partial; cbn [length]; f_equal; lia).
  rewrite Ep. erewrite st_bind_Ok by apply modify_client_put. cbv beta. fold c1.
  destruct (decide (S (length got) = blocks_of D)) as [Hd|Hd].
  - destruct (Z.eqb_spec (Z.of_nat (length got) + 1) (Z.of_nat (blocks_of D))); [done|lia].
  - destruct (Z.eqb_spec (Z.of_nat (length got) + 1) (Z.of_nat (blocks_of D))); [lia|].
    unfold REQUEST_MAX_QUEUE_SIZE. rewrite Z.mod_small by lia.
    destruct (Z.eqb_spec (Z.of_nat (length got) + 1) 0); [lia|]. done.
Qed.

Lemma finish_put i D idx k got next id rs c w :
  draw_id (executing_callbacks_ (a_worker_ (file_manager_ w))) (random_ w) = Ok (id, rs) →
  let c1 := set_active_piece c (Some (partial D idx (k :: got), next)) in
  (_ ← Torrent_DownloadPiece (mkWriteRequest (Some i) idx (partial D idx (k :: got)));
   _ ← modify_client i (fun c => set_active_piece c (Some (moved_from (partial D idx (k :: got)), next)));
   ClearAndTryRequest i) (put i c1 w)
  = Ok (tt, put i (finished c D idx (k :: got) next)
         (queued_world w id rs (mkWriteRequest (Some i) idx (full D idx (k :: got))))).
Proof.
  intros Hd c1. erewrite st_bind_Ok by exact (Torrent_DownloadPiece_spec _ id rs (put i c1 w) Hd). cbv beta.
  assert (queued_world (put i c1 w) id rs (mkWriteRequest (Some i) idx (partial D idx (k :: got)))
    = put i c1 (queued_world w id rs (mkWriteRequest (Some i) idx (full D idx (k :: got))))) as -> by done.
  erewrite st_bind_Ok by apply modify_client_put. cbv beta. apply Post_put.
Qed.

(** A block of a piece that is asked for and not done is passed to the strand. *)
Lemma OnPieceBlock_put i idx begin data c w :
  0 ≤ idx < Z.of_nat (piece_count_of (meta_pieces_ w)) → idx < 2 ^ 32 →
  Z.of_nat (length data) ≤ most_request_size →
  end_game_ (strategy_ w) || IsPieceRequested (master_peer_ w) idx = true →
  IsPieceDone (master_peer_ w) idx = Ok false →
  OnPieceBlock i idx begin data (put i c w)
    = Ok (tt, put i (posted (set_piece_wait c false) [JBlock idx begin data]) w).
Proof.
  intros Hidx H32 Hl Hreq Hdone. rewrite OnPieceBlock_any. unfold OptimalStrategy_OnPieceBlock.
  erewrite st_bind_Ok by reflexivity. cbv beta.
  destruct (Z.leb_spec (Z.of_nat (piece_count_of (meta_pieces_ (put i c w)))) idx) as [Hle|_];
    [cbn [put set_clients meta_pieces_] in Hle; lia|].
  destruct (Z.ltb_spec most_request_size (Z.of_nat (length data))); [lia|].
  erewrite st_bind_Ok by reflexivity. cbv beta.
  cbn [put set_clients master_peer_ strategy_]. rewrite u32_small by lia. rewrite <- negb_orb, Hreq. cbn [negb].
  erewrite st_bind_Ok.
  2:{ unfold PieceDone. erewrite st_bind_Ok by reflexivity. cbn [put set_clients master_peer_].
      unfold lift. rewrite u32_small by lia. rewrite Hdone. reflexivity. }
  cbv iota. fold (put i c w). erewrite st_bind_Ok by apply modify_client_put. apply Post_put.
Qed.

Lemma assemble i D idx order got next id rs c w :
  active_piece_ c = Some (partial D idx got, next) → (blocks_of D ≤ 150)%nat → order ≠ [] →
  order ++ got ≡ₚ seq 0 (blocks_of D) →
  draw_id (executing_callbacks_ (a_worker_ (file_manager_ w))) (random_ w) = Ok (id, rs) →
  for_each order (fun k => run_block i idx (Z.of_nat k * most_request_size) (block_at D k)) (put i c w)
  = Ok (tt, put i (finished c D idx (rev order ++ got) next)
         (queued_world w id rs (mkWriteRequest (Some i) idx (full D idx (rev order ++ got))))).
Proof.
  revert got c. induction order as [|k order IH]; intros got c Ha Hn Hne Hp Hd; [done|]. clear Hne.
  cbn [for_each]. pose proof (Permutation_length Hp) as Hlen. rewrite length_seq in Hlen.
  cbn [app length] in Hlen. rewrite length_app in Hlen.
  assert (k < blocks_of D)%nat as Hk.
  { assert (k ∈ seq 0 (blocks_of D)) as Hin by (rewrite <- Hp; by left).
    apply list_elem_of_In, in_seq in Hin. lia. }
  pose proof (run_block_put i D idx got k next c w Ha ltac:(lia) ltac:(lia)) as E. cbv zeta in E.
  destruct order as [|k' order].
  - rewrite decide_True in E by (cbn in Hlen; lia). rewrite (finish_put i D idx k got next id rs c w Hd) in E.
    erewrite st_bind_Ok by exact E. done.
  - rewrite decide_False in E by (cbn in Hlen; lia). erewrite st_bind_Ok by exact E. cbv beta.
    rewrite (IH (k :: got)); try done.
    + cbn [rev]. rewrite <- !app_assoc. done.
    + etrans; [|exact Hp]. symmetry. apply (Permutation_middle (k' :: order)).
Qed.
End Assembly.

(** C9: the blocks of a piece, received in any order for a freshly requested piece
    of at most 150 blocks, end in one request to the file worker, whose piece,
    once sorted, holds exactly the data sent; the client gives its storage away
    and posts the request for the next piece. *)
Theorem block_assembly {B : Type} `{DynamicBitset B} `{Host} i (c : PeerClient B) w D idx order next id rs :
  active_piece_ c = Some (new_piece idx (block_count_of (Z.of_nat (length D))), next) →
  order ≡ₚ seq 0 (blocks_of D) → (0 < blocks_of D ≤ 150)%nat → (0 < length D)%nat →
  draw_id (executing_callbacks_ (a_worker_ (file_manager_ w))) (random_ w) = Ok (id, rs) →
  ∃ p, for_each order (fun k => run_block i idx (Z.of_nat k * most_request_size) (block_at D k)) (put i c w)
       = Ok (tt, put i (posted (set_active_piece c (Some (moved_from p, next))) [JClearAndTry])
                   (queued_world w id rs (mkWriteRequest (Some i) idx p)))
    ∧ piece_data (sort_blocks p) = D ∧ well_shaped (sort_blocks p) ∧ index p = idx.
Proof.
  intros Ha Hp Hn HD Hd. rewrite <- partial_nil in Ha.
  assert (rev order ≡ₚ seq 0 (blocks_of D)) as Hrev by by rewrite <- Permutation_rev.
  exists (full D idx (rev order)). split.
  - pose proof (assemble i D idx order [] next id rs c w Ha ltac:(lia)) as E. rewrite app_nil_r in E.
    rewrite app_nil_r in E. apply E; [|done|done]. intros ->. apply Permutation_length in Hp.
    rewrite length_seq in Hp. cbn in Hp. lia.
  - rewrite full_sorted by done. split; [by apply full_data|]. split; [by apply full_well_shaped|done].
Qed.

(** ** Validating and storing a piece *)

Section Storing.
Context {B : Type} `{DynamicBitsetLaws B} `{Host} `{S1 : Sha1} `{!Sha1Laws S1}.
Implicit Types (w : World B) (c : PeerClient B).

(** Every subscriber is a client object that exists. *)
Definition subscribers_exist w : Prop :=
  ∀ a j, peers_subscribers_ (master_peer_ w) !! a = Some j → is_Some (clients w !! j).

(** What the other clients are told about a piece. *)
Definition notice (idx : Z) (j : Job) : Prop :=
  j = JWrite (have_frame idx) WRemind ∨ j = JCancelIfActive idx.

Definition told (idx : Z) w w' : Prop := ∀ j,
  match clients w !! j with
  | Some c => ∃ js, Forall (notice idx) js ∧ clients w' !! j = Some (posted c js)
  | None => clients w' !! j = None
  end.

(** What telling the other peers about a piece leaves alone. *)
Definition same_core (idx : Z) w w' : Prop :=
  master_peer_ w' = master_peer_ w ∧ disk w' = disk w ∧ file_manager_ w' = file_manager_ w ∧
  meta_pieces_ w' = meta_pieces_ w ∧ ready_pieces_num_ w' = ready_pieces_num_ w ∧ random_ w' = random_ w ∧
  told idx w w'.

#[export] Instance told_refl idx : Reflexive (told idx).
Proof.
  intros w j. destruct (clients w !! j) as [c|]; [|done]. exists []. by rewrite posted_nil.
Qed.
#[export] Instance told_trans idx : Transitive (told idx).
Proof.
  intros w1 w2 w3 Ht Hu j. specialize (Ht j). specialize (Hu j). destruct (clients w1 !! j) as [c|].
  - destruct Ht as (js1 & Hf1 & E1). rewrite E1 in Hu. destruct Hu as (js2 & Hf2 & E2).
    exists (js1 ++ js2). split; [by apply list.Forall_app|]. by rewrite E2, posted_posted.
  - rewrite Ht in Hu. done.
Qed.
#[export] Instance same_core_refl idx : Reflexive (same_core idx).
Proof. intros w. unfold same_core. split_and!; done. Qed.
#[export] Instance same_core_trans idx : Transitive (same_core idx).
Proof. intros w1 w2 w3 (?&?&?&?&?&?&?) (?&?&?&?&?&?&?). unfold same_core. split_and!; [congruence..|by etrans]. Qed.

Lemma told_client idx w w' j : told idx w w' → is_Some (clients w !! j) → is_Some (clients w' !! j).
Proof. intros Ht [c Hc]. specialize (Ht j). rewrite Hc in Ht. destruct Ht as (js & _ & ->). by eexists. Qed.

Lemma same_core_client idx w w' j : same_core idx w w' → is_Some (clients w !! j) → is_Some (clients w' !! j).
Proof. intros (_ & _ & _ & _ & _ & _ & Ht). by apply (told_client idx). Qed.

Lemma get_client_core i w : is_Some (clients w !! i) → wp false (get_client i) (fun c w' => w' = w) w.
Proof. intros [c Hc]. unfold wp, get_client. by rewrite Hc. Qed.

Lemma Post_core idx i j w : notice idx j → is_Some (clients w !! i) → wp false (Post i j) (fun _ => same_core idx w) w.
Proof.
  intros Hj [c Hc]. unfold wp, Post, modify_client. rewrite Hc. cbn. unfold same_core. cbn. split_and!; try done.
  intros k. cbn. destruct (decide (k = i)) as [->|Hne].
  - rewrite Hc. exists [j]. split; [by constructor|]. by rewrite lookup_insert_eq.
  - rewrite lookup_insert_ne by done. by apply told_refl.
Qed.

Lemma send_have_core i idx w : is_Some (clients w !! i) → wp false (send_have i idx) (fun _ => same_core idx w) w.
Proof.
  intros Hi. unfold send_have, send_msg. apply wp_bind. eapply wp_mono; [by apply get_client_core|].
  intros c w' ->. destruct (is_disconnected c); [by apply wp_ret|]. apply wp_bind.
  eapply wp_lift.
  - apply (EncodeHeader_frame _ (body_of have [(4%nat, u32 idx)])); [apply (peer_msg_fields _ [(4%nat, u32 idx)])|].
    by rewrite length_body_of.
  - apply (Post_core idx); [by left|done].
Qed.

Lemma subscribers_core w :
  subscribers_exist w →
  wp false subscribers (fun l w' => w' = w ∧ ∀ j, j ∈ l → is_Some (clients w !! j)) w.
Proof.
  intros Hs. unfold subscribers, wp. cbn. split; [done|]. intros j ([a j'] & -> & Hin)%list_elem_of_fmap.
  apply elem_of_map_to_list in Hin. by eapply Hs.
Qed.

(** A loop over the subscribers whose body leaves the core alone. *)
Lemma each_subscriber_core idx (body : nat → ST (World B) unit) w :
  subscribers_exist w →
  (∀ j w, is_Some (clients w !! j) → wp false (body j) (fun _ => same_core idx w) w) →
  wp false (peers ← subscribers; for_each peers body) (fun _ => same_core idx w) w.
Proof.
  intros Hs Hb. apply wp_bind. eapply wp_mono; [by apply subscribers_core|]. intros l w' [-> Hl]. cbv beta.
  apply (wp_for_each false (same_core idx w)); [|done]. intros j w' Hj Hw. eapply wp_mono.
  - apply Hb. eapply same_core_client; [done|by apply Hl].
  - cbv beta. intros u w'' Hw'. by etrans.
Qed.

Lemma SendHaveToAll_core idx w : subscribers_exist w → wp false (SendHaveToAll idx) (fun _ => same_core idx w) w.
Proof.
  intros Hs. apply each_subscriber_core; [done|]. intros j w' Hj. apply wp_bind.
  eapply wp_mono; [by apply get_client_core|]. intros c w'' ->. apply wp_when; [|done].
  intros _. by apply send_have_core.
Qed.

Lemma CancelPiece_core idx w : subscribers_exist w → wp false (CancelPiece idx) (fun _ => same_core idx w) w.
Proof. intros Hs. apply each_subscriber_core; [done|]. intros j w' Hj. apply Post_core; [by right|done]. Qed.

Lemma count_distributors_core l w :
  (∀ j, j ∈ l → is_Some (clients w !! j)) → wp false (count_distributors l) (fun _ w' => w' = w) w.
Proof.
  induction l as [|j l IH]; intros Hl; cbn [count_distributors]; [by apply wp_ret|]. apply wp_bind.
  eapply wp_mono; [apply get_client_core, Hl; by left|]. intros c w' ->. apply wp_bind.
  eapply wp_mono; [apply IH; intros; apply Hl; by right|]. intros n w' ->. by apply wp_ret.
Qed.

Lemma BittorrentStrategy_OnPieceDownloaded_core id w :
  subscribers_exist w → wp false (BittorrentStrategy_OnPieceDownloaded id) (fun _ => same_core id w) w.
Proof.
  intros Hs. unfold BittorrentStrategy_OnPieceDownloaded, DistributorsCount. apply wp_bind, wp_bind.
  eapply wp_mono; [by apply subscribers_core|]. intros l w' [-> Hl]. cbv beta.
  eapply wp_mono; [by apply count_distributors_core|]. intros n w' ->. by apply wp_ret.
Qed.

Lemma Strategy_OnPieceDownloaded_core id w :
  subscribers_exist w → wp false (Strategy_OnPieceDownloaded id) (fun _ => same_core id w) w.
Proof.
  intros Hs. unfold Strategy_OnPieceDownloaded. apply wp_bind, wp_get.
  destruct (strategy_ w) as [|e]; [by apply BittorrentStrategy_OnPieceDownloaded_core|]. apply wp_bind.
  apply (wp_mono false _ (fun _ w' => same_core id w w' ∧ subscribers_exist w')).
  - assert (∀ w', same_core id w w' → subscribers_exist w') as Hs'.
    { intros w' Hw a j Ha. eapply same_core_client; [done|]. destruct Hw as (Hm & _). rewrite Hm in Ha. by eapply Hs. }
    destruct e.
    + eapply wp_mono; [by apply CancelPiece_core|]. auto.
    + unfold wp, get_st, TotalPiecesCount, when, mbind, ST_bind.
      destruct (_ <=? _); (split; [exact (same_core_refl id w)|done]).
  - cbv beta. intros u w' [Hw Hs']. eapply wp_mono; [by apply BittorrentStrategy_OnPieceDownloaded_core|].
    intros ? w'' Hw'. by etrans.
Qed.

(** The state after a finished piece has been accepted. *)
Definition accepted w w' (idx : Z) (f : fsys) : Prop :=
  disk w' = f ∧ file_manager_ w' = file_manager_ w ∧ ready_pieces_num_ w' = u64 (ready_pieces_num_ w + 1) ∧
  requested_pieces_ (master_peer_ w') = requested_pieces_ (master_peer_ w) ∖ {[idx]} ∧
  peers_subscribers_ (master_peer_ w') = peers_subscribers_ (master_peer_ w) ∧
  meta_pieces_ w' = meta_pieces_ w ∧ random_ w' = random_ w ∧ told idx w w' ∧
  let bits := bitfield_ (as_peer (master_peer_ w)) in
  let bits' := bitfield_ (as_peer (master_peer_ w')) in
  Size bits' = Size bits ∧
  ∀ n, (n < Size bits)%nat → db_test bits' n = (bool_decide (n = Z.to_nat idx) || db_test bits n).

Definition set_bits_of w (bits : B) : World B :=
  set_master w (set_peer (master_peer_ w) (set_bitfield (as_peer (master_peer_ w)) bits)).

Lemma SetPiece_core idx w bits :
  subscribers_exist w → Set_ (bitfield_ (as_peer (master_peer_ w))) (Z.to_nat idx) = Ok bits →
  wp false (SetPiece idx)
     (fun _ => same_core idx (set_ready (set_bits_of w bits) (u64 (ready_pieces_num_ w + 1)))) w.
Proof.
  intros Hs Hset. unfold SetPiece, Have. apply wp_bind, wp_bind.
  apply (wp_from_Ok false _ _ _ (master_peer_ w) w); [done|]. apply wp_bind.
  eapply wp_lift; [exact Hset|]. apply wp_bind.
  apply (wp_from_Ok false _ _ _ tt (set_bits_of w bits)); [done|].
  eapply wp_mono; [by apply SendHaveToAll_core|]. cbv beta. intros _ w1 Hc. unfold OnPieceDownloaded.
  apply wp_bind. apply (wp_from_Ok false _ _ _ tt (set_ready w1 (u64 (ready_pieces_num_ w1 + 1)))); [done|].
  eapply wp_mono; [apply Strategy_OnPieceDownloaded_core|cbv beta].
  - intros a j Ha. destruct Hc as (Hm & _ & _ & _ & _ & _ & Hd). cbn in Ha, Hm. rewrite Hm in Ha.
    apply (told_client idx (set_bits_of w bits) w1); [done|]. by eapply Hs.
  - intros _ w' Hw. etrans; [|exact Hw]. destruct Hc as (?&?&?&?&Hr&?&?). cbn in Hr.
    unfold same_core. cbn. rewrite Hr. split_and!; done.
Qed.

Definition finished_request (req : WriteRequest) : WriteRequest :=
  mkWriteRequest (wr_peer req) (wr_piece_index req) (sort_blocks (wr_piece req)).

Lemma run_download_valid req f w :
  subscribers_exist w → (Z.to_nat (wr_piece_index req) < Size (bitfield_ (as_peer (master_peer_ w))))%nat →
  ArePieceValid (meta_pieces_ w) (finished_request req) = Ok true →
  WritePieceToFile (files_ (file_manager_ w)) (sort_blocks (wr_piece req)) (disk w) = Ok f →
  wp false (run_download req) (fun _ w' => accepted w w' (wr_piece_index req) f) w.
Proof.
  intros Hs Hi Hv Hf. unfold run_download. apply wp_bind, wp_get. cbv zeta. fold (finished_request req).
  apply wp_bind. eapply wp_lift; [exact Hv|]. cbv iota. apply wp_bind, wp_bind.
  eapply wp_lift; [exact Hf|]. apply wp_bind. apply (wp_from_Ok false _ _ _ tt (set_disk w f)); [done|].
  destruct (Set_in _ _ Hi) as (bits & Hset & Hsz & Ht).
  eapply wp_mono; [by apply (SetPiece_core _ (set_disk w f) bits)|]. cbv beta. cbn [wr_piece_index finished_request].
  intros _ w' (Em & Ed & Efm & Emp & Er & Erd & Et). cbn in Em, Ed, Efm, Emp, Er, Erd.
  apply (wp_from_Ok false _ _ _ tt (set_master w' (UnmarkRequestedPiece (master_peer_ w') (wr_piece_index req))));
    [done|]. unfold accepted. cbn. rewrite Em. cbn. split_and!; try done.
Qed.

Lemma run_download_invalid req w :
  ArePieceValid (meta_pieces_ w) (finished_request req) = Ok false →
  run_download req w = Ok (tt, set_master w (UnmarkRequestedPiece (master_peer_ w) (wr_piece_index req))).
Proof.
  intros Hv. unfold run_download. erewrite st_bind_Ok by reflexivity. cbv zeta beta. fold (finished_request req).
  erewrite st_bind_Ok by (unfold lift; rewrite Hv; reflexivity). cbv beta iota.
  by erewrite st_bind_Ok by reflexivity.
Qed.

(** The lambda of a valid piece whose write does not return. *)
Lemma run_download_write req w :
  ArePieceValid (meta_pieces_ w) (finished_request req) = Ok true →
  ∀ r, WritePieceToFile (files_ (file_manager_ w)) (sort_blocks (wr_piece req)) (disk w) = r →
  match r with
  | Ok _ => True
  | Throw e => run_download req w = Throw e
  | UB => run_download req w = UB
  | Abort_assert => run_download req w = Abort_assert
  | NoFuel => run_download req w = NoFuel
  end.
Proof.
  intros Hv r Hr. unfold run_download. erewrite st_bind_Ok by reflexivity. cbv zeta beta. fold (finished_request req).
  erewrite st_bind_Ok by (unfold lift; rewrite Hv; reflexivity). cbv beta iota.
  unfold mbind, ST_bind, lift at 1. cbn [wr_piece finished_request]. rewrite Hr. by destruct r.
Qed.
End Storing.

(** ** Serving a stored block *)

Section Serving.
Context {B : Type} `{DynamicBitset B} `{Host} `{Sha1}.
Implicit Types (w : World B) (c : PeerClient B).

(** Only the file manager, the random numbers and the uploaded set differ. *)
Definition same_but_manager w w' : Prop :=
  clients w' = clients w ∧ disk w' = disk w ∧ meta_pieces_ w' = meta_pieces_ w ∧
  files_ (file_manager_ w') = files_ (file_manager_ w) ∧
  as_peer (master_peer_ w') = as_peer (master_peer_ w).

(** The idle worker [a0] after one more job. *)
Definition one_job (a0 a : AsyncWorker (J:=FileJob)) (j : FileJob) : Prop :=
  quit_ a = false ∧ stopped_ a = false ∧ ∃ n, queue_ a = [n] ∧ n_func n = j ∧
    delete (n_id n) (executing_callbacks_ a) = executing_callbacks_ a0.

Lemma UploadPieceBlock_put i req c w id rs :
  quit_ (a_worker_ (file_manager_ w)) = false → stopped_ (a_worker_ (file_manager_ w)) = false →
  queue_ (a_worker_ (file_manager_ w)) = [] → keys_null (file_manager_ w) →
  draw_id (executing_callbacks_ (a_worker_ (file_manager_ w))) (random_ w) = Ok (id, rs) →
  ∃ id' w', UploadPieceBlock req (put i c w) = Ok (id', put i c w') ∧ same_but_manager w w' ∧
    one_job (a_worker_ (file_manager_ w)) (a_worker_ (file_manager_ w')) (UploadJob req) ∧
    keys_null (file_manager_ w') ∧ random_ w' = rs.
Proof.
  intros Hq Hs Hqueue Hk Hd. unfold UploadPieceBlock.
  destruct (UploadBlock (file_manager_ w) req (random_ w)) as [[[id' m] rs']| | | |] eqn:E;
    unfold UploadBlock, Enqueue in E; rewrite Hd in E; cbn in E;
    try (destruct (active_requests_ _ !! _); discriminate E).
  exists id', (set_random (set_manager w m) rs'). split.
  - erewrite st_bind_Ok by reflexivity. cbv beta. cbn [put set_clients file_manager_ random_].
    erewrite st_bind_Ok.
    2:{ unfold lift, UploadBlock, Enqueue. rewrite Hd. cbn. rewrite E. reflexivity. }
    reflexivity.
  - apply draw_id_Ok in Hd as [Hfresh _].
    unfold one_job, same_but_manager, keys_null. rewrite Hqueue in E. cbn in E.
    destruct (active_requests_ _ !! _); injection E as <- <- <-; cbn; rewrite ?Hq, ?Hs.
    + split_and!; try done. eexists. split_and!; [done|done|]. cbn. by rewrite delete_insert_id.
    + split_and!; try done; [|by apply map_Forall_insert_2].
      eexists. split_and!; [done|done|]. cbn. by rewrite delete_insert_id.
Qed.

Lemma OnRequest_put i idx begin len c w id rs :
  let req := mkReadRequest (Some i) idx begin len in
  quit_ (a_worker_ (file_manager_ w)) = false → stopped_ (a_worker_ (file_manager_ w)) = false →
  queue_ (a_worker_ (file_manager_ w)) = [] → keys_null (file_manager_ w) →
  draw_id (executing_callbacks_ (a_worker_ (file_manager_ w))) (random_ w) = Ok (id, rs) →
  idx < Z.of_nat (piece_count_of (meta_pieces_ w)) → IsPieceDone (master_peer_ w) (u32 idx) = Ok true →
  ∃ w', OnRequest i idx begin len (put i c w) = Ok (tt, put i c w') ∧ same_but_manager w w' ∧
    one_job (a_worker_ (file_manager_ w)) (a_worker_ (file_manager_ w')) (UploadJob req) ∧
    keys_null (file_manager_ w') ∧ random_ w' = rs.
Proof.
  intros req Hq Hs Hqueue Hk Hd Ht Hdone.
  destruct (UploadPieceBlock_put i req c w id rs Hq Hs Hqueue Hk Hd) as (id' & w1 & E & Hsame & Hjob & Hk' & Hr).
  exists (set_master w1 (MarkUploadedPiece (master_peer_ w1) id')). split; [|done].
  unfold OnRequest. erewrite st_bind_Ok by reflexivity. cbv beta.
  destruct (Z.leb_spec (Z.of_nat (piece_count_of (meta_pieces_ (put i c w)))) idx) as [Hle|_]; [exact (False_ind _ (proj1 (Z.lt_nge _ _) Ht Hle))|].
  erewrite st_bind_Ok.
  2:{ unfold PieceDone. erewrite st_bind_Ok by reflexivity. cbn [put set_clients master_peer_].
      unfold lift. rewrite Hdone. reflexivity. }
  cbv iota. erewrite st_bind_Ok by exact E. reflexivity.
Qed.

Lemma run_upload_put i idx begin len block c w :
  let req := mkReadRequest (Some i) idx begin len in
  connected c → keys_null (file_manager_ w) → idx < Z.of_nat (piece_count_of (meta_pieces_ w)) →
  ReadPieceBlockFromFile (files_ (file_manager_ w)) (Z.to_nat idx) begin len (disk w) = Ok block →
  Z.of_nat (length (data_ block)) < 2 ^ 31 →
  ∃ w', run_upload req (put i c w)
      = Ok (tt, put i (posted c [JWrite (block_frame idx begin (data_ block)) WRemind]) w') ∧
    same_but_manager w w' ∧ a_worker_ (file_manager_ w') = a_worker_ (file_manager_ w) ∧
    keys_null (file_manager_ w') ∧ random_ w' = random_ w.
Proof.
  intros req Hc Hk Ht Hread Hl. unfold run_upload. erewrite st_bind_Ok by reflexivity.
  assert (upload_entry (file_manager_ (put i c w)) req
    = (false, set_active (file_manager_ w) (delete (key_of req) (active_requests_ (file_manager_ w))))) as ->.
  { unfold upload_entry. destruct (active_requests_ (file_manager_ (put i c w)) !! key_of req) as [x|] eqn:E; [|done].
    cbn in E. apply Hk in E. discriminate E. }
  set (m := set_active _ _). pose (w1 := set_manager w m).
  exists (set_master w1 (UnmarkUploadedPiece (master_peer_ w) idx)).
  split; [|split_and!; try done; by apply map_Forall_delete].
  erewrite st_bind_Ok by reflexivity. cbv iota. cbn [rr_piece_index rr_begin rr_length rr_peer req].
  erewrite st_bind_Ok by (unfold lift; cbn [put set_clients disk]; rewrite (Hread : ReadPieceBlockFromFile (files_ m) _ _ _ _ = _); reflexivity).
  cbv beta. erewrite st_bind_Ok by reflexivity. cbv beta.
  erewrite st_bind_Ok.
  2:{ unfold OnBlockReadyToSend. erewrite st_bind_Ok by reflexivity. cbv beta.
      change (meta_pieces_ (set_manager (put i c w) m)) with (meta_pieces_ w).
      destruct (Z.leb_spec (Z.of_nat (piece_count_of (meta_pieces_ w))) idx); [lia|].
      exact (send_block_put i idx begin (data_ block) c w1 Hc Hl). }
  reflexivity.
Qed.
End Serving.

(** C24: an idle file worker serves a request for a piece we have: the handler of
    the request queues it, and the worker's next round sends the peer one block
    message with the position asked for and the bytes the files hold there. *)
Theorem request_served {B : Type} `{DynamicBitset B} `{Host} `{Sha1}
    i (c : PeerClient B) w idx begin len block id rs :
  let a := a_worker_ (file_manager_ w) in
  connected c → manager_reach (file_manager_ w) → quit_ a = false → stopped_ a = false → queue_ a = [] →
  draw_id (executing_callbacks_ a) (random_ w) = Ok (id, rs) →
  idx < Z.of_nat (piece_count_of (meta_pieces_ w)) → IsPieceDone (master_peer_ w) (u32 idx) = Ok true →
  ReadPieceBlockFromFile (files_ (file_manager_ w)) (Z.to_nat idx) begin len (disk w) = Ok block →
  Z.of_nat (length (data_ block)) < 2 ^ 31 →
  ∃ w1 w2, OnRequest i idx begin len (put i c w) = Ok (tt, w1) ∧
    handle_event EvWorker w1 = Some (Ok (tt,
      put i (posted c [JWrite (block_frame idx begin (data_ block)) WRemind]) w2)) ∧
    disk w2 = disk w ∧ clients w2 = clients w.
Proof.
  intros a Hc Hk%manager_reach_keys Hq Hs Hqueue Hd Ht Hdone Hread Hl.
  destruct (OnRequest_put i idx begin len c w id rs Hq Hs Hqueue Hk Hd Ht Hdone)
    as (w1 & E & (Ec & Ed & Em & Ef & _) & (Hq1 & Hs1 & n & Hn & Hj & _) & Hk1 & _).
  pose (a1 := mkWorker (J:=FileJob) [] (delete (n_id n) (executing_callbacks_ (a_worker_ (file_manager_ w1))))
                       false false (next_addr (a_worker_ (file_manager_ w1)))).
  destruct (run_upload_put i idx begin len block c (set_manager w1 (set_worker (file_manager_ w1) a1)) Hc)
    as (w2 & E2 & (Ec2 & Ed2 & _) & _); [done|cbn; by rewrite Em|cbn; by rewrite Ef, Ed|done|].
  exists (put i c w1), w2. split; [done|]. split; [|cbn in *; split; congruence].
  unfold handle_event. cbn [put set_clients file_manager_]. unfold run_round. rewrite Hq1, Hs1, Hn. cbn.
  rewrite Hj. f_equal. exact E2.
Qed.

(** ** The properties at concrete inputs *)

#[local] Existing Instances x86_64 toy_sha1 toy_sha1_laws.

(** Twenty thousand bytes are two blocks; the second one arrives first. *)
Lemma block_assembly_witness :
  let D := replicate (Z.to_nat 20000) x07 in
  let c := set_active_piece (Sample.client [true; true; true] 0) (Some (new_piece 1 2, 20000)) in
  let w := Sample.world [true; false; false] c in
  ∃ p, for_each [1%nat; 0%nat]
         (fun k => run_block 0 1 (Z.of_nat k * most_request_size) (block_at D k)) (put 0 c w)
       = Ok (tt, put 0 (posted (set_active_piece c (Some (moved_from p, 20000))) [JClearAndTry])
                   (queued_world w 1 [2; 3; 4] (mkWriteRequest (Some 0%nat) 1 p)))
    ∧ piece_data (sort_blocks p) = D ∧ well_shaped (sort_blocks p) ∧ index p = 1.
Proof.
  intros D c w.
  assert (Z.of_nat (length D) = 20000) as Hl by (unfold D; rewrite length_replicate; apply Z2Nat.id; lia).
  assert (blocks_of D = 2%nat) as Hb by (unfold blocks_of; rewrite Hl; reflexivity).
  apply (block_assembly 0%nat c w D 1 [1%nat; 0%nat] 20000 1 [2; 3; 4]).
  - rewrite Hl. reflexivity.
  - rewrite Hb. apply Permutation_swap.
  - rewrite Hb. lia.
  - lia.
  - reflexivity.
Defined.

(** A world that has the files of [TwoFiles] and awaits the digests [meta]. *)
Definition stored_world (meta : bytes) (mine : list bool) : World (list bool) :=
  let w := Sample.world mine (Sample.client [true; true; true] peer_interested) in
  mkWorld meta (info_hash_ w) (MarkRequestedPiece (master_peer_ w) 1) (clients w) (strategy_ w) 0
          (mkManager TwoFiles.tf ∅ (Start new_worker)) TwoFiles.f (random_ w).

Lemma stored_world_subscribers meta mine : subscribers_exist (stored_world meta mine).
Proof.
  intros a j Ha. change (({[0x0a000001 := 0%nat]} : gmap Z nat) !! a = Some j) in Ha.
  apply lookup_singleton_Some in Ha as [_ <-]. unfold stored_world. cbn. rewrite lookup_singleton_eq. by eexists.
Qed.

Lemma request_served_witness :
  let w := stored_world (replicate 60 x00) [true; true; false] in
  let c := Sample.client [true; true; true] peer_interested in
  ∃ block w1 w2, ReadPieceBlockFromFile TwoFiles.tf 1 1 3 TwoFiles.f = Ok block ∧
    OnRequest 0 1 1 3 (put 0 c w) = Ok (tt, w1) ∧
    handle_event EvWorker w1 = Some (Ok (tt,
      put 0 (posted c [JWrite (block_frame 1 1 (data_ block)) WRemind]) w2)) ∧
    disk w2 = TwoFiles.f ∧ clients w2 = clients w.
Proof.
  intros w c. eexists.
  edestruct (request_served 0%nat c w 1 1 3) as (w1 & w2 & H1 & H2 & H3 & H4).
  - reflexivity.
  - apply (reach_start (mkManager TwoFiles.tf ∅ new_worker)), reach_new.
  - reflexivity.
  - reflexivity.
  - reflexivity.
  - reflexivity.
  - vm_compute. reflexivity.
  - vm_compute. reflexivity.
  - vm_compute. reflexivity.
  - vm_compute. reflexivity.
  - exists w1, w2. split; [vm_compute; reflexivity|exact (conj H1 (conj H2 (conj H3 H4)))].
Defined.
