(* ===== verification/Invariant.v ===== *)
(** * The invariant of the whole client

    What holds of every connection between two events: at most one operation of
    the read loop is under way, the lambdas that store a block still find its
    bytes in the receive buffer, bitfields have the torrent's size, and whoever
    is not disconnected is subscribed.  [calm] is what a handler that leaves
    the read loop alone may do to the world; [safe] computations are calm and
    end without exception, undefined behaviour or failed assertion. *)

From Stdlib Require Import ZArith Lia Strings.Byte.
From coqutil Require Import Byte.
From S2P Require Import Prelude Bytes Streams Worker Bencode Text Piece Files FilesFacts.
From S2P Require Import Bitset Bitfield Message Peer World PeerClient PeerFacts Exchange Download.

(** ** One client *)

Section Client.
Context {B : Type} `{DynamicBitset B}.
Implicit Types c : PeerClient B.

(** The operations of the read loop: connecting, the handshake, reading.  Each
    completed one starts at most one more. *)
Definition is_token (j : Job) : bool :=
  match j with
  | JConnect | JVerifyHandshake _ | JRead _ _ => true
  | JWrite _ k => negb (bool_decide (k = WRemind))
  | _ => false
  end.

Definition jobs_tokens (l : list Job) : nat := length (List.filter is_token l).
Definition writes_tokens (l : list OnWritten) : nat :=
  length (List.filter (fun k => negb (bool_decide (k = WRemind))) l).

(** The operations started and not completed. *)
Definition pending_tokens c : nat :=
  (connecting c + length (pending_reads c) + writes_tokens (pending_writes c))%nat.

Definition tokens c : nat := (jobs_tokens (strand c) + pending_tokens c)%nat.

(** The lambdas that store a block hold a pointer into the receive buffer.
    [fresh_jobs arr l]: those of [l] that run before the next operation of the
    read loop see their bytes at offset 9 of [arr], and there are no others. *)
Definition is_block (j : Job) : bool := match j with JBlock _ _ _ => true | _ => false end.
Definition no_blocks (l : list Job) : Prop := List.filter is_block l = [].

Fixpoint fresh_jobs (arr : bytes) (l : list Job) : Prop :=
  match l with
  | [] => True
  | j :: l =>
      if is_token j then no_blocks l
      else match j with
           | JBlock _ _ data => drop 9 arr = data ∧ fresh_jobs arr l
           | _ => fresh_jobs arr l
           end
  end.

Definition fresh c : Prop :=
  match pending_tokens c with
  | O => fresh_jobs (rm_arr (msg_to_read_ c)) (strand c)
  | S _ => no_blocks (strand c)
  end.

(** The client has a bit for each of the torrent's [total] pieces. *)
Definition sized (total : nat) c : Prop := Size (bitfield_ (slave_peer_ c)) = total.

(** A read under way is one the read loop has asked for. *)
Definition read_ok (total : nat) c (size : Z) (k : OnRead) : Prop :=
  match k with
  | RHandshake => size = Z.of_nat handshake_length
  | RHeader => size = Z.of_nat header_length ∧ sized total c
  | RBody => size = rm_body_size (msg_to_read_ c) ∧ 0 < size < 2 ^ 32 ∧ sized total c
  end.

Record client_ok (total : nat) c : Prop := {
  ok_tokens : (tokens c ≤ 1)%nat;
  ok_fresh : fresh c;
  ok_reads size k : (size, k) ∈ pending_reads c → read_ok total c size k;
  ok_jobs size k : JRead size k ∈ strand c → read_ok total c size k;
  ok_verify v : JVerifyHandshake v ∈ strand c → length v = handshake_length;
  ok_choked : IsRemoteChoked c = true ∨ sized total c;
}.

(** A client no lambda, operation or timer refers to. *)
Definition inert c : Prop :=
  strand c = [] ∧ connecting c = O ∧ pending_reads c = [] ∧ pending_writes c = [] ∧
  keep_alive_timeout_ c = false ∧ piece_wait_timeout_ c = false ∧ timeout_ c = None.

Lemma jobs_tokens_app l l' : jobs_tokens (l ++ l') = (jobs_tokens l + jobs_tokens l')%nat.
Proof. unfold jobs_tokens. by rewrite List.filter_app, length_app. Qed.

Lemma no_blocks_app l l' : no_blocks (l ++ l') ↔ no_blocks l ∧ no_blocks l'.
Proof. unfold no_blocks. rewrite List.filter_app. apply app_nil. Qed.

Lemma no_blocks_fresh arr l : no_blocks l → fresh_jobs arr l.
Proof.
  unfold no_blocks. induction l as [|j l IH]; [done|]. cbn [List.filter fresh_jobs]. intros Hb.
  destruct (is_block j) eqn:E; [discriminate Hb|]. destruct (is_token j); [done|]. destruct j; auto. discriminate E.
Qed.

Lemma fresh_jobs_app arr l l' :
  fresh_jobs arr l → no_blocks l' → fresh_jobs arr (l ++ l').
Proof.
  intros Hl Hl'. induction l as [|j l IH]; [by apply no_blocks_fresh|]. cbn [app fresh_jobs] in *.
  destruct (is_token j); [by apply no_blocks_app|].
  destruct j; naive_solver.
Qed.

(** One more block, before any operation of the read loop. *)
Lemma fresh_jobs_block arr l idx b data :
  fresh_jobs arr l → jobs_tokens l = O → drop 9 arr = data → fresh_jobs arr (l ++ [JBlock idx b data]).
Proof.
  intros Hl Ht Hd. induction l as [|j l IH]; [by cbn|]. cbn [app fresh_jobs jobs_tokens List.filter] in *.
  unfold jobs_tokens in *. cbn [List.filter] in Ht. destruct (is_token j); [discriminate Ht|].
  destruct j; naive_solver.
Qed.

(** A lambda that is neither of the read loop nor one that stores a block. *)
Definition plain_job (j : Job) : bool := negb (is_token j) && negb (is_block j).

Lemma plain_tokens js : forallb plain_job js = true → jobs_tokens js = O ∧ no_blocks js.
Proof.
  unfold jobs_tokens, no_blocks. induction js as [|j js IH]; [done|]. cbn. unfold plain_job.
  intros [[Ht Hb]%andb_true_iff Hjs]%andb_true_iff. apply negb_true_iff in Ht, Hb. rewrite Ht, Hb. by apply IH.
Qed.

Lemma plain_not_read js size k : forallb plain_job js = true → ¬ JRead size k ∈ js.
Proof. intros Hp Hin. apply list_elem_of_In in Hin. rewrite forallb_forall in Hp. by apply Hp in Hin. Qed.

Lemma plain_not_verify js v : forallb plain_job js = true → ¬ JVerifyHandshake v ∈ js.
Proof. intros Hp Hin. apply list_elem_of_In in Hin. rewrite forallb_forall in Hp. by apply Hp in Hin. Qed.

(** What a handler may do to a client without touching the read loop. *)
Record quiet (total : nat) c c' : Prop := {
  q_ip : ip (slave_peer_ c') = ip (slave_peer_ c);
  q_tokens : tokens c' = tokens c;
  q_disc : is_disconnected c = true → is_disconnected c' = true;
  q_sized : sized total c → sized total c';
  q_ok : client_ok total c → client_ok total c';
}.

#[export] Instance quiet_refl total : Reflexive (quiet total).
Proof. by intros c. Qed.
#[export] Instance quiet_trans total : Transitive (quiet total).
Proof. intros c1 c2 c3 [] []. split; [congruence|congruence|auto..]. Qed.

(** Plain lambdas posted, and fields the read loop does not look at changed. *)
Record plain_change c c' (js : list Job) : Prop := {
  pc_ip : ip (slave_peer_ c') = ip (slave_peer_ c);
  pc_size : Size (bitfield_ (slave_peer_ c')) = Size (bitfield_ (slave_peer_ c));
  pc_strand : strand c' = strand c ++ js;
  pc_plain : forallb plain_job js = true;
  pc_connecting : connecting c' = connecting c;
  pc_reads : pending_reads c' = pending_reads c;
  pc_writes : writes_tokens (pending_writes c') = writes_tokens (pending_writes c);
  pc_arr : rm_arr (msg_to_read_ c') = rm_arr (msg_to_read_ c);
  pc_body : rm_body_size (msg_to_read_ c') = rm_body_size (msg_to_read_ c);
  pc_choked : IsRemoteChoked c' = IsRemoteChoked c;
  pc_disc : is_disconnected c = true → is_disconnected c' = true;
}.

Lemma plain_change_quiet total c c' js : plain_change c c' js → quiet total c c'.
Proof.
  intros [Hip Hsz Hst Hjs Hco Hre Hwr Harr Hbody Hch Hd]. destruct (plain_tokens js Hjs) as [Ht Hb].
  assert (pending_tokens c' = pending_tokens c) as Hp by (unfold pending_tokens; by rewrite Hco, Hre, Hwr).
  assert (∀ size k, read_ok total c size k → read_ok total c' size k) as Hread
    by (intros size k; unfold read_ok, sized; by rewrite Hsz, Hbody).
  assert (tokens c' = tokens c) as Htok by (unfold tokens; rewrite Hst, jobs_tokens_app, Ht, Hp; lia).
  split; [done|done|done|unfold sized; congruence|].
  intros [Ok1 Ok2 Ok3 Ok4 Ok5 Ok6]. split.
  - by rewrite Htok.
  - unfold fresh in *. rewrite Hp, Hst, Harr. destruct (pending_tokens c); [by apply fresh_jobs_app|].
    by apply no_blocks_app.
  - intros size k. rewrite Hre. eauto.
  - intros size k. rewrite Hst. intros [Hin|Hin]%elem_of_app; [eauto|by apply plain_not_read in Hin].
  - intros v. rewrite Hst. intros [Hin|Hin]%elem_of_app; [eauto|by apply plain_not_verify in Hin].
  - rewrite Hch. unfold sized. by rewrite Hsz.
Qed.

Lemma new_client_ok total (p : Peer B) : client_ok total (new_client p).
Proof.
  split; [cbn; lia|done|..]; try (intros; by apply not_elem_of_nil in H0). by left.
Qed.
End Client.

(** ** The world *)

Section WorldInvariant.
Context {B : Type} `{DynamicBitset B}.
Implicit Types (w : World B) (c : PeerClient B).

Definition total_of w : nat := piece_count_of (meta_pieces_ w).
Definition subs w : gmap Z nat := peers_subscribers_ (master_peer_ w).

(** A client the master peer has accepted: subscribed under its address until
    it is disconnected. *)
Definition subscribed w j c : Prop :=
  is_disconnected c = true ∨ subs w !! ip (slave_peer_ c) = Some j.
Definition engaged w j : Prop := ∃ c, clients w !! j = Some c ∧ subscribed w j c.

(** The peer an upload is for. *)
Definition job_engaged w (j : FileJob) : Prop :=
  match j with
  | UploadJob req => ∃ p, rr_peer req = Some p ∧ engaged w p
  | DownloadJob _ => True
  end.

Record wf w : Prop := {
  wf_total : Z.of_nat (total_of w) < 2 ^ 24;
  wf_size : Size (bitfield_ (as_peer (master_peer_ w))) = total_of w;
  wf_handshake : ∃ ours, slice (handshake_message_ (master_peer_ w)) 28 20 = Ok ours;
  wf_clients j c : clients w !! j = Some c → client_ok (total_of w) c ∧ (subscribed w j c ∨ inert c);
  wf_subs a j : subs w !! a = Some j → ∃ c, clients w !! j = Some c ∧ ip (slave_peer_ c) = a;
  wf_queue n : n ∈ queue_ (a_worker_ (file_manager_ w)) → job_engaged w (n_func n);
  wf_keys : keys_null (file_manager_ w);
}.

(** What a handler that does not act on the read loop may do. *)
Record calm w w' : Prop := {
  calm_meta : meta_pieces_ w' = meta_pieces_ w;
  calm_size : Size (bitfield_ (as_peer (master_peer_ w'))) = Size (bitfield_ (as_peer (master_peer_ w)));
  calm_handshake : handshake_message_ (master_peer_ w') = handshake_message_ (master_peer_ w);
  calm_dom j : is_Some (clients w' !! j) ↔ is_Some (clients w !! j);
  calm_client j c c' : clients w !! j = Some c → clients w' !! j = Some c' →
    quiet (total_of w) c c' ∧ (c' = c ∨ subscribed w j c) ∧
    (subs w !! ip (slave_peer_ c) = Some j →
     subs w' !! ip (slave_peer_ c) = Some j ∨ is_disconnected c' = true);
  calm_subs a j : subs w' !! a = Some j → subs w !! a = Some j;
  calm_queue n : n ∈ queue_ (a_worker_ (file_manager_ w')) →
    n ∈ queue_ (a_worker_ (file_manager_ w)) ∨ job_engaged w (n_func n);
  calm_keys : keys_null (file_manager_ w) → keys_null (file_manager_ w');
}.

Lemma calm_subscribed w w' j c c' :
  calm w w' → clients w !! j = Some c → clients w' !! j = Some c' → subscribed w j c → subscribed w' j c'.
Proof.
  intros Hc Hj Hj' Hs. destruct (calm_client _ _ Hc j c c' Hj Hj') as (Hq & _ & Hk). unfold subscribed in *.
  rewrite (q_ip _ _ _ Hq). destruct Hs as [Hd|Hs]; [left; by eapply q_disc|].
  destruct (Hk Hs) as [?|?]; [by right|by left].
Qed.

Lemma calm_engaged w w' j : calm w w' → engaged w j → engaged w' j.
Proof.
  intros Hc (c & Hj & Hs). destruct (proj2 (calm_dom _ _ Hc j) ltac:(by eexists)) as [c' Hj'].
  exists c'. split; [done|]. by eapply calm_subscribed.
Qed.

Lemma calm_total w w' : calm w w' → total_of w' = total_of w.
Proof. intros Hc. unfold total_of. by rewrite (calm_meta _ _ Hc). Qed.

#[export] Instance calm_refl : Reflexive calm.
Proof. intros w. split; auto. intros j c c' -> [= ->]. split; [done|]. auto. Qed.

Lemma calm_trans' w1 w2 w3 : calm w1 w2 → calm w2 w3 → calm w1 w3.
Proof.
  intros H1 H2. pose proof (calm_total _ _ H1) as Ht. split.
  - rewrite (calm_meta _ _ H2). apply H1.
  - rewrite (calm_size _ _ H2). apply H1.
  - rewrite (calm_handshake _ _ H2). apply H1.
  - intros j. rewrite (calm_dom _ _ H2). apply H1.
  - intros j c c3 Hj Hj3. destruct (proj1 (calm_dom _ _ H2 j) ltac:(by eexists)) as [c2 Hj2].
    destruct (calm_client _ _ H1 j c c2 Hj Hj2) as (Q1 & E1 & S1).
    destruct (calm_client _ _ H2 j c2 c3 Hj2 Hj3) as (Q2 & E2 & S2). rewrite Ht in Q2.
    split; [by etrans|]. rewrite (q_ip _ _ _ Q1) in S2. split.
    + destruct E1 as [->|?]; [|by right]. destruct E2 as [->|Hs]; [by left|].
      right. destruct Hs as [Hd|Hs]; [by left|]. right. exact (calm_subs _ _ H1 _ _ Hs).
    + intros Hs. destruct (S1 Hs) as [Hs2|Hd]; [by apply S2|]. right. by eapply q_disc.
  - intros a j Ha. exact (calm_subs _ _ H1 _ _ (calm_subs _ _ H2 _ _ Ha)).
  - intros n Hn. destruct (calm_queue _ _ H2 n Hn) as [Hn2|He]; [by apply (calm_queue _ _ H1)|].
    right. destruct (n_func n) as [req|]; [|done]. destruct He as (p & Hp & c2 & Hj2 & Hs2). exists p. split; [done|].
    destruct (proj1 (calm_dom _ _ H1 p) ltac:(by eexists)) as [c Hj].
    destruct (calm_client _ _ H1 p c c2 Hj Hj2) as (Q1 & E1 & S1). exists c. split; [done|].
    destruct E1 as [->|?]; [|done]. destruct Hs2 as [Hd|Hs2]; [by left|].
    right. exact (calm_subs _ _ H1 _ _ Hs2).
  - intros Hk. by apply (calm_keys _ _ H2), (calm_keys _ _ H1).
Qed.
#[export] Instance calm_trans : Transitive calm.
Proof. intros w1 w2 w3. apply calm_trans'. Qed.

Lemma calm_wf w w' : calm w w' → wf w → wf w'.
Proof.
  intros Hc [W0 W1 W2 W3 W4 W5 W6]. pose proof (calm_total _ _ Hc) as Ht. split.
  - by rewrite Ht.
  - rewrite Ht, (calm_size _ _ Hc). done.
  - by rewrite (calm_handshake _ _ Hc).
  - intros j c' Hj'. destruct (proj1 (calm_dom _ _ Hc j) ltac:(by eexists)) as [c Hj].
    destruct (calm_client _ _ Hc j c c' Hj Hj') as (Q & E & S). destruct (W3 j c Hj) as [Hok Hs].
    rewrite Ht. split; [by apply Q|]. destruct Hs as [Hs|Hi]; [left; by eapply calm_subscribed|].
    destruct E as [->|Hs]; [by right|]. left. by eapply calm_subscribed.
  - intros a j Ha. destruct (W4 a j) as (c & Hj & Hip); [by eapply calm_subs|].
    destruct (proj2 (calm_dom _ _ Hc j) ltac:(by eexists)) as [c' Hj']. exists c'. split; [done|].
    destruct (calm_client _ _ Hc j c c' Hj Hj') as (Q & _ & _). by rewrite (q_ip _ _ _ Q).
  - intros n Hn. assert (job_engaged w (n_func n)) as He by (destruct (calm_queue _ _ Hc n Hn); auto).
    destruct (n_func n) as [req|]; [|done]. destruct He as (p & Hp & He). exists p. split; [done|].
    by eapply calm_engaged.
  - by apply (calm_keys _ _ Hc).
Qed.

(** ** Safe computations *)

(** From [w], [m] returns a result, or runs out of random numbers, and leaves
    the read loops as they are. *)
Definition safe {A} (m : ST (World B) A) (R : A → World B → Prop) w : Prop :=
  wp true m (fun a w' => calm w w' ∧ R a w') w.

Definition runs (m : ST (World B) unit) w : Prop := safe m (fun _ _ => True) w.

Lemma safe_bind {A C} (m : ST (World B) A) (f : A → ST (World B) C) R R' w :
  safe m R w →
  (∀ a w1, calm w w1 → R a w1 → safe (f a) R' w1) → safe (m ≫= f) R' w.
Proof.
  intros Hm Hf. apply wp_bind. eapply wp_mono; [exact Hm|]. intros a w1 [Hc Ha].
  eapply wp_mono; [by apply (Hf a w1)|]. intros b w2 [Hc2 Hb]. split; [by etrans|done].
Qed.

Lemma safe_ret {A} (a : A) (R : A → World B → Prop) w : R a w → safe (mret a) R w.
Proof. intros HR. by apply wp_ret. Qed.

Lemma safe_Ok {A} (m : ST (World B) A) (R : A → World B → Prop) w a w' :
  m w = Ok (a, w') → calm w w' → R a w' → safe m R w.
Proof. intros E Hc HR. unfold safe. by eapply wp_from_Ok. Qed.

Lemma safe_lift {A} (m : outcome A) (R : A → World B → Prop) w a : m = Ok a → R a w → safe (lift m) R w.
Proof. intros -> HR. by eapply safe_Ok. Qed.

Lemma safe_mono {A} (m : ST (World B) A) (R R' : A → World B → Prop) w :
  safe m R w → (∀ a w', R a w' → R' a w') → safe m R' w.
Proof. intros Hm HR. eapply wp_mono; [exact Hm|]. intros a w' []. auto. Qed.

(** Another computation that does the same here. *)
Lemma safe_ext {A} (m m' : ST (World B) A) (R : A → World B → Prop) w : m w = m' w → safe m' R w → safe m R w.
Proof. unfold safe, wp. by intros ->. Qed.

(** A sequence whose first part's result does not matter. *)
Lemma safe_seq {A C} (m : ST (World B) A) (f : A → ST (World B) C) R w :
  safe m (fun _ _ => True) w → (∀ a w1, calm w w1 → safe (f a) R w1) → safe (m ≫= f) R w.
Proof. intros Hm Hf. eapply safe_bind; [exact Hm|]. intros a w1 Hc _. by apply Hf. Qed.

Lemma safe_when b (m : ST (World B) unit) w : (b = true → runs m w) → runs (when b m) w.
Proof. intros Hm. destruct b; [by apply Hm|by apply safe_ret]. Qed.

Lemma safe_get_client {C} i c (f : PeerClient B → ST (World B) C) R w :
  clients w !! i = Some c → safe (f c) R w → safe (get_client i ≫= f) R w.
Proof.
  intros Hi Hf. unfold safe. apply wp_bind. unfold wp at 1, get_client. rewrite Hi. exact Hf.
Qed.

(** Stepping over a part that only reads the world. *)
Lemma safe_read {A C} (m : ST (World B) A) (f : A → ST (World B) C) R w a :
  m w = Ok (a, w) → safe (f a) R w → safe (m ≫= f) R w.
Proof. intros E Hf. unfold safe. apply wp_bind. unfold wp at 1. by rewrite E. Qed.

(** *** Changes of one client *)

Lemma calm_modify w i c c' :
  clients w !! i = Some c → subscribed w i c → quiet (total_of w) c c' → calm w (put i c' w).
Proof.
  intros Hi Hs Hq. split; try done.
  - intros j. unfold put, set_clients. cbn. destruct (decide (j = i)) as [->|Hne].
    + rewrite lookup_insert_eq, Hi. split; by eexists.
    + by rewrite lookup_insert_ne.
  - intros j cj cj' Hj. unfold put. cbn. intros [[<- <-]|[Hne Hj']]%lookup_insert_Some.
    + rewrite Hi in Hj. injection Hj as <-. split; [done|]. split; [by right|]. by left.
    + rewrite Hj in Hj'. injection Hj' as <-. split; [done|]. split; [by left|]. by left.
  - by left.
Qed.

Lemma runs_modify i c f w :
  clients w !! i = Some c → subscribed w i c → quiet (total_of w) c (f c) → runs (modify_client i f) w.
Proof.
  intros Hi Hs Hq. apply (safe_Ok _ _ _ tt (put i (f c) w)); [|by eapply calm_modify|done].
  unfold modify_client. by rewrite Hi.
Qed.

(** A change that keeps every client quiet, of whoever [i] is now. *)
Lemma runs_modify_engaged i f w :
  engaged w i → (∀ c, quiet (total_of w) c (f c)) → runs (modify_client i f) w.
Proof. intros (c & Hi & Hs) Hq. by eapply runs_modify. Qed.

Lemma post_quiet total c j : plain_job j = true → quiet total c (set_strand c (strand c ++ [j])).
Proof. intros Hj. apply (plain_change_quiet _ _ _ [j]). split; try done. cbn. by rewrite Hj. Qed.

Lemma runs_Post i j w : engaged w i → plain_job j = true → runs (Post i j) w.
Proof. intros He Hj. apply runs_modify_engaged; [done|]. intros c. by apply post_quiet. Qed.

(** *** Changes of the master peer *)

Lemma runs_master f w :
  (∀ m, Size (bitfield_ (as_peer (f m))) = Size (bitfield_ (as_peer m))) →
  (∀ m, handshake_message_ (f m) = handshake_message_ m) →
  (∀ m, peers_subscribers_ (f m) = peers_subscribers_ m) → runs (modify_master f) w.
Proof.
  intros Hs Hh Hsub. apply (safe_Ok _ _ _ tt (set_master w (f (master_peer_ w)))); [done| |done].
  split; try done.
  - cbn. apply Hs.
  - cbn. apply Hh.
  - intros j c c' Hj Hj'. cbn in Hj'. rewrite Hj in Hj'. injection Hj' as <-. split; [done|]. split; [by left|].
    unfold subs. cbn. rewrite Hsub. by left.
  - unfold subs. cbn. by rewrite Hsub.
  - by left.
Qed.
End WorldInvariant.
