(* ===== verification/Handlers.v ===== *)
(** * The handlers that leave the read loop alone

    Each of them is safe from every state of the invariant, for a client that
    is subscribed or disconnected. *)

From Stdlib Require Import ZArith Lia Strings.Byte.
From coqutil Require Import Byte Word.LittleEndianList.
From S2P Require Import Prelude Bytes Streams Worker Bencode Text Piece Files FilesFacts.
From S2P Require Import Bitset Bitfield Message Peer World PeerClient PeerFacts Exchange Download Invariant.

Section Handlers.
Context {B : Type} `{DynamicBitsetLaws B} `{Host} `{Sha1}.
Implicit Types (w : World B) (c : PeerClient B) (P Q : PeerClient B → Prop).

(** Client [i] is engaged and [P] holds of it. *)
Definition holding P i w : Prop := ∃ c, clients w !! i = Some c ∧ subscribed w i c ∧ P c.

Lemma holding_engaged P i w : holding P i w → engaged w i.
Proof. intros (c & Hi & Hs & _). by exists c. Qed.
Lemma engaged_holding i w : engaged w i → holding (fun _ => True) i w.
Proof. intros (c & Hi & Hs). by exists c. Qed.

(** What calm changes keep is kept by all of them. *)
Lemma holding_calm P i w w' :
  (∀ c c', quiet (total_of w) c c' → P c → P c') → calm w w' → holding P i w → holding P i w'.
Proof.
  intros HP Hc (c & Hi & Hs & Hp). destruct (proj2 (calm_dom _ _ Hc i) ltac:(by eexists)) as [c' Hi'].
  exists c'. split; [done|]. split; [by eapply calm_subscribed|].
  destruct (calm_client _ _ Hc i c c' Hi Hi') as (Hq & _). by eapply HP.
Qed.

Lemma engaged_calm i w w' : calm w w' → engaged w i → engaged w' i.
Proof. intros. by eapply calm_engaged. Qed.

Lemma safe_modify P Q i f w :
  holding P i w → (∀ c, P c → quiet (total_of w) c (f c) ∧ Q (f c)) →
  safe (modify_client i f) (fun _ => holding Q i) w.
Proof.
  intros (c & Hi & Hs & Hp) Hf. destruct (Hf c Hp) as [Hq HQ].
  assert (calm w (put i (f c) w)) as Hc by (by eapply calm_modify).
  apply (safe_Ok _ _ _ tt (put i (f c) w)); [unfold modify_client; by rewrite Hi|done|].
  assert (clients (put i (f c) w) !! i = Some (f c)) as Hi' by (cbn; by rewrite lookup_insert_eq).
  exists (f c). split; [done|]. split; [by eapply calm_subscribed|done].
Qed.

Lemma runs_safe {A} (m : ST (World B) A) R w : safe m R w → safe m (fun _ _ => True) w.
Proof. intros Hm. by eapply safe_mono. Qed.

(** [P] does not look at the strand. *)
Definition posts P : Prop := ∀ c js, P c → P (posted c js).

Lemma safe_Post P i j w : posts P → holding P i w → plain_job j = true → safe (Post i j) (fun _ => holding P i) w.
Proof.
  intros HP Hh Hj. apply (safe_modify P); [done|]. intros c Hc. split; [by apply post_quiet|].
  by apply (HP c [j]).
Qed.

Lemma EncodeHeader_total m : (header_length ≤ length (sm_data m))%nat → ∃ m', EncodeHeader m = Ok m'.
Proof. intros Hl. unfold EncodeHeader. rewrite decide_True by done. by eexists. Qed.

Lemma safe_send_msg P i m w :
  posts P → holding P i w → (header_length ≤ length (sm_data m))%nat →
  safe (send_msg i m) (fun _ => holding P i) w.
Proof.
  intros HP Hh Hl. pose proof Hh as (c & Hi & _). unfold send_msg. apply (safe_get_client i c); [done|].
  destruct (is_disconnected c); [by apply safe_ret|].
  destruct (EncodeHeader_total m Hl) as [m' Em].
  apply (safe_read _ _ _ _ m'); [unfold lift; by rewrite Em|]. by apply safe_Post.
Qed.

Lemma put_fields_length t fs : (header_length ≤ length (sm_data (put_fields (put_type peer_msg t) fs)))%nat.
Proof. rewrite peer_msg_fields, length_app, length_replicate. lia. Qed.
Lemma put_type_length t : (header_length ≤ length (sm_data (put_type peer_msg t)))%nat.
Proof. exact (put_fields_length t []). Qed.
Lemma CopyFrom_length m data : (header_length ≤ length (sm_data m))%nat →
  (header_length ≤ length (sm_data (CopyFrom m data)))%nat.
Proof. cbn. rewrite length_app. lia. Qed.

Lemma flags_quiet total c st :
  (flag st peer_choking = IsRemoteChoked c ∨ flag st peer_choking = true ∨ sized total c) → quiet total c (set_status c st).
Proof.
  intros Hst. split; try done. intros [Ok1 Ok2 Ok3 Ok4 Ok5 Ok6]. split; try done.
  unfold IsRemoteChoked in *. cbn. destruct Hst as [->|[->|?]]; auto.
Qed.

(** *** Flags *)

Lemma flag_choking st : flag st peer_choking = Z.testbit st (Z.log2 peer_choking).
Proof.
  unfold flag. change peer_choking with (2 ^ Z.log2 peer_choking) at 1. rewrite Z.land_comm.
  destruct (Z.testbit st (Z.log2 peer_choking)) eqn:E.
  - apply negb_true_iff, Z.eqb_neq. intros E0. apply (f_equal (fun z => Z.testbit z (Z.log2 peer_choking))) in E0.
    rewrite Z.land_spec, E, Z.pow2_bits_true, Z.bits_0 in E0 by done. done.
  - apply negb_false_iff, Z.eqb_eq, Z.bits_inj'. intros n Hn. rewrite Z.land_spec, Z.bits_0.
    rewrite Z.pow2_bits_eqb by done. destruct (Z.eqb_spec (Z.log2 peer_choking) n) as [<-|]; [by rewrite E, andb_false_r|done].
Qed.

Lemma u8_low st k : 0 ≤ k < 8 → Z.testbit (u8 st) k = Z.testbit st k.
Proof. intros Hk. unfold u8. by rewrite Z.mod_pow2_bits_low by lia. Qed.

(** Setting or clearing another flag. *)
Definition other_flag (bit : Z) : Prop := Z.testbit bit (Z.log2 peer_choking) = false.

Lemma flag_set_other st bit : other_flag bit → flag (u8 (Z.lor st bit)) peer_choking = flag st peer_choking.
Proof. intros Hb. rewrite !flag_choking, u8_low, Z.lor_spec, Hb by done. by rewrite orb_false_r. Qed.
Lemma flag_clear_other st bit : other_flag bit → flag (u8 (Z.land st (Z.lnot bit))) peer_choking = flag st peer_choking.
Proof. intros Hb. rewrite !flag_choking, u8_low, Z.land_spec, Z.lnot_spec, Hb by done. by rewrite andb_true_r. Qed.
Lemma flag_set_choking st : flag (u8 (Z.lor st peer_choking)) peer_choking = true.
Proof. rewrite flag_choking, u8_low, Z.lor_spec by done. by rewrite orb_true_r. Qed.

(** [P] does not look at the flags. *)
Definition statuses P : Prop := ∀ c st, P c → P (set_status c st).

Lemma safe_set_flag P i bit w :
  statuses P → holding P i w → other_flag bit ∨ bit = peer_choking →
  safe (set_flag i bit) (fun _ => holding P i) w.
Proof.
  intros HP Hh Hb. apply (safe_modify P); [done|]. intros c Hc. split; [|by apply HP].
  apply flags_quiet. destruct Hb as [Hb| ->]; [left; by apply flag_set_other|right; left; apply flag_set_choking].
Qed.

Lemma safe_clear_flag P i bit w :
  statuses P → holding P i w → other_flag bit ∨ (∀ c, P c → sized (total_of w) c) →
  safe (clear_flag i bit) (fun _ => holding P i) w.
Proof.
  intros HP Hh Hb. apply (safe_modify P); [done|]. intros c Hc. split; [|by apply HP].
  apply flags_quiet. destruct Hb as [Hb|Hb]; [left; by apply flag_clear_other|right; right; by apply Hb].
Qed.

(** *** Messages *)

Definition anyone c : Prop := True.
Definition has_active c : Prop := is_Some (active_piece_ c).

Lemma anyone_posts : posts anyone. Proof. done. Qed.
Lemma anyone_statuses : statuses anyone. Proof. done. Qed.
Lemma active_posts : posts has_active. Proof. by intros []. Qed.

Section Sends.
Variables (P : PeerClient B → Prop) (i : nat) (w : World B).
Hypotheses (HP : posts P) (HS : statuses P) (Hh : holding P i w).

Ltac sends := apply safe_send_msg; [done|done|].

Lemma safe_keep_alive : safe (send_keep_alive i) (fun _ => holding P i) w.
Proof. by sends. Qed.
Lemma safe_send_have idx : safe (send_have i idx) (fun _ => holding P i) w.
Proof. sends. apply (put_fields_length have [(4%nat, _)]). Qed.
Lemma safe_send_request idx b l : safe (send_request i idx b l) (fun _ => holding P i) w.
Proof. sends. apply put_fields_length. Qed.
Lemma safe_send_block idx b d : safe (send_block i idx b d) (fun _ => holding P i) w.
Proof. sends. apply CopyFrom_length, put_fields_length. Qed.
Lemma safe_flag_send (m : ST (World B) unit) t :
  safe m (fun _ => holding P i) w → safe (_ ← m; send_msg i (put_type peer_msg t)) (fun _ => holding P i) w.
Proof.
  intros Hm. eapply safe_bind; [exact Hm|]. intros u w1 _ Hh1. apply safe_send_msg; [done|done|apply put_type_length].
Qed.
Lemma safe_send_choke : safe (send_choke i) (fun _ => holding P i) w.
Proof. apply safe_flag_send. apply safe_set_flag; [done|done|by left]. Qed.
Lemma safe_send_unchoke : safe (send_unchoke i) (fun _ => holding P i) w.
Proof. apply safe_flag_send. apply safe_clear_flag; [done|done|by left]. Qed.
Lemma safe_send_interested : safe (send_interested i) (fun _ => holding P i) w.
Proof. apply safe_flag_send. apply safe_set_flag; [done|done|by left]. Qed.
Lemma safe_send_not_interested : safe (send_not_interested i) (fun _ => holding P i) w.
Proof. apply safe_flag_send. apply safe_clear_flag; [done|done|by left]. Qed.
End Sends.

(** *** Disconnecting *)

Definition disconnected c : PeerClient B :=
  set_disconnected (set_piece_wait (set_keep_alive (posted c [JCancelOperation]) false) false) true.

Lemma disconnected_quiet total c : quiet total c (disconnected c).
Proof. by apply (plain_change_quiet _ _ _ [JCancelOperation]). Qed.

Lemma Disconnect_put i c w :
  is_disconnected c = false → subs w !! ip (slave_peer_ c) = Some i →
  Disconnect i (put i c w) = Ok (tt, put i (disconnected c)
    (set_master w (set_subscribers (master_peer_ w) (delete (ip (slave_peer_ c)) (subs w))))).
Proof.
  intros Hd Hs. unfold Disconnect. erewrite st_bind_Ok by apply get_client_put. rewrite Hd.
  unfold Cancel. erewrite st_bind_Ok by apply Post_put. erewrite st_bind_Ok by reflexivity. cbv beta.
  erewrite st_bind_Ok by (unfold lift, Unsubscribe; cbn; unfold subs in Hs; rewrite Hs; reflexivity).
  erewrite st_bind_Ok by reflexivity. cbv beta. unfold modify_client, put, set_clients, set_master. cbn.
  rewrite lookup_insert_eq. cbn. by rewrite insert_insert_eq.
Qed.

Lemma safe_Disconnect i w : engaged w i → runs (Disconnect i) w.
Proof.
  intros (c & Hi & Hs). destruct (is_disconnected c) eqn:Hd.
  - apply (safe_get_client i c); [done|]. rewrite Hd. by apply safe_ret.
  - assert (subs w !! ip (slave_peer_ c) = Some i) as Hsub by (destruct Hs; [congruence|done]).
    rewrite <- (put_same i c w Hi) at 1. eapply safe_Ok; [by apply Disconnect_put| |done].
    rewrite (put_same i c w Hi). split; try done.
    + intros j. cbn. destruct (decide (j = i)) as [->|Hne].
      * rewrite lookup_insert_eq, Hi. split; by eexists.
      * by rewrite lookup_insert_ne.
    + intros j cj cj' Hj. cbn. intros [[<- <-]|[Hne Hj']]%lookup_insert_Some.
      * rewrite Hi in Hj. injection Hj as <-. split; [apply disconnected_quiet|]. split; [by right|by right].
      * rewrite Hj in Hj'. injection Hj' as <-. split; [done|]. split; [by left|]. intros Hsj. left.
        unfold subs. cbn. rewrite lookup_delete_ne; [done|]. intros E. rewrite E in Hsub. congruence.
    + intros a j. unfold subs. cbn. by intros [_ ?]%lookup_delete_Some.
    + by left.
Qed.

(** *** Requesting a piece *)

Lemma activity_quiet total c x : quiet total c (set_active_piece c x).
Proof. apply (plain_change_quiet _ _ _ []); split; try done. cbn. by rewrite app_nil_r. Qed.
Lemma piece_wait_quiet total c x : quiet total c (set_piece_wait c x).
Proof. apply (plain_change_quiet _ _ _ []); split; try done. cbn. by rewrite app_nil_r. Qed.
Lemma keep_alive_quiet total c x : quiet total c (set_keep_alive c x).
Proof. apply (plain_change_quiet _ _ _ []); split; try done. cbn. by rewrite app_nil_r. Qed.
Lemma timeout_quiet total c x : quiet total c (set_timeout c x).
Proof. apply (plain_change_quiet _ _ _ []); split; try done. cbn. by rewrite app_nil_r. Qed.
Lemma attempts_quiet total c x : quiet total c (set_attempts c x).
Proof. apply (plain_change_quiet _ _ _ []); split; try done. cbn. by rewrite app_nil_r. Qed.

Lemma safe_active {A} i (f : Piece * Z → ST (World B) A) R w :
  holding has_active i w → (∀ pb, safe (f pb) R w) → safe (active i ≫= f) R w.
Proof.
  intros (c & Hi & _ & [pb Ha]) Hf. apply (safe_read _ _ _ _ pb); [|done].
  unfold active, get_client, mbind, ST_bind. rewrite Hi. cbn. unfold lift. by rewrite Ha.
Qed.

Lemma safe_advance i n w : holding has_active i w → safe (advance i n) (fun _ => holding has_active i) w.
Proof.
  intros Hh. apply (safe_modify has_active); [done|]. intros c [[p b] Ha]. rewrite Ha.
  split; [apply activity_quiet|by eexists].
Qed.

Lemma safe_request_loop n i ps w :
  holding has_active i w → safe (request_loop n i ps) (fun _ => holding has_active i) w.
Proof.
  revert ps w. induction n as [|n IH]; intros ps w Hh; cbn [request_loop];
    (destruct (ps >? most_request_size); [|by apply safe_ret]); [by apply safe_ret|].
  apply safe_active; [done|]. intros [p b]. eapply safe_bind; [by apply safe_send_request; [apply active_posts|]|].
  intros u w1 _ Hh1. eapply safe_bind; [by apply safe_advance|]. intros u2 w2 _ Hh2. by apply IH.
Qed.

Lemma safe_request_blocks i ps w : holding has_active i w → runs (request_blocks i ps) w.
Proof.
  intros Hh. unfold request_blocks. eapply safe_bind; [by apply safe_request_loop|].
  intros [ps' rc] w1 _ Hh1. apply (safe_bind _ _ (fun _ w' => engaged w' i)).
  - unfold when. destruct (rc >? 0); [|apply safe_ret; by eapply holding_engaged].
    apply safe_active; [done|]. intros [p b].
    eapply safe_bind; [by apply safe_send_request; [apply active_posts|]|]. intros u w2 _ Hh2.
    eapply safe_mono; [by apply safe_advance|]. intros ? w3 Hh3. exact (holding_engaged _ _ _ Hh3).
  - intros u w2 _ He. apply runs_modify_engaged; [done|]. intros c. apply piece_wait_quiet.
Qed.

(** A change that touches neither clients nor subscribers nor the file jobs. *)
Lemma calm_same w w' :
  meta_pieces_ w' = meta_pieces_ w → clients w' = clients w →
  Size (bitfield_ (as_peer (master_peer_ w'))) = Size (bitfield_ (as_peer (master_peer_ w))) →
  handshake_message_ (master_peer_ w') = handshake_message_ (master_peer_ w) → subs w' = subs w →
  queue_ (a_worker_ (file_manager_ w')) = queue_ (a_worker_ (file_manager_ w)) →
  (keys_null (file_manager_ w) → keys_null (file_manager_ w')) → calm w w'.
Proof.
  intros Hm Hc Hs Hh Hsub Hq Hk. split; try done.
  - by rewrite Hc.
  - intros j c c' Hj. rewrite Hc, Hj. intros [= <-]. rewrite Hsub. split; [done|]. split; by left.
  - by rewrite Hsub.
  - rewrite Hq. by left.
Qed.

Lemma safe_ChoosePiece (neigh : Peer B) w :
  wf w → Size (bitfield_ neigh) = total_of w → safe (ChoosePiece neigh) (fun _ _ => True) w.
Proof.
  intros Hw Hsz. pose proof (wf_size _ Hw) as Hms. pose proof (wf_total _ Hw) as Ht.
  assert (Size (bitfield_ neigh) = Size (bitfield_ (as_peer (master_peer_ w)))) as Heq by (by rewrite Hms).
  pose proof (ChoosePiece_spec neigh w Heq) as Hspec. rewrite Hsz in Hspec. specialize (Hspec ltac:(lia)).
  unfold safe, wp.
  destruct (ChoosePiece neigh w) as [[[k|] w']| | | |]; try done.
  - destruct Hspec as (n & -> & _ & ->). split; [|done]. unfold chosen_world.
    destruct (end_game_ _); by apply calm_same.
  - destruct Hspec as [-> _]. by split.
Qed.

Lemma piece_size_read idx w : ∃ n, piece_size_of idx w = Ok (n, w).
Proof. unfold piece_size_of, mbind, ST_bind, TotalPiecesCount. destruct (idx =? _); by eexists. Qed.

(** The client is not choked by its peer, or its bitfield is of no use. *)
Lemma safe_TryToRequestPiece i w : wf w → engaged w i → runs (TryToRequestPiece i) w.
Proof.
  intros Hw He. pose proof He as (c & Hi & Hs). unfold TryToRequestPiece. apply (safe_get_client i c); [done|].
  destruct (wf_clients _ Hw i c Hi) as [Hok _].
  destruct (active_piece_ c) as [[p b]|] eqn:Ea.
  - destruct (piece_size_read (index p) w) as [n En]. apply (safe_read _ _ _ _ n); [done|].
    destruct (_ =? 0); [by apply safe_ret|]. apply safe_request_blocks. exists c. split_and!; [done|done|by eexists].
  - apply (safe_read _ _ _ _ (master_peer_ w)); [done|]. apply (safe_read _ _ _ _ (Z.of_nat (total_of w))); [done|].
    destruct (_ =? _); [by eapply runs_safe, (safe_send_not_interested anyone); [..|by apply engaged_holding]|].
    destruct (IsRemoteChoked c) eqn:Ech; [by apply safe_ret|].
    assert (sized (total_of w) c) as Hsz by (destruct (ok_choked _ _ Hok); [congruence|done]).
    apply (safe_bind _ _ (fun _ w' => engaged w' i)).
    { unfold when. destruct (negb _); [|by apply safe_ret]. eapply safe_mono;
        [apply (safe_send_interested anyone); [done|done|by apply engaged_holding]|].
      intros u w1 Hh1. exact (holding_engaged _ _ _ Hh1). }
    intros u w1 Hc1 He1. apply (safe_bind _ _ (fun _ w' => engaged w' i)).
    { unfold safe. eapply wp_mono; [apply safe_ChoosePiece; [by eapply calm_wf|by rewrite (calm_total _ _ Hc1)]|].
      intros k w2 [Hc2 _]. split; [done|]. by eapply engaged_calm. }
    intros [k|] w2 Hc2 He2; [|by apply safe_ret].
    destruct (piece_size_read k w2) as [n En]. apply (safe_read _ _ _ _ n); [done|].
    eapply safe_bind.
    { apply (safe_modify anyone has_active); [by apply engaged_holding|]. intros c' _. split; [apply activity_quiet|by eexists]. }
    intros u3 w3 _ Hh3. by apply safe_request_blocks.
Qed.

(** *** All subscribers *)

Lemma subscribers_engaged w l : wf w → subscribers w = Ok (l, w) → Forall (engaged w) l.
Proof.
  intros Hw [= <-]. apply list.Forall_forall. intros j ([a j'] & -> & Ha)%list_elem_of_fmap.
  apply elem_of_map_to_list in Ha. destruct (wf_subs _ Hw a j' Ha) as (c & Hj & Hip). cbn.
  exists c. split; [done|]. right. by rewrite Hip.
Qed.

Lemma safe_subscribers {A} (f : list nat → ST (World B) A) R w :
  wf w → (∀ l, Forall (engaged w) l → safe (f l) R w) → safe (subscribers ≫= f) R w.
Proof.
  intros Hw Hf. eapply safe_read; [reflexivity|]. apply Hf. by apply subscribers_engaged.
Qed.

Lemma safe_for_each (body : nat → ST (World B) unit) l w :
  wf w → Forall (engaged w) l → (∀ j w', wf w' → engaged w' j → runs (body j) w') → runs (for_each l body) w.
Proof.
  intros Hw Hl Hb. revert w Hw Hl. induction l as [|j l IH]; intros w Hw Hl; cbn [for_each]; [by apply safe_ret|].
  apply list.Forall_cons in Hl as [Hj Hl]. apply safe_seq; [by apply Hb|]. intros u w1 Hc.
  apply IH; [by eapply calm_wf|]. eapply list.Forall_impl; [exact Hl|]. intros j'. by apply engaged_calm.
Qed.

Lemma safe_SendHaveToAll n w : wf w → runs (SendHaveToAll n) w.
Proof.
  intros Hw. apply safe_subscribers; [done|]. intros l Hl. apply safe_for_each; [done|done|].
  intros j w' _ He. pose proof He as (c & Hj & _). apply (safe_get_client j c); [done|]. apply safe_when. intros _.
  eapply runs_safe, (safe_send_have anyone); [done|by apply engaged_holding].
Qed.

Lemma safe_post_all (job : Job) w :
  wf w → plain_job job = true → runs (peers ← subscribers; for_each peers (fun j => Post j job)) w.
Proof.
  intros Hw Hj. apply safe_subscribers; [done|]. intros l Hl. apply safe_for_each; [done|done|].
  intros j w' _ He. by apply runs_Post.
Qed.

Lemma safe_DistributorsCount w : wf w → safe DistributorsCount (fun _ _ => True) w.
Proof.
  intros Hw. apply safe_subscribers; [done|]. intros l Hl.
  assert (∃ n, count_distributors l w = Ok (n, w)) as [n En].
  { induction Hl as [|j l (c & Hj & _) _ [n IH]]; cbn [count_distributors]; [by eexists|].
    unfold get_client, mbind, ST_bind. rewrite Hj. cbn. rewrite IH. by eexists. }
  by eapply safe_Ok.
Qed.

(** *** Cancelling *)

Lemma safe_send_cancel i id b l w : engaged w i → safe (send_cancel i id b l) (fun _ w' => engaged w' i) w.
Proof.
  intros He. unfold send_cancel. eapply safe_bind.
  { apply (safe_send_msg anyone); [done|by apply engaged_holding|apply put_fields_length]. }
  intros u w1 _ Hh. unfold safe. eapply wp_mono.
  - apply (safe_modify anyone anyone); [exact Hh|]. intros c _. split; [|done]. unfold dec_blocks_num.
    destruct (active_piece_ c) as [[p b']|]; [apply activity_quiet|done].
  - intros u2 w2 [Hc Hh2]. split; [done|exact (holding_engaged _ _ _ Hh2)].
Qed.

Lemma safe_cancel_loop n i id b l w :
  engaged w i → l ≤ (Z.of_nat n + 1) * most_request_size →
  safe (cancel_loop n i id b l) (fun _ w' => engaged w' i) w.
Proof.
  revert b l w. induction n as [|n IH]; intros b l w He Hl; cbn [cancel_loop];
    destruct (Z.gtb_spec l most_request_size) as [Hg|Hg]; try (by apply safe_send_cancel); [lia|].
  eapply safe_bind; [by apply safe_send_cancel|]. intros u w1 _ He1. apply IH; [done|lia].
Qed.

Lemma safe_run_cancel_piece i id w : engaged w i → runs (run_cancel_piece i id) w.
Proof.
  intros He. pose proof He as (c & Hi & _). unfold run_cancel_piece. apply (safe_get_client i c); [done|].
  destruct (active_piece_ c) as [[p b]|]; [|by apply safe_ret]. destruct (_ =? _); [|by apply safe_ret].
  destruct (piece_size_read id w) as [n En]. apply (safe_read _ _ _ _ n); [done|].
  eapply safe_bind.
  { apply safe_cancel_loop; [done|]. unfold block_count_of, most_request_size.
    pose proof (Z.div_mod (n + 16384 - 1) 16384 ltac:(done)). pose proof (Z.mod_pos_bound (n + 16384 - 1) 16384 ltac:(lia)). lia. }
  intros u w1 _ He1. apply runs_modify_engaged; [done|]. intros c'. apply activity_quiet.
Qed.

Lemma safe_cancel_piece i id w : engaged w i → runs (cancel_piece i id) w.
Proof. intros He. by apply runs_Post. Qed.

(** *** The reactions of the strategy *)

(** A sequence in which the client stays engaged and the invariant holds. *)
Lemma runs_seq i (m1 m2 : ST (World B) unit) w :
  wf w → engaged w i → runs m1 w → (∀ w', wf w' → engaged w' i → total_of w' = total_of w → runs m2 w') →
  runs (_ ← m1; m2) w.
Proof.
  intros Hw He H1' H2'. apply safe_seq; [done|]. intros u w1 Hc.
  apply H2'; [by eapply calm_wf|by eapply engaged_calm|by apply calm_total].
Qed.

Lemma runs_interested i w : engaged w i → runs (send_interested i) w.
Proof. intros He. eapply runs_safe, (safe_send_interested anyone); [done|done|by apply engaged_holding]. Qed.

Lemma PieceDone_read idx w : wf w → 0 ≤ idx < Z.of_nat (total_of w) → ∃ b, PieceDone idx w = Ok (b, w).
Proof.
  intros Hw Hidx. pose proof (wf_total _ Hw). pose proof (wf_size _ Hw) as Hsz.
  unfold PieceDone, mbind, ST_bind, get_master, lift, IsPieceDone. rewrite u32_small by lia.
  rewrite Test_in by (rewrite Hsz; lia). by eexists.
Qed.

Lemma total_read w : TotalPiecesCount w = Ok (Z.of_nat (total_of w), w).
Proof. done. Qed.

Lemma safe_OnInterested i w : wf w → engaged w i → runs (OnInterested i) w.
Proof.
  intros Hw He. pose proof He as (c & Hi & _). unfold OnInterested. apply (safe_get_client i c); [done|].
  eapply safe_read; [reflexivity|]. apply (runs_seq i); [done|done| |].
  - apply safe_when. intros _. eapply runs_safe, (safe_send_unchoke anyone); [done|done|by apply engaged_holding].
  - intros w1 Hw1 He1 _. pose proof He1 as (c1 & Hi1 & _). apply (safe_get_client i c1); [done|].
    apply safe_when. intros _. by apply safe_TryToRequestPiece.
Qed.

Lemma safe_OnNotInterested i w : engaged w i → runs (OnNotInterested i) w.
Proof.
  intros He. pose proof He as (c & Hi & _). apply (safe_get_client i c); [done|]. apply safe_when. intros _.
  eapply runs_safe, (safe_send_choke anyone); [done|done|by apply engaged_holding].
Qed.

Lemma safe_OnHave i idx w : wf w → engaged w i → 0 ≤ idx → runs (OnHave i idx) w.
Proof.
  intros Hw He Hidx. unfold OnHave. apply (safe_read _ _ _ _ _ (total_read w)).
  destruct (Z.leb_spec (Z.of_nat (total_of w)) idx); [by apply safe_Disconnect|].
  destruct (PieceDone_read idx w Hw ltac:(lia)) as [b Eb]. apply (safe_read _ _ _ _ _ Eb).
  apply safe_when. intros _. by apply safe_TryToRequestPiece.
Qed.

Lemma safe_OnBitfield i w : wf w → holding (sized (total_of w)) i w → runs (OnBitfield i) w.
Proof.
  intros Hw Hh. pose proof (holding_engaged _ _ _ Hh) as He. destruct Hh as (c & Hi & _ & Hsz).
  unfold OnBitfield. eapply safe_read; [reflexivity|]. apply (safe_get_client i c); [done|].
  assert (Size (bitfield_ (as_peer (master_peer_ w))) = Size (bitfield_ (slave_peer_ c))) as Heq
    by (by rewrite (wf_size _ Hw)).
  eapply safe_read; [unfold lift, GetMismatchedBitfield; rewrite decide_True by exact Heq; reflexivity|].
  apply (runs_seq i); [done|done| |].
  - apply safe_when. intros _. by apply runs_interested.
  - intros w1 Hw1 He1 _. by apply safe_TryToRequestPiece.
Qed.

Lemma Enqueue_cases (a : AsyncWorker (J:=FileJob)) f rs :
  Enqueue a f rs = NoFuel ∨ ∃ id a' rs', Enqueue a f rs = Ok (id, a', rs') ∧
    queue_ a' = queue_ a ++ [mkNode (next_addr a) f id].
Proof.
  unfold Enqueue. assert (draw_id (executing_callbacks_ a) rs = NoFuel ∨
    ∃ id rs', draw_id (executing_callbacks_ a) rs = Ok (id, rs')) as [->|(id & rs' & ->)].
  { induction rs as [|r rs IH]; cbn [draw_id]; [by left|]. case_decide; [done|]. right. by eexists _, _. }
  - by left.
  - right. by eexists _, _, _.
Qed.

(** A new job for the file workers. *)
Lemma calm_enqueued w m rs a n :
  files_ m = files_ (file_manager_ w) → a_worker_ m = a → queue_ a = queue_ (a_worker_ (file_manager_ w)) ++ [n] →
  job_engaged w (n_func n) → (keys_null (file_manager_ w) → keys_null m) →
  calm w (set_random (set_manager w m) rs).
Proof.
  intros Hf Ha Hq Hj Hk. split; try done.
  - intros j c c' Hj1 Hj2. cbn in Hj2. rewrite Hj1 in Hj2. injection Hj2 as <-. split; [done|]. split; by left.
  - intros n'. cbn. rewrite Ha, Hq. intros [?| ->%list_elem_of_singleton]%elem_of_app; [by left|by right].
Qed.

Lemma safe_UploadPieceBlock req i w :
  wf w → engaged w i → rr_peer req = Some i → safe (UploadPieceBlock req) (fun _ _ => True) w.
Proof.
  intros Hw He Hr. unfold UploadPieceBlock. eapply safe_read; [reflexivity|].
  set (m0 := file_manager_ w). pose proof (fun id m rs' => UploadBlock_keys m0 req (random_ w) id m rs') as Hkeys.
  unfold UploadBlock in *.
  destruct (Enqueue_cases (a_worker_ m0) (UploadJob req) (random_ w)) as [E|(id & a & rs & E & Hq)];
    rewrite E in *; [done|]. cbn [mbind outcome_bind] in *.
  set (m1 := match active_requests_ (set_worker m0 a) !! key_of (moved_request req) with
    | Some _ => set_worker m0 a
    | None => set_active (set_worker m0 a) (<[key_of (moved_request req) := id]> (active_requests_ (set_worker m0 a)))
    end).
  assert (∃ id', (match active_requests_ (set_worker m0 a) !! key_of (moved_request req) with
    | Some id' => Ok (id', set_worker m0 a, rs)
    | None => Ok (id, set_active (set_worker m0 a) (<[key_of (moved_request req) := id]> (active_requests_ (set_worker m0 a))), rs)
    end) = Ok (id', m1, rs)) as [id' E'] by (subst m1; destruct (active_requests_ _ !! _); by eexists).
  eapply safe_read; [unfold lift; rewrite E'; reflexivity|]. cbv iota.
  apply (safe_Ok _ _ _ id' (set_random (set_manager w m1) rs)); [done| |done].
  apply (calm_enqueued w m1 rs a (mkNode (next_addr (a_worker_ m0)) (UploadJob req) id)).
  - subst m1. by destruct (active_requests_ _ !! _).
  - subst m1. by destruct (active_requests_ _ !! _).
  - done.
  - by exists i.
  - intros Hk. by apply (Hkeys id' m1 rs).
Qed.

Lemma safe_OnRequest i idx b l w : wf w → engaged w i → 0 ≤ idx → runs (OnRequest i idx b l) w.
Proof.
  intros Hw He Hidx. unfold OnRequest. apply (safe_read _ _ _ _ _ (total_read w)).
  destruct (Z.leb_spec (Z.of_nat (total_of w)) idx); [by apply safe_Disconnect|].
  destruct (PieceDone_read idx w Hw ltac:(lia)) as [d Ed]. apply (safe_read _ _ _ _ _ Ed).
  destruct d; [|by apply safe_ret]. eapply safe_seq; [by apply (safe_UploadPieceBlock _ i)|].
  intros id w1 _. by apply runs_master.
Qed.

Lemma safe_CancelBlockUpload req i w : wf w → rr_peer req = Some i → runs (CancelBlockUpload req) w.
Proof.
  intros Hw Hr. unfold CancelBlockUpload. eapply safe_read; [reflexivity|].
  assert (CancelBlock (file_manager_ w) req = Ok (None, file_manager_ w)) as E.
  { unfold CancelBlock. destruct (active_requests_ (file_manager_ w) !! key_of req) eqn:E; [|done].
    apply (wf_keys _ Hw) in E. unfold key_of in E. cbn in E. congruence. }
  eapply safe_read; [unfold lift; rewrite E; reflexivity|]. cbv iota.
  eapply safe_seq; [|intros u w1 _; by apply safe_ret].
  apply (safe_Ok _ _ _ tt (set_manager w (file_manager_ w))); [done| |done]. by destruct w.
Qed.

Lemma safe_OnCancel i idx b l w : wf w → engaged w i → runs (OnCancel i idx b l) w.
Proof.
  intros Hw He. unfold OnCancel. apply (safe_read _ _ _ _ _ (total_read w)).
  destruct (_ <=? _); [by apply safe_Disconnect|]. eapply safe_read; [reflexivity|].
  apply safe_when. intros _. by eapply safe_CancelBlockUpload.
Qed.

(** *** Blocks *)

(** Between two operations of the read loop, with [data] behind the block header
    in the receive buffer. *)
Definition holds_data data c : Prop := tokens c = O ∧ drop 9 (rm_arr (msg_to_read_ c)) = data.

Lemma tokens_posted_block c idx b data : tokens (posted c [JBlock idx b data]) = tokens c.
Proof.
  unfold tokens. change (pending_tokens (posted c _)) with (pending_tokens c). unfold posted. cbn [strand set_strand].
  rewrite jobs_tokens_app. change (jobs_tokens [JBlock idx b data]) with 0%nat. lia.
Qed.

Lemma block_quiet total c idx b data : holds_data data c → quiet total c (posted c [JBlock idx b data]).
Proof.
  intros [Ht Hd]. split; [done|apply tokens_posted_block|done|done|]. intros [Ok1 Ok2 Ok3 Ok4 Ok5 Ok6].
  assert (jobs_tokens (strand c) = O ∧ pending_tokens c = O) as [Hj Hp] by (unfold tokens in Ht; lia).
  split; [by rewrite tokens_posted_block| |done|..|done].
  - unfold fresh in *. change (pending_tokens (posted c _)) with (pending_tokens c). rewrite Hp in *.
    by apply fresh_jobs_block.
  - intros size k. cbn. intros [?|Hin]%elem_of_app; [by apply Ok4|]. by apply list_elem_of_singleton in Hin.
  - intros v. cbn. intros [?|Hin]%elem_of_app; [by apply Ok5|]. by apply list_elem_of_singleton in Hin.
Qed.

Lemma safe_OnPieceBlock i idx b data w :
  wf w → holding (holds_data data) i w → 0 ≤ idx → runs (OnPieceBlock i idx b data) w.
Proof.
  intros Hw Hh Hidx. pose proof (holding_engaged _ _ _ Hh) as He.
  apply (safe_ext _ _ _ _ (OnPieceBlock_any i idx b data w)). unfold OptimalStrategy_OnPieceBlock.
  apply (safe_read _ _ _ _ _ (total_read w)).
  destruct (Z.leb_spec (Z.of_nat (total_of w)) idx); [by apply safe_Disconnect|].
  destruct (_ <? _); [by apply safe_ret|]. eapply safe_read; [reflexivity|].
  destruct (_ && _); [by apply safe_ret|].
  destruct (PieceDone_read idx w Hw ltac:(lia)) as [d Ed]. apply (safe_read _ _ _ _ _ Ed).
  destruct d; [by apply safe_cancel_piece|]. eapply safe_bind.
  { apply (safe_modify (holds_data data) (holds_data data)); [done|]. intros c Hc. split; [apply piece_wait_quiet|exact Hc]. }
  intros u w1 _ Hh1. eapply runs_safe, (safe_modify (holds_data data) anyone); [done|].
  intros c Hc. split; [by apply block_quiet|done].
Qed.

(** *** Messages from the peer *)

(** The message [body] is being looked at, [pos] of its bytes read. *)
Record reading total (body : bytes) (pos : nat) c : Prop := {
  rd_tokens : tokens c = O;
  rd_arr : rm_arr (msg_to_read_ c) = body;
  rd_pos : rm_inp_pos (msg_to_read_ c) = pos;
  rd_size : rm_body_size (msg_to_read_ c) = Z.of_nat (length body);
  rd_sized : sized total c;
}.

Lemma reading_statuses total body pos : statuses (reading total body pos).
Proof. intros c st []. by split. Qed.

Lemma msg_quiet total c m :
  rm_arr m = rm_arr (msg_to_read_ c) → rm_body_size m = rm_body_size (msg_to_read_ c) → quiet total c (set_msg c m).
Proof. intros. apply (plain_change_quiet _ _ _ []); split; try done. cbn. by rewrite app_nil_r. Qed.

Lemma get_value_total sz m :
  (rm_inp_pos m + sz ≤ length (rm_arr m))%nat →
  ∃ v, get_value sz m = Ok (v, rm_set_pos m (rm_inp_pos m + sz)) ∧ 0 ≤ v < 2 ^ (8 * Z.of_nat sz).
Proof.
  intros Hl. unfold get_value, CopyTo. rewrite decide_True by done. cbn [mbind outcome_bind].
  set (bs := take sz (drop (rm_inp_pos m) (rm_arr m))).
  assert (length bs = sz) as Hbs by (subst bs; rewrite length_take, length_drop; lia).
  eexists. split; [reflexivity|]. change (rm_order (rm_set_pos m (rm_inp_pos m + sz))) with (rm_order m). destruct (rm_order m).
  - rewrite BigToNative_bytes by done. rewrite <- Hbs. apply be_combine_range.
  - rewrite LittleToNative_bytes by done. rewrite <- Hbs. apply le_combine_bound.
Qed.

Lemma safe_read_value {A} total body pos i sz (f : Z → ST (World B) A) R w :
  holding (reading total body pos) i w → (pos + sz ≤ length body)%nat →
  (∀ v w', calm w w' → 0 ≤ v < 2 ^ (8 * Z.of_nat sz) → holding (reading total body (pos + sz)) i w' → safe (f v) R w') →
  safe (read_value i sz ≫= f) R w.
Proof.
  intros Hh Hl Hf. apply (safe_bind _ _ (fun v w' => 0 ≤ v < 2 ^ (8 * Z.of_nat sz) ∧ holding (reading total body (pos + sz)) i w')).
  - destruct Hh as (c & Hi & Hs & Hr). unfold read_value. apply (safe_get_client i c); [done|].
    destruct (get_value_total sz (msg_to_read_ c)) as (v & Ev & Hv); [rewrite (rd_arr _ _ _ _ Hr), (rd_pos _ _ _ _ Hr); lia|].
    eapply safe_read; [unfold lift; rewrite Ev; reflexivity|]. cbv iota. eapply safe_bind.
    { apply (safe_modify (fun c' => c' = c) (reading total body (pos + sz))); [by exists c|]. intros c' ->.
      split; [by apply msg_quiet|]. destruct Hr as [? ? Hpos ? ?]. split; try done. cbn. by rewrite Hpos. }
    intros u w1 _ Hh1. by apply safe_ret.
  - intros v w1 Hc [Hv Hh1]. by apply Hf.
Qed.

(** Setting bits of the bitfield, its size kept. *)
Lemma bits_quiet total c (bits : B) :
  Size bits = Size (bitfield_ (slave_peer_ c)) → quiet total c (set_slave c (set_bitfield (slave_peer_ c) bits)).
Proof. intros. apply (plain_change_quiet _ _ _ []); split; try done. cbn. by rewrite app_nil_r. Qed.

Lemma safe_set_bits {A} total i c (bits : outcome B) (f : B → ST (World B) A) R w :
  clients w !! i = Some c → holding (sized total) i w → total = total_of w →
  (sized total c → ∃ b, bits = Ok b ∧ Size b = total) →
  (∀ b w', calm w w' → holding (sized total) i w' → safe (f b) R w') →
  safe (b ← lift bits; _ ← modify_client i (fun c => set_slave c (set_bitfield (slave_peer_ c) b)); f b) R w.
Proof.
  intros Hi Hh Ht Hb Hf. pose proof Hh as (c' & Hi' & Hs & Hsz). rewrite Hi in Hi'. injection Hi' as <-.
  destruct (Hb Hsz) as (b & Eb & Hsb). eapply safe_read; [unfold lift; rewrite Eb; reflexivity|]. cbv beta.
  eapply safe_bind.
  - apply (safe_modify (sized total) (sized total)); [done|]. intros c' Hc'. split; [|exact Hsb].
    apply bits_quiet. by rewrite Hsb.
  - intros u w1 Hc1 Hh1. by apply Hf.
Qed.

Section Message.
Variables (total : nat) (body : bytes) (i : nat) (w : World B).
Hypotheses (Hw : wf w) (Ht : total = total_of w) (Hh : holding (reading total body 1) i w).

Lemma reading_sized pos w' : holding (reading total body pos) i w' → holding (sized total) i w'.
Proof. intros (c & Hi & Hs & Hr). exists c. split_and!; [done|done|by apply Hr]. Qed.

Lemma safe_handle_have :
  Z.of_nat (length body) = 5 →
  runs (idx ← read_value i 4;
        n ← TotalPiecesCount;
        if n <=? idx then mret tt
        else
          c ← get_client i;
          bits ← lift (Set_ (bitfield_ (slave_peer_ c)) (Z.to_nat idx));
          _ ← modify_client i (fun c => set_slave c (set_bitfield (slave_peer_ c) bits));
          OnHave i idx) w.
Proof.
  intros Hl. eapply (safe_read_value total body 1); [done|lia|]. intros idx w1 Hc1 Hidx Hh1.
  pose proof (calm_total _ _ Hc1) as Ht1. apply (safe_read _ _ _ _ _ (total_read w1)).
  destruct (Z.leb_spec (Z.of_nat (total_of w1)) idx); [by apply safe_ret|].
  pose proof Hh1 as (c & Hi & _). apply (safe_get_client i c); [done|].
  apply (safe_set_bits total i c); [done|by eapply reading_sized|congruence| |].
  - intros Hsz. destruct (Set_in (bitfield_ (slave_peer_ c)) (Z.to_nat idx)) as (b & Eb & Hb & _);
      [rewrite Hsz; lia|]. exists b. split; [done|]. by rewrite Hb.
  - intros b w2 Hc2 Hh2. apply safe_OnHave; [by eapply calm_wf, calm_wf|by eapply holding_engaged|lia].
Qed.

Lemma set_bits_total b0 v (bits : B) n :
  Size bits = n → ∃ b, set_bits n (S (length v)) (b0 :: v) bits = Ok b ∧ Size b = n.
Proof. intros <-. destruct (set_bits_spec b0 v bits) as (b & E & Hs & _). by exists b. Qed.

Lemma safe_handle_bitfield c :
  clients w !! i = Some c →
  runs (bits ← lift (set_bits total (length body) body (bitfield_ (slave_peer_ c)));
        _ ← modify_client i (fun c => set_slave c (set_bitfield (slave_peer_ c) bits));
        OnBitfield i) w.
Proof.
  intros Hi. apply (safe_set_bits total i c); [done|by eapply reading_sized|done| |].
  - intros Hsz. destruct body as [|b0 v] eqn:Eb; [by eexists|]. by apply set_bits_total.
  - intros b w1 Hc1 Hh1. apply safe_OnBitfield; [by eapply calm_wf|]. by rewrite (calm_total _ _ Hc1), <- Ht.
Qed.

(** The three numbers of a request or cancel message. *)
Lemma safe_read_three (f : Z → Z → Z → ST (World B) unit) :
  Z.of_nat (length body) = 13 → (∀ a b l w', wf w' → engaged w' i → 0 ≤ a → runs (f a b l) w') →
  runs (a ← read_value i 4; b ← read_value i 4; l ← read_value i 4; f a b l) w.
Proof.
  intros Hl Hf. eapply (safe_read_value total body 1); [done|lia|]. intros a w1 Hc1 Ha Hh1.
  eapply (safe_read_value total body 5); [done|lia|]. intros b w2 Hc2 _ Hh2.
  eapply (safe_read_value total body 9); [done|lia|]. intros l w3 Hc3 _ Hh3.
  apply Hf; [by eapply calm_wf, calm_wf, calm_wf|by eapply holding_engaged|lia].
Qed.

Lemma safe_handle_block n :
  n = Z.of_nat (length body) → 9 ≤ n < 2 ^ 32 →
  runs (idx ← read_value i 4; b ← read_value i 4;
        data ← lift (slice body 9 (Z.to_nat (u32 (n - 9)))); OnPieceBlock i idx b data) w.
Proof.
  intros Hn Hl. eapply (safe_read_value total body 1); [done|lia|]. intros a w1 Hc1 Ha Hh1.
  eapply (safe_read_value total body 5); [done|lia|]. intros b w2 Hc2 _ Hh2.
  assert (slice body 9 (Z.to_nat (u32 (n - 9))) = Ok (drop 9 body)) as Es.
  { rewrite u32_small by lia. unfold slice. rewrite decide_True by lia. f_equal. apply take_ge.
    rewrite length_drop. lia. }
  eapply safe_read; [unfold lift; rewrite Es; reflexivity|]. apply safe_OnPieceBlock; [by eapply calm_wf, calm_wf| |lia].
  destruct Hh2 as (c & Hi & Hs & Hr). exists c. split_and!; [done|done|].
  split; [apply Hr|by rewrite (rd_arr _ _ _ _ Hr)].
Qed.

Lemma safe_flagged (m1 m2 : ST (World B) unit) :
  safe m1 (fun _ => holding (reading total body 1) i) w →
  (∀ w', wf w' → engaged w' i → runs m2 w') → runs (_ ← m1; m2) w.
Proof.
  intros H1' H2'. eapply safe_bind; [exact H1'|]. intros u w1 Hc1 Hh1.
  apply H2'; [by eapply calm_wf|exact (holding_engaged _ _ _ Hh1)].
Qed.

Lemma safe_handle_response :
  (0 < length body)%nat → Z.of_nat (length body) < 2 ^ 32 → runs (handle_response i) w.
Proof.
  intros Hpos Hlt. pose proof (holding_engaged _ _ _ Hh) as He. pose proof Hh as (c & Hi & Hs & Hr).
  unfold handle_response, response_cancel, response_port. apply (safe_get_client i c); [done|].
  assert (∃ b, rm_Type (msg_to_read_ c) = Ok b) as [b Eb].
  { unfold rm_Type. rewrite (rd_arr _ _ _ _ Hr). destruct (lookup_lt_is_Some_2 body 0 Hpos) as [b Hb]. exists b. by rewrite Hb. }
  eapply safe_read; [unfold lift; rewrite Eb; reflexivity|]. cbv beta zeta.
  rewrite (rd_size _ _ _ _ Hr), (rd_arr _ _ _ _ Hr).
  destruct (type_of_id b) as [[]|]; [..|by apply safe_ret];
    try (match goal with |- context [negb (?x =? ?y)] => destruct (Z.eqb_spec x y) as [El|El] end;
         cbn [negb]; [|by apply safe_Disconnect]).
  - apply safe_flagged; [apply safe_set_flag; [apply reading_statuses|done|by right]|].
    intros w1 Hw1 He1. by apply runs_Post.
  - apply safe_flagged; [|by apply safe_TryToRequestPiece].
    apply safe_clear_flag; [apply reading_statuses|done|]. right. intros c' Hc'. rewrite <- Ht. by apply Hc'.
  - apply safe_flagged; [apply safe_set_flag; [apply reading_statuses|done|by left]|]. by apply safe_OnInterested.
  - apply safe_flagged; [apply safe_clear_flag; [apply reading_statuses|done|by left]|].
    intros w1 _. by apply safe_OnNotInterested.
  - by apply safe_handle_have.
  - destruct (_ <? _); [by apply safe_ret|]. apply (safe_read _ _ _ _ _ (total_read w)).
    destruct (_ <? _); [by apply safe_Disconnect|]. rewrite <- Ht, !Nat2Z.id. by apply safe_handle_bitfield.
  - destruct (IsRemoteInterested c); cbn [negb]; [|by apply safe_Disconnect].
    destruct (IsClientChoked c); [by apply safe_Disconnect|]. apply safe_read_three; [done|].
    intros. by apply safe_OnRequest.
  - destruct (Z.ltb_spec (Z.of_nat (length body)) 9); [by apply safe_Disconnect|]. by apply safe_handle_block.
  - apply safe_read_three; [done|]. intros. by apply safe_OnCancel.
  - eapply (safe_read_value total body 1); [done|lia|]. intros p w1 _ _ _. by apply safe_ret.
Qed.
End Message.
End Handlers.
