(* ===== verification/Safety.v ===== *)
(** * No event breaks the client

    The operations of the read loop, every event, and the invariant of
    Invariant.v in every reachable state: whatever arrives from the network,
    the client neither throws nor reaches undefined behaviour, except where a
    block nobody asked for is stored. *)

From Stdlib Require Import ZArith Lia Strings.Byte Strings.String.
From coqutil Require Import Byte.
From S2P Require Import Prelude Bytes Streams Worker Bencode Text Piece Files FilesFacts.
From S2P Require Import Bitset Bitfield Message Peer World PeerClient PeerFacts Exchange Download.
From S2P Require Import Invariant Handlers.

#[local] Arguments writes_tokens : simpl never.

(** ** Moving the read loop on *)

Section Tokens.
Context {B : Type} `{DynamicBitset B}.
Implicit Types (w : World B) (c : PeerClient B).

(** Between two operations of the read loop. *)
Definition resting c : Prop := tokens c = O.

Lemma resting_parts c : resting c → jobs_tokens (strand c) = O ∧ pending_tokens c = O.
Proof. unfold resting, tokens. lia. Qed.

Lemma resting_no_read c size k : resting c → ¬ JRead size k ∈ strand c.
Proof.
  intros [Hj _]%resting_parts Hin%list_elem_of_In. unfold jobs_tokens in Hj.
  apply length_zero_iff_nil in Hj. assert (JRead size k ∈ List.filter is_token (strand c)) as Hf
    by (by apply list_elem_of_In, List.filter_In).
  rewrite Hj in Hf. by apply not_elem_of_nil in Hf.
Qed.

Lemma resting_no_pending c sk : resting c → ¬ sk ∈ pending_reads c.
Proof.
  intros [_ Hp]%resting_parts Hin. unfold pending_tokens in Hp.
  destruct (pending_reads c) as [|? ?]; [by apply not_elem_of_nil in Hin|cbn in Hp; lia].
Qed.

Lemma writes_tokens_snoc l k :
  writes_tokens (l ++ [k]) = (writes_tokens l + if decide (k = WRemind) then 0 else 1)%nat.
Proof. unfold writes_tokens. rewrite List.filter_app, length_app. by destruct k. Qed.

Lemma writes_tokens_cons k l :
  writes_tokens (k :: l) = ((if decide (k = WRemind) then 0 else 1) + writes_tokens l)%nat.
Proof. by destruct k. Qed.

(** Replacing a client. *)
Lemma wf_put w i c c' :
  wf w → clients w !! i = Some c → subscribed w i c → ip (slave_peer_ c') = ip (slave_peer_ c) →
  (is_disconnected c = true → is_disconnected c' = true) → client_ok (total_of w) c' →
  wf (put i c' w) ∧ subscribed (put i c' w) i c'.
Proof.
  intros [W0 W1 W2 W3 W4 W5 W6] Hi Hs Hip Hd Hok.
  assert (subscribed (put i c' w) i c') as Hs'.
  { unfold subscribed in *. rewrite Hip. destruct Hs as [?|?]; [left; auto|by right]. }
  split; [|done]. split; try done.
  - intros j cj. unfold put. cbn. intros [[<- <-]|[Hne Hj]]%lookup_insert_Some; [by split; [|left]|by apply W3].
  - intros a j Ha. destruct (W4 a j Ha) as (cj & Hj & Hipj). unfold put. cbn.
    destruct (decide (j = i)) as [->|Hne].
    + rewrite lookup_insert_eq. exists c'. split; [done|]. rewrite Hi in Hj. injection Hj as <-. congruence.
    + rewrite lookup_insert_ne by done. by exists cj.
  - intros n Hn. specialize (W5 n Hn). destruct (n_func n) as [req|]; [|done].
    destruct W5 as (p & Hp & cp & Hcp & Hsp). exists p. split; [done|]. unfold engaged, put. cbn.
    destruct (decide (p = i)) as [->|Hne].
    + rewrite lookup_insert_eq. by exists c'.
    + rewrite lookup_insert_ne by done. by exists cp.
Qed.

(** *** One client before and after *)

Lemma pop_token_ok total c j js :
  client_ok total c → strand c = j :: js → is_token j = true →
  client_ok total (set_strand c js) ∧ resting (set_strand c js) ∧ no_blocks js.
Proof.
  intros [Ok1 Ok2 Ok3 Ok4 Ok5 Ok6] Es Hj.
  assert (jobs_tokens (strand c) = S (jobs_tokens js)) as Ht
    by (rewrite Es; unfold jobs_tokens; cbn; by rewrite Hj).
  assert (jobs_tokens js = O ∧ pending_tokens c = O) as [Hjs Hp] by (unfold tokens in Ok1; lia).
  assert (no_blocks js) as Hnb by (unfold fresh in Ok2; rewrite Hp, Es in Ok2; cbn in Ok2; by rewrite Hj in Ok2).
  change (pending_tokens c) with (pending_tokens (set_strand c js)) in Hp.
  assert (resting (set_strand c js)) as Hr by (unfold resting, tokens; cbn [strand set_strand]; lia).
  split; [|done]. split; [rewrite Hr; lia| |done|..|done].
  - unfold fresh. rewrite Hp. by apply no_blocks_fresh.
  - intros size k Hin. apply Ok4. rewrite Es. by right.
  - intros v Hin. apply Ok5. rewrite Es. by right.
Qed.

Lemma pop_plain_ok total c j js :
  client_ok total c → strand c = j :: js → is_token j = false →
  client_ok total (set_strand c js).
Proof.
  intros [Ok1 Ok2 Ok3 Ok4 Ok5 Ok6] Es Hj.
  assert (tokens (set_strand c js) = tokens c) as Ht.
  { unfold tokens. rewrite Es. unfold jobs_tokens. cbn [strand set_strand List.filter]. by rewrite Hj. }
  split; [by rewrite Ht| |done|..|done].
  - unfold fresh in *. change (pending_tokens (set_strand c js)) with (pending_tokens c).
    cbn [strand set_strand msg_to_read_]. rewrite Es in Ok2. destruct (pending_tokens c).
    + cbn [fresh_jobs] in Ok2. rewrite Hj in Ok2. destruct j; naive_solver.
    + unfold no_blocks in *. cbn [List.filter] in Ok2. by destruct (is_block j).
  - intros size k Hin. apply Ok4. rewrite Es. by right.
  - intros v Hin. apply Ok5. rewrite Es. by right.
Qed.

(** The lambda that stores a block finds its bytes in the receive buffer. *)
Lemma block_alive total c idx b data js :
  client_ok total c → strand c = JBlock idx b data :: js → drop 9 (rm_arr (msg_to_read_ c)) = data.
Proof.
  intros Hok Es. pose proof (ok_fresh _ _ Hok) as Hf. unfold fresh in Hf. rewrite Es in Hf.
  destruct (pending_tokens c); [by destruct Hf|discriminate Hf].
Qed.

(** What a lambda of the read loop needs. *)
Definition token_ok total c (j : Job) : Prop :=
  match j with
  | JRead size k => read_ok total c size k
  | JVerifyHandshake v => length v = handshake_length
  | _ => True
  end.

Lemma post_token_ok total c j :
  client_ok total c → resting c → is_token j = true → token_ok total c j → client_ok total (posted c [j]).
Proof.
  intros [Ok1 Ok2 Ok3 Ok4 Ok5 Ok6] Hr Hj Htok. pose proof (resting_parts _ Hr) as [Hjs Hp].
  split; [| |done|..|done].
  - unfold tokens. change (pending_tokens (posted c [j])) with (pending_tokens c). rewrite Hp.
    unfold posted. cbn [strand set_strand]. rewrite jobs_tokens_app, Hjs. unfold jobs_tokens. cbn. rewrite Hj. cbn. lia.
  - unfold fresh in *. change (pending_tokens (posted c [j])) with (pending_tokens c). rewrite Hp in *.
    apply fresh_jobs_app; [done|]. unfold no_blocks. cbn. by destruct j.
  - intros size k. cbn. intros [?|E%list_elem_of_singleton]%elem_of_app; [by apply Ok4|]. by subst j.
  - intros v. cbn. intros [?|E%list_elem_of_singleton]%elem_of_app; [by apply Ok5|]. by subst j.
Qed.

(** A started operation takes the place of the lambda that started it. *)
Lemma start_ok total c c' :
  client_ok total c → resting c → no_blocks (strand c) → strand c' = strand c → pending_tokens c' = 1%nat →
  (∀ size k, (size, k) ∈ pending_reads c' → read_ok total c' size k) → 
  IsRemoteChoked c' = IsRemoteChoked c → Size (bitfield_ (slave_peer_ c')) = Size (bitfield_ (slave_peer_ c)) →
  client_ok total c'.
Proof.
  intros Hok Hr Hnb Hst Hp Hre Hch Hsz. pose proof (resting_parts _ Hr) as [Hjs _]. split.
  - unfold tokens. rewrite Hst, Hjs, Hp. lia.
  - unfold fresh. by rewrite Hp, Hst.
  - done.
  - intros size k. rewrite Hst. intros Hin. by apply (resting_no_read _ _ _ Hr) in Hin.
  - intros v. rewrite Hst. apply (ok_verify _ _ Hok).
  - rewrite Hch. unfold sized. rewrite Hsz. apply (ok_choked _ _ Hok).
Qed.

(** A completed operation. *)
Lemma complete_ok total c c' :
  client_ok total c → strand c' = strand c → (0 < pending_tokens c)%nat → pending_tokens c' = O →
  IsRemoteChoked c' = IsRemoteChoked c → Size (bitfield_ (slave_peer_ c')) = Size (bitfield_ (slave_peer_ c)) →
  client_ok total c' ∧ resting c' ∧ no_blocks (strand c').
Proof.
  intros [Ok1 Ok2 Ok3 Ok4 Ok5 Ok6] Hst Hp Hp' Hch Hsz.
  assert (jobs_tokens (strand c) = O) as Hjs by (unfold tokens in Ok1; lia).
  assert (no_blocks (strand c)) as Hnb by (unfold fresh in Ok2; destruct (pending_tokens c); [lia|done]).
  assert (resting c') as Hr by (unfold resting, tokens; rewrite Hst, Hjs, Hp'; done).
  split; [|rewrite Hst; by split]. split.
  - rewrite Hr. lia.
  - unfold fresh. rewrite Hp', Hst. by apply no_blocks_fresh.
  - intros size k Hin. by apply (resting_no_pending _ _ Hr) in Hin.
  - intros size k Hin. by apply (resting_no_read _ _ _ Hr) in Hin.
  - intros v. rewrite Hst. apply Ok5.
  - rewrite Hch. unfold sized. by rewrite Hsz.
Qed.

(** Another message in the receive buffer. *)
Lemma msg_ok total c m :
  client_ok total c → resting c → rm_arr m = rm_arr (msg_to_read_ c) ∨ no_blocks (strand c) →
  client_ok total (set_msg c m).
Proof.
  intros [Ok1 Ok2 Ok3 Ok4 Ok5 Ok6] Hr Hm. split; try done.
  - unfold fresh in *. change (pending_tokens (set_msg c m)) with (pending_tokens c).
    destruct (resting_parts _ Hr) as [_ Hp]. rewrite Hp in *. cbn [strand msg_to_read_ set_msg].
    destruct Hm as [->|Hm]; [done|by apply no_blocks_fresh].
  - intros size k Hin. by apply (resting_no_pending c _ Hr) in Hin.
  - intros size k Hin. by apply (resting_no_read c _ _ Hr) in Hin.
Qed.

(** The bitfield allocated when the handshake is done. *)
Lemma resize_quiet total c (b : B) : Size b = total → quiet total c (set_slave c (set_bitfield (slave_peer_ c) b)).
Proof.
  intros Hb. split; try done. intros [Ok1 Ok2 Ok3 Ok4 Ok5 Ok6].
  assert (∀ size k, read_ok total c size k → read_ok total (set_slave c (set_bitfield (slave_peer_ c) b)) size k) as Hre
    by (intros size [| |]; cbn; unfold sized; cbn; naive_solver).
  split; try done; [by intros; apply Hre, Ok3|by intros; apply Hre, Ok4|]. by right.
Qed.
End Tokens.

(** ** The read loop *)

Section Loop.
Context {B : Type} `{DynamicBitsetLaws B} `{Host} `{Sha1}.
Implicit Types (w : World B) (c : PeerClient B).

(** From [w], [m] returns (or runs out of random numbers) in a state of the
    invariant. *)
Definition keeps (m : ST (World B) unit) w : Prop := wp true m (fun _ w' => wf w') w.

Lemma keeps_runs m w : wf w → runs m w → keeps m w.
Proof. intros Hw Hm. eapply wp_mono; [exact Hm|]. intros a w' [Hc _]. by eapply calm_wf. Qed.

Lemma keeps_bind {A} (m : ST (World B) A) f R w :
  wf w → safe m R w → (∀ a w', wf w' → calm w w' → R a w' → keeps (f a) w') → keeps (m ≫= f) w.
Proof.
  intros Hw Hm Hf. apply wp_bind. eapply wp_mono; [exact Hm|]. intros a w' [Hc HR].
  apply Hf; [by eapply calm_wf|done|done].
Qed.

Lemma keeps_get i c f w : clients w !! i = Some c → keeps (f c) w → keeps (get_client i ≫= f) w.
Proof. intros Hi Hf. unfold keeps. apply wp_bind. unfold wp at 1, get_client. rewrite Hi. exact Hf. Qed.

Lemma keeps_read {A} (m : ST (World B) A) f w a : m w = Ok (a, w) → keeps (f a) w → keeps (m ≫= f) w.
Proof. intros E Hf. unfold keeps. apply wp_bind. unfold wp at 1. by rewrite E. Qed.

(** Client [i] is at rest, engaged and [P] holds of it. *)
Definition rests P i w : Prop := holding (fun c => resting c ∧ P c) i w.

(** A change of client [i] that keeps its invariant, then [m]. *)
Lemma keeps_set i f m w c :
  wf w → clients w !! i = Some c → subscribed w i c → ip (slave_peer_ (f c)) = ip (slave_peer_ c) →
  (is_disconnected c = true → is_disconnected (f c) = true) → client_ok (total_of w) (f c) →
  (wf (put i (f c) w) → clients (put i (f c) w) !! i = Some (f c) → subscribed (put i (f c) w) i (f c) →
   keeps m (put i (f c) w)) →
  keeps (_ ← modify_client i f; m) w.
Proof.
  intros Hw Hi Hs Hip Hd Hok Hm. destruct (wf_put w i c (f c) Hw Hi Hs Hip Hd Hok) as [Hw' Hs'].
  unfold keeps, wp. erewrite st_bind_Ok by (unfold modify_client; rewrite Hi; reflexivity).
  apply Hm; [done| |done]. unfold put. cbn. by rewrite lookup_insert_eq.
Qed.

Lemma keeps_set_last i f w c :
  wf w → clients w !! i = Some c → subscribed w i c → ip (slave_peer_ (f c)) = ip (slave_peer_ c) →
  (is_disconnected c = true → is_disconnected (f c) = true) → client_ok (total_of w) (f c) →
  keeps (modify_client i f) w.
Proof.
  intros Hw Hi Hs Hip Hd Hok. destruct (wf_put w i c (f c) Hw Hi Hs Hip Hd Hok) as [Hw' _].
  unfold keeps, wp, modify_client. by rewrite Hi.
Qed.

Lemma keeps_ret w : wf w → keeps (mret tt) w.
Proof. intros Hw. by apply wp_ret. Qed.

(** A lambda of the read loop is posted. *)
Lemma keeps_Post_then i j m w :
  wf w → holding (fun c => resting c ∧ token_ok (total_of w) c j) i w → is_token j = true →
  (∀ w', wf w' → engaged w' i → keeps m w') → keeps (_ ← Post i j; m) w.
Proof.
  intros Hw (c & Hi & Hs & Hr & Ht) Hj Hm. destruct (wf_clients _ Hw i c Hi) as [Hok _].
  apply (keeps_set i (fun c => set_strand c (strand c ++ [j])) m w c); try done; [by apply post_token_ok|].
  intros Hw' Hi' Hs'. apply Hm; [done|by eexists].
Qed.

Lemma keeps_Post i j w :
  wf w → holding (fun c => resting c ∧ token_ok (total_of w) c j) i w → is_token j = true → keeps (Post i j) w.
Proof.
  intros Hw Hh Hj. pose proof (keeps_Post_then i j (mret tt) w Hw Hh Hj (fun w' Hw' _ => keeps_ret w' Hw')) as Hk.
  unfold keeps, wp, mbind, ST_bind in Hk. unfold keeps, wp. by destruct (Post i j w) as [[[] w']| | | |].
Qed.

(** *** Resting is kept by calm handlers *)

Definition steady (P : PeerClient B → Prop) w : Prop := ∀ c c', quiet (total_of w) c c' → P c → P c'.

Lemma resting_steady w : steady resting w.
Proof. intros c c' Hq Hr. unfold resting. by rewrite (q_tokens _ _ _ Hq). Qed.
Lemma sized_steady w : steady (fun c => resting c ∧ sized (total_of w) c) w.
Proof. intros c c' Hq [Hr Hs]. split; [by eapply resting_steady|by eapply q_sized]. Qed.

(** A client at rest that knows the torrent's size. *)
Definition ready_to_read i w : Prop := holding (fun c => resting c ∧ sized (total_of w) c) i w.

Lemma ready_calm i w w' : calm w w' → ready_to_read i w → ready_to_read i w'.
Proof.
  intros Hc Hh. unfold ready_to_read. rewrite (calm_total _ _ Hc).
  eapply holding_calm; [apply sized_steady|done|done].
Qed.

Lemma keeps_do_read_header i w : wf w → ready_to_read i w → keeps (do_read_header i) w.
Proof.
  intros Hw Hh. pose proof Hh as (c & Hi & Hs & Hr & Hz). apply (keeps_get i c); [done|].
  destruct (is_disconnected c); [by apply keeps_ret|]. apply keeps_Post; [done| |done].
  exists c. split_and!; try done.
Qed.

Lemma keeps_do_read_body i w :
  wf w → holding (fun c => resting c ∧ sized (total_of w) c ∧ 0 < rm_body_size (msg_to_read_ c) < 2 ^ 32) i w →
  keeps (do_read_body i) w.
Proof.
  intros Hw (c & Hi & Hs & Hr & Hz & Hb). apply (keeps_get i c); [done|].
  destruct (is_disconnected c); [by apply keeps_ret|]. apply keeps_Post; [done| |done].
  exists c. split_and!; done.
Qed.

(** *** The handshake *)

Lemma slice_total (v : bytes) pos n : (pos + n ≤ length v)%nat → slice v pos n = Ok (take n (drop pos v)).
Proof. intros Hl. unfold slice. by rewrite decide_True. Qed.

Lemma check_total w v : wf w → length v = handshake_length →
  ∃ b, check_handshake (master_peer_ w) v = Ok b.
Proof.
  intros Hw Hl. destruct (wf_handshake _ Hw) as [ours Ho]. unfold handshake_length in Hl. unfold check_handshake.
  destruct (lookup_lt_is_Some_2 v 0 ltac:(lia)) as [b0 ->]. cbn [opt_ub mbind outcome_bind].
  destruct (decide (b0 = x13)); [|by eexists].
  rewrite (slice_total v 1 19) by lia. cbn [mbind outcome_bind].
  destruct (decide (_ = str _)); [|by eexists].
  rewrite (slice_total v 28 20) by lia. cbn [mbind outcome_bind]. rewrite Ho. by eexists.
Qed.

Lemma safe_send_bitfield i w : wf w → engaged w i → runs (send_bitfield i) w.
Proof.
  intros Hw He. unfold send_bitfield. eapply safe_read; [reflexivity|]. cbv beta zeta.
  set (bits := bitfield_ (as_peer (master_peer_ w))) in *.
  pose proof (length_GetCast bits) as Hl. pose proof (wf_total _ Hw) as Ht. pose proof (wf_size _ Hw) as Hsz.
  fold bits in Hsz. eapply safe_read.
  { unfold lift, slice. rewrite to_float_small by lia.
    replace (Z.to_nat ((Z.of_nat (Size bits) + 7) / 8)) with (length (GetCast bits)).
    - rewrite decide_True by lia. reflexivity.
    - rewrite Hl. change 7 with (Z.of_nat 7). change 8 with (Z.of_nat 8).
      rewrite <- Nat2Z.inj_add, <- Nat2Z.inj_div. by rewrite Nat2Z.id. }
  eapply runs_safe, (safe_send_msg anyone); [done|by apply engaged_holding|]. apply CopyFrom_length, put_type_length.
Qed.

Lemma keeps_access i w : wf w → rests (fun _ => True) i w → keeps (access i) w.
Proof.
  intros Hw Hh. unfold access. eapply keeps_read; [reflexivity|]. cbv beta.
  eapply keeps_bind; [done| |].
  { apply (safe_modify (fun c => resting c ∧ True) (fun c => resting c ∧ sized (total_of w) c)); [exact Hh|]. intros c [Hr _].
    assert (Size (Bitfield_sized (B:=B) (Size (bitfield_ (as_peer (master_peer_ w))))) = total_of w) as Hz
      by (unfold Bitfield_sized, Size; rewrite db_size_make; apply (wf_size _ Hw)).
    pose proof (resize_quiet (total_of w) c _ Hz) as Hq. split; [exact Hq|]. split; [|exact Hz].
    by apply (resting_steady w _ _ Hq). }
  intros u w1 Hw1 Hc1 Hh1. assert (ready_to_read i w1) as Hr1
    by (unfold ready_to_read; by rewrite (calm_total _ _ Hc1)).
  eapply keeps_bind; [done|apply safe_send_bitfield; [done|by eapply holding_engaged]|].
  intros u2 w2 Hw2 Hc2 _. pose proof (ready_calm _ _ _ Hc2 Hr1) as Hr2.
  eapply keeps_bind; [done|apply runs_Post; [by eapply holding_engaged|done]|].
  intros u3 w3 Hw3 Hc3 _. pose proof (ready_calm _ _ _ Hc3 Hr2) as Hr3.
  eapply keeps_bind; [done|apply runs_modify_engaged; [by eapply holding_engaged|intros c; apply keep_alive_quiet]|].
  intros u4 w4 Hw4 Hc4 _. apply keeps_do_read_header; [done|]. exact (ready_calm _ _ _ Hc4 Hr3).
Qed.

Lemma keeps_verify_handshake i v c w :
  wf w → clients w !! i = Some c → subscribed w i c → resting c → no_blocks (strand c) →
  length v = handshake_length → keeps (verify_handshake i v) w.
Proof.
  intros Hw Hi Hs Hr Hnb Hl. destruct (wf_clients _ Hw i c Hi) as [Hok _]. unfold verify_handshake.
  apply (keeps_set i (fun c => set_msg c (SetBuffer (msg_to_read_ c) v)) _ w c); try done;
    [by apply msg_ok; [..|right]|].
  set (w1 := put i _ w). intros Hw1 Hi1 Hs1. eapply keeps_read; [reflexivity|]. cbv beta.
  destruct (check_total w1 v Hw1 Hl) as [b Eb]. eapply keeps_read; [unfold lift; rewrite Eb; reflexivity|].
  destruct b; [|apply keeps_runs; [done|]; apply safe_Disconnect; by eexists].
  apply keeps_Post; [done| |done]. by eexists.
Qed.

Lemma keeps_on_handshake i data w :
  wf w → rests (fun _ => True) i w → length data = handshake_length → keeps (on_handshake i data) w.
Proof.
  intros Hw Hh Hl. unfold on_handshake. eapply keeps_read; [reflexivity|]. cbv beta.
  destruct (check_total w data Hw Hl) as [b Eb]. eapply keeps_read; [unfold lift; rewrite Eb; reflexivity|]. cbv beta.
  destruct (bool_decide _); [|by apply keeps_ret].
  eapply keeps_read; [unfold lift; rewrite Eb; reflexivity|]. destruct b; [|by apply keeps_ret].
  eapply keeps_read; [unfold lift; rewrite (slice_total data 28 20) by (rewrite Hl; unfold handshake_length; lia); reflexivity|].
  destruct (wf_handshake _ Hw) as [ours Ho]. eapply keeps_read; [unfold lift; rewrite Ho; reflexivity|]. cbv beta.
  destruct (bool_decide _); [by apply keeps_access|by apply keeps_ret].
Qed.

(** *** Reading messages *)

Lemma keeps_on_header i data w :
  wf w → ready_to_read i w → length data = header_length → keeps (on_header i data) w.
Proof.
  intros Hw Hh Hl. unfold on_header.
  eapply keeps_bind; [done|apply runs_Post; [by eapply holding_engaged|done]|].
  intros u1 w1 Hw1 Hc1 _. pose proof (ready_calm _ _ _ Hc1 Hh) as (c & Hi & Hs & Hr & Hz).
  destruct (get_value_total 4 (rm_make data BigEndian)) as (v & Ev & Hv); [cbn; rewrite Hl; unfold header_length; lia|].
  eapply keeps_read; [unfold lift; rewrite Ev; reflexivity|]. cbv iota.
  destruct (wf_clients _ Hw1 i c Hi) as [Hok _].
  apply (keeps_set i (fun c => set_msg c (DecodeHeader (msg_to_read_ c) (u32 v))) _ w1 c); try done;
    [by apply msg_ok; [..|left]|].
  intros Hw2 Hi2 Hs2. eapply keeps_get; [exact Hi2|].
  destruct (Z.eqb_spec (rm_body_size (msg_to_read_ (set_msg c (DecodeHeader (msg_to_read_ c) (u32 v))))) 0) as [E|E];
    [by apply keeps_ret|].
  apply keeps_do_read_body; [done|]. eexists. split_and!; [exact Hi2|done|done|done|..].
  - cbn in *. pose proof (u32_range v). lia.
  - cbn. apply u32_range.
Qed.

Lemma keeps_on_body i data c w :
  wf w → clients w !! i = Some c → subscribed w i c → resting c → no_blocks (strand c) → sized (total_of w) c →
  Z.of_nat (length data) = rm_body_size (msg_to_read_ c) → 0 < Z.of_nat (length data) < 2 ^ 32 →
  keeps (on_body i data) w.
Proof.
  intros Hw Hi Hs Hr Hnb Hz Hl Hpos. destruct (wf_clients _ Hw i c Hi) as [Hok _]. unfold on_body.
  apply (keeps_get i c); [done|]. rewrite <- Hl, Nat2Z.id.
  eapply keeps_read; [unfold lift; rewrite slice_total by done; reflexivity|]. cbv beta.
  rewrite drop_0, take_ge by done.
  apply (keeps_set i (fun c => set_msg c (SetBuffer (msg_to_read_ c) data)) _ w c); try done;
    [by apply msg_ok; [..|right]|].
  set (w1 := put i _ w). intros Hw1 Hi1 Hs1.
  assert (ready_to_read i w1) as Hr1 by (eexists; split_and!; done).
  eapply keeps_bind; [done| |].
  - apply (safe_handle_response (total_of w1) data i w1); [done|done| |lia|lia].
    eexists. split_and!; [exact Hi1|done|]. split; try done.
  - intros u w2 Hw2 Hc2 _. apply keeps_do_read_header; [done|]. exact (ready_calm _ _ _ Hc2 Hr1).
Qed.

(** *** Connecting again *)

Lemma keeps_Connect_await i w :
  wf w → rests (fun _ => True) i w → keeps (_ ← Connect i; Await i ACancel) w.
Proof.
  intros Hw Hh. apply keeps_Post_then; [done|exact Hh|done|]. intros w' Hw' He.
  apply keeps_runs; [done|]. by apply runs_Post.
Qed.

Lemma keeps_try_again i w : wf w → rests (fun _ => True) i w → keeps (try_again_connect i) w.
Proof.
  intros Hw Hh. pose proof Hh as (c & Hi & Hs & Hr & _). apply (keeps_get i c); [done|].
  destruct (is_disconnected c); [by apply keeps_ret|]. cbv zeta.
  eapply keeps_bind; [done| |].
  { apply (safe_modify (fun c => resting c ∧ True) (fun c => resting c ∧ True)); [exact Hh|].
    intros c' Hc'. split; [apply attempts_quiet|exact Hc']. }
  intros u w1 Hw1 _ Hh1. destruct (negb _); [by apply keeps_Connect_await|].
  apply keeps_runs; [done|]. apply safe_Disconnect. exact (holding_engaged _ _ _ Hh1).
Qed.
End Loop.

(** ** The lambdas of a strand *)

Section Jobs.
Context {B : Type} `{DynamicBitsetLaws B} `{Host} `{Sha1}.
Implicit Types (w : World B) (c : PeerClient B).

Lemma runs_UnbindRequest id w : runs (UnbindRequest id) w.
Proof. by apply runs_master. Qed.

Lemma runs_choked i w : engaged w i → runs (run_choked i) w.
Proof.
  intros He. pose proof He as (c & Hi & _). apply (safe_get_client i c); [done|].
  destruct (active_piece_ c) as [[p b]|]; [|by apply safe_ret]. eapply safe_seq; [apply runs_UnbindRequest|].
  intros u w1 Hc1. apply runs_modify_engaged; [by eapply calm_engaged|]. intros c'. apply activity_quiet.
Qed.

Lemma runs_piece_timeout i w : wf w → engaged w i → runs (run_job i JPieceTimeout) w.
Proof.
  intros Hw He. pose proof He as (c & Hi & _). cbn [run_job]. apply (safe_get_client i c); [done|].
  destruct (active_piece_ c) as [[p b]|]; [|by apply safe_ret].
  apply (runs_seq i); [done|done|apply runs_UnbindRequest|]. intros w1 Hw1 He1 _.
  apply (runs_seq i); [done|done|by apply safe_post_all|]. intros w2 Hw2 He2 _.
  apply safe_when. intros _. by apply safe_cancel_piece.
Qed.

(** The lambdas that neither move the read loop nor store a block. *)
Lemma runs_plain_job i j w : wf w → engaged w i → plain_job j = true → runs (run_job i j) w.
Proof.
  intros Hw He Hj. destruct j as [|k| |v|msg k|size k| | | |id|id| |idx b data]; try discriminate Hj; cbn [run_job].
  - apply runs_modify_engaged; [done|]. intros c. apply timeout_quiet.
  - apply runs_modify_engaged; [done|]. intros c. apply timeout_quiet.
  - assert (k = WRemind) as -> by (by destruct k). apply runs_modify_engaged; [done|]. intros c.
    apply (plain_change_quiet _ _ _ []); split; try done; [cbn; by rewrite app_nil_r|]. cbn [pending_writes set_writes].
    by rewrite writes_tokens_snoc, Nat.add_0_r.
  - by apply runs_piece_timeout.
  - apply (runs_seq i); [done|done| |].
    + apply runs_modify_engaged; [done|]. intros c. apply activity_quiet.
    + intros w1 Hw1 He1 _. by apply safe_TryToRequestPiece.
  - by apply safe_TryToRequestPiece.
  - by apply safe_run_cancel_piece.
  - pose proof He as (c & Hi & _). apply (safe_get_client i c); [done|].
    destruct (active_piece_ c) as [[p b]|]; [|by apply safe_ret]. destruct (_ =? _); [|by apply safe_ret].
    apply (runs_seq i); [done|done|by apply safe_cancel_piece|]. intros w1 Hw1 He1 _. by apply safe_TryToRequestPiece.
  - by apply runs_choked.
Qed.

(** A block that belongs to the active piece. *)
Definition expected_block c (begin : Z) : Prop :=
  match active_piece_ c with
  | Some (p, _) => is_Some (blocks p !! Z.to_nat (u32 (begin / most_request_size)))
  | None => False
  end.

Lemma safe_DownloadPiece req w : safe (Torrent_DownloadPiece req) (fun _ _ => True) w.
Proof.
  unfold Torrent_DownloadPiece. eapply safe_read; [reflexivity|]. unfold DownloadPiece.
  destruct (Enqueue_cases (a_worker_ (file_manager_ w)) (DownloadJob req) (random_ w))
    as [E|(id & a & rs & E & Hq)]; [by unfold safe, wp, mbind, ST_bind, lift; rewrite E|].
  eapply safe_read; [unfold lift; rewrite E; reflexivity|]. cbv iota.
  apply (safe_Ok _ _ _ tt (set_random (set_manager w (set_worker (file_manager_ w) a)) rs)); [done| |done].
  by eapply (calm_enqueued w _ rs a).
Qed.

Lemma runs_block i idx b data c w :
  wf w → clients w !! i = Some c → subscribed w i c → expected_block c b → runs (run_block i idx b data) w.
Proof.
  intros Hw Hi Hs Hb. assert (engaged w i) as He by (by exists c). unfold run_block, expected_block in *.
  destruct (active_piece_ c) as [[p nx]|] eqn:Ea; [|done].
  eapply safe_read; [unfold active, get_client, mbind, ST_bind, lift; rewrite Hi; cbn; rewrite Ea; reflexivity|].
  cbv iota zeta. destruct Hb as [bl Ebl]. eapply safe_read; [unfold lift; rewrite Ebl; reflexivity|]. cbv beta.
  apply (runs_seq i); [done|done| |].
  { apply runs_modify_engaged; [done|]. intros c'. apply activity_quiet. }
  intros w1 Hw1 He1 _. destruct (_ =? _).
  - apply (runs_seq i); [done|done|apply safe_DownloadPiece|]. intros w2 Hw2 He2 _.
    apply (runs_seq i); [done|done| |by intros; apply runs_Post].
    apply runs_modify_engaged; [done|]. intros c'. apply activity_quiet.
  - apply safe_when. intros _. by apply safe_TryToRequestPiece.
Qed.

Lemma run_block_unexpected i idx b data c w :
  clients w !! i = Some c → ¬ expected_block c b →
  run_block i idx b data w = match active_piece_ c with Some _ => UB | None => Throw bad_optional_access end.
Proof.
  intros Hi Hb. unfold run_block, expected_block, active, get_client, mbind, ST_bind, lift in *. rewrite Hi. cbn.
  destruct (active_piece_ c) as [[p nx]|] eqn:Ea; [|done]. cbn.
  destruct (blocks p !! _) eqn:E; [|done]. by destruct Hb.
Qed.

Lemma strand_subscribed w i c j js :
  wf w → clients w !! i = Some c → strand c = j :: js → subscribed w i c.
Proof. intros Hw Hi Es. destruct (wf_clients _ Hw i c Hi) as [_ [Hs|Hin]]; [done|]. destruct Hin as [E _]. congruence. Qed.

(** One lambda taken from the strand and run. *)
Lemma keeps_run i j js c w :
  wf w → clients w !! i = Some c → strand c = j :: js →
  match j with JBlock _ b _ => expected_block c b | _ => True end →
  keeps (_ ← modify_client i (fun c => set_strand c js); run_job i j) w.
Proof.
  intros Hw Hi Es Hj. pose proof (strand_subscribed w i c j js Hw Hi Es) as Hs.
  destruct (wf_clients _ Hw i c Hi) as [Hok _].
  destruct (is_token j) eqn:Et.
  - destruct (pop_token_ok _ _ _ _ Hok Es Et) as (Hok1 & Hr1 & Hnb).
    apply (keeps_set i (fun c => set_strand c js) _ w c); try done.
    set (w1 := put i _ w). set (c1 := set_strand c js) in *. intros Hw1 Hi1 Hs1.
    destruct (resting_parts _ Hr1) as [_ Hp1]. unfold pending_tokens in Hp1.
    destruct j as [|k| |v|msg k|size k| | | |id|id| |idx b data]; try discriminate Et; cbn [run_job].
    + apply (keeps_set_last i _ w1 c1); try done. apply (start_ok _ c1); try done; [|apply Hok1].
      unfold pending_tokens. cbn in *. lia.
    + apply (keeps_verify_handshake i v c1); try done. apply (ok_verify _ _ Hok). rewrite Es. by left.
    + apply (keeps_set_last i _ w1 c1); try done. apply (start_ok _ c1); try done; [|apply Hok1].
      unfold pending_tokens. cbn [connecting pending_reads pending_writes set_writes].
      rewrite writes_tokens_snoc. cbn in Et. rewrite decide_False by (by intros ->). lia.
    + apply (keeps_set_last i _ w1 c1); try done. apply (start_ok _ c1); try done.
      * unfold pending_tokens. cbn [connecting pending_reads pending_writes set_reads].
        rewrite length_app. cbn in *. lia.
      * cbn [pending_reads set_reads]. intros size' k'. intros [Hin|Hin]%elem_of_app.
        -- by apply (resting_no_pending c1) in Hin.
        -- apply list_elem_of_singleton in Hin as [= -> ->]. apply (ok_jobs _ _ Hok). rewrite Es. by left.
  - pose proof (pop_plain_ok _ _ _ _ Hok Es Et) as Hok1.
    apply (keeps_set i (fun c => set_strand c js) _ w c); try done.
    intros Hw1 Hi1 Hs1. apply keeps_runs; [done|]. destruct (plain_job j) eqn:Ep.
    + apply runs_plain_job; [done|by eexists|done].
    + unfold plain_job in Ep. rewrite Et in Ep. destruct j; try discriminate Ep.
      by eapply runs_block.
Qed.
End Jobs.

(** ** Completed operations and timers *)

Section Events.
Context {B : Type} `{DynamicBitsetLaws B} `{Host} `{Sha1}.
Implicit Types (w : World B) (c : PeerClient B).

Lemma not_inert_subscribed w i c : wf w → clients w !! i = Some c → ¬ inert c → subscribed w i c.
Proof. intros Hw Hi Hn. by destruct (wf_clients _ Hw i c Hi) as [_ [Hs|Hin]]. Qed.

(** An operation of the read loop is completed: [f] takes it off the client. *)
Lemma keeps_complete i f m c w :
  wf w → clients w !! i = Some c → ¬ inert c → ip (slave_peer_ (f c)) = ip (slave_peer_ c) →
  (is_disconnected c = true → is_disconnected (f c) = true) → strand (f c) = strand c →
  (0 < pending_tokens c)%nat → pending_tokens (f c) = O → IsRemoteChoked (f c) = IsRemoteChoked c →
  Size (bitfield_ (slave_peer_ (f c))) = Size (bitfield_ (slave_peer_ c)) →
  (∀ w1, wf w1 → total_of w1 = total_of w → clients w1 !! i = Some (f c) → subscribed w1 i (f c) → resting (f c) →
    no_blocks (strand (f c)) → keeps m w1) →
  keeps (_ ← modify_client i f; m) w.
Proof.
  intros Hw Hi Hn Hip Hd Hst Hp Hp' Hch Hsz Hm. pose proof (not_inert_subscribed w i c Hw Hi Hn) as Hs.
  destruct (wf_clients _ Hw i c Hi) as [Hok _].
  destruct (complete_ok _ c (f c) Hok Hst Hp Hp' Hch Hsz) as (Hok1 & Hr1 & Hnb).
  apply (keeps_set i f m w c); try done. intros Hw1 Hi1 Hs1. by apply Hm.
Qed.

Lemma pending_one w i c : wf w → clients w !! i = Some c → (pending_tokens c ≤ 1)%nat.
Proof. intros Hw Hi. destruct (wf_clients _ Hw i c Hi) as [Hok _]. pose proof (ok_tokens _ _ Hok). unfold tokens in *. lia. Qed.

Lemma keeps_stop_await i m c w :
  wf w → clients w !! i = Some c → subscribed w i c →
  (∀ w1, wf w1 → total_of w1 = total_of w → clients w1 !! i = Some (set_timeout c None) →
    subscribed w1 i (set_timeout c None) → keeps m w1) →
  keeps (_ ← stop_await i; m) w.
Proof.
  intros Hw Hi Hs Hm. destruct (wf_clients _ Hw i c Hi) as [Hok _].
  apply (keeps_set i (fun c => set_timeout c None) m w c); try done.
  - by apply (timeout_quiet (total_of w) c None).
  - intros Hw1 Hi1 Hs1. by apply Hm.
Qed.

Lemma keeps_connected i c n w :
  wf w → clients w !! i = Some c → connecting c = S n →
  keeps (_ ← modify_client i (fun c => set_connecting c n); _ ← stop_await i; send_handshake i) w.
Proof.
  intros Hw Hi Ec. pose proof (pending_one w i c Hw Hi) as Hp. unfold pending_tokens in Hp. rewrite Ec in Hp.
  apply (keeps_complete i _ _ c); try done.
  - intros (_ & E & _). congruence.
  - unfold pending_tokens. rewrite Ec. lia.
  - unfold pending_tokens. cbn in *. lia.
  - intros w1 Hw1 Ht1 Hi1 Hs1 Hr1 Hnb1. eapply keeps_stop_await; [done|exact Hi1|done|].
    intros w2 Hw2 Ht2 Hi2 Hs2. eapply keeps_read; [reflexivity|]. apply keeps_Post; [done| |done].
    eexists. split_and!; [exact Hi2|done|exact Hr1|done].
Qed.

Lemma keeps_connect_failed i c n resolved w :
  wf w → clients w !! i = Some c → connecting c = S n →
  keeps (_ ← modify_client i (fun c => set_connecting c n); _ ← when resolved (stop_await i); try_again_connect i) w.
Proof.
  intros Hw Hi Ec. pose proof (pending_one w i c Hw Hi) as Hp. unfold pending_tokens in Hp. rewrite Ec in Hp.
  apply (keeps_complete i _ _ c); try done.
  - intros (_ & E & _). congruence.
  - unfold pending_tokens. rewrite Ec. lia.
  - unfold pending_tokens. cbn in *. lia.
  - intros w1 Hw1 Ht1 Hi1 Hs1 Hr1 Hnb1. destruct resolved; cbn [when].
    + eapply keeps_stop_await; [done|exact Hi1|done|]. intros w2 Hw2 Ht2 Hi2 Hs2.
      apply keeps_try_again; [done|]. eexists. split_and!; [exact Hi2|done|exact Hr1|done].
    + eapply keeps_bind; [done|by apply (safe_ret tt (fun _ w' => w' = w1))|]. intros u w2 Hw2 _ ->.
      apply keeps_try_again; [done|]. eexists. split_and!; [exact Hi1|done|exact Hr1|done].
Qed.

(** A written buffer: [m] is what its callback does. *)
Lemma keeps_written i c k ks m w :
  wf w → clients w !! i = Some c → pending_writes c = k :: ks →
  (∀ w1, wf w1 → engaged w1 i → (k ≠ WRemind → rests (fun _ => True) i w1) → keeps m w1) →
  keeps (_ ← modify_client i (fun c => set_writes c ks (wire c)); m) w.
Proof.
  intros Hw Hi Ek Hm. pose proof (pending_one w i c Hw Hi) as Hp. unfold pending_tokens in Hp.
  rewrite Ek, writes_tokens_cons in Hp.
  assert (¬ inert c) as Hn by (intros (_ & _ & _ & E & _); congruence).
  destruct (decide (k = WRemind)) as [->|Hk].
  - pose proof (not_inert_subscribed w i c Hw Hi Hn) as Hs. destruct (wf_clients _ Hw i c Hi) as [Hok _].
    apply (keeps_set i _ _ w c); try done.
    + apply (plain_change_quiet (total_of w) c (set_writes c ks (wire c)) []); [|done]. split; try done; cbn [strand set_writes pending_writes].
      * by rewrite app_nil_r.
      * by rewrite Ek, writes_tokens_cons.
    + intros Hw1 Hi1 Hs1. apply Hm; [done|by eexists|done].
  - apply (keeps_complete i _ _ c); try done.
    + unfold pending_tokens. rewrite Ek, writes_tokens_cons, decide_False by done. lia.
    + unfold pending_tokens. cbn [connecting pending_reads pending_writes set_writes]. lia.
    + intros w1 Hw1 Ht1 Hi1 Hs1 Hr1 Hnb1. apply Hm; [done|by eexists|]. intros _. eexists. split_and!; [exact Hi1|done|done|done].
Qed.

(** A completed read; [m] is what its callback does. *)
Lemma keeps_read_done i c size k rs m w :
  wf w → clients w !! i = Some c → pending_reads c = (size, k) :: rs →
  (∀ c1 w1, wf w1 → clients w1 !! i = Some c1 → subscribed w1 i c1 → resting c1 → no_blocks (strand c1) →
    read_ok (total_of w1) c1 size k → keeps m w1) →
  keeps (_ ← modify_client i (fun c => set_reads c rs); _ ← stop_await i; m) w.
Proof.
  intros Hw Hi Er Hm. pose proof (pending_one w i c Hw Hi) as Hp. unfold pending_tokens in Hp.
  rewrite Er in Hp. cbn in Hp. destruct (wf_clients _ Hw i c Hi) as [Hok _].
  assert (read_ok (total_of w) c size k) as Hro by (apply (ok_reads _ _ Hok); rewrite Er; by left).
  apply (keeps_complete i _ _ c); try done.
  - intros (_ & _ & E & _). congruence.
  - unfold pending_tokens. rewrite Er. cbn. lia.
  - unfold pending_tokens. cbn in *. lia.
  - intros w1 Hw1 Ht1 Hi1 Hs1 Hr1 Hnb1. eapply keeps_stop_await; [done|exact Hi1|done|].
    intros w2 Hw2 Ht2 Hi2 Hs2. eapply Hm; [done|exact Hi2|done|exact Hr1|exact Hnb1|]. rewrite Ht2, Ht1. exact Hro.
Qed.

(** *** A new client *)

Lemma calm_new w i (p : Peer B) :
  wf w → clients w !! i = None → wf (set_clients w (<[i := new_client p]> (clients w))).
Proof.
  intros [W0 W1 W2 W3 W4 W5 W6] Hi. split; try done.
  - intros j cj. cbn. intros [[<- <-]|[Hne Hj]]%lookup_insert_Some; [|by apply W3].
    split; [apply new_client_ok|]. by right.
  - intros a j Ha. destruct (W4 a j Ha) as (cj & Hj & Hip). cbn. rewrite lookup_insert_ne by congruence. by exists cj.
  - intros n Hn. specialize (W5 n Hn). destruct (n_func n) as [req|]; [|done].
    destruct W5 as (q & Hq & cq & Hcq & Hsq). exists q. split; [done|]. exists cq. cbn.
    rewrite lookup_insert_ne by congruence. done.
Qed.

Lemma wf_subscribed w i (p : Peer B) :
  wf w → clients w !! i = Some (new_client p) → subs w !! ip p = None →
  let w' := set_master w (set_subscribers (master_peer_ w) (<[ip p := i]> (subs w))) in
  wf w' ∧ subscribed w' i (new_client p).
Proof.
  intros [W0 W1 W2 W3 W4 W5 W6] Hi Hf w'.
  assert (∀ j c, subscribed w j c → subscribed w' j c) as Hmono.
  { intros j c [Hd|Hs]; [by left|right]. unfold subs. cbn. rewrite lookup_insert_ne; [done|]. intros E. rewrite E in Hf. congruence. }
  assert (subscribed w' i (new_client p)) as Hsi by (right; unfold subs; cbn; by rewrite lookup_insert_eq).
  split; [|done]. split; try done.
  - intros j cj Hj. cbn in Hj. destruct (W3 j cj Hj) as [Hok Hs]. split; [done|].
    destruct Hs as [Hs|Hin]; [left; by apply Hmono|by right].
  - intros a j. unfold subs. cbn. intros [[<- <-]|[Hne Hj]]%lookup_insert_Some; [by eexists|by apply W4].
  - intros n Hn. specialize (W5 n Hn). destruct (n_func n) as [req|]; [|done].
    destruct W5 as (q & Hq & cq & Hcq & Hsq). exists q. split; [done|]. exists cq. split; [done|by apply Hmono].
Qed.

Lemma keeps_new_client i (p : Peer B) handshake w :
  wf w → clients w !! i = None → (∀ v, handshake = Some v → length v = handshake_length) →
  keeps (_ ← new_object i p; Subscribe i handshake) w.
Proof.
  intros Hw Hi Hv. pose proof (calm_new w i p Hw Hi) as Hw1.
  set (w1 := set_clients w (<[i := new_client p]> (clients w))) in *.
  assert (clients w1 !! i = Some (new_client p)) as Hi1 by (cbn; by rewrite lookup_insert_eq).
  unfold keeps, wp. erewrite st_bind_Ok by (unfold new_object; rewrite Hi; reflexivity). fold w1.
  change (keeps (Subscribe i handshake) w1). unfold Subscribe. apply (keeps_get i (new_client p)); [done|].
  eapply keeps_read; [reflexivity|]. cbv beta. unfold subscribe_entry. cbn [slave_peer_ new_client].
  assert (∀ m, m = master_peer_ w1 → keeps (_ ← modify_master (fun _ => m); when false (Process i handshake)) w1) as Hno.
  { intros m ->. unfold keeps, wp. erewrite st_bind_Ok by reflexivity. cbn [when]. unfold mret, ST_ret. cbn iota.
    by destruct w1. }
  destruct (decide _); [by apply Hno|]. destruct (peers_subscribers_ (master_peer_ w1) !! ip p) eqn:Ef; [by apply Hno|].
  destruct (wf_subscribed w1 i p Hw1 Hi1 Ef) as [Hw2 Hs2].
  unfold keeps, wp. erewrite st_bind_Ok by reflexivity. cbn [when].
  fold (subs w1). set (w2 := set_master w1 (set_subscribers _ _)) in *.
  change (keeps (Process i handshake) w2).
  assert (rests (fun _ => True) i w2) as Hr by (by exists (new_client p)).
  destruct handshake as [v|]; cbn [Process]; [|by apply keeps_Connect_await].
  apply keeps_Post; [done| |done]. exists (new_client p). split_and!; [done|done|done|]. by apply Hv.
Qed.
End Events.

(** ** The file workers *)

Section Workers.
Context {B : Type} `{DynamicBitsetLaws B} `{Host} `{Sha1}.
Implicit Types (w : World B) (c : PeerClient B).

(** The files may be missing: if [m] returns, the invariant holds. *)
Definition may_keep (m : ST (World B) unit) w : Prop := ∀ u w', m w = Ok (u, w') → wf w'.

Lemma may_keeps m w : keeps m w → may_keep m w.
Proof. intros Hm u w' E. unfold keeps, wp in Hm. by rewrite E in Hm. Qed.

Lemma may_lift {A} (m : outcome A) f w : (∀ a, m = Ok a → may_keep (f a) w) → may_keep (lift m ≫= f) w.
Proof.
  intros Hf u w'. intros (a & w1 & E & E')%st_bind_Ok_inv. apply lift_Ok_inv in E as [E ->]. by eapply Hf.
Qed.

Lemma may_bind {A} (m : ST (World B) A) f R w :
  wf w → safe m R w → (∀ a w', wf w' → calm w w' → R a w' → may_keep (f a) w') → may_keep (m ≫= f) w.
Proof.
  intros Hw Hm Hf u w'. intros (a & w1 & E & E')%st_bind_Ok_inv. unfold safe, wp in Hm. rewrite E in Hm.
  destruct Hm as [Hc HR]. by eapply Hf; [eapply calm_wf| | |].
Qed.

Lemma may_read {A} (m : ST (World B) A) f w a : m w = Ok (a, w) → may_keep (f a) w → may_keep (m ≫= f) w.
Proof. intros E Hf u w'. unfold mbind, ST_bind. rewrite E. apply Hf. Qed.

Lemma may_seq m1 (m2 : ST (World B) unit) w :
  may_keep m1 w → (∀ w', wf w' → may_keep m2 w') → may_keep (_ ← m1; m2) w.
Proof. intros H1' H2' u w'. intros (v & w1 & E & E')%st_bind_Ok_inv. eapply H2'; [by eapply H1'|done]. Qed.

(** A step that leaves clients, subscribers and file jobs as they are. *)
Lemma safe_same m w w' : m w = Ok (tt, w') → calm w w' → runs m w.
Proof. intros E Hc. by eapply safe_Ok. Qed.

Lemma safe_OnBlockReadyToSend i idx off bl w : engaged w i → runs (OnBlockReadyToSend i idx off bl) w.
Proof.
  intros He. unfold OnBlockReadyToSend. apply (safe_read _ _ _ _ _ (total_read w)).
  destruct (_ <=? _); [by apply safe_Disconnect|].
  eapply runs_safe, (safe_send_block anyone); [done|by apply engaged_holding].
Qed.

Lemma may_run_upload req w : wf w → job_engaged w (UploadJob req) → may_keep (run_upload req) w.
Proof.
  intros Hw (p & Hp & He). unfold run_upload. eapply may_read; [reflexivity|]. cbv beta.
  set (m := snd (upload_entry (file_manager_ w) req)).
  assert (calm w (set_manager w m)) as Hc.
  { assert (files_ m = files_ (file_manager_ w) ∧ a_worker_ m = a_worker_ (file_manager_ w) ∧
      (keys_null (file_manager_ w) → keys_null m)) as (Hf & Ha & Hk).
    { subst m. unfold upload_entry. destruct (active_requests_ _ !! _); [done|]. split_and!; try done.
      intros Hk. by apply map_Forall_delete. }
    apply calm_same; try done. cbn. by rewrite Ha. }
  destruct (upload_entry (file_manager_ w) req) as [ret m'] eqn:Eu. cbn [snd] in m. subst m.
  eapply may_bind; [done|by apply (safe_same _ w (set_manager w m'))|]. intros u w1 Hw1 Hc1 _.
  destruct ret; [by apply may_keeps, keeps_ret|].
  apply may_lift. intros bl _. rewrite Hp. apply may_lift. intros p' [= <-].
  pose proof (calm_engaged _ _ _ Hc1 He) as He1.
  eapply may_bind; [done|by apply safe_OnBlockReadyToSend|]. intros u2 w2 Hw2 _ _.
  apply may_keeps, keeps_runs; [done|]. by apply runs_master.
Qed.

Lemma runs_Strategy_OnPieceDownloaded id w : wf w → runs (Strategy_OnPieceDownloaded id) w.
Proof.
  intros Hw. unfold Strategy_OnPieceDownloaded. eapply safe_read; [reflexivity|]. cbv beta.
  assert (∀ w', wf w' → runs (BittorrentStrategy_OnPieceDownloaded id) w') as Hbase.
  { intros w1 Hw1. eapply safe_seq; [by apply safe_DistributorsCount|]. intros n w2 _. by apply safe_ret. }
  destruct (strategy_ w) as [|e]; [by apply Hbase|]. eapply safe_seq; [|intros u w1 Hc1; apply Hbase; by eapply calm_wf].
  destruct e; [by apply safe_post_all|]. eapply safe_read; [reflexivity|]. cbv beta.
  apply (safe_read _ _ _ _ _ (total_read w)). apply safe_when. intros _.
  by apply (safe_same _ w (set_strategy w (OptimalStrategy true))), calm_same.
Qed.

Lemma may_Have id w : wf w → may_keep (Have id) w.
Proof.
  intros Hw. unfold Have. eapply may_read; [reflexivity|]. cbv beta. apply may_lift. intros bits (_ & Hsz & _)%Set_Ok_inv.
  eapply may_bind; [done| |].
  - apply (safe_same _ w (set_master w (set_peer (master_peer_ w) (set_bitfield (as_peer (master_peer_ w)) bits))));
      [done|]. by apply calm_same.
  - intros u w1 Hw1 _ _. by apply may_keeps, keeps_runs, safe_SendHaveToAll.
Qed.

Lemma may_SetPiece id w : wf w → may_keep (SetPiece id) w.
Proof.
  intros Hw. apply may_seq; [by apply may_Have|]. intros w1 Hw1. unfold OnPieceDownloaded.
  eapply may_bind; [done|by apply (safe_same _ w1 (set_ready w1 (u64 (ready_pieces_num_ w1 + 1)))), calm_same|].
  intros u w2 Hw2 _ _. by apply may_keeps, keeps_runs, runs_Strategy_OnPieceDownloaded.
Qed.

Lemma may_run_download req w : wf w → may_keep (run_download req) w.
Proof.
  intros Hw. unfold run_download. eapply may_read; [reflexivity|]. cbv beta zeta. apply may_lift. intros valid _.
  apply may_seq; [|intros w1 Hw1; apply may_keeps, keeps_runs; [done|apply runs_UnbindRequest]].
  destruct valid; [|by apply may_keeps, keeps_ret]. apply may_lift. intros f _.
  eapply may_bind; [done|by apply (safe_same _ w (set_disk w f)), calm_same|]. intros u w1 Hw1 _ _.
  by apply may_SetPiece.
Qed.

Lemma run_round_popped (a a' : AsyncWorker (J:=FileJob)) j id :
  run_round a = Some (j, id, a') → ∃ n, queue_ a = n :: queue_ a' ∧ n_func n = j.
Proof.
  unfold run_round. destruct (_ && _); [|done]. destruct (queue_ a) as [|n q]; [done|]. intros [= <- <- <-].
  by exists n.
Qed.

Lemma may_worker w j id a :
  wf w → run_round (a_worker_ (file_manager_ w)) = Some (j, id, a) →
  may_keep (match j with UploadJob req => run_upload req | DownloadJob req => run_download req end)
    (set_manager w (set_worker (file_manager_ w) a)).
Proof.
  intros Hw E. destruct (run_round_popped _ _ _ _ E) as (n & Hq & Hf).
  set (w1 := set_manager w (set_worker (file_manager_ w) a)).
  assert (calm w w1) as Hc.
  { split; try done.
    - intros i c c' Hi Hi'. cbn in Hi'. rewrite Hi in Hi'. injection Hi' as <-. split; [done|]. split; by left.
    - intros n' Hn'. left. rewrite Hq. by right. }
  pose proof (calm_wf _ _ Hc Hw) as Hw1. destruct j as [req|req]; [|by apply may_run_download].
  apply may_run_upload; [done|]. assert (job_engaged w (n_func n)) as He by (apply (wf_queue _ Hw); rewrite Hq; by left).
  rewrite Hf in He. destruct He as (p & Hp & He). exists p. split; [done|]. by eapply calm_engaged.
Qed.
End Workers.

(** ** Every event *)

Section Steps.
Context {B : Type} `{DynamicBitsetLaws B} `{Host} `{Sha1}.
Implicit Types (w : World B) (c : PeerClient B).

(** The event is a lambda that stores a block its client's active piece has no
    place for. *)
Definition unexpected_block (e : event (B:=B)) w : Prop :=
  ∃ i c idx b data js, e = EvRun i ∧ clients w !! i = Some c ∧ strand c = JBlock idx b data :: js ∧
    ¬ expected_block c b.

#[export] Instance expected_block_dec c b : Decision (expected_block c b).
Proof. unfold expected_block. destruct (active_piece_ c) as [[p nx]|]; apply _. Defined.

Lemma fire_subscribed w i c : wf w → clients w !! i = Some c →
  keep_alive_timeout_ c = true ∨ piece_wait_timeout_ c = true ∨ is_Some (timeout_ c) → subscribed w i c.
Proof.
  intros Hw Hi Hf. apply not_inert_subscribed; [done|done|].
  intros (_ & _ & _ & _ & E1 & E2 & E3). rewrite E1, E2, E3 in Hf. destruct Hf as [?|[?|[? ?]]]; done.
Qed.

Lemma keeps_timeout i k c w :
  wf w → clients w !! i = Some c → timeout_ c = Some k →
  keeps (_ ← modify_client i cancel_operation; match k with ADisconnect => Disconnect i | ACancel => mret tt end) w.
Proof.
  intros Hw Hi Ek. assert (engaged w i) as He by (exists c; split; [done|]; eapply fire_subscribed; [done|done|right; right; by eexists]).
  apply keeps_runs; [done|]. apply (runs_seq i); [done|done| |].
  - apply runs_modify_engaged; [done|]. intros c'. apply timeout_quiet.
  - intros w1 Hw1 He1 _. destruct k; [by apply safe_ret|by apply safe_Disconnect].
Qed.

Lemma keeps_keep_alive i c w :
  wf w → clients w !! i = Some c → keep_alive_timeout_ c = true → keeps (keep_alive_fired i) w.
Proof.
  intros Hw Hi Ek. assert (engaged w i) as He by (exists c; split; [done|]; eapply fire_subscribed; [done|done|by left]).
  apply keeps_runs; [done|]. apply (runs_seq i); [done|done| |].
  - apply runs_modify_engaged; [done|]. intros c'. apply keep_alive_quiet.
  - intros w1 Hw1 He1 _. pose proof He1 as (c1 & Hi1 & _). apply (safe_get_client i c1); [done|].
    destruct (_ || _); [|by apply safe_ret]. apply (runs_seq i); [done|done| |].
    + eapply runs_safe, (safe_keep_alive anyone); [done|by apply engaged_holding].
    + intros w2 Hw2 He2 _. pose proof He2 as (c2 & Hi2 & _). apply (safe_get_client i c2); [done|].
      apply safe_when. intros _. by apply safe_TryToRequestPiece.
Qed.

Lemma keeps_piece_wait i c w :
  wf w → clients w !! i = Some c → piece_wait_timeout_ c = true →
  keeps (_ ← modify_client i (fun c => set_piece_wait c false); Post i JPieceTimeout) w.
Proof.
  intros Hw Hi Ek. assert (engaged w i) as He by (exists c; split; [done|]; eapply fire_subscribed; [done|done|right; by left]).
  apply keeps_runs; [done|]. apply (runs_seq i); [done|done| |].
  - apply runs_modify_engaged; [done|]. intros c'. apply piece_wait_quiet.
  - intros w1 Hw1 He1 _. by apply runs_Post.
Qed.

(** What a handled event may end in. *)
Definition good (r : outcome (unit * World B)) : Prop :=
  match r with Ok (_, w') => wf w' | NoFuel => True | _ => False end.

Lemma good_keeps m w : keeps m w → good (m w).
Proof. unfold keeps, wp, good. by destruct (m w) as [[? ?]| | | |]. Qed.

Lemma good_written i c k ks w :
  wf w → clients w !! i = Some c → pending_writes c = k :: ks →
  keeps (_ ← modify_client i (fun c => set_writes c ks (wire c));
    match k with
    | WRemind => remind_about_self i
    | WAccess => access i
    | WReadHandshake => _ ← Read i (Z.of_nat handshake_length) RHandshake; Await i ACancel
    end) w.
Proof.
  intros Hw Hi Ek. eapply keeps_written; [done|done|done|]. intros w1 Hw1 He1 Hr. destruct k.
  - apply keeps_runs; [done|]. apply runs_modify_engaged; [done|]. intros c'. apply keep_alive_quiet.
  - by apply keeps_access, Hr.
  - destruct (Hr ltac:(done)) as (c1 & Hi1 & Hs1 & Hr1 & _).
    apply keeps_Post_then; [done|by exists c1|done|]. intros w2 Hw2 He2. apply keeps_runs; [done|]. by apply runs_Post.
Qed.

Lemma good_write_failed i c k ks w :
  wf w → clients w !! i = Some c → pending_writes c = k :: ks →
  keeps (_ ← modify_client i (fun c => set_writes c ks (wire c));
    match k with WReadHandshake => try_again_connect i | _ => Disconnect i end) w.
Proof.
  intros Hw Hi Ek. eapply keeps_written; [done|done|done|]. intros w1 Hw1 He1 Hr.
  destruct k; [apply keeps_runs; [done|]; by apply safe_Disconnect..|]. by apply keeps_try_again, Hr.
Qed.

Lemma good_read i c size k rs data w :
  wf w → clients w !! i = Some c → pending_reads c = (size, k) :: rs → Z.of_nat (length data) = size →
  keeps (_ ← modify_client i (fun c => set_reads c rs); _ ← stop_await i;
    match k with RHeader => on_header i data | RBody => on_body i data | RHandshake => on_handshake i data end) w.
Proof.
  intros Hw Hi Er Hl. eapply keeps_read_done; [done|done|done|]. intros c1 w1 Hw1 Hi1 Hs1 Hr1 Hnb1 Hro.
  destruct k; cbn [read_ok] in Hro.
  - destruct Hro as [-> Hz]. apply keeps_on_header; [done|by exists c1|lia].
  - destruct Hro as (-> & Hpos & Hz). by eapply keeps_on_body; [..|rewrite Hl].
  - subst size. apply keeps_on_handshake; [done|by exists c1|lia].
Qed.

Lemma good_read_failed i c size k rs w :
  wf w → clients w !! i = Some c → pending_reads c = (size, k) :: rs →
  keeps (_ ← modify_client i (fun c => set_reads c rs); _ ← stop_await i;
    match k with RHandshake => try_again_connect i | _ => Disconnect i end) w.
Proof.
  intros Hw Hi Er. eapply keeps_read_done; [done|done|done|]. intros c1 w1 Hw1 Hi1 Hs1 Hr1 Hnb1 _.
  destruct k; [apply keeps_runs; [done|]; apply safe_Disconnect; by exists c1..|]. apply keeps_try_again; [done|by exists c1].
Qed.

Lemma event_good e w r :
  wf w → handle_event e w = Some r → e ≠ EvWorker → ¬ unexpected_block e w → good r.
Proof.
  intros Hw E Hne Hub. destruct e; cbn [handle_event] in E; try done;
    try (destruct (clients w !! i) as [c|] eqn:Hi; cbn [mbind option_bind] in E; [|discriminate E]).
  - destruct (strand c) as [|j js] eqn:Es; [discriminate E|]. injection E as <-. apply good_keeps.
    apply (keeps_run i j js c); [done|done|done|]. destruct j as [| | | | | | | | | | | |idx b data]; try done.
    destruct (decide (expected_block c b)); [done|]. destruct Hub. by exists i, c, idx, b, data, js.
  - destruct (connecting c) as [|n] eqn:Ec; [discriminate E|]. injection E as <-. by eapply good_keeps, keeps_connected.
  - destruct (connecting c) as [|n] eqn:Ec; [discriminate E|]. injection E as <-. by eapply good_keeps, keeps_connect_failed.
  - destruct (pending_writes c) as [|k ks] eqn:Ek; [discriminate E|]. injection E as <-. by eapply good_keeps, good_written.
  - destruct (pending_writes c) as [|k ks] eqn:Ek; [discriminate E|]. injection E as <-. by eapply good_keeps, good_write_failed.
  - destruct (pending_reads c) as [|[size k] rs] eqn:Er; [discriminate E|]. case_bool_decide as Hl; [|discriminate E].
    injection E as <-. by eapply good_keeps, good_read.
  - destruct (pending_reads c) as [|[size k] rs] eqn:Er; [discriminate E|]. injection E as <-. by eapply good_keeps, good_read_failed.
  - destruct (timeout_ c) as [k|] eqn:Ek; [|discriminate E]. injection E as <-. by eapply good_keeps, keeps_timeout.
  - destruct (keep_alive_timeout_ c) eqn:Ek; [|discriminate E]. injection E as <-. by eapply good_keeps, keeps_keep_alive.
  - destruct (piece_wait_timeout_ c) eqn:Ek; [|discriminate E]. injection E as <-. by eapply good_keeps, keeps_piece_wait.
  - destruct (clients w !! i) eqn:Hi; [discriminate E|]. destruct (slice handshake 28 20) as [ih| | | |]; try discriminate E.
    destruct (bool_decide _ && _) eqn:Eb; [|discriminate E]. injection E as <-. apply andb_true_iff in Eb as [Eb _].
    apply bool_decide_eq_true in Eb. apply good_keeps, keeps_new_client; [done|done|]. by intros v [= <-].
  - destruct (clients w !! i) eqn:Hi; [discriminate E|]. injection E as <-. by apply good_keeps, keeps_new_client.
Qed.

Lemma unexpected_outcome i c idx b data js w :
  clients w !! i = Some c → strand c = JBlock idx b data :: js → ¬ expected_block c b →
  handle_event (EvRun i) w
    = Some (match active_piece_ c with Some _ => UB | None => Throw bad_optional_access end).
Proof.
  intros Hi Es Hb. cbn [handle_event]. rewrite Hi. cbn [mbind option_bind]. rewrite Es. cbn [mbind option_bind].
  set (c1 := set_strand c js). f_equal.
  rewrite (st_bind_Ok _ _ w tt (put i c1 w)) by (unfold modify_client; rewrite Hi; done).
  cbn [run_job]. rewrite (run_block_unexpected i idx b data c1); [done| |done].
  unfold put. cbn. by rewrite lookup_insert_eq.
Qed.

Lemma unexpected_fails e w :
  unexpected_block e w → handle_event e w = Some UB ∨ handle_event e w = Some (Throw bad_optional_access).
Proof.
  intros (i & c & idx & b & data & js & -> & Hi & Es & Hb).
  rewrite (unexpected_outcome i c idx b data js w Hi Es Hb). destruct (active_piece_ c); auto.
Qed.

Lemma unexpected_cases e w : unexpected_block e w ∨ ¬ unexpected_block e w.
Proof.
  destruct e as [i| | | | | | | | | | | |]; try (right; by intros (? & ? & ? & ? & ? & ? & [=] & _)).
  destruct (clients w !! i) as [c|] eqn:Hi; [|right; by intros (? & ? & ? & ? & ? & ? & [= <-] & ? & _); congruence].
  destruct (strand c) as [|j js] eqn:Es; [right; by intros (? & ? & ? & ? & ? & ? & [= <-] & ? & ? & _); congruence|].
  destruct j as [| | | | | | | | | | | |idx b data];
    try (right; by intros (? & ? & ? & ? & ? & ? & [= <-] & ? & ? & _); congruence).
  destruct (decide (expected_block c b)) as [Hx|Hx]; [right|left; by exists i, c, idx, b, data, js].
  intros (i' & c' & idx' & b' & data' & js' & [= <-] & Hi' & Es' & Hb'). rewrite Hi in Hi'. injection Hi' as <-.
  rewrite Es in Es'. by injection Es' as <- <- <- <-.
Qed.

Lemma step_wf w w' : wf w → step w w' → wf w'.
Proof.
  intros Hw Hst. destruct Hst as [w e w' E]. assert (e = EvWorker ∨ e ≠ EvWorker) as [->|Hne] by (destruct e; auto).
  - cbn [handle_event] in E. destruct (run_round _) as [[[j id] a]|] eqn:Er; [|discriminate E].
    cbn [mbind option_bind] in E. injection E as E. by eapply (may_worker w j id a Hw Er).
  - destruct (unexpected_cases e w) as [Hub|Hub].
    + destruct (unexpected_fails e w Hub) as [E'|E']; rewrite E in E'; discriminate E'.
    + exact (event_good e w _ Hw E Hne Hub).
Qed.

(** ** Reachable states *)

Lemma initial_wf pieces info_hash (p : Peer B) s t f random :
  length info_hash = 20%nat → Z.of_nat (piece_count_of pieces) < 2 ^ 24 →
  wf (initial pieces info_hash p s t f random).
Proof.
  intros Hl Ht. split; try done.
  - cbn. unfold Resize, Size. apply db_size_resize.
  - cbn. unfold MakeHandshake. eexists. rewrite slice_total; [done|].
    rewrite (take_ge info_hash) by lia. cbn. rewrite length_app. lia.
  - intros n Hn. by apply not_elem_of_nil in Hn.
Qed.

Lemma reachable_wf w0 w : wf w0 → reachable w0 w → wf w.
Proof. intros Hw Hr. induction Hr as [|w w' Hr IH Hst]; [done|]. by eapply step_wf. Qed.

(** Playing a sequence of events. *)
Fixpoint play (es : list event) w : option (World B) :=
  match es with
  | [] => Some w
  | e :: es => match handle_event e w with Some (Ok (_, w)) => play es w | _ => None end
  end.

Lemma play_reachable es w0 w w' : reachable w0 w → play es w = Some w' → reachable w0 w'.
Proof.
  revert w. induction es as [|e es IH]; intros w Hr E; cbn [play] in E; [by injection E as <-|].
  destruct (handle_event e w) as [[[[] w1]| | | |]|] eqn:E1; try discriminate E.
  eapply IH; [|exact E]. eapply reachable_step; [exact Hr|]. by econstructor.
Qed.
End Steps.

(** ** Properties *)

(** C10: whatever the network delivers and in whatever order operations complete,
    a client started on a torrent of fewer than 2^24 pieces handles every event
    of a socket, of a timer or of a strand to its end, or waits for the random
    generator; the exception is a lambda that stores a block its active piece
    has no place for, which does end in undefined behaviour or an uncaught
    exception. *)
Theorem client_safe {B : Type} `{DynamicBitsetLaws B} `{Host} `{Sha1}
    pieces info_hash (p : Peer B) s t f random w e r :
  length info_hash = 20%nat → Z.of_nat (piece_count_of pieces) < 2 ^ 24 →
  reachable (initial pieces info_hash p s t f random) w → e ≠ EvWorker → handle_event e w = Some r →
  (unexpected_block e w ∧ (r = UB ∨ r = Throw bad_optional_access)) ∨
  (¬ unexpected_block e w ∧ ((∃ w', r = Ok (tt, w')) ∨ r = NoFuel)).
Proof.
  intros Hl Ht Hr Hne E. pose proof (reachable_wf _ _ (initial_wf pieces info_hash p s t f random Hl Ht) Hr) as Hw.
  destruct (unexpected_cases e w) as [Hub|Hub].
  - left. split; [done|]. destruct (unexpected_fails e w Hub) as [E'|E']; rewrite E in E'; injection E'; auto.
  - right. split; [done|]. pose proof (event_good e w r Hw E Hne Hub) as Hg.
    destruct r as [[[] w']| | | |]; try done; [left; by eexists|by right].
Qed.

(** C15: in every reachable state, each connection has at most one operation of
    the read loop under way; a connection that is not choked has a bitfield of
    the torrent's size; a lambda about to store a block still finds the block's
    bytes where its pointer points, in the receive buffer; and every subscriber
    is a connection to the address it is subscribed under. *)
Theorem connections_invariant {B : Type} `{DynamicBitsetLaws B} `{Host} `{Sha1}
    pieces info_hash (p : Peer B) s t f random w :
  length info_hash = 20%nat → Z.of_nat (piece_count_of pieces) < 2 ^ 24 →
  reachable (initial pieces info_hash p s t f random) w →
  (∀ i c, clients w !! i = Some c →
     (tokens c ≤ 1)%nat ∧
     (IsRemoteChoked c = false → Size (bitfield_ (slave_peer_ c)) = total_of w) ∧
     (∀ idx b data js, strand c = JBlock idx b data :: js → drop 9 (rm_arr (msg_to_read_ c)) = data)) ∧
  (∀ a j, peers_subscribers_ (master_peer_ w) !! a = Some j → ∃ c, clients w !! j = Some c ∧ ip (slave_peer_ c) = a).
Proof.
  intros Hl Ht Hr. pose proof (reachable_wf _ _ (initial_wf pieces info_hash p s t f random Hl Ht) Hr) as Hw.
  split; [|apply (wf_subs _ Hw)]. intros i c Hi. destruct (wf_clients _ Hw i c Hi) as [Hok _].
  split; [apply Hok|]. split.
  - intros Hc. destruct (ok_choked _ _ Hok); [congruence|done].
  - intros idx b data js Es. by eapply block_alive.
Qed.

(** C40: the offset of a block message is not checked: for a piece that is
    requested and not done, a message whose offset lies past the active piece is
    accepted, and the lambda it posts writes outside the vector of blocks. *)
Theorem block_offset_unchecked {B : Type} `{DynamicBitset B} `{Host} `{Sha1}
    i c (w : World B) idx begin data p next :
  0 ≤ idx < Z.of_nat (piece_count_of (meta_pieces_ w)) → idx < 2 ^ 32 →
  Z.of_nat (length data) ≤ most_request_size →
  IsPieceRequested (master_peer_ w) idx = true → IsPieceDone (master_peer_ w) idx = Ok false →
  strand c = [] → active_piece_ c = Some (p, next) →
  Z.of_nat (length (blocks p)) ≤ u32 (begin / most_request_size) →
  ∃ w', OnPieceBlock i idx begin data (put i c w) = Ok (tt, w') ∧ handle_event (EvRun i) w' = Some UB.
Proof.
  intros Hidx H32 Hl Hreq Hdone Hst Ha Hb.
  pose (c' := posted (set_piece_wait c false) [JBlock idx begin data]). exists (put i c' w). split.
  - apply OnPieceBlock_put; try done. by rewrite Hreq, orb_true_r.
  - rewrite (unexpected_outcome i c' idx begin data []); [unfold c'; cbn; by rewrite Ha|..].
    + unfold put. cbn. by rewrite lookup_insert_eq.
    + unfold c'. cbn. by rewrite Hst.
    + unfold expected_block, c'. cbn. rewrite Ha. intros [bl Hbl]. apply lookup_lt_Some in Hbl. lia.
Qed.

(** ** A connection, played from the start *)

Module Played.
#[local] Existing Instances x86_64 toy_sha1 toy_sha1_laws.

Definition pieces : bytes := replicate 60 x00.
Definition him : Peer (list bool) := Peer_at (replicate 12 x02) 0x0a000001 6882.
Definition start : World (list bool) :=
  initial pieces Sample.info_hash Sample.me BittorrentStrategy Sample.files ∅ [0; 1; 2; 3].

(** Every lambda posted to the strand runs. *)
Fixpoint runs_of (n : nat) : list (event (B:=list bool)) := match n with O => [] | S n => EvRun 0 :: runs_of n end.

(** The header and the body of a frame are read. *)
Definition frame_read (before between : nat) (body : bytes) : list (event (B:=list bool)) :=
  EvRead 0 (take 4 (frame body)) :: runs_of between ++ EvRead 0 body :: runs_of before.

Definition handshake : list (event (B:=list bool)) :=
  EvDial 0 him :: runs_of 2 ++ EvConnected 0 :: runs_of 1 ++ EvWritten 0 :: runs_of 2
    ++ EvRead 0 (MakeHandshake Sample.info_hash (id him)) :: runs_of 3.

(** The peer has every piece and lets us download. *)
Definition opening : list (event (B:=list bool)) :=
  handshake ++ frame_read 2 2 (body_of bitfield [(1%nat, 0xc0)]).
Definition state (es : list (event (B:=list bool))) : World (list bool) := default start (play es start).

Lemma state_reachable es : is_Some (play es start) → reachable start (state es).
Proof. intros [w E]. unfold state. rewrite E. by eapply play_reachable, E; constructor. Qed.

Lemma client_safe_witness :
  let w := state opening in
  let e := EvRead 0 (take 4 (frame (body_of unchoke []))) in
  reachable start w ∧ ∃ r, handle_event e w = Some r ∧
    ((unexpected_block e w ∧ (r = UB ∨ r = Throw bad_optional_access)) ∨
     (¬ unexpected_block e w ∧ ((∃ w', r = Ok (tt, w')) ∨ r = NoFuel))).
Proof.
  intros w e. assert (reachable start w) as Hr by (apply state_reachable; vm_compute; by eexists).
  split; [exact Hr|]. eexists. split; [vm_compute; reflexivity|].
  apply (client_safe pieces Sample.info_hash Sample.me BittorrentStrategy Sample.files ∅ [0; 1; 2; 3] w e).
  - reflexivity.
  - vm_compute. reflexivity.
  - exact Hr.
  - done.
  - vm_compute. reflexivity.
Defined.

(** The header of a block message for the piece we ask for, the offset 2^31. *)
Definition attack : list (event (B:=list bool)) :=
  opening ++ frame_read 4 2 (body_of unchoke [])
    ++ frame_read 0 2 (body_of piece_block (block_fields 0 (2 ^ 31)) ++ [x00]).

Lemma connections_invariant_witness :
  let w := state attack in
  reachable start w ∧
  (∃ c js, clients w !! 0%nat = Some c ∧ strand c = JBlock 0 (2 ^ 31) [x00] :: js) ∧
  (∀ i c, clients w !! i = Some c →
     (tokens c ≤ 1)%nat ∧
     (IsRemoteChoked c = false → Size (bitfield_ (slave_peer_ c)) = total_of w) ∧
     (∀ idx b data js, strand c = JBlock idx b data :: js → drop 9 (rm_arr (msg_to_read_ c)) = data)) ∧
  (∀ a j, peers_subscribers_ (master_peer_ w) !! a = Some j → ∃ c, clients w !! j = Some c ∧ ip (slave_peer_ c) = a).
Proof.
  intros w. assert (reachable start w) as Hr by (apply state_reachable; vm_compute; by eexists).
  split; [exact Hr|]. split; [eexists _, _; split; vm_compute; reflexivity|].
  apply (connections_invariant pieces Sample.info_hash Sample.me BittorrentStrategy Sample.files ∅ [0; 1; 2; 3] w).
  - reflexivity.
  - vm_compute. reflexivity.
  - exact Hr.
Defined.

Lemma block_offset_unchecked_witness :
  let w := state (opening ++ frame_read 4 2 (body_of unchoke [])) in
  reachable start w ∧ handle_event (EvRun 0) (state attack) = Some UB ∧
  ∃ c, clients w !! 0%nat = Some c ∧
    ∃ w', OnPieceBlock 0 0 (2 ^ 31) [x00] (put 0 c w) = Ok (tt, w') ∧ handle_event (EvRun 0) w' = Some UB.
Proof.
  intros w. split; [apply state_reachable; vm_compute; by eexists|]. split; [vm_compute; reflexivity|].
  eexists. split; [vm_compute; reflexivity|]. eapply block_offset_unchecked.
  - split; [lia|vm_compute; reflexivity].
  - lia.
  - vm_compute. congruence.
  - vm_compute. reflexivity.
  - vm_compute. reflexivity.
  - reflexivity.
  - reflexivity.
  - vm_compute. congruence.
Defined.
End Played.
