(* ===== verification/Delivery.v ===== *)
(** * A piece that arrives

    The events of a whole piece: its blocks come in as frames on one
    connection, in any order, each through a header and a body read and the
    lambda that stores it; then a file worker checks and writes the piece. *)

From Stdlib Require Import ZArith Lia Strings.Byte Strings.String.
From coqutil Require Import Byte Word.LittleEndianList.
From S2P Require Import Prelude Bytes Streams Worker Bencode Text Piece Files FilesFacts.
From S2P Require Import Bitset Bitfield Message Peer World PeerClient PeerFacts Exchange Download.
From S2P Require Import Invariant Handlers Safety.

Section Delivery.
Context {B : Type} `{DynamicBitset B} `{Host} `{Sha1}.
Implicit Types (w : World B) (c : PeerClient B).

Lemma play_app es es' w : play (es ++ es') w = (w ← play es w; play es' w).
Proof.
  revert w. induction es as [|e es IH]; intros w; [done|]. cbn [app play].
  destruct (handle_event e w) as [[[[] w1]| | | |]|]; [apply IH|done..].
Qed.

Lemma play_cons e es w u w' : handle_event e w = Some (Ok (u, w')) → play (e :: es) w = play es w'.
Proof. intros E. cbn [play]. rewrite E. done. Qed.

(** ** Single events on a client whose state is known *)

Lemma clients_put i c w : clients (put i c w) !! i = Some c.
Proof. apply lookup_insert_eq. Qed.

Lemma ev_run i j js c w :
  strand c = j :: js → handle_event (EvRun i) (put i c w) = Some (run_job i j (put i (set_strand c js) w)).
Proof.
  intros Es. cbn [handle_event]. rewrite clients_put.
  cbn [mbind option_bind]. rewrite Es. cbn [mbind option_bind]. by erewrite st_bind_Ok by apply modify_client_put.
Qed.

Lemma ev_read i size k rs data c w :
  pending_reads c = (size, k) :: rs → Z.of_nat (length data) = size →
  handle_event (EvRead i data) (put i c w) = Some
    (match k with RHeader => on_header i data | RBody => on_body i data | RHandshake => on_handshake i data end
       (put i (set_timeout (set_reads c rs) None) w)).
Proof.
  intros Er Hl. cbn [handle_event]. rewrite clients_put.
  cbn [mbind option_bind]. rewrite Er, bool_decide_true by done. cbn [mbind option_bind].
  erewrite st_bind_Ok by apply modify_client_put. unfold stop_await.
  by erewrite st_bind_Ok by apply modify_client_put.
Qed.

(** ** One frame *)

(** Nothing to run; the next header is being read. *)
Definition listening c : Prop :=
  connected c ∧ strand c = [] ∧ pending_reads c = [(Z.of_nat header_length, RHeader)] ∧
  rm_order (msg_to_read_ c) = BigEndian.

(** What storing blocks leaves alone of a client. *)
Definition kept c c' : Prop :=
  slave_peer_ c' = slave_peer_ c ∧ status_ c' = status_ c ∧ wire c' = wire c ∧ connected c' ∧
  rm_order (msg_to_read_ c') = BigEndian ∧ pending_reads c' = [(Z.of_nat header_length, RHeader)].

Lemma kept_trans c1 c2 c3 : kept c1 c2 → kept c2 c3 → kept c1 c3.
Proof. unfold kept. intros (?&?&?&?&?&?) (?&?&?&?&?&?). split_and!; congruence. Qed.

(** A frame that makes [n] lambdas run. *)
Definition deliver (i n : nat) (f : bytes) : list (event (B:=B)) :=
  [EvRead i (take 4 f); EvRun i; EvRun i; EvRead i (drop 4 f)] ++ replicate n (EvRun i).

(** The client when the body of a frame has been read. *)
Definition body_read c : PeerClient B := set_timeout (set_reads (set_timeout c (Some ADisconnect)) []) None.

Lemma deliver_body i n (body : bytes) c w :
  listening c → 0 < Z.of_nat (length body) < 2 ^ 32 →
  play (deliver i n (frame body)) (put i c w) =
    match (handle_response i ≫= fun _ => do_read_header i) (put i (received body 1 (body_read c)) w) with
    | Ok (_, w') => play (replicate n (EvRun i)) w'
    | _ => None
    end.
Proof.
  intros (Hc & Hs & Hr & Ho) Hl. unfold deliver. rewrite play_app.
  assert (take 4 (frame body) = be_split 4 (Z.of_nat (length body))) as ->
    by (unfold frame; by rewrite take_app_length' by by rewrite length_be_split).
  assert (drop 4 (frame body) = body) as ->
    by (unfold frame; by rewrite drop_app_length' by by rewrite length_be_split).
  erewrite play_cons.
  2:{ rewrite (ev_read i _ RHeader [] _ c w Hr) by (by rewrite length_be_split). cbv iota. f_equal.
      apply on_header_put; [exact Hc|done]. }
  set (m := DecodeHeader _ _).
  erewrite play_cons.
  2:{ rewrite (ev_run i (JAwait ADisconnect) [JRead (Z.of_nat (length body)) RBody]) by (cbn; by rewrite Hs).
      cbn [run_job]. f_equal. apply modify_client_put. }
  erewrite play_cons.
  2:{ rewrite (ev_run i (JRead (Z.of_nat (length body)) RBody) []) by done.
      cbn [run_job]. f_equal. apply modify_client_put. }
  cbn [play].
  match goal with |- context [handle_event (EvRead i body) (put i ?x w)] => set (c1 := x) end.
  rewrite (ev_read i (Z.of_nat (length body)) RBody [] body c1) by done. cbv iota.
  assert (set_timeout (set_reads c1 []) None
    = set_msg (body_read c) (DecodeHeader (msg_to_read_ (body_read c)) (Z.of_nat (length body)))) as ->.
  { subst c1 m. destruct c. cbn in *. by rewrite Hs. }
  rewrite on_body_put by done. by destruct ((handle_response i ≫= _) _) as [[[] w']| | | |].
Qed.

(** ** One block *)

(** The piece [idx] of torrent [w] is asked for and not there yet. *)
Definition wanted w (idx : Z) : Prop :=
  0 ≤ idx < Z.of_nat (piece_count_of (meta_pieces_ w)) ∧ idx < 2 ^ 32 ∧
  end_game_ (strategy_ w) || IsPieceRequested (master_peer_ w) idx = true ∧ IsPieceDone (master_peer_ w) idx = Ok false.

(** The frame of block [k] of the bytes [D] of a piece. *)
Definition nth_block (idx : Z) (D : bytes) (k : nat) : bytes :=
  block_frame idx (Z.of_nat k * most_request_size) (block_at D k).

(** Up to the lambda that stores the block. *)
Definition stored_next c idx D k : PeerClient B :=
  let b := Z.of_nat k * most_request_size in
  let body := body_of piece_block (block_fields idx b) ++ block_at D k in
  posted (set_piece_wait (received body 9 (body_read c)) false)
    [JBlock idx b (block_at D k); JRead (Z.of_nat header_length) RHeader].

Lemma deliver_block i n idx D k c w :
  listening c → wanted w idx → (k < blocks_of D ≤ 150)%nat →
  play (deliver i n (nth_block idx D k)) (put i c w) = play (replicate n (EvRun i)) (put i (stored_next c idx D k) w).
Proof.
  intros Hc (Hidx & H32 & Hreq & Hdone) Hk. set (b := Z.of_nat k * most_request_size).
  assert (Z.of_nat (length (block_at D k)) ≤ most_request_size) as Hlen
    by (rewrite length_block_at; pose proof B16_Z; unfold most_request_size; lia).
  assert (0 ≤ b < 2 ^ 32) as Hb by (subst b; unfold most_request_size; lia).
  unfold nth_block, block_frame. fold b. rewrite !u32_small by lia.
  rewrite deliver_body; [|done|].
  2:{ rewrite length_app, length_body_of. unfold most_request_size in Hlen. change (list_sum (map fst (block_fields idx b))) with 8%nat. lia. }
  erewrite st_bind_Ok.
  2:{ rewrite handle_piece_block by (unfold most_request_size in *; lia). by apply OnPieceBlock_put. }
  unfold do_read_header. erewrite st_bind_Ok by apply get_client_put. cbv beta.
  destruct Hc as (Hc & Hs & _).
  change (is_disconnected (posted _ _)) with (is_disconnected c). rewrite Hc. unfold Read. rewrite Post_put.
  rewrite posted_posted. done.
Qed.

Lemma deliver_middle i idx D got k next c w :
  listening c → wanted w idx → active_piece_ c = Some (partial D idx got, next) →
  (k < blocks_of D ≤ 150)%nat → (S (length got) < blocks_of D)%nat →
  ∃ c', play (deliver i 2 (nth_block idx D k)) (put i c w) = Some (put i c' w) ∧
    listening c' ∧ active_piece_ c' = Some (partial D idx (k :: got), next) ∧ kept c c'.
Proof.
  intros Hc Hw Ha Hk Hg. rewrite deliver_block by done. set (c1 := stored_next c idx D k). cbn [replicate].
  pose proof Hc as (Hcon & Hs & Hr & Ho).
  assert (strand c1 = [JBlock idx (Z.of_nat k * most_request_size) (block_at D k); JRead (Z.of_nat header_length) RHeader])
    as Es by (subst c1; cbn; by rewrite Hs).
  set (c2 := set_active_piece (set_strand c1 [JRead (Z.of_nat header_length) RHeader]) (Some (partial D idx (k :: got), next))).
  erewrite play_cons.
  2:{ erewrite ev_run by exact Es. cbn [run_job]. f_equal.
      rewrite (run_block_put i D idx got k next) by (try done; lia). rewrite decide_False by lia. reflexivity. }
  fold c2. erewrite play_cons.
  2:{ rewrite (ev_run i (JRead (Z.of_nat header_length) RHeader) []) by done. cbn [run_job]. f_equal. apply modify_client_put. }
  eexists. split; [reflexivity|]. split_and!; [|done|]; repeat split; try done.
Qed.

Lemma deliver_last i idx D got k next id rs c w :
  listening c → wanted w idx → active_piece_ c = Some (partial D idx got, next) →
  (k < blocks_of D ≤ 150)%nat → S (length got) = blocks_of D →
  draw_id (executing_callbacks_ (a_worker_ (file_manager_ w))) (random_ w) = Ok (id, rs) →
  ∃ c', play (deliver i 2 (nth_block idx D k)) (put i c w)
      = Some (put i c' (queued_world w id rs (mkWriteRequest (Some i) idx (full D idx (k :: got))))) ∧
    strand c' = [JClearAndTry] ∧ kept c c'.
Proof.
  intros Hc Hw Ha Hk Hg Hd. rewrite deliver_block by done. set (c1 := stored_next c idx D k). cbn [replicate].
  pose proof Hc as (Hcon & Hs & Hr & Ho).
  assert (strand c1 = [JBlock idx (Z.of_nat k * most_request_size) (block_at D k); JRead (Z.of_nat header_length) RHeader])
    as Es by (subst c1; cbn; by rewrite Hs).
  erewrite play_cons.
  2:{ erewrite ev_run by exact Es. cbn [run_job]. f_equal.
      rewrite (run_block_put i D idx got k next) by (try done; lia). rewrite decide_True by lia.
      by apply finish_put. }
  erewrite play_cons.
  2:{ rewrite (ev_run i (JRead (Z.of_nat header_length) RHeader) [JClearAndTry]) by done. cbn [run_job]. f_equal.
      apply modify_client_put. }
  eexists. split; [reflexivity|]. split; [done|]. repeat split; try done.
Qed.

(** ** All blocks *)

Lemma deliver_all i idx D order got next id rs c w :
  listening c → wanted w idx → active_piece_ c = Some (partial D idx got, next) →
  (blocks_of D ≤ 150)%nat → order ≠ [] → order ++ got ≡ₚ seq 0 (blocks_of D) →
  draw_id (executing_callbacks_ (a_worker_ (file_manager_ w))) (random_ w) = Ok (id, rs) →
  ∃ c', play (concat (map (fun k => deliver i 2 (nth_block idx D k)) order)) (put i c w)
      = Some (put i c' (queued_world w id rs (mkWriteRequest (Some i) idx (full D idx (rev order ++ got))))) ∧
    strand c' = [JClearAndTry] ∧ kept c c'.
Proof.
  revert got c. induction order as [|k order IH]; intros got c Hc Hw Ha Hn Hne Hp Hd; [done|]. clear Hne.
  pose proof (Permutation_length Hp) as Hlen. rewrite length_seq in Hlen.
  cbn [app length] in Hlen. rewrite length_app in Hlen.
  assert (k < blocks_of D)%nat as Hk.
  { assert (k ∈ seq 0 (blocks_of D)) as Hin by (rewrite <- Hp; by left).
    apply list_elem_of_In, in_seq in Hin. lia. }
  cbn [map concat]. rewrite play_app. destruct order as [|k' order].
  - destruct (deliver_last i idx D got k next id rs c w) as (c' & -> & Hc'); try done.
    by exists c'.
  - destruct (deliver_middle i idx D got k next c w) as (c' & -> & Hc' & Ha' & Hk'); try done; [cbn in Hlen; lia|].
    cbn [mbind option_bind].
    destruct (IH (k :: got) c' Hc' Hw Ha' Hn) as (c2 & E & Hc2 & Hk2); [done| |done|].
    + etrans; [|exact Hp]. symmetry. apply (Permutation_middle (k' :: order)).
    + exists c2. split; [|split; [done|by eapply kept_trans]]. rewrite E. cbn [rev]. by rewrite <- !app_assoc.
Qed.
End Delivery.

(** ** The file worker *)

Section Worker.
Context {B : Type} `{DynamicBitsetLaws B} `{Host} `{S1 : Sha1} `{!Sha1Laws S1}.
Implicit Types (w : World B) (c : PeerClient B).

(** The worker pops the only job there is. *)
Definition popped w (id : Z) : World B :=
  let a := a_worker_ (file_manager_ w) in
  set_manager w (set_worker (file_manager_ w)
    (mkWorker [] (delete id (executing_callbacks_ a)) (quit_ a) (stopped_ a) (next_addr a))).

Lemma ev_worker_download id rs req w :
  let a := a_worker_ (file_manager_ w) in
  quit_ a = false → stopped_ a = false → queue_ a = [] →
  handle_event EvWorker (queued_world w id rs req)
    = Some (run_download req (popped (queued_world w id rs req) id)).
Proof.
  intros a Hq Hs Hqu. cbn [handle_event]. unfold run_round, queued_world. cbn.
  fold a. rewrite Hq, Hs, Hqu. reflexivity.
Qed.

(** The files of a multi-file torrent [l] in pieces of [pl] bytes, laid out. *)
Record stored_as w (l : list (bytes * Z)) (pl : Z) : Prop := {
  sa_layout : ∃ root info f0 f1, multi_meta root info pl l ∧
    multi_file root info f0 = Ok (files_ (file_manager_ w), f1);
  sa_ready : store_ready l pl;
  sa_exist : files_exist l (disk w);
}.

Lemma stored_layout w l pl :
  stored_as w l pl → ∃ cu, layout_inv l pl cu ∧ c_begin cu ≤ pl ∧ pieces_by_files_ (files_ (file_manager_ w)) = c_layout cu.
Proof.
  intros [(root & info & f0 & f1 & Hm & Hfill) Hr _].
  destruct (multi_file_inv root info f0 pl l Hm) as (cu & E & Hi & Hcb); [apply Hr|..].
  { intros x Hx. apply Hr in Hx. lia. }
  { by eapply store_ready_total. }
  exists cu. rewrite Hfill in E. injection E as Et _. by rewrite Et.
Qed.

(** The bytes of a piece are on the disk, at the places the layout gives it. *)
Definition on_disk w (n : nat) (D : bytes) : Prop :=
  holds (disk w) (pieces_by_files_ (files_ (file_manager_ w))) n D.

(** Any block of a piece on the disk can be read. *)
Lemma on_disk_read w l pl n D :
  stored_as w l pl → Z.of_nat (length D) = piece_len l pl n → 0 < piece_len l pl n → on_disk w n D →
  ∀ beg len, 0 ≤ beg → 0 < len → beg + len ≤ Z.of_nat (length D) →
    ∃ b0, ReadPieceBlockFromFile (files_ (file_manager_ w)) n beg len (disk w)
      = Ok (mkBlock (take (Z.to_nat len) (drop (Z.to_nat beg) D)) b0).
Proof.
  intros Hw HD Hp Hd beg len Hb Hl Hbl. destruct (stored_layout w l pl Hw) as (cu & Hi & Hcb & Hlay).
  unfold on_disk in Hd. rewrite Hlay in Hd. destruct Hw as [_ Hr _].
  by apply (holds_read l pl cu _ Hr Hi Hcb Hlay).
Qed.

(** Writing a complete piece puts it on the disk, and the files stay. *)
Lemma write_stores w l pl p :
  stored_as w l pl → piece_fits l pl p →
  ∃ f, WritePieceToFile (files_ (file_manager_ w)) p (disk w) = Ok f ∧
    ∀ w', disk w' = f → files_ (file_manager_ w') = files_ (file_manager_ w) →
      stored_as w' l pl ∧ on_disk w' (Z.to_nat (index p)) (piece_data p) ∧
      ∀ n D, n ≠ Z.to_nat (index p) → Z.of_nat (length D) ≤ pl → on_disk w n D → on_disk w' n D.
Proof.
  intros Hw Hp. destruct (stored_layout w l pl Hw) as (cu & Hi & Hcb & Hlay). destruct Hw as [Hl Hr Hex].
  destruct (WritePieceToFile_spec l pl cu _ Hr Hi Hcb Hlay p (disk w) Hp Hex) as (f & Hwr & Hex' & _).
  exists f. split; [done|]. intros w' Hd Hf. unfold on_disk. rewrite Hd, Hf, Hlay. split_and!.
  - split; [by rewrite Hf|done|by rewrite Hd].
  - exact (write_holds l pl cu _ Hr Hi Hcb Hlay p (disk w) f Hp Hex Hwr).
  - intros n D Hn HD Hh. exact (write_keeps l pl cu _ Hr Hi Hcb Hlay p (disk w) f n D Hp Hex Hwr Hn HD Hh).
Qed.

Lemma subscribers_put i c w : subscribers_exist w → subscribers_exist (put i c w).
Proof.
  intros Hs a j Ha. unfold put. cbn. destruct (decide (j = i)) as [->|Hne]; [rewrite lookup_insert_eq; by eexists|].
  rewrite lookup_insert_ne by done. by eapply Hs.
Qed.

(** ** A whole piece *)

(** The peer's blocks, arriving in any order, and one round of an idle worker
    store a piece: the state afterwards. *)
Record delivered i c w l pl idx D c' (js : list Job) w' : Prop := {
  dl_client : clients w' !! i = Some (posted c' js);
  dl_notices : Forall (notice idx) js;
  dl_strand : strand c' = [JClearAndTry];
  dl_kept : kept c c';
  dl_worker : let a := a_worker_ (file_manager_ w) in let a' := a_worker_ (file_manager_ w') in
    quit_ a' = false ∧ stopped_ a' = false ∧ queue_ a' = [] ∧ executing_callbacks_ a' = executing_callbacks_ a;
  dl_active : active_requests_ (file_manager_ w') = active_requests_ (file_manager_ w);
  dl_files : files_ (file_manager_ w') = files_ (file_manager_ w);
  dl_stored : stored_as w' l pl;
  dl_new : on_disk w' (Z.to_nat idx) D;
  dl_old n D' : n ≠ Z.to_nat idx → Z.of_nat (length D') ≤ pl → on_disk w n D' → on_disk w' n D';
  dl_bits : let bits := bitfield_ (as_peer (master_peer_ w)) in
    let bits' := bitfield_ (as_peer (master_peer_ w')) in
    Size bits' = Size bits ∧
    ∀ n, (n < Size bits)%nat → db_test bits' n = (bool_decide (n = Z.to_nat idx) || db_test bits n);
  dl_requested : requested_pieces_ (master_peer_ w') = requested_pieces_ (master_peer_ w) ∖ {[idx]};
  dl_subscribers : subscribers_exist w';
  dl_meta : meta_pieces_ w' = meta_pieces_ w;
  dl_ready : ready_pieces_num_ w' = u64 (ready_pieces_num_ w + 1);
}.

Lemma deliver_piece i c w l pl idx D order next id rs :
  let a := a_worker_ (file_manager_ w) in
  let bits := bitfield_ (as_peer (master_peer_ w)) in
  listening c → wanted w idx → idx * 20 < 2 ^ 32 →
  active_piece_ c = Some (new_piece idx (block_count_of (Z.of_nat (length D))), next) →
  order ≡ₚ seq 0 (blocks_of D) → (0 < blocks_of D ≤ 150)%nat → (0 < length D)%nat →
  Z.of_nat (length D) = piece_len l pl (Z.to_nat idx) →
  GetSHA1 D = take 20 (drop (20 * Z.to_nat idx) (meta_pieces_ w)) →
  Size bits = piece_count_of (meta_pieces_ w) → subscribers_exist w → stored_as w l pl →
  quit_ a = false → stopped_ a = false → queue_ a = [] → draw_id (executing_callbacks_ a) (random_ w) = Ok (id, rs) →
  ∃ c' js w', play (concat (map (fun k => deliver i 2 (nth_block idx D k)) order) ++ [EvWorker]) (put i c w) = Some w' ∧
    delivered i c w l pl idx D c' js w' ∧ random_ w' = rs.
Proof.
  intros a bits Hc Hw H20 Ha Hp Hn HD Hlen Hhash Hsz Hsub Hst Hq Hs Hqu Hd. rewrite <- partial_nil in Ha.
  assert (rev order ≡ₚ seq 0 (blocks_of D)) as Hrev by by rewrite <- Permutation_rev.
  destruct (deliver_all i idx D order [] next id rs c w) as (c' & E & Hstr & Hkept); try done; [lia| |rewrite app_nil_r; exact Hp|].
  { intros ->. apply Permutation_length in Hp. rewrite length_seq in Hp. cbn in Hp. lia. }
  rewrite app_nil_r in E. rewrite play_app, E. cbn [mbind option_bind].
  set (p := full D idx (rev order)) in *. set (req := mkWriteRequest (Some i) idx p) in *.
  pose proof (ev_worker_download id rs req (put i c' w) Hq Hs Hqu) as Ew.
  change (queued_world (put i c' w) id rs req) with (put i c' (queued_world w id rs req)) in Ew.
  cbn [play]. rewrite Ew. set (w2 := popped _ id) in *. pose proof Hw as (Hidx & H32 & Hreq & Hdone).
  assert (sort_blocks p = p) as Hsort by by apply full_sorted.
  assert (piece_data p = D) as Hpd by by apply full_data.
  assert (piece_fits l pl p) as Hfits.
  { pose proof (size_data p) as Hsd. rewrite Hpd in Hsd. split_and!; [by apply well_shaped_addressable, full_well_shaped|cbn; lia|lia|change (index p) with idx; lia]. }
  destruct (write_stores w l pl p Hst Hfits) as (f & Hwr & Hstores).
  assert (finished_request req = req) as Hfin by (unfold finished_request; cbn [req wr_piece wr_peer wr_piece_index]; by rewrite Hsort).
  assert (ArePieceValid (meta_pieces_ w2) (finished_request req) = Ok true) as Hvalid.
  { rewrite Hfin, ArePieceValid_eq; change (wr_piece_index req) with idx; [|lia|done|].
    - f_equal. apply bool_decide_true. change (wr_piece req) with p. by rewrite Hpd.
    - change (meta_pieces_ w2) with (meta_pieces_ w). lia. }
  assert (Z.to_nat (wr_piece_index req) < Size (bitfield_ (as_peer (master_peer_ w2))))%nat as Hin
    by (change (Z.to_nat idx < Size bits)%nat; lia).
  assert (WritePieceToFile (files_ (file_manager_ w2)) (sort_blocks (wr_piece req)) (disk w2) = Ok f) as Hwr2
    by (change (wr_piece req) with p; by rewrite Hsort).
  assert (subscribers_exist w2) as Hsub2 by exact (subscribers_put i c' (popped (queued_world w id rs req) id) Hsub).
  destruct (wp_Ok _ _ _ (run_download_valid req f w2 Hsub2 Hin Hvalid Hwr2)) as ([] & w' & E' & Hacc).
  destruct Hacc as (Hdisk & Hfm & Hready & Hrq & Hsubs & Hmeta & Hrd & Htold & Hsize & Hbits).
  cbn in Hready, Hrq, Hsubs, Hmeta, Hrd, Hsize, Hbits. fold bits in Hsize, Hbits.
  pose proof (Htold i) as Hi. unfold w2, popped in Hi. cbn in Hi. rewrite lookup_insert_eq in Hi.
  destruct Hi as (js & Hjs & Hi).
  destruct (Hstores w' Hdisk) as (Hst' & Hnew & Hold); [by rewrite Hfm|].
  exists c', js, w'. rewrite E'. split; [done|]. split; [|done]. split; try done.
  - cbv zeta. rewrite Hfm. unfold w2, popped. cbn. fold a. rewrite Hq, Hs. split_and!; try done.
    rewrite delete_insert_id; [done|]. by apply draw_id_Ok in Hd as [? _].
  - by rewrite Hfm.
  - by rewrite Hfm.
  - by rewrite <- Hpd.
  - intros b j Hb. rewrite Hsubs in Hb. apply (told_client (wr_piece_index req) w2 w' j Htold). by apply (Hsub2 b).
Qed.
End Worker.

(** ** Properties *)

(** C7: a peer that answers our requests completes the piece: once a fresh piece of
    at most 150 blocks is asked for, its blocks, arriving as frames in any order
    and followed by one round of an idle file worker, leave the piece done, no
    longer requested and counted, every block of it readable from the files of
    the torrent. *)
Theorem piece_delivered {B : Type} `{DynamicBitsetLaws B} `{Host} `{S1 : Sha1} `{!Sha1Laws S1}
    i (c : PeerClient B) w l pl idx D order next id rs :
  let a := a_worker_ (file_manager_ w) in
  let bits := bitfield_ (as_peer (master_peer_ w)) in
  listening c → wanted w idx → idx * 20 < 2 ^ 32 →
  active_piece_ c = Some (new_piece idx (block_count_of (Z.of_nat (length D))), next) →
  order ≡ₚ seq 0 (blocks_of D) → (0 < blocks_of D ≤ 150)%nat → (0 < length D)%nat →
  Z.of_nat (length D) = piece_len l pl (Z.to_nat idx) →
  GetSHA1 D = take 20 (drop (20 * Z.to_nat idx) (meta_pieces_ w)) →
  Size bits = piece_count_of (meta_pieces_ w) → subscribers_exist w → stored_as w l pl →
  quit_ a = false → stopped_ a = false → queue_ a = [] → draw_id (executing_callbacks_ a) (random_ w) = Ok (id, rs) →
  ∃ w', play (concat (map (fun k => deliver i 2 (nth_block idx D k)) order) ++ [EvWorker]) (put i c w) = Some w' ∧
    (∀ beg len, 0 ≤ beg → 0 < len → beg + len ≤ Z.of_nat (length D) →
       ∃ b0, ReadPieceBlockFromFile (files_ (file_manager_ w)) (Z.to_nat idx) beg len (disk w')
         = Ok (mkBlock (take (Z.to_nat len) (drop (Z.to_nat beg) D)) b0)) ∧
    (∀ n, (n < Size bits)%nat → IsPieceDone (master_peer_ w') (Z.of_nat n)
       = Ok (bool_decide (n = Z.to_nat idx) || db_test bits n)) ∧
    IsPieceRequested (master_peer_ w') idx = false ∧ ready_pieces_num_ w' = u64 (ready_pieces_num_ w + 1).
Proof.
  intros a bits Hc Hw H20 Ha Hp Hn HD Hlen Hhash Hsz Hsub Hst Hq Hs Hqu Hd.
  destruct (deliver_piece i c w l pl idx D order next id rs) as (c' & js & w' & E & Hdl & _); try done.
  exists w'. split; [done|]. destruct (dl_bits _ _ _ _ _ _ _ _ _ _ Hdl) as [Hsize Hbits]. fold bits in Hsize, Hbits.
  split; [|split; [|split]].
  - rewrite <- (dl_files _ _ _ _ _ _ _ _ _ _ Hdl). apply (on_disk_read w' l pl); [apply Hdl|done|lia|apply Hdl].
  - intros n Hlt. unfold IsPieceDone. rewrite Nat2Z.id, Test_in by (rewrite Hsize; done). by rewrite Hbits.
  - unfold IsPieceRequested. rewrite (dl_requested _ _ _ _ _ _ _ _ _ _ Hdl). apply bool_decide_false. set_solver.
  - apply Hdl.
Qed.

(** ** Two blocks, the second one first *)

Module TwoBlocks.
#[local] Existing Instances x86_64 toy_sha1 toy_sha1_laws.

Definition info : Node :=
  NDict [(str "files", NArray [TwoFiles.file (str "a") 30000; TwoFiles.file (str "b") 10000]);
         (str "piece length", NInt 20000)].
Definition l : list (bytes * Z) := [(str "d/a", 30000); (str "d/b", 10000)].
Definition tf : TorrentFiles :=
  match multi_file (str "d") info ∅ with Ok (t, _) => t | _ => mkTorrentFiles 0 0 ∅ end.
Definition D : bytes := replicate (Z.to_nat 20000) x07.
Definition meta : bytes := replicate 20 x00 ++ GetSHA1 D.

Definition client : PeerClient (list bool) :=
  set_reads (set_active_piece (Sample.client [true; true] 0) (Some (new_piece 1 2, 20000)))
            [(Z.of_nat header_length, RHeader)].
Definition world : World (list bool) :=
  let w := Sample.world [true; false] client in
  mkWorld meta (info_hash_ w) (MarkRequestedPiece (master_peer_ w) 1) (clients w) (strategy_ w) 0
          (mkManager tf ∅ (Start new_worker)) (create_all l ∅) (random_ w).

Lemma two_blocks_ready : store_ready l 20000.
Proof.
  split; [lia|]. split; [|split; [reflexivity|by apply (bool_decide_unpack _); vm_compute]].
  intros x [->|[->|[]%not_elem_of_nil]%elem_of_cons]%elem_of_cons; cbn; lia.
Qed.

Lemma two_blocks_meta : multi_meta (str "d") info 20000 l.
Proof. split; [reflexivity|]. eexists. split; reflexivity. Qed.

Lemma stored : stored_as world l 20000.
Proof.
  split; [|exact two_blocks_ready|].
  - exists (str "d"), info, ∅, (create_all l ∅). split; [exact two_blocks_meta|].
    destruct (multi_file_inv (str "d") info ∅ 20000 l two_blocks_meta) as (cu & E & _); [lia| |done|].
    { intros x Hx. apply two_blocks_ready in Hx. lia. }
    unfold world, tf. cbn [file_manager_ files_]. by rewrite E.
  - intros p [->|[->|[]%not_elem_of_nil]%elem_of_cons]%elem_of_cons;
      apply (bool_decide_unpack _); vm_compute; done.
Qed.

Lemma piece_delivered_witness :
  let bits := bitfield_ (as_peer (master_peer_ world)) in
  ∃ w', play (concat (map (fun k => deliver 0 2 (nth_block 1 D k)) [1%nat; 0%nat]) ++ [EvWorker]) (put 0 client world) = Some w' ∧
    (∀ beg len, 0 ≤ beg → 0 < len → beg + len ≤ Z.of_nat (length D) →
       ∃ b0, ReadPieceBlockFromFile (files_ (file_manager_ world)) (Z.to_nat 1) beg len (disk w')
         = Ok (mkBlock (take (Z.to_nat len) (drop (Z.to_nat beg) D)) b0)) ∧
    (∀ n, (n < Size bits)%nat → IsPieceDone (master_peer_ w') (Z.of_nat n)
       = Ok (bool_decide (n = Z.to_nat 1) || db_test bits n)) ∧
    IsPieceRequested (master_peer_ w') 1 = false ∧ ready_pieces_num_ w' = u64 (ready_pieces_num_ world + 1).
Proof.
  intros bits. assert (Z.of_nat (length D) = 20000) as Hl
    by (unfold D; rewrite length_replicate; apply Z2Nat.id; lia).
  assert (blocks_of D = 2%nat) as Hb by (unfold blocks_of; rewrite Hl; reflexivity).
  apply (piece_delivered 0%nat client world l 20000 1 D [1%nat; 0%nat] 20000 1 [2; 3; 4]).
  - split_and!; reflexivity.
  - split_and!; [lia|vm_compute; reflexivity|lia|vm_compute; reflexivity|vm_compute; reflexivity].
  - lia.
  - rewrite Hl. reflexivity.
  - rewrite Hb. apply Permutation_swap.
  - rewrite Hb. lia.
  - lia.
  - rewrite Hl. reflexivity.
  - unfold world, meta. cbn [meta_pieces_]. rewrite drop_app_length' by (rewrite length_replicate; reflexivity).
    rewrite take_ge; [reflexivity|]. rewrite length_GetSHA1. lia.
  - unfold world, meta. cbn [meta_pieces_]. unfold piece_count_of. rewrite length_app, length_GetSHA1. reflexivity.
  - intros a j Ha. change (({[0x0a000001 := 0%nat]} : gmap Z nat) !! a = Some j) in Ha.
    apply lookup_singleton_Some in Ha as [_ <-]. unfold world. cbn. rewrite lookup_singleton_eq. by eexists.
  - exact stored.
  - reflexivity.
  - reflexivity.
  - reflexivity.
  - reflexivity.
Defined.
End TwoBlocks.
