(* ===== verification/Transfer.v ===== *)
(** * A piece asked for, served and asked for again

    What the two sides of a connection do in turn, as events of their worlds:
    one side asks for a fresh piece and runs its strand until the requests are
    written; the other one reads them and its file worker answers each of them
    with a block. *)

From Stdlib Require Import ZArith Lia Strings.Byte Strings.String.
From coqutil Require Import Byte Word.LittleEndianList.
From S2P Require Import Prelude Bytes Streams Worker Bencode Text Piece Files FilesFacts.
From S2P Require Import Bitset Bitfield Message Peer World PeerClient PeerFacts Exchange Download.
From S2P Require Import Invariant Handlers Safety Delivery.

(** ** Asking *)

Section Asking.
Context {B : Type} `{DynamicBitsetLaws B} `{Host} `{Sha1}.
Implicit Types (w : World B) (c : PeerClient B).

(** What a job writes. *)
Definition job_bytes (j : Job) : bytes := match j with JWrite f _ => f | _ => [] end.

(** Jobs that write, or that would cancel a piece that is not under way. *)
Definition plain c (j : Job) : Prop :=
  (∃ f k, j = JWrite f k) ∨
  (∃ id p next, j = JCancelIfActive id ∧ active_piece_ c = Some (p, next) ∧ index p ≠ id).

Lemma drain i js rest c w :
  strand c = js ++ rest → Forall (plain c) js →
  ∃ ks, play (replicate (length js) (EvRun i)) (put i c w)
    = Some (put i (set_writes (set_strand c rest) ks (wire c ++ concat (map job_bytes js))) w).
Proof.
  revert c. induction js as [|j js IH]; intros c Hs Hp.
  { exists (pending_writes c). cbn. rewrite app_nil_r. do 2 f_equal. cbn in Hs. rewrite <- Hs. by destruct c. }
  apply list.Forall_cons in Hp as [Hj Hp]. cbn [length replicate app map concat] in *.
  destruct Hj as [(f & k & ->)|(id & p & next & -> & Ha & Hne)].
  - erewrite play_cons.
    2:{ rewrite (ev_run i (JWrite f k) (js ++ rest)) by done. cbn [run_job]. f_equal. apply modify_client_put. }
    destruct (IH (set_writes (set_strand c (js ++ rest)) (pending_writes c ++ [k]) (wire c ++ f))) as (ks & E); [done|done|].
    exists ks. etrans; [exact E|]. cbn. by rewrite app_assoc.
  - erewrite play_cons.
    2:{ rewrite (ev_run i (JCancelIfActive id) (js ++ rest)) by done. cbn [run_job]. f_equal.
        erewrite st_bind_Ok by apply get_client_put. cbn [active_piece_ set_strand]. rewrite Ha.
        destruct (Z.eqb_spec (index p) id); [done|]. reflexivity. }
    destruct (IH (set_strand c (js ++ rest))) as (ks & E); [done|done|]. exists ks. etrans; [exact E|]. done.
Qed.

(** The frames of the requests for a whole piece. *)
Definition request_bytes (n : nat) (sz : Z) : bytes :=
  concat (map (fun '(b, len) => request_frame (Z.of_nat n) b len) (block_tiles 0 sz)).

Lemma requests_bytes n sz : concat (map job_bytes (requests (Z.of_nat n) (block_tiles 0 sz))) = request_bytes n sz.
Proof. unfold requests, request_bytes. rewrite map_map. f_equal. by apply map_ext; intros []. Qed.

Lemma requests_plain c idx l : Forall (plain c) (requests idx l).
Proof. apply list.Forall_forall. intros j ([b len] & -> & _)%list_elem_of_fmap. left. by eexists _, _. Qed.

(** A client that waits for the blocks of the fresh piece [n] of [sz] bytes. *)
Definition waiting_for c (n : nat) (sz : Z) : Prop :=
  listening c ∧ active_piece_ c = Some (new_piece (Z.of_nat n) (block_count_of sz), sz).

(** After the last piece the client asks for the next one, and its strand runs dry. *)
Lemma ask_next i c js w n sz w1 :
  connected c → rm_order (msg_to_read_ c) = BigEndian → pending_reads c = [(Z.of_nat header_length, RHeader)] →
  strand c = JClearAndTry :: js → IsClientInterested c = true →
  (∀ j, j ∈ js → (∃ f k, j = JWrite f k) ∨ ∃ id, j = JCancelIfActive id ∧ id ≠ Z.of_nat n) →
  let c1 := set_active_piece (set_strand c js) None in
  TryToRequestPiece i (put i c1 w) = Ok (tt, put i (asking c1 n sz) w1) →
  ∃ c', play (replicate (S (length js + length (block_tiles 0 sz))) (EvRun i)) (put i c w) = Some (put i c' w1) ∧
    waiting_for c' n sz ∧ slave_peer_ c' = slave_peer_ c ∧ status_ c' = status_ c ∧
    wire c' = wire c ++ concat (map job_bytes js) ++ request_bytes n sz.
Proof.
  intros Hc Ho Hr Hs Hint Hjs c1 E. cbn [replicate]. erewrite play_cons.
  2:{ rewrite (ev_run i JClearAndTry js) by done. cbn [run_job]. f_equal.
      erewrite st_bind_Ok by apply modify_client_put. exact E. }
  assert (interested_client c1 = c1) as Hic.
  { unfold interested_client. change (IsClientInterested c1) with (IsClientInterested c). by rewrite Hint. }
  assert (strand (asking c1 n sz) = (js ++ requests (Z.of_nat n) (block_tiles 0 sz)) ++ []) as Hst.
  { unfold asking. rewrite Hic, app_nil_r. done. }
  destruct (drain i _ [] (asking c1 n sz) w1 Hst) as (ks & Ed).
  { apply list.Forall_app. split; [|apply requests_plain]. apply list.Forall_forall. intros j [Hw|(id & -> & Hne)]%Hjs.
    - by left.
    - right. eexists id, _, _. split; [done|]. split; [done|]. cbn. by apply not_eq_sym. }
  unfold requests in Ed. rewrite length_app, length_map in Ed. fold (requests (Z.of_nat n) (block_tiles 0 sz)) in Ed.
  rewrite Ed. eexists. split; [done|]. rewrite map_app, concat_app, requests_bytes.
  unfold asking. rewrite Hic. split_and!; try done.
Qed.

(** The bits of the connection state. *)
Lemma unchoked_flags c x :
  0 ≤ status_ c < 16 → x = u8 (Z.land (status_ c) (Z.lnot peer_choking)) →
  IsRemoteChoked (set_status c x) = false ∧ IsClientInterested (set_status c x) = IsClientInterested c.
Proof.
  intros Hs ->. unfold IsRemoteChoked, IsClientInterested. cbn [status_ set_status].
  assert (∃ n, (n < 16)%nat ∧ status_ c = Z.of_nat n) as (n & Hn & E) by (exists (Z.to_nat (status_ c)); lia).
  rewrite E. clear E Hs. do 16 (destruct n as [|n]; [vm_compute; by split|]). lia.
Qed.

Definition unchoke_frame : bytes := frame (body_of unchoke []).

(** The client when an unchoke message has been read. *)
Definition unchoked c : PeerClient B :=
  set_status (received (body_of unchoke []) 1 (body_read c)) (u8 (Z.land (status_ c) (Z.lnot peer_choking))).

(** The other side allows requests: the client asks for its first piece. *)
Lemma ask_first i c w n sz w1 :
  listening c → active_piece_ c = None → IsClientInterested (unchoked c) = true →
  TryToRequestPiece i (put i (unchoked c) w) = Ok (tt, put i (asking (unchoked c) n sz) w1) →
  ∃ c', play (deliver i (S (length (block_tiles 0 sz))) unchoke_frame) (put i c w) = Some (put i c' w1) ∧
    waiting_for c' n sz ∧ slave_peer_ c' = slave_peer_ c ∧ status_ c' = status_ (unchoked c) ∧
    wire c' = wire c ++ request_bytes n sz.
Proof.
  intros Hl Ha Hint E. unfold unchoke_frame. rewrite deliver_body by (done || (rewrite length_body_of; cbn; lia)).
  erewrite st_bind_Ok by (rewrite handle_unchoke; exact E).
  assert (interested_client (unchoked c) = unchoked c) as Hic by (unfold interested_client; by rewrite Hint).
  set (c1 := asking (unchoked c) n sz). destruct Hl as (Hc & Hs & Hr & Ho).
  assert (connected c1) as Hc1 by (unfold c1, asking; by rewrite Hic).
  unfold do_read_header. erewrite st_bind_Ok by apply get_client_put. cbv beta. rewrite Hc1. unfold Read.
  rewrite Post_put.
  set (rd := JRead (Z.of_nat header_length) RHeader).
  assert (strand (posted c1 [rd]) = requests (Z.of_nat n) (block_tiles 0 sz) ++ [rd]) as Hst.
  { unfold c1, asking. rewrite Hic. cbn. by rewrite Hs. }
  destruct (drain i _ _ (posted c1 [rd]) w1 Hst (requests_plain _ _ _)) as (ks & Ed).
  replace (S (length (block_tiles 0 sz))) with (length (requests (Z.of_nat n) (block_tiles 0 sz)) + 1)%nat
    by (unfold requests; rewrite length_map; lia).
  rewrite replicate_add, play_app, Ed. cbn [mbind option_bind replicate]. erewrite play_cons.
  2:{ rewrite (ev_run i rd []) by done. cbn [run_job rd]. f_equal. apply modify_client_put. }
  cbn [play]. eexists. split; [done|]. rewrite requests_bytes. unfold c1, asking. rewrite Hic.
  split_and!; try done.
Qed.
End Asking.

(** ** Serving *)

Section Serving.
Context {B : Type} `{DynamicBitsetLaws B} `{Host} `{S1 : Sha1}.
Implicit Types (w : World B) (c : PeerClient B).

(** The file worker has nothing to do. *)
Record idle w : Prop := {
  idle_on : quit_ (a_worker_ (file_manager_ w)) = false;
  idle_going : stopped_ (a_worker_ (file_manager_ w)) = false;
  idle_queue : queue_ (a_worker_ (file_manager_ w)) = [];
  idle_map : executing_callbacks_ (a_worker_ (file_manager_ w)) = ∅;
  idle_keys : keys_null (file_manager_ w);
}.

(** A client that lets the other side, which is interested, ask for pieces. *)
Definition serving c w (rs : list Z) : Prop :=
  listening c ∧ IsRemoteInterested c = true ∧ IsClientChoked c = false ∧
  Size (bitfield_ (slave_peer_ c)) = piece_count_of (meta_pieces_ w) ∧
  Size (bitfield_ (as_peer (master_peer_ w))) = piece_count_of (meta_pieces_ w) ∧
  Z.of_nat (piece_count_of (meta_pieces_ w)) < 2 ^ 32 ∧ idle w ∧ random_ w = rs.

Lemma same_manager_refl w : same_but_manager w w.
Proof. unfold same_but_manager. done. Qed.
Lemma same_manager_trans w1 w2 w3 : same_but_manager w1 w2 → same_but_manager w2 w3 → same_but_manager w1 w3.
Proof. unfold same_but_manager. intros (?&?&?&?&?) (?&?&?&?&?). split_and!; congruence. Qed.

(** The piece is announced by the other side: nothing happens if we have it. *)
Lemma hear_have j c w rs n :
  serving c w rs → (n < piece_count_of (meta_pieces_ w))%nat →
  db_test (bitfield_ (as_peer (master_peer_ w))) n = true →
  ∃ c', play (deliver j 1 (have_frame (Z.of_nat n))) (put j c w) = Some (put j c' w) ∧
    serving c' w rs ∧ wire c' = wire c.
Proof.
  intros (Hl & Hi & Hch & Hsz & Hbits & H32 & Hidle & Hr) Hn Hdone. unfold have_frame.
  rewrite deliver_body by (done || (rewrite length_body_of; cbn; lia)). rewrite u32_small by lia.
  destruct (Set_in (bitfield_ (slave_peer_ c)) n ltac:(lia)) as (bits & Hset & Hs' & _).
  set (body := body_of have [(4%nat, Z.of_nat n)]).
  set (c1 := set_slave (received body 5 (body_read c)) (set_bitfield (slave_peer_ c) bits)).
  erewrite st_bind_Ok.
  2:{ unfold body. rewrite handle_have by lia. fold body. unfold learn_have.
      erewrite st_bind_Ok by reflexivity. cbv beta. cbn [put set_clients meta_pieces_].
      destruct (Z.leb_spec (Z.of_nat (piece_count_of (meta_pieces_ w))) (Z.of_nat n)); [lia|].
      erewrite st_bind_Ok by apply get_client_put. cbv beta. rewrite Nat2Z.id.
      erewrite st_bind_Ok by (unfold lift; cbn [slave_peer_ received set_msg body_read set_timeout set_reads];
        rewrite Hset; reflexivity). cbv beta.
      erewrite st_bind_Ok by apply modify_client_put. cbv beta.
      unfold OnHave. erewrite st_bind_Ok by reflexivity. cbv beta. cbn [put set_clients meta_pieces_].
      destruct (Z.leb_spec (Z.of_nat (piece_count_of (meta_pieces_ w))) (Z.of_nat n)); [lia|].
      erewrite st_bind_Ok.
      2:{ unfold PieceDone. erewrite st_bind_Ok by reflexivity. cbn [put set_clients master_peer_].
          unfold lift, IsPieceDone. rewrite u32_small, Nat2Z.id, Test_in, Hdone by lia. reflexivity. }
      cbv iota beta. cbn [negb when]. exact (eq_refl (Ok (tt, put j c1 w))). }
  destruct Hl as (Hc & Hs & Hrd & Ho). unfold do_read_header. erewrite st_bind_Ok by apply get_client_put. cbv beta.
  change (is_disconnected c1) with (is_disconnected c). rewrite Hc. unfold Read. rewrite Post_put.
  cbn [replicate]. erewrite play_cons.
  2:{ rewrite (ev_run j (JRead (Z.of_nat header_length) RHeader) []) by (cbn; by rewrite Hs). cbn [run_job]. f_equal.
      apply modify_client_put. }
  eexists. split; [reflexivity|]. split; [|done]. split; [repeat split; done|]. split_and!; try done.
  cbn. by rewrite Hs'.
Qed.

(** A request is read, the worker answers it, the block is written. *)
Lemma serve_request j c w r rs n D b len :
  serving c w (r :: rs) → (n < piece_count_of (meta_pieces_ w))%nat →
  db_test (bitfield_ (as_peer (master_peer_ w))) n = true →
  0 ≤ b < 2 ^ 32 → 0 ≤ len < 2 ^ 31 → b + len ≤ Z.of_nat (length D) →
  (∃ b0, ReadPieceBlockFromFile (files_ (file_manager_ w)) n b len (disk w)
     = Ok (mkBlock (take (Z.to_nat len) (drop (Z.to_nat b) D)) b0)) →
  ∃ c' w', play (deliver j 1 (request_frame (Z.of_nat n) b len) ++ [EvWorker; EvRun j]) (put j c w)
      = Some (put j c' w') ∧
    serving c' w' rs ∧ same_but_manager w w' ∧
    wire c' = wire c ++ block_frame (Z.of_nat n) b (take (Z.to_nat len) (drop (Z.to_nat b) D)).
Proof.
  intros (Hl & Hi & Hch & Hsz & Hbits & H32 & Hidle & Hr) Hn Hdone Hb Hlen Hbl [b0 Hread].
  pose proof Hl as (Hc & Hs & Hrd & Ho). set (data := take _ _) in *.
  set (body := body_of request (request_fields (Z.of_nat n) b len)).
  set (c1 := received body 13 (body_read c)).
  destruct (OnRequest_put j (Z.of_nat n) b len c1 w r rs) as (w1 & E1 & Hsame & (Hq1 & Hs1 & nd & Hnd & Hj & Hmap) & Hk1 & Hr1);
    [apply Hidle..| |lia| |].
  { rewrite Hr, (idle_map _ Hidle). cbn. rewrite decide_False; [done|]. rewrite lookup_empty. by intros [? ?]. }
  { unfold IsPieceDone. rewrite u32_small, Nat2Z.id, Test_in, Hdone by lia. done. }
  pose proof Hsame as (Ec & Ed & Em & Ef & Ep).
  rewrite play_app. unfold request_frame. rewrite !u32_small by lia.
  change [(4%nat, Z.of_nat n); (4%nat, b); (4%nat, len)] with (request_fields (Z.of_nat n) b len).
  rewrite deliver_body by (done || (rewrite length_body_of; cbn; lia)). fold body.
  erewrite st_bind_Ok.
  2:{ unfold body. rewrite handle_request by lia. fold body.
      change (IsRemoteInterested (body_read c)) with (IsRemoteInterested c).
      change (IsClientChoked (body_read c)) with (IsClientChoked c). rewrite Hi, Hch. cbn [negb andb]. exact E1. }
  unfold do_read_header. erewrite st_bind_Ok by apply get_client_put. cbv beta.
  change (is_disconnected c1) with (is_disconnected c). rewrite Hc. unfold Read. rewrite Post_put. cbn [replicate].
  erewrite play_cons.
  2:{ rewrite (ev_run j (JRead (Z.of_nat header_length) RHeader) []) by (cbn; by rewrite Hs). cbn [run_job]. f_equal.
      apply modify_client_put. }
  match goal with |- context [play [] ?x] => change (play [] x) with (Some x) end.
  cbn [mbind option_bind]. set (c2 := set_reads _ _).
  pose (a1 := mkWorker (J:=FileJob) [] (delete (n_id nd) (executing_callbacks_ (a_worker_ (file_manager_ w1))))
                       false false (next_addr (a_worker_ (file_manager_ w1)))).
  destruct (run_upload_put j (Z.of_nat n) b len (mkBlock data b0) c2 (set_manager w1 (set_worker (file_manager_ w1) a1)))
    as (w2 & E2 & Hsame2 & Ha2 & Hk2 & Hr2); [done|done| | | |].
  { change (Z.of_nat n < Z.of_nat (piece_count_of (meta_pieces_ w1))). rewrite Em. lia. }
  { cbn. by rewrite Ef, Ed, Nat2Z.id. }
  { cbn. subst data. rewrite length_take. lia. }
  cbn in Hr2, Ha2. erewrite play_cons.
  2:{ cbn [handle_event put set_clients file_manager_]. unfold run_round. rewrite Hq1, Hs1, Hnd. cbn. rewrite Hj.
      f_equal. exact E2. }
  cbn [data_]. set (jw := JWrite _ WRemind) in *.
  erewrite play_cons.
  2:{ rewrite (ev_run j jw []) by done. cbn [run_job jw]. f_equal. apply modify_client_put. }
  eexists _, w2. split; [reflexivity|].
  assert (same_but_manager w w2) as Hsame'.
  { eapply same_manager_trans; [exact Hsame|]. destruct Hsame2 as (?&?&?&?&?). cbn in *. unfold same_but_manager. done. }
  split; [|split; [exact Hsame'|done]]. destruct Hsame' as (_ & _ & Em' & _ & Ep').
  split; [repeat split; done|]. split_and!; try done; rewrite ?Em', ?Ep'; try done.
  - split; rewrite ?Ha2; try done. cbn. rewrite Hmap. apply Hidle.
  - by rewrite Hr2, Hr1.
Qed.

(** The requests for a piece, one after the other. *)
Definition serve_events (j n : nat) (l : list (Z * Z)) : list (event (B:=B)) :=
  concat (map (fun '(b, len) => deliver j 1 (request_frame (Z.of_nat n) b len) ++ [EvWorker; EvRun j]) l).

Definition slice_frame (n : nat) (D : bytes) (t : Z * Z) : bytes :=
  block_frame (Z.of_nat n) (fst t) (take (Z.to_nat (snd t)) (drop (Z.to_nat (fst t)) D)).

(** Every block of a piece can be read from the files. *)
Definition readable w (n : nat) (D : bytes) : Prop :=
  ∀ beg len, 0 ≤ beg → 0 < len → beg + len ≤ Z.of_nat (length D) →
    ∃ b0, ReadPieceBlockFromFile (files_ (file_manager_ w)) n beg len (disk w)
      = Ok (mkBlock (take (Z.to_nat len) (drop (Z.to_nat beg) D)) b0).

Lemma serve_requests j c w rs n D l :
  serving c w rs → (length l ≤ length rs)%nat → (n < piece_count_of (meta_pieces_ w))%nat →
  db_test (bitfield_ (as_peer (master_peer_ w))) n = true → Z.of_nat (length D) < 2 ^ 31 →
  (∀ t, t ∈ l → 0 ≤ fst t ∧ 0 < snd t ∧ fst t + snd t ≤ Z.of_nat (length D)) → readable w n D →
  ∃ c' w', play (serve_events j n l) (put j c w) = Some (put j c' w') ∧
    serving c' w' (drop (length l) rs) ∧ same_but_manager w w' ∧
    wire c' = wire c ++ concat (map (slice_frame n D) l).
Proof.
  intros Hsv Hlen Hn Hdone HD Hl Hread. revert c w rs Hsv Hlen Hn Hdone Hread.
  induction l as [|[b len] l IH]; intros c w rs Hsv Hlen Hn Hdone Hread.
  { exists c, w. cbn. rewrite app_nil_r. by split_and!. }
  destruct rs as [|r rs]; [cbn in Hlen; lia|]. cbn in Hlen.
  destruct (Hl (b, len)) as (Hb & Hpos & Hbl); [by left|]. cbn [fst snd] in *.
  destruct (serve_request j c w r rs n D b len) as (c1 & w1 & E1 & Hsv1 & Hsame & Hw1); try done; try lia.
  { by apply Hread. }
  pose proof Hsame as (Ec & Ed & Em & Ef & Ep).
  destruct (IH ltac:(intros; apply Hl; by right) c1 w1 rs) as (c2 & w2 & E2 & Hsv2 & Hsame2 & Hw2);
    [done|lia|by rewrite Em|by rewrite Ep|unfold readable; by rewrite Ed, Ef|].
  exists c2, w2. unfold serve_events in *. cbn [map concat]. rewrite play_app, E1. cbn [mbind option_bind].
  split_and!; [done|done|by eapply same_manager_trans|]. rewrite Hw2, Hw1. by rewrite <- app_assoc.
Qed.
End Serving.

Section Tiles.

Lemma tiles_bounds b l e t :
  tiles b l e → t ∈ l → b ≤ fst t ∧ 0 < snd t ≤ most_request_size ∧ fst t + snd t ≤ e.
Proof.
  revert b. induction l as [|[x len] l IH]; intros b Ht; [by intros ?%not_elem_of_nil|].
  cbn in Ht. destruct Ht as (-> & Hl & Ht). assert (b + len ≤ e) as Hle.
  { clear -Ht. revert Ht. generalize (b + len). induction l as [|[y k] l IH]; intros z; cbn; [lia|].
    intros (-> & ? & ?%IH). lia. }
  intros [->|Hin]%elem_of_cons; cbn [fst snd]; [lia|]. specialize (IH _ Ht Hin). lia.
Qed.

(** The blocks the requests for a piece ask for are its blocks. *)
Lemma tiles_blocks n D :
  (0 < length D)%nat →
  map (slice_frame n D) (block_tiles 0 (Z.of_nat (length D)))
    = map (nth_block (Z.of_nat n) D) (seq 0 (blocks_of D)).
Proof.
  intros HD. pose proof (block_count_bounds (Z.of_nat (length D)) ltac:(lia)) as [Hge Hrem].
  assert (Z.to_nat most_request_size = B16) as HB by (pose proof B16_Z; unfold most_request_size; lia).
  set (r := Z.to_nat (block_count_of (Z.of_nat (length D)) - 1)).
  assert (blocks_of D = S r) as -> by (unfold blocks_of, r; lia).
  unfold block_tiles. fold r. rewrite seq_S, !map_app. f_equal.
  - unfold whole_blocks. rewrite map_map. apply map_ext. intros k. unfold slice_frame, nth_block, block_at. cbn [fst snd].
    rewrite Z.add_0_l, HB, Z2Nat.inj_mul, Nat2Z.id, HB by (unfold most_request_size; lia). done.
  - cbn [map Nat.add]. f_equal. unfold slice_frame, nth_block, block_at. cbn [fst snd].
    rewrite Z.add_0_l, Z2Nat.inj_mul, Nat2Z.id, HB by (unfold most_request_size; lia). f_equal.
    pose proof B16_Z. unfold most_request_size in *.
    rewrite !take_ge; [done|rewrite length_drop; subst r; lia..].
Qed.
End Tiles.
