(* ===== verification/Link.v ===== *)
(** * Two clients joined by a connection

    The worlds of two clients and the two directions of a TCP connection
    between a peer client of each: what one of them writes the other one reads,
    in order.  Everything else may happen to either of them in between. *)

From Stdlib Require Import ZArith Lia Strings.Byte.
From coqutil Require Import Byte Word.LittleEndianList.
From stdpp Require Import relations.
From S2P Require Import Prelude Bytes Streams Worker Bencode Text Piece Files FilesFacts.
From S2P Require Import Bitset Bitfield Message Peer World PeerClient PeerFacts Exchange Download.
From S2P Require Import Invariant Handlers Safety Delivery Transfer.

Section Link.
Context {B : Type} `{DynamicBitset B} `{Host} `{Sha1}.
Implicit Types (w : World B) (c : PeerClient B).

(** The two worlds, and how many bytes of the other one's wire each has read. *)
Record Link := mkLink {
  left_world : World B;
  right_world : World B;
  from_right : nat;
  from_left : nat;
}.

(** What an event takes from the connection of client [i]; the handshake of an
    accepted one was read by the listener. *)
Definition bytes_read (i : nat) (e : event (B:=B)) : bytes :=
  match e with
  | EvRead k data | EvAccept k _ data => if decide (k = i) then data else []
  | _ => []
  end.

(** What client [i] has written, nothing before there is one. *)
Definition wire_of (i : nat) w : bytes := match clients w !! i with Some c => wire c | None => [] end.

(** Whether an event is about a new connection. *)
Definition opens (e : event (B:=B)) : bool :=
  match e with EvAccept _ _ _ | EvDial _ _ => true | _ => false end.
Definition settled : list (event (B:=B)) → Prop := Forall (fun e => opens e = false).

Lemma settled_app es es' : settled (es ++ es') ↔ settled es ∧ settled es'.
Proof. apply list.Forall_app. Qed.
Lemma settled_runs i n : settled (replicate n (EvRun i)).
Proof. by apply Forall_replicate. Qed.
Lemma settled_deliver i n f : settled (deliver i n f).
Proof. apply settled_app. split; [by repeat constructor|apply settled_runs]. Qed.

(** Any event of either world, but that no other connection of the left one is
    opened meanwhile; a read of the connection's client takes the next
    bytes the client [i] on the left or [j] on the right has written. *)
Inductive link_step (i j : nat) : Link → Link → Prop :=
  | link_left e a a' b n m :
      handle_event e a = Some (Ok (tt, a')) → opens e = false → bytes_read i e `prefix_of` drop n (wire_of j b) →
      link_step i j (mkLink a b n m) (mkLink a' b (n + length (bytes_read i e)) m)
  | link_right e a b b' n m :
      handle_event e b = Some (Ok (tt, b')) → bytes_read j e `prefix_of` drop m (wire_of i a) →
      link_step i j (mkLink a b n m) (mkLink a b' n (m + length (bytes_read j e))).

Definition reads (i : nat) (es : list (event (B:=B))) : bytes := concat (map (bytes_read i) es).

Lemma reads_app i es es' : reads i (es ++ es') = reads i es ++ reads i es'.
Proof. unfold reads. by rewrite map_app, concat_app. Qed.

Lemma reads_deliver i n f : reads i (deliver i n f) = f.
Proof.
  unfold deliver. rewrite reads_app. assert (reads i (replicate n (EvRun i)) = []) as ->.
  { induction n as [|n IH]; [done|]. exact IH. }
  unfold reads. cbn [map concat bytes_read]. rewrite !decide_True by done. cbn. by rewrite !app_nil_r, take_drop.
Qed.

Lemma wire_of_put i c w : wire_of i (put i c w) = wire c.
Proof. unfold wire_of. by rewrite clients_put. Qed.

(** A run of one side that reads what the other one has written. *)
Lemma play_left i j es a a' b n m :
  play es a = Some a' → settled es → reads i es `prefix_of` drop n (wire_of j b) →
  rtc (link_step i j) (mkLink a b n m) (mkLink a' b (n + length (reads i es)) m).
Proof.
  intros E Hq. revert a n E. induction Hq as [|e es Ho Hq IH]; intros a n E Hp; cbn [play] in E.
  { injection E as <-. cbn. rewrite Nat.add_0_r. apply rtc_refl. }
  destruct (handle_event e a) as [[[[] a1]| | | |]|] eqn:Ee; try done.
  unfold reads in *. cbn [map concat] in *. destruct Hp as [rest Hp]. rewrite <- app_assoc in Hp.
  eapply rtc_l; [eapply link_left; [exact Ee|exact Ho|by eexists]|].
  rewrite length_app, Nat.add_assoc. apply IH; [done|]. exists rest.
  rewrite <- drop_drop, Hp. by rewrite drop_app_length.
Qed.

Lemma play_right i j es a b b' n m :
  play es b = Some b' → reads j es `prefix_of` drop m (wire_of i a) →
  rtc (link_step i j) (mkLink a b n m) (mkLink a b' n (m + length (reads j es))).
Proof.
  intros E. revert b m E. induction es as [|e es IH]; intros b m E Hp; cbn [play] in E.
  { injection E as <-. cbn. rewrite Nat.add_0_r. apply rtc_refl. }
  destruct (handle_event e b) as [[[[] b1]| | | |]|] eqn:Ee; try done.
  unfold reads in *. cbn [map concat] in *. destruct Hp as [rest Hp]. rewrite <- app_assoc in Hp.
  eapply rtc_l; [eapply link_right; [exact Ee|by eexists]|].
  rewrite length_app, Nat.add_assoc. apply IH; [done|]. exists rest.
  rewrite <- drop_drop, Hp. by rewrite drop_app_length.
Qed.

(** The same for a side that has read [seen] of what the other one's client wrote. *)
Lemma left_reads i j es a a' s v seen rest m :
  play es a = Some a' → settled es → wire s = seen ++ reads i es ++ rest →
  rtc (link_step i j) (mkLink a (put j s v) (length seen) m) (mkLink a' (put j s v) (length (seen ++ reads i es)) m).
Proof.
  intros E Hq Hw. rewrite length_app. apply play_left; [done|done|]. rewrite wire_of_put, Hw, drop_app_length. by exists rest.
Qed.

Lemma right_reads i j es c w b b' seen rest n :
  play es b = Some b' → wire c = seen ++ reads j es ++ rest →
  rtc (link_step i j) (mkLink (put i c w) b n (length seen)) (mkLink (put i c w) b' n (length (seen ++ reads j es))).
Proof.
  intros E Hw. rewrite length_app. apply play_right; [done|]. rewrite wire_of_put, Hw, drop_app_length. by exists rest.
Qed.

(** Each side only takes steps of the peer protocol. *)
Lemma link_reachable i j s s' :
  rtc (link_step i j) s s' →
  reachable (left_world s) (left_world s') ∧ reachable (right_world s) (right_world s').
Proof.
  revert s'. apply rtc_ind_r; [split; constructor|]. intros s1 s2 _ Hs [Hl Hr].
  destruct Hs as [e a a' b n m E Ho Hp|e a b b' n m E Hp]; cbn in *; (split; [|]); try done;
    (eapply reachable_step; [done|by eapply step_event]).
Qed.
End Link.

Arguments Link B : clear implicits.
