(* ===== verification/Greeting.v ===== *)
(** * From a connection to the first request

    Two clients of a torrent meet: one dials, the other one's listener accepts,
    both exchange handshakes and bitfields, the one that lacks pieces says that
    it is interested and is unchoked.  The lemmas follow the events of each
    side; [greeting_run] puts them together over the connection. *)

From Stdlib Require Import ZArith Lia Strings.Byte Strings.String.
From coqutil Require Import Byte Word.LittleEndianList.
From stdpp Require Import relations.
From S2P Require Import Prelude Bytes Streams Worker Bencode Text Piece Files FilesFacts.
From S2P Require Import Bitset Bitfield Message Peer World PeerClient PeerFacts Exchange Download.
From S2P Require Import Invariant Handlers Safety Delivery Transfer Link.

(** Names the client [i] of the state in the goal. *)
Ltac name_client i c := match goal with |- context [put i ?x ?w] => set (c := x) end.

(** ** Running the strand dry *)

Section Hearing.
Context {B : Type} `{DynamicBitsetLaws B} `{Host} `{Sha1}.
Implicit Types (w : World B) (c : PeerClient B).

Definition read_header : Job := JRead (Z.of_nat header_length) RHeader.

(** What matters of a client that listens. *)
Record listens_as c (p : Peer B) (piece : option (Piece * Z)) (st : Z) (written : bytes) : Prop := {
  la_listening : listening c;
  la_slave : slave_peer_ c = p;
  la_active : active_piece_ c = piece;
  la_status : status_ c = st;
  la_wire : wire c = written;
}.

Lemma drain_read i c js w :
  connected c → rm_order (msg_to_read_ c) = BigEndian → pending_reads c = [] →
  strand c = js ++ [read_header] → Forall (plain c) js →
  ∃ c', play (replicate (S (length js)) (EvRun i)) (put i c w) = Some (put i c' w) ∧
    listens_as c' (slave_peer_ c) (active_piece_ c) (status_ c) (wire c ++ concat (map job_bytes js)).
Proof.
  intros Hc Ho Hr Hs Hp. destruct (drain i js [read_header] c w Hs Hp) as (ks & Ed).
  replace (S (length js)) with (length js + 1)%nat by lia. rewrite replicate_add, play_app, Ed.
  cbn [mbind option_bind replicate]. erewrite play_cons.
  2:{ rewrite (ev_run i read_header []) by done. cbn [run_job read_header]. f_equal. apply modify_client_put. }
  cbn [play]. eexists. split; [done|]. cbn. rewrite Hr. by repeat split.
Qed.

(** A frame whose handler only posts messages. *)
Lemma hear i c w body c1 js w1 :
  listening c → 0 < Z.of_nat (length body) < 2 ^ 32 →
  handle_response i (put i (received body 1 (body_read c)) w) = Ok (tt, put i (posted c1 js) w1) →
  connected c1 → strand c1 = [] → pending_reads c1 = [] → rm_order (msg_to_read_ c1) = BigEndian →
  Forall (plain c1) js →
  ∃ c', play (deliver i (S (length js)) (frame body)) (put i c w) = Some (put i c' w1) ∧
    listens_as c' (slave_peer_ c1) (active_piece_ c1) (status_ c1) (wire c1 ++ concat (map job_bytes js)).
Proof.
  intros Hl Hb E Hc Hs Hr Ho Hp. rewrite deliver_body by done. erewrite st_bind_Ok by exact E.
  unfold do_read_header. erewrite st_bind_Ok by apply get_client_put. cbv beta.
  change (is_disconnected (posted c1 js)) with (is_disconnected c1). rewrite Hc. unfold Read. rewrite Post_put.
  rewrite posted_posted. fold read_header.
  apply (drain_read i (posted c1 (js ++ [read_header])) js w1); try done. cbn. by rewrite Hs.
Qed.

(** ** Single events *)

Lemma ev_written i k ks c w :
  pending_writes c = k :: ks →
  handle_event (EvWritten i) (put i c w) = Some
    (match k with
     | WRemind => remind_about_self i
     | WAccess => access i
     | WReadHandshake => _ ← Read i (Z.of_nat handshake_length) RHandshake; Await i ACancel
     end (put i (set_writes c ks (wire c)) w)).
Proof.
  intros E. cbn [handle_event]. rewrite clients_put. cbn [mbind option_bind]. rewrite E. cbn [mbind option_bind].
  f_equal. erewrite st_bind_Ok by apply modify_client_put. by destruct k.
Qed.

Lemma ev_connected i n c w :
  connecting c = S n →
  handle_event (EvConnected i) (put i c w)
    = Some (send_handshake i (put i (set_timeout (set_connecting c n) None) w)).
Proof.
  intros E. cbn [handle_event]. rewrite clients_put. cbn [mbind option_bind]. rewrite E. cbn [mbind option_bind].
  f_equal. erewrite st_bind_Ok by apply modify_client_put. unfold stop_await.
  by erewrite st_bind_Ok by apply modify_client_put.
Qed.

(** ** Dialling and accepting *)

(** The master peer has room for the address [a]. *)
Definition welcomes w (a : Z) : Prop :=
  peers_subscribers_ (master_peer_ w) !! a = None ∧ IpToStr a ≠ IpToStr (ip (as_peer (master_peer_ w))).

Definition with_sub (i : nat) (a : Z) w : World B :=
  let m := master_peer_ w in set_master w (set_subscribers m (<[a := i]> (peers_subscribers_ m))).

(** The client's handshake names [ih]. *)
Definition says w (ih : bytes) : Prop :=
  ∃ pid, handshake_message_ (master_peer_ w) = MakeHandshake ih pid ∧ length ih = 20%nat ∧ length pid = 20%nat.

Definition says_bytes (ih hs : bytes) : Prop :=
  ∃ pid, hs = MakeHandshake ih pid ∧ length ih = 20%nat ∧ length pid = 20%nat.

Lemma says_check w ih hs : says w ih → says_bytes ih hs → check_handshake (master_peer_ w) hs = Ok true.
Proof.
  intros (pid & Hw & Hi & Hp) (pid' & -> & _ & Hp').
  destruct (handshake_layout ih pid Hi Hp) as (_ & Hours & _).
  destruct (handshake_layout ih pid' Hi Hp') as (Hl & Htheirs & _).
  unfold check_handshake. change (MakeHandshake ih pid' !! 0%nat) with (Some x13). cbn [opt_ub mbind outcome_bind].
  rewrite decide_True by done.
  assert (slice (MakeHandshake ih pid') 1 19 = Ok (str "BitTorrent protocol")) as ->.
  { unfold slice. rewrite Hl. reflexivity. }
  cbn [mbind outcome_bind]. rewrite decide_True by done. rewrite Htheirs. cbn [mbind outcome_bind].
  rewrite Hw, Hours. cbn [mbind outcome_bind]. by rewrite bool_decide_true.
Qed.

(** Both sides of a connection start from a new client object. *)
Definition dialled (p : Peer B) : PeerClient B := posted (new_client p) [JConnect; JAwait ACancel].
Definition arrived (p : Peer B) (hs : bytes) : PeerClient B := posted (new_client p) [JVerifyHandshake hs].

Lemma subscribe_new i (p : Peer B) hs w :
  clients w !! i = None → welcomes w (ip p) →
  (_ ← new_object i p; Subscribe i hs) w
    = Process i hs (put i (new_client p) (with_sub i (ip p) w)).
Proof.
  intros Hi [Hsub Hip]. erewrite st_bind_Ok by (unfold new_object; rewrite Hi; reflexivity). cbv beta.
  change (set_clients w (<[i:=new_client p]> (clients w))) with (put i (new_client p) w).
  unfold Subscribe. erewrite st_bind_Ok by apply get_client_put. erewrite st_bind_Ok by reflexivity. cbv beta.
  cbn [put set_clients master_peer_]. unfold subscribe_entry. cbn [slave_peer_ new_client].
  rewrite decide_False by done. rewrite Hsub. by erewrite st_bind_Ok by reflexivity.
Qed.

Lemma ev_dial i (p : Peer B) w :
  clients w !! i = None → welcomes w (ip p) →
  handle_event (EvDial i p) w = Some (Ok (tt, put i (dialled p) (with_sub i (ip p) w))).
Proof.
  intros Hi Hw. cbn [handle_event]. rewrite Hi, subscribe_new by done. cbn [Process].
  unfold Connect, Await. erewrite st_bind_Ok by apply Post_put. rewrite Post_put. by rewrite posted_posted.
Qed.

Lemma ev_accept j (p : Peer B) ih hs w :
  clients w !! j = None → welcomes w (ip p) → says_bytes ih hs → info_hash_ w = ih →
  handle_event (EvAccept j p hs) w = Some (Ok (tt, put j (arrived p hs) (with_sub j (ip p) w))).
Proof.
  intros Hi Hw (pid & -> & Hih & Hpid) Hinfo. destruct (handshake_layout ih pid Hih Hpid) as (Hl & Hs & _).
  cbn [handle_event]. rewrite Hi, Hs, Hl, Hinfo, !bool_decide_true by done. cbn [andb].
  rewrite subscribe_new by done. cbn [Process]. by rewrite Post_put.
Qed.

(** ** The handshakes *)

Definition hello_frame (bits : B) : bytes := frame (bitfield_body bits).
Definition my_bits w : B := bitfield_ (as_peer (master_peer_ w)).

(** The flags a client starts with. *)
Definition both_choking : Z := Z.lor am_choking peer_choking.

(** [access] and the three jobs it posts. *)
Lemma access_run i c w :
  connected c → rm_order (msg_to_read_ c) = BigEndian → pending_reads c = [] → strand c = [] →
  Z.of_nat (Size (my_bits w)) < 2 ^ 24 →
  ∃ c1 c2, access i (put i c w) = Ok (tt, put i c1 w) ∧
    play (replicate 3 (EvRun i)) (put i c1 w) = Some (put i c2 w) ∧
    listens_as c2 (set_bitfield (slave_peer_ c) (Bitfield_sized (Size (my_bits w)))) (active_piece_ c) (status_ c)
      (wire c ++ hello_frame (my_bits w)).
Proof.
  intros Hc Ho Hr Hs Hz. unfold access. erewrite st_bind_Ok by reflexivity. cbv beta.
  cbn [put set_clients master_peer_]. fold (put i c w). fold (my_bits w).
  erewrite st_bind_Ok by apply modify_client_put. cbv beta. set (c0 := set_slave c _).
  erewrite st_bind_Ok by (by apply send_bitfield_put). cbv beta. fold (my_bits w) (hello_frame (my_bits w)).
  unfold drop_timeout, Await. erewrite st_bind_Ok by apply Post_put. cbv beta. rewrite posted_posted.
  unfold remind_about_self. erewrite st_bind_Ok by apply modify_client_put. cbv beta.
  unfold do_read_header. erewrite st_bind_Ok by apply get_client_put. cbv beta.
  set (c1 := set_keep_alive (B:=B) _ true). change (is_disconnected c1) with (is_disconnected c). rewrite Hc.
  unfold Read. rewrite Post_put. eexists _, _. split; [reflexivity|].
  assert (strand (posted c1 [JRead (Z.of_nat header_length) RHeader])
    = [JWrite (hello_frame (my_bits w)) WRemind; JAwait ADisconnect; read_header]) as Hst by (cbn; by rewrite Hs).
  split.
  - cbn [replicate]. erewrite play_cons.
    2:{ rewrite (ev_run i _ _ _ w Hst). cbn [run_job]. f_equal. apply modify_client_put. }
    erewrite play_cons.
    2:{ rewrite (ev_run i (JAwait ADisconnect) [read_header]) by done. cbn [run_job]. f_equal. apply modify_client_put. }
    erewrite play_cons.
    2:{ rewrite (ev_run i read_header []) by done. cbn [run_job read_header]. f_equal. apply modify_client_put. }
    reflexivity.
  - cbn. rewrite Hr. by repeat split.
Qed.

(** The side that accepts: it answers the handshake with a copy of it. *)
Definition answer_events (j : nat) (p : Peer B) (hs : bytes) : list (event (B:=B)) :=
  [EvAccept j p hs; EvRun j; EvRun j; EvWritten j] ++ replicate 3 (EvRun j).

Lemma answer_run j (p : Peer B) ih hs w :
  clients w !! j = None → welcomes w (ip p) → says_bytes ih hs → says w ih → info_hash_ w = ih →
  Z.of_nat (Size (my_bits w)) < 2 ^ 24 →
  ∃ c, play (answer_events j p hs) w = Some (put j c (with_sub j (ip p) w)) ∧
    listens_as c (set_bitfield p (Bitfield_sized (Size (my_bits w)))) None both_choking
      (hs ++ hello_frame (my_bits w)).
Proof.
  intros Hj Hw Hhs Hsay Hinfo Hz. set (v := with_sub j (ip p) w). unfold answer_events.
  cbn [app]. erewrite play_cons by (by eapply ev_accept). fold v.
  erewrite play_cons.
  2:{ rewrite (ev_run j (JVerifyHandshake hs) []) by done. cbn [run_job]. f_equal. unfold verify_handshake.
      erewrite st_bind_Ok by apply modify_client_put. erewrite st_bind_Ok by reflexivity. cbv beta.
      erewrite st_bind_Ok.
      2:{ unfold lift. rewrite (says_check (put j _ v) ih hs) by done. reflexivity. }
      cbv iota beta. apply Post_put. }
  erewrite play_cons.
  2:{ rewrite (ev_run j (JWrite hs WAccess) []) by done. cbn [run_job]. f_equal. apply modify_client_put. }
  name_client j c.
  destruct (access_run j (set_writes c [] (wire c)) v) as (c1 & c2 & Ea & Ep & Hl); try done.
  exists c2. split; [|exact Hl]. erewrite play_cons; [exact Ep|].
  rewrite (ev_written j WAccess []) by done. f_equal. exact Ea.
Qed.

(** The side that dialled. *)
Definition call_events (i : nat) : list (event (B:=B)) := [EvRun i; EvRun i; EvConnected i; EvRun i].

(** It has sent its handshake. *)
Definition called (p : Peer B) (hs : bytes) : PeerClient B :=
  set_writes (new_client p) [WReadHandshake] hs.

Lemma call_run i (p : Peer B) w :
  play (call_events i) (put i (dialled p) w)
    = Some (put i (called p (handshake_message_ (master_peer_ w))) w).
Proof.
  unfold call_events. erewrite play_cons.
  2:{ rewrite (ev_run i JConnect [JAwait ACancel]) by done. cbn [run_job]. f_equal. apply modify_client_put. }
  erewrite play_cons.
  2:{ rewrite (ev_run i (JAwait ACancel) []) by done. cbn [run_job]. f_equal. apply modify_client_put. }
  name_client i c. erewrite play_cons.
  2:{ rewrite (ev_connected i 0) by done. f_equal. unfold send_handshake.
      erewrite st_bind_Ok by reflexivity. apply Post_put. }
  erewrite play_cons.
  2:{ rewrite (ev_run i (JWrite (handshake_message_ (master_peer_ w)) WReadHandshake) []) by done.
      cbn [run_job]. f_equal. apply modify_client_put. }
  reflexivity.
Qed.

Definition greet_events (i : nat) (hs : bytes) : list (event (B:=B)) :=
  [EvWritten i; EvRun i; EvRun i; EvRead i hs] ++ replicate 3 (EvRun i).

Lemma greet_run i (p : Peer B) ih hs w :
  says_bytes ih hs → says w ih → Z.of_nat (Size (my_bits w)) < 2 ^ 24 →
  ∃ c, play (greet_events i hs) (put i (called p (handshake_message_ (master_peer_ w))) w) = Some (put i c w) ∧
    listens_as c (set_bitfield p (Bitfield_sized (Size (my_bits w)))) None both_choking
      (handshake_message_ (master_peer_ w) ++ hello_frame (my_bits w)).
Proof.
  intros Hhs Hsay Hz. unfold greet_events. cbn [app]. set (c := called p _).
  erewrite play_cons.
  2:{ rewrite (ev_written i WReadHandshake []) by done. f_equal.
      unfold Read. erewrite st_bind_Ok by apply Post_put. unfold Await. rewrite Post_put, posted_posted. reflexivity. }
  name_client i c1. erewrite play_cons.
  2:{ rewrite (ev_run i (JRead (Z.of_nat handshake_length) RHandshake) [JAwait ACancel]) by done. cbn [run_job].
      f_equal. apply modify_client_put. }
  erewrite play_cons.
  2:{ rewrite (ev_run i (JAwait ACancel) []) by done. cbn [run_job]. f_equal. apply modify_client_put. }
  name_client i c2. destruct Hhs as (pid' & Ehs & Hih & Hpid'). pose proof Ehs as Ehs'.
  destruct (handshake_layout ih pid' Hih Hpid') as (Hl & Htheirs & _). rewrite <- Ehs in Hl, Htheirs.
  destruct (access_run i (set_timeout (set_reads c2 []) None) w) as (c3 & c4 & Ea & Ep & Hla); try done.
  exists c4. split; [|exact Hla]. erewrite play_cons; [exact Ep|].
  rewrite (ev_read i (Z.of_nat handshake_length) RHandshake [] hs) by (by rewrite ?Hl). cbv iota. f_equal.
  unfold on_handshake. erewrite st_bind_Ok by reflexivity. cbv beta.
  assert (check_handshake (master_peer_ w) hs = Ok true) as Hck by (apply (says_check w ih); [done|by exists pid']).
  change (master_peer_ (put i _ w)) with (master_peer_ w).
  erewrite st_bind_Ok by (unfold lift; rewrite Hck; reflexivity). cbv beta.
  rewrite bool_decide_true by lia. erewrite st_bind_Ok by (unfold lift; rewrite Hck; reflexivity). cbv iota beta.
  erewrite st_bind_Ok by (unfold lift; rewrite Htheirs; reflexivity). cbv beta.
  destruct Hsay as (pid & Ew & _ & Hpid). destruct (handshake_layout ih pid Hih Hpid) as (_ & Hours & _).
  erewrite st_bind_Ok by (unfold lift; rewrite Ew, Hours; reflexivity). cbv beta.
  rewrite bool_decide_true by done. exact Ea.
Qed.
(** ** The bitfields *)

(** The client has a piece of [bits] missing. *)
Definition lacks w (bits : B) : Prop :=
  ∃ n, (n < Size bits)%nat ∧ db_test (my_bits w) n = false ∧ db_test bits n = true.

Definition interested_frame : bytes := frame (body_of interested []).
Definition not_interested_frame : bytes := frame (body_of not_interested []).

Lemma TryToRequestPiece_choked i c w :
  connected c → active_piece_ c = None → IsRemoteChoked c = true →
  TryToRequestPiece i (put i c w) = Ok (tt, put i
    (if Z.of_nat (Popcount (my_bits w)) =? Z.of_nat (piece_count_of (meta_pieces_ w))
     then posted (set_status c (u8 (Z.land (status_ c) (Z.lnot am_interested)))) [JWrite not_interested_frame WRemind]
     else c) w).
Proof.
  intros Hc Ha Hch. unfold TryToRequestPiece. erewrite st_bind_Ok by apply get_client_put. cbv beta. rewrite Ha.
  erewrite st_bind_Ok by reflexivity. erewrite st_bind_Ok by reflexivity. cbn [put set_clients master_peer_ meta_pieces_].
  fold (my_bits w) (put i c w). destruct (_ =? _); [|by rewrite Hch].
  unfold send_not_interested. erewrite st_bind_Ok by apply modify_client_put.
  by apply send_msg_put; [|apply (peer_msg_fields not_interested [])|].
Qed.

Lemma OnBitfield_lacks i c w (bits : B) :
  connected c → active_piece_ c = None → IsRemoteChoked c = true → status_ c = both_choking →
  bitfield_ (slave_peer_ c) = bits → Size bits = Size (my_bits w) → Size bits = piece_count_of (meta_pieces_ w) →
  lacks w bits →
  OnBitfield i (put i c w) = Ok (tt, put i (posted (set_status c 7) [JWrite interested_frame WRemind]) w).
Proof.
  intros Hc Ha Hch Hst Hb Hs Ht (n & Hn & Hmine & Hbn). unfold OnBitfield.
  erewrite st_bind_Ok by reflexivity. erewrite st_bind_Ok by apply get_client_put. cbv beta.
  change (master_peer_ (put i c w)) with (master_peer_ w). fold (my_bits w). rewrite Hb.
  destruct (Mismatched_Ok (my_bits w) bits (eq_sym Hs)) as (mis & Em & Hsm & Hmis).
  erewrite st_bind_Ok by (unfold lift; rewrite Em; reflexivity). cbv beta.
  assert ((Popcount mis =? 0)%nat = false) as Hp.
  { apply Nat.eqb_neq. intros E. rewrite Popcount_zero in E. specialize (E n ltac:(lia)).
    rewrite Hmis, Hmine, Hbn in E by lia. discriminate E. }
  rewrite Hp. cbn [negb when]. erewrite st_bind_Ok by (by apply send_interested_put). cbv beta.
  rewrite Hst. change (u8 (Z.lor both_choking am_interested)) with 7.
  rewrite TryToRequestPiece_choked by done.
  assert (Z.of_nat (Popcount (my_bits w)) =? Z.of_nat (piece_count_of (meta_pieces_ w)) = false) as ->; [|done].
  apply Z.eqb_neq. intros E%Nat2Z.inj. rewrite <- Ht, Hs in E. rewrite Popcount_full in E.
  rewrite E in Hmine by lia. discriminate Hmine.
Qed.

(** What the other side says when it has all we have. *)
Lemma OnBitfield_content i c w (bits : B) :
  connected c → active_piece_ c = None → IsRemoteChoked c = true → status_ c = both_choking →
  bitfield_ (slave_peer_ c) = bits → Size bits = Size (my_bits w) → ¬ lacks w bits →
  ∃ js, (js = [] ∨ js = [JWrite not_interested_frame WRemind]) ∧
    OnBitfield i (put i c w) = Ok (tt, put i (posted c js) w).
Proof.
  intros Hc Ha Hch Hst Hb Hs Hno. unfold OnBitfield.
  erewrite st_bind_Ok by reflexivity. erewrite st_bind_Ok by apply get_client_put. cbv beta.
  change (master_peer_ (put i c w)) with (master_peer_ w). fold (my_bits w). rewrite Hb.
  destruct (Mismatched_Ok (my_bits w) bits (eq_sym Hs)) as (mis & Em & Hsm & Hmis).
  erewrite st_bind_Ok by (unfold lift; rewrite Em; reflexivity). cbv beta.
  assert ((Popcount mis =? 0)%nat = true) as Hp.
  { apply Nat.eqb_eq, Popcount_zero. intros n Hn. rewrite Hmis by lia.
    destruct (db_test (my_bits w) n) eqn:E1; [done|]. destruct (db_test bits n) eqn:E2; [|done].
    destruct Hno. exists n. split; [lia|done]. }
  rewrite Hp. cbn [negb when]. erewrite st_bind_Ok by reflexivity. rewrite TryToRequestPiece_choked by done.
  destruct (_ =? _).
  - eexists. split; [by right|]. rewrite Hst. change (u8 (Z.land both_choking (Z.lnot am_interested))) with both_choking.
    do 3 f_equal. unfold posted, set_status, set_strand. cbn. by rewrite Hst.
  - exists []. split; [by left|]. by rewrite posted_nil.
Qed.

Lemma length_bitfield_body (bits : B) :
  Z.of_nat (Size bits) < 2 ^ 24 → 0 < Z.of_nat (length (bitfield_body bits)) < 2 ^ 32.
Proof.
  intros Hs. unfold bitfield_body. cbn [length]. rewrite length_GetCast.
  pose proof (Nat.Div0.div_le_upper_bound (Size bits + 7) 8 (Size bits + 1) ltac:(lia)). lia.
Qed.

Section Hello.
Context (i : nat) (c : PeerClient B) (w : World B) (p : Peer B) (bits : B) (written : bytes).
Let total : nat := piece_count_of (meta_pieces_ w).
Context (Hc : listens_as c (set_bitfield p (Bitfield_sized (Size (my_bits w)))) None both_choking written).
Context (Hmy : Size (my_bits w) = total) (Hbits : Size bits = total) (H24 : Z.of_nat total < 2 ^ 24).

(** The client when it has read the bitfield [bits']. *)
Let knows (bits' : B) : PeerClient B :=
  set_slave (received (bitfield_body bits) 1 (body_read c)) (set_bitfield p bits').

Lemma hello_read :
  ∃ bits', bits' ≡ bits ∧ Size bits' = total ∧
    handle_response i (put i (received (bitfield_body bits) 1 (body_read c)) w)
      = OnBitfield i (put i (knows bits') w).
Proof.
  destruct (handle_hello i (body_read c) w bits) as (bits' & Heq & E); [done| | |].
  - change (slave_peer_ (body_read c)) with (slave_peer_ c). rewrite (la_slave _ _ _ _ _ Hc). cbn.
    unfold Size, Bitfield_sized. rewrite db_size_make. done.
  - intros n Hn. change (slave_peer_ (body_read c)) with (slave_peer_ c). rewrite (la_slave _ _ _ _ _ Hc). cbn.
    unfold Bitfield_sized. apply db_test_make. by rewrite Hmy.
  - exists bits'. split; [done|]. split; [by rewrite Heq|]. rewrite E. unfold knows.
    change (slave_peer_ (body_read c)) with (slave_peer_ c). by rewrite (la_slave _ _ _ _ _ Hc).
Qed.

Lemma hello_wanted :
  lacks w bits →
  ∃ c' bits', play (deliver i 2 (hello_frame bits)) (put i c w) = Some (put i c' w) ∧ bits' ≡ bits ∧
    listens_as c' (set_bitfield p bits') None 7 (written ++ interested_frame).
Proof.
  intros (n & Hn & Hmine & Hbn). destruct hello_read as (bits' & Heq & Hs & E). destruct Hc as [Hl Hsl Ha Hst Hwi].
  rewrite (OnBitfield_lacks i (knows bits') w bits') in E; try done; [|apply Hl| |by rewrite Hmy|].
  - destruct (hear i c w (bitfield_body bits) (set_status (knows bits') 7) [JWrite interested_frame WRemind] w)
      as (c' & Ep & Hla); try done; try apply Hl; [apply length_bitfield_body; by rewrite Hbits| |].
    { apply list.Forall_singleton. left. by eexists _, _. }
    exists c', bits'. split; [exact Ep|]. split; [done|]. cbn in Hla. rewrite Ha, Hwi, app_nil_r in Hla. exact Hla.
  - unfold IsRemoteChoked. cbn. by rewrite Hst.
  - exists n. destruct Heq as [Hsz Htst]. unfold Size in *. rewrite Hsz. split; [lia|]. split; [done|].
    rewrite Htst by lia. done.
Qed.

Lemma hello_unwanted :
  ¬ lacks w bits →
  ∃ k f c' bits', (f = [] ∨ f = not_interested_frame) ∧
    play (deliver i k (hello_frame bits)) (put i c w) = Some (put i c' w) ∧ bits' ≡ bits ∧
    listens_as c' (set_bitfield p bits') None both_choking (written ++ f).
Proof.
  intros Hno. destruct hello_read as (bits' & Heq & Hs & E). destruct Hc as [Hl Hsl Ha Hst Hwi].
  destruct (OnBitfield_content i (knows bits') w bits') as (js & Hjs & Eo); try done; [apply Hl| |by rewrite Hmy| |].
  - unfold IsRemoteChoked. cbn. by rewrite Hst.
  - intros (n & Hn & Hmine & Hbn). apply Hno. exists n. destruct Heq as [Hsz Htst]. unfold Size in *. rewrite <- Hsz.
    split; [done|]. split; [done|]. by rewrite <- Htst by lia.
  - rewrite Eo in E.
    destruct (hear i c w (bitfield_body bits) (knows bits') js w) as (c' & Ep & Hla); try done; try apply Hl;
      [apply length_bitfield_body; by rewrite Hbits| |].
    { apply list.Forall_forall. intros j Hj. left. destruct Hjs as [->| ->]; [by apply not_elem_of_nil in Hj|].
      apply list_elem_of_singleton in Hj as ->. by eexists _, _. }
    exists (S (length js)), (concat (map job_bytes js)), c', bits'. split.
    { destruct Hjs as [->| ->]; [by left|by right]. }
    split; [exact Ep|]. split; [done|]. cbn in Hla. rewrite Ha, Hst, Hwi in Hla. exact Hla.
Qed.
End Hello.
(** ** Interested and unchoked *)

(** The flags of the side that serves: interested, and not choked by us. *)
Definition serving_flags : Z := Z.lor peer_choking peer_interested.

Lemma interested_read i c p w written :
  listens_as c p None both_choking written → u32 (ip p) = ip p →
  is_Some (peers_subscribers_ (master_peer_ w) !! ip p) → available_unchoke_count_ (master_peer_ w) ≠ 0 →
  ∃ c', play (deliver i 2 interested_frame) (put i c w) = Some (put i c' w) ∧
    listens_as c' p None serving_flags (written ++ unchoke_frame).
Proof.
  intros [Hl Hsl Ha Hst Hwi] H32 [k Hk] Hav. set (c0 := received (body_of interested []) 1 (body_read c)).
  set (c1 := set_status c0 13).
  assert (handle_response i (put i c0 w)
    = Ok (tt, put i (posted (set_status c1 serving_flags) [JWrite unchoke_frame WRemind]) w)) as E.
  { unfold c0. rewrite handle_interested. fold c0. change (status_ (body_read c)) with (status_ c). rewrite Hst.
    change (u8 (Z.lor both_choking peer_interested)) with 13. fold c1. unfold OnInterested.
    erewrite st_bind_Ok by apply get_client_put. erewrite st_bind_Ok by reflexivity. cbv beta.
    change (master_peer_ (put i c1 w)) with (master_peer_ w).
    assert (CanUnchokePeer (master_peer_ w) (ip (slave_peer_ c1)) = true) as Hcan.
    { unfold CanUnchokePeer. change (slave_peer_ c1) with (slave_peer_ c). rewrite Hsl, H32, Hk.
      by apply negb_true_iff, Z.eqb_neq. }
    rewrite Hcan. change (IsClientChoked c1) with true. cbn [andb when]. unfold send_unchoke.
    erewrite st_bind_Ok.
    2:{ erewrite st_bind_Ok by apply modify_client_put. apply send_msg_put; [|apply (peer_msg_fields unchoke [])|done].
        apply Hl. }
    cbv beta. erewrite st_bind_Ok by apply get_client_put. reflexivity. }
  destruct (hear i c w (body_of interested []) _ _ w Hl ltac:(rewrite length_body_of; cbn; lia) E) as (c' & Ep & Hla); try done; try apply Hl.
  { apply list.Forall_singleton. left. by eexists _, _. }
  exists c'. split; [exact Ep|]. cbn in Hla. rewrite Hsl, Ha, Hwi, app_nil_r in Hla. exact Hla.
Qed.

Lemma not_interested_read i c p w written :
  listens_as c p None 7 written →
  ∃ c', play (deliver i 1 not_interested_frame) (put i c w) = Some (put i c' w) ∧ listens_as c' p None 7 written.
Proof.
  intros [Hl Hsl Ha Hst Hwi]. set (c0 := received (body_of not_interested []) 1 (body_read c)).
  assert (handle_response i (put i c0 w) = Ok (tt, put i (posted (set_status c0 7) []) w)) as E.
  { unfold c0. rewrite handle_not_interested. fold c0. change (status_ (body_read c)) with (status_ c). rewrite Hst.
    change (u8 (Z.land 7 (Z.lnot peer_interested))) with 7. unfold OnNotInterested.
    erewrite st_bind_Ok by apply get_client_put. by rewrite posted_nil. }
  destruct (hear i c w (body_of not_interested []) _ [] w Hl ltac:(rewrite length_body_of; cbn; lia) E) as (c' & Ep & Hla); try done; try apply Hl.
  exists c'. split; [exact Ep|]. cbn in Hla. rewrite Hsl, Ha, Hwi, app_nil_r in Hla. exact Hla.
Qed.

(** ** Everything over the connection *)

Lemma reads_answer j p hs : reads (B:=B) j (answer_events j p hs) = hs.
Proof. unfold reads. cbn. rewrite decide_True by done. by rewrite app_nil_r. Qed.

Lemma reads_greet i hs : reads (B:=B) i (greet_events i hs) = hs.
Proof. unfold reads. cbn. rewrite decide_True by done. by rewrite app_nil_r. Qed.

(** The side [w] that lacks pieces of the side [v] has dialled [p]; the other
    side sees it as [q]. *)
Lemma greeting_run i j (p q : Peer B) ih w v :
  let total := piece_count_of (meta_pieces_ w) in
  says w ih → says v ih → info_hash_ v = ih → clients v !! j = None → welcomes v (ip q) → u32 (ip q) = ip q →
  available_unchoke_count_ (master_peer_ v) ≠ 0 → meta_pieces_ v = meta_pieces_ w →
  Size (my_bits w) = total → Size (my_bits v) = total → Z.of_nat total < 2 ^ 24 →
  lacks w (my_bits v) → ¬ lacks v (my_bits w) →
  ∃ c s seen theirs known,
    rtc (link_step i j) (mkLink (put i (dialled p) w) v 0 0)
      (mkLink (put i c w) (put j s (with_sub j (ip q) v)) (length seen) (length (wire c))) ∧
    theirs ≡ my_bits v ∧ listens_as c (set_bitfield p theirs) None 7 (wire c) ∧
    Size known = total ∧ listens_as s (set_bitfield q known) None serving_flags (seen ++ unchoke_frame).
Proof.
  intros total Hw Hv Hinfo Hj Hwel H32 Hav Hmeta Hsw Hsv H24 Hlack Hnot.
  set (hs := handshake_message_ (master_peer_ w)). set (v1 := with_sub j (ip q) v).
  assert (says_bytes ih hs) as Hhs by done.
  assert (my_bits v1 = my_bits v ∧ says v1 ih ∧ meta_pieces_ v1 = meta_pieces_ w) as (Hb1 & Hsay1 & Hm1) by done.
  pose proof (call_run i p w) as E1. fold hs in E1.
  destruct (answer_run j q ih hs v) as (s1 & E2 & Hs1); try done; [by rewrite Hsv|]. fold v1 in E2.
  destruct (greet_run i p ih hs w) as (c1 & E3 & Hc1); try done; [by rewrite Hsw|]. fold hs in E3, Hc1.
  destruct (hello_wanted i c1 w p (my_bits v) _ Hc1 Hsw) as (c2 & theirs & E4 & Heq & Hc2); try done.
  destruct (hello_unwanted j s1 v1 q (my_bits w) (hs ++ hello_frame (my_bits v))) as (k & f & s2 & known & Hf & E5 & Hkn & Hs2);
    try done; [by rewrite Hm1|by rewrite Hm1|by rewrite Hm1|].
  destruct (interested_read j s2 _ v1 _ Hs2) as (s3 & E6 & Hs3); [done| |done|].
  { exists j. apply lookup_insert_eq. }
  assert (∃ c3 es, play es (put i c2 w) = Some (put i c3 w) ∧ settled es ∧ reads i es = f ∧
    listens_as c3 (set_bitfield p theirs) None 7 (wire c2)) as (c3 & es & E7 & Hq & Hes & Hc3).
  { pose proof (la_wire _ _ _ _ _ Hc2) as Ew. destruct Hf as [->| ->].
    - exists c2, []. split; [done|]. split; [constructor|]. split; [done|]. by destruct Hc2.
    - destruct (not_interested_read i c2 _ w _ Hc2) as (c3 & E7 & Hc3). exists c3, (deliver i 1 not_interested_frame).
      split; [exact E7|]. split; [apply settled_deliver|]. split; [apply reads_deliver|]. by rewrite Ew. }
  pose proof (la_wire _ _ _ _ _ Hc1) as W1. pose proof (la_wire _ _ _ _ _ Hc2) as W2.
  pose proof (la_wire _ _ _ _ _ Hs1) as V1. pose proof (la_wire _ _ _ _ _ Hs2) as V2.
  pose proof (la_wire _ _ _ _ _ Hs3) as V3. pose proof (la_wire _ _ _ _ _ Hc3) as W3.
  exists c3, s3, (hs ++ hello_frame (my_bits v) ++ f), theirs, known. split_and!; [|done|by rewrite W3|by rewrite Hkn|].
  2:{ by rewrite <- !app_assoc in Hs3 |- *. }
  etrans.
  { apply (play_left i j (call_events i) _ (put i (called p hs) w)); [exact E1|by repeat constructor|]. by exists (wire_of j v). }
  etrans.
  { apply (right_reads i j (answer_events j q hs) (called p hs) w v _ [] [] _ E2). by rewrite reads_answer, app_nil_r. }
  rewrite reads_answer. etrans.
  { apply (left_reads i j (greet_events i hs) _ _ s1 v1 [] (hello_frame (my_bits v)) _ E3);
      [by repeat constructor|]. by rewrite reads_greet. }
  rewrite reads_greet. etrans.
  { apply (left_reads i j (deliver i 2 (hello_frame (my_bits v))) _ _ s1 v1 hs [] _ E4 (settled_deliver _ _ _)).
    by rewrite reads_deliver, app_nil_r. }
  rewrite reads_deliver. etrans.
  { apply (right_reads i j (deliver j k (hello_frame (my_bits w))) c2 w _ _ hs interested_frame _ E5).
    by rewrite reads_deliver, W2, <- app_assoc. }
  rewrite reads_deliver. etrans.
  { apply (right_reads i j (deliver j 2 interested_frame) c2 w _ _ (hs ++ hello_frame (my_bits w)) [] _ E6).
    by rewrite reads_deliver, app_nil_r. }
  rewrite reads_deliver. etrans.
  { apply (left_reads i j es _ _ s3 v1 (hs ++ hello_frame (my_bits v)) unchoke_frame _ E7 Hq).
    by rewrite Hes, V3, <- !app_assoc. }
  rewrite Hes, W3, W2, <- !app_assoc. apply rtc_refl.
Qed.
End Hearing.
