(* ===== verification/Completion.v ===== *)
(** * A download that completes

    Two clients joined by a TCP connection: what one of them writes the other
    one reads, in order.  Whatever pieces the peer has and we lack, once it
    unchokes us there is a run of the two clients that brings all of them to
    our disk: request by request, piece by piece. *)

From Stdlib Require Import ZArith Lia Strings.Byte Strings.String.
From coqutil Require Import Byte Word.LittleEndianList.
From stdpp Require Import relations.
From S2P Require Import Prelude Bytes Streams Worker Bencode Text Piece Files FilesFacts.
From S2P Require Import Bitset Bitfield Message Peer World PeerClient PeerFacts Exchange Download.
From S2P Require Import Invariant Handlers Safety Delivery Transfer Link Greeting.

(** ** A torrent and two of its clients *)

Section Complete.
Context {B : Type} `{DynamicBitsetLaws B} `{Host} `{S1 : Sha1} `{!Sha1Laws S1}.
Variables (l : list (bytes * Z)) (pl : Z) (meta : bytes) (Ds : nat → bytes).
Implicit Types (w : World B) (c : PeerClient B).

Let total : nat := piece_count_of meta.

(** The contents [Ds] of the pieces are what the metadata describes: files [l]
    in pieces of [pl] bytes with their digests, at most 150 blocks each. *)
Record torrent_data : Prop := {
  td_len n : (n < total)%nat → Z.of_nat (length (Ds n)) = piece_len l pl n;
  td_size n : (n < total)%nat → 0 < Z.of_nat (length (Ds n)) ≤ REQUEST_MAX_QUEUE_SIZE * most_request_size;
  td_hash n : (n < total)%nat → GetSHA1 (Ds n) = take 20 (drop (20 * n) meta);
  td_total : Z.of_nat total * 20 < 2 ^ 32;
}.

Definition mine w (n : nat) : bool := db_test (bitfield_ (as_peer (master_peer_ w))) n.
Definition theirs c (n : nat) : bool := db_test (bitfield_ (slave_peer_ c)) n.

(** A client of the torrent: its pieces are on its disk, its worker is idle. *)
Record member w : Prop := {
  mb_meta : meta_pieces_ w = meta;
  mb_bits : Size (bitfield_ (as_peer (master_peer_ w))) = total;
  mb_stored : stored_as w l pl;
  mb_disk n : (n < total)%nat → mine w n = true → on_disk w n (Ds n);
  mb_idle : idle w;
  mb_size n : (n < total)%nat → psize w (Z.of_nat n) = Z.of_nat (length (Ds n));
}.

(** The pieces the other side has and we lack. *)
Definition missing c w : list nat := List.filter (fun n => theirs c n && negb (mine w n)) (seq 0 total).

Lemma elem_of_missing c w n : n ∈ missing c w ↔ (n < total)%nat ∧ theirs c n = true ∧ mine w n = false.
Proof.
  unfold missing. rewrite list_elem_of_In, filter_In, in_seq, andb_true_iff, negb_true_iff.
  split; [intros ([_ ?] & ? & ?)|intros (? & ? & ?)]; split_and!; try done; lia.
Qed.

(** Our side: [other] are the pieces the other side has, [cur] the one under way. *)
Record our_side c w (other : nat → bool) (cur : list nat) : Prop := {
  os_member : member w;
  os_subscribers : subscribers_exist w;
  os_unchoked : IsRemoteChoked c = false;
  os_interested : IsClientInterested c = true;
  os_size : Size (bitfield_ (slave_peer_ c)) = total;
  os_claim n : (n < total)%nat → theirs c n = true → other n = true;
  os_free n : n ∈ missing c w → n ∉ cur → Z.of_nat n ∉ requested_pieces_ (master_peer_ w);
  os_random : (2 * length (missing c w) ≤ length cur + length (random_ w))%nat;
}.

(** The other side. *)
Record other_side c w (k : nat) : Prop := {
  ot_member : member w;
  ot_serving : ∃ rs, serving c w rs ∧ (150 * k ≤ length rs)%nat;
}.

Lemma stored_as_same w w' :
  disk w' = disk w → files_ (file_manager_ w') = files_ (file_manager_ w) → stored_as w l pl → stored_as w' l pl.
Proof. intros Ed Ef [Hl Hr Hx]. split; [by rewrite Ef|done|by rewrite Ed]. Qed.

(** Only what a member is about matters. *)
Lemma member_same w w' :
  member w → disk w' = disk w → meta_pieces_ w' = meta_pieces_ w →
  files_ (file_manager_ w') = files_ (file_manager_ w) →
  as_peer (master_peer_ w') = as_peer (master_peer_ w) → idle w' → member w'.
Proof.
  intros [Hm Hb Hs Hd _ Hz] Ed Em Ef Ep Hi. split; rewrite ?Em, ?Ep; try done.
  - by eapply stored_as_same.
  - intros n Hn Hmine. unfold on_disk. rewrite Ed, Ef. apply Hd; [done|]. unfold mine in *. by rewrite <- Ep.
  - intros n Hn. unfold psize in *. rewrite Em, Ef. by apply Hz.
Qed.

Lemma member_manager w w' : member w → same_but_manager w w' → idle w' → member w'.
Proof. intros Hm (_ & Ed & Em & Ef & Ep) Hi. by apply (member_same w). Qed.

Lemma member_put i c w : member w → member (put i c w).
Proof. intros Hm. apply (member_same w); try done. destruct (mb_idle _ Hm); by split. Qed.

Lemma member_chosen w k rs : member w → member (chosen_world w k rs).
Proof.
  intros Hm. unfold chosen_world. destruct (end_game_ _); (apply (member_same w); [done..|]);
    destruct (mb_idle _ Hm); by split.
Qed.

Lemma member_readable w n :
  torrent_data → member w → (n < total)%nat → mine w n = true → readable w n (Ds n).
Proof.
  intros Ht Hm Hn Hmine. refine (on_disk_read w l pl n (Ds n) _ _ _ _); [apply Hm|by apply Ht| |by apply Hm].
  rewrite <- (td_len Ht n Hn). by apply Ht.
Qed.

(** With pieces missing there is something to ask for. *)
Lemma missing_may_request c w n :
  member w → IsRemoteChoked c = false → n ∈ missing c w → may_request w c = true.
Proof.
  intros Hm Hc (Hn & _ & Hmine)%elem_of_missing. unfold may_request. rewrite Hc, andb_true_r.
  apply negb_true_iff, Z.eqb_neq. rewrite (mb_meta _ Hm). fold total. intros E%Nat2Z.inj.
  assert (Popcount (bitfield_ (as_peer (master_peer_ w))) = Size (bitfield_ (as_peer (master_peer_ w)))) as Hp
    by (by rewrite (mb_bits _ Hm)).
  rewrite Popcount_full in Hp. specialize (Hp n). rewrite (mb_bits _ Hm) in Hp. specialize (Hp Hn).
  unfold mine in Hmine. congruence.
Qed.

Lemma missing_eligible c w other n :
  our_side c w other [] → eligible w (bitfield_ (slave_peer_ c)) n ↔ n ∈ missing c w.
Proof.
  intros Ho. rewrite elem_of_missing. unfold eligible. rewrite (mb_bits _ (os_member _ _ _ _ Ho)). split.
  - intros (? & ? & ? & _). done.
  - intros (Hn & Ht & Hm). split_and!; try done. right. eapply os_free; [done| |apply not_elem_of_nil].
    by apply elem_of_missing.
Qed.

(** Two filters of a list, the second one stricter at an element. *)
Lemma filter_shrinks {A} (f g : A → bool) (xs : list A) x :
  x ∈ xs → (∀ y, g y = true → f y = true) → f x = true → g x = false →
  (length (List.filter g xs) < length (List.filter f xs))%nat.
Proof.
  intros Hx Hgf Hfx Hgx. assert (∀ ys, length (List.filter g ys) ≤ length (List.filter f ys))%nat as Hle.
  { induction ys as [|y ys IH]; [done|]. cbn. destruct (g y) eqn:E; [rewrite (Hgf y E); cbn; lia|].
    destruct (f y); cbn; lia. }
  induction xs as [|y xs IH]; [by apply not_elem_of_nil in Hx|]. specialize (Hle xs). cbn.
  apply elem_of_cons in Hx as [<-|Hx]; [rewrite Hfx, Hgx; cbn; lia|]. specialize (IH Hx).
  destruct (g y) eqn:E; [rewrite (Hgf y E); cbn; lia|]. destruct (f y); cbn; lia.
Qed.

(** ** Asking for a piece *)

Hypothesis Ht : torrent_data.

(** [missing] looks at the two bitfields only. *)
Lemma missing_same c c' w w' :
  slave_peer_ c' = slave_peer_ c → as_peer (master_peer_ w') = as_peer (master_peer_ w) → missing c' w' = missing c w.
Proof. intros Es Ep. unfold missing, theirs, mine. by rewrite Es, Ep. Qed.

Lemma our_side_asked c c' w other n :
  our_side c w other [] → n ∈ missing c w → random_ w ≠ [] → slave_peer_ c' = slave_peer_ c → status_ c' = status_ c →
  let w' := chosen_world w (Z.of_nat n) (tail (random_ w)) in
  our_side c' w' other [n] ∧ wanted w' (Z.of_nat n) ∧ n ∈ missing c' w' ∧ (∀ m, mine w' m = mine w m).
Proof.
  intros Ho Hn Hr Es Est w'. pose proof Hn as (Hlt & _ & Hmine)%elem_of_missing.
  destruct Ho as [Hm Hsub Hch Hint Hsz Hcl Hfree Hrand].
  assert (as_peer (master_peer_ w') = as_peer (master_peer_ w)) as Ep
    by (unfold w', chosen_world; by destruct (end_game_ _)).
  assert (missing c' w' = missing c w) as Emis by by apply missing_same.
  assert (meta_pieces_ w' = meta) as Em by (unfold w', chosen_world; destruct (end_game_ _); apply Hm).
  assert (∀ m, mine w' m = mine w m) as Emine by (intros m; unfold mine; by rewrite Ep).
  split; [|split; [|split; [by rewrite Emis|done]]].
  - split; try done.
    + by apply member_chosen.
    + unfold w', chosen_world. by destruct (end_game_ _).
    + unfold IsRemoteChoked in *. by rewrite Est.
    + unfold IsClientInterested in *. by rewrite Est.
    + by rewrite Es.
    + intros m Hlm. unfold theirs. rewrite Es. by apply Hcl.
    + rewrite Emis. intros m Hmm Hne. specialize (Hfree m Hmm (not_elem_of_nil m)).
      unfold w', chosen_world. destruct (end_game_ _); [done|]. cbn.
      apply not_elem_of_union. split; [|done]. intros E%elem_of_singleton%Nat2Z.inj. subst m. apply Hne. by left.
    + rewrite Emis. unfold w', chosen_world.
      destruct (random_ w) as [|r rs]; [done|]. destruct (end_game_ _); cbn in Hrand |- *; lia.
  - pose proof (td_total Ht). unfold wanted. rewrite Em. fold total. split; [lia|]. split; [lia|]. split.
    + unfold w', chosen_world. destruct (end_game_ (strategy_ (set_random w _))) eqn:E; [by rewrite E|].
      cbn. apply orb_true_iff. right. apply bool_decide_true. set_solver.
    + unfold IsPieceDone. rewrite Nat2Z.id, Ep, Test_in by (rewrite (mb_bits _ Hm); done). by unfold mine in Hmine; rewrite Hmine.
Qed.

(** A client without a piece that may ask does so, for one of the missing. *)
Lemma our_side_asks i c w other :
  our_side c w other [] → connected c → active_piece_ c = None → missing c w ≠ [] →
  ∃ n, n ∈ missing c w ∧ random_ w ≠ [] ∧
    TryToRequestPiece i (put i c w)
      = Ok (tt, put i (asking c n (Z.of_nat (length (Ds n)))) (chosen_world w (Z.of_nat n) (tail (random_ w)))).
Proof.
  intros Ho Hc Ha Hmis. destruct (missing c w) as [|n0 rest] eqn:Em; [done|].
  assert (n0 ∈ missing c w) as Hn0 by (rewrite Em; by left). clear Hmis.
  pose proof Ho as [Hm _ Hch _ Hsz _ _ Hrand]. rewrite Em in Hrand. cbn in Hrand.
  assert (random_ w ≠ []) as Hr by (intros E; rewrite E in Hrand; cbn in Hrand; lia).
  pose proof (td_total Ht).
  destruct (TryToRequestPiece_put i c w) as [(n & Hel & E)|[Hno _]]; try done.
  - by apply (missing_may_request c w n0).
  - by rewrite Hsz, (mb_bits _ Hm).
  - rewrite Hsz. lia.
  - intros n [Hn _]. rewrite (mb_bits _ Hm) in Hn. rewrite (mb_size _ Hm n Hn). by apply Ht.
  - pose proof Hel as [Hn _]. rewrite (mb_bits _ Hm) in Hn. rewrite (mb_size _ Hm n Hn) in E.
    apply (missing_eligible c w other n Ho) in Hel. rewrite <- Em. by exists n.
  - destruct (Hno n0). by apply (missing_eligible c w other n0 Ho).
Qed.

(** Our side after it has asked for piece [n]: what it has written since. *)
Record has_asked c w other (n : nat) (c' : PeerClient B) w' (written : bytes) : Prop := {
  ha_side : our_side c' w' other [n];
  ha_wanted : wanted w' (Z.of_nat n);
  ha_missing : n ∈ missing c' w';
  ha_waiting : waiting_for c' n (Z.of_nat (length (Ds n)));
  ha_slave : slave_peer_ c' = slave_peer_ c;
  ha_mine m : mine w' m = mine w m;
  ha_wire : wire c' = wire c ++ written ++ request_bytes n (Z.of_nat (length (Ds n)));
}.

(** The announcements of a piece among [P]. *)
Definition announcements (P : nat → bool) (js : list Job) : Prop :=
  ∃ m, (m < total)%nat ∧ P m = true ∧ Forall (notice (Z.of_nat m)) js.

Lemma announcements_mono (P Q : nat → bool) js :
  (∀ m, P m = true → Q m = true) → announcements P js → announcements Q js.
Proof. intros HPQ (m & ? & ? & ?). exists m. auto. Qed.

Lemma notice_plain n m js :
  Forall (notice (Z.of_nat m)) js → m ≠ n →
  ∀ j, j ∈ js → (∃ f k, j = JWrite f k) ∨ ∃ id, j = JCancelIfActive id ∧ id ≠ Z.of_nat n.
Proof.
  intros Hjs Hne j Hj. rewrite list.Forall_forall in Hjs. destruct (Hjs j Hj) as [->| ->]; [left; by eexists _, _|].
  right. eexists. split; [done|]. lia.
Qed.

Lemma asks_next i c js w other :
  our_side c w other [] → missing c w ≠ [] → connected c → rm_order (msg_to_read_ c) = BigEndian →
  pending_reads c = [(Z.of_nat header_length, RHeader)] → strand c = JClearAndTry :: js → announcements (mine w) js →
  ∃ es n c' w', play es (put i c w) = Some (put i c' w') ∧ settled es ∧ reads i es = [] ∧
    has_asked c w other n c' w' (concat (map job_bytes js)).
Proof.
  intros Ho Hmis Hc Hord Hrd Hs (m & Hlm & Hmm & Hjs). set (c1 := set_active_piece (set_strand c js) None).
  assert (our_side c1 w other []) as Ho1 by by destruct Ho.
  destruct (our_side_asks i c1 w other Ho1 Hc eq_refl Hmis) as (n & Hn & Hr & E).
  assert (m ≠ n) as Hne.
  { intros ->. apply elem_of_missing in Hn as (_ & _ & Hx). congruence. }
  destruct (ask_next i c js w n _ _ Hc Hord Hrd Hs (os_interested _ _ _ _ Ho) (notice_plain n m js Hjs Hne) E)
    as (c' & Ep & Hw & Esl & Est & Ewi).
  destruct (our_side_asked c c' w other n Ho Hn Hr Esl Est) as (Hside & Hwant & Hmiss & Hmine).
  eexists _, n, c', _. split; [exact Ep|]. split; [apply settled_runs|]. split; [|by split]. unfold reads.
  generalize (S (length js + length (block_tiles 0 (Z.of_nat (length (Ds n)))))). intros k.
  induction k as [|k IH]; [done|]. exact IH.
Qed.

Lemma asks_first i c w other :
  our_side (unchoked c) w other [] → missing c w ≠ [] → listening c → active_piece_ c = None →
  ∃ es n c' w', play es (put i c w) = Some (put i c' w') ∧ settled es ∧ reads i es = unchoke_frame ∧
    has_asked c w other n c' w' [].
Proof.
  intros Ho Hmis Hl Ha.
  destruct (our_side_asks i (unchoked c) w other Ho) as (n & Hn & Hr & E); [apply Hl|done|done|].
  destruct (ask_first i c w n _ _ Hl Ha (os_interested _ _ _ _ Ho) E) as (c' & Ep & Hw & Esl & Est & Ewi).
  destruct (our_side_asked (unchoked c) c' w other n Ho Hn Hr Esl Est) as (Hside & Hwant & Hmiss & Hmine).
  eexists _, n, c', _. split; [exact Ep|]. split; [apply settled_deliver|]. split; [apply reads_deliver|by split].
Qed.

(** ** Answering *)

Lemma blocks_bounds n : (n < total)%nat → (0 < blocks_of (Ds n) ≤ 150)%nat ∧ (0 < length (Ds n))%nat.
Proof.
  intros Hn. pose proof (td_size Ht n Hn) as Hs. unfold REQUEST_MAX_QUEUE_SIZE, most_request_size in Hs.
  unfold blocks_of, block_count_of, most_request_size. split; [|lia].
  assert (1 ≤ (Z.of_nat (length (Ds n)) + 16384 - 1) / 16384) by (apply Z.div_le_lower_bound; lia).
  assert ((Z.of_nat (length (Ds n)) + 16384 - 1) / 16384 < 151) by (apply Z.div_lt_upper_bound; lia). lia.
Qed.

Definition hear_events (j : nat) (js : list Job) : list (event (B:=B)) :=
  concat (map (fun jb => match jb with JWrite f _ => deliver j 1 f | _ => [] end) js).

Lemma reads_hear j js : reads j (hear_events j js) = concat (map job_bytes js).
Proof.
  induction js as [|jb js IH]; [done|]. unfold hear_events in *. cbn [map concat]. rewrite reads_app, IH.
  f_equal. destruct jb; try done. apply reads_deliver.
Qed.

Lemma reads_serve j n ts :
  reads (B:=B) j (serve_events j n ts) = concat (map (fun '(b, len) => request_frame (Z.of_nat n) b len) ts).
Proof.
  induction ts as [|[b len] ts IH]; [done|]. unfold serve_events in *. cbn [map concat].
  rewrite !reads_app, IH, reads_deliver. f_equal.
Qed.

Lemma hear_notices j c w rs m js :
  serving c w rs → member w → (m < total)%nat → mine w m = true → Forall (notice (Z.of_nat m)) js →
  ∃ c', play (hear_events j js) (put j c w) = Some (put j c' w) ∧ serving c' w rs ∧ wire c' = wire c.
Proof.
  intros Hsv Hm Hlm Hmm Hjs. revert c Hsv. induction Hjs as [|jb js Hj _ IH]; intros c Hsv; [by exists c|].
  unfold hear_events. cbn [map concat]. fold (hear_events j js). destruct Hj as [->| ->]; [|by apply IH].
  destruct (hear_have j c w rs m Hsv) as (c1 & E1 & Hsv1 & Hw1); [by rewrite (mb_meta _ Hm)|done|].
  destruct (IH c1 Hsv1) as (c2 & E2 & Hsv2 & Hw2). exists c2. rewrite play_app, E1. cbn [mbind option_bind].
  split_and!; [done|done|congruence].
Qed.

(** The other side reads everything and answers with the blocks of the piece. *)
Definition answer_bytes (n : nat) : bytes :=
  concat (map (nth_block (Z.of_nat n) (Ds n)) (seq 0 (blocks_of (Ds n)))).

Lemma answers j c w k n js :
  other_side c w (S k) → (n < total)%nat → mine w n = true → announcements (mine w) js →
  ∃ es c' w', play es (put j c w) = Some (put j c' w') ∧
    reads j es = concat (map job_bytes js) ++ request_bytes n (Z.of_nat (length (Ds n))) ∧
    other_side c' w' k ∧ (∀ m, mine w' m = mine w m) ∧ wire c' = wire c ++ answer_bytes n.
Proof.
  intros [Hm (rs & Hsv & Hrs)] Hn Hmine (m & Hlm & Hmm & Hjs).
  destruct (hear_notices j c w rs m js Hsv Hm Hlm Hmm Hjs) as (c1 & E1 & Hsv1 & Hw1).
  destruct (blocks_bounds n Hn) as [Hb HD]. set (ts := block_tiles 0 (Z.of_nat (length (Ds n)))).
  assert (length ts = blocks_of (Ds n)) as Hts.
  { unfold ts, blocks_of. rewrite <- (length_block_tiles 0) by lia. by rewrite Nat2Z.id. }
  destruct (serve_requests j c1 w rs n (Ds n) ts) as (c2 & w2 & E2 & Hsv2 & Hsame & Hw2); try done.
  - lia.
  - by rewrite (mb_meta _ Hm).
  - pose proof (td_size Ht n Hn). unfold REQUEST_MAX_QUEUE_SIZE, most_request_size in *. lia.
  - intros t Hin. pose proof (tiles_bounds 0 ts _ t (tiles_block_tiles 0 (Z.of_nat (length (Ds n))) ltac:(lia)) Hin). lia.
  - by apply member_readable.
  - exists (hear_events j js ++ serve_events j n ts), c2, w2. split_and!.
    + by rewrite play_app, E1.
    + by rewrite reads_app, reads_hear, reads_serve.
    + split.
      * apply (member_manager w); [done|done|]. apply Hsv2.
      * eexists. split; [exact Hsv2|]. rewrite length_drop. lia.
    + intros x. unfold mine. destruct Hsame as (_ & _ & _ & _ & Ep). by rewrite Ep.
    + rewrite Hw2, Hw1. unfold answer_bytes, ts. by rewrite tiles_blocks.
Qed.

(** ** Receiving *)

(** Our side between two pieces. *)
Record between_pieces c w other (js : list Job) : Prop := {
  bp_side : our_side c w other [];
  bp_connected : connected c;
  bp_order : rm_order (msg_to_read_ c) = BigEndian;
  bp_reads : pending_reads c = [(Z.of_nat header_length, RHeader)];
  bp_strand : strand c = JClearAndTry :: js;
  bp_announce : announcements (fun m => mine w m && other m) js;
}.

Lemma member_delivered i c w n c' js w' :
  member w → (n < total)%nat → delivered i c w l pl (Z.of_nat n) (Ds n) c' js w' →
  member w' ∧ ∀ m, (m < total)%nat → mine w' m = (bool_decide (m = n) || mine w m).
Proof.
  intros Hm Hn Hd. destruct (dl_bits _ _ _ _ _ _ _ _ _ _ Hd) as [Hsz Hbits]. cbv zeta in *. rewrite Nat2Z.id in Hbits.
  assert (∀ m, (m < total)%nat → mine w' m = (bool_decide (m = n) || mine w m)) as Hmine.
  { intros m Hlm. apply Hbits. by rewrite (mb_bits _ Hm). }
  split; [|done]. split.
  - rewrite (dl_meta _ _ _ _ _ _ _ _ _ _ Hd). apply Hm.
  - rewrite Hsz. apply Hm.
  - apply Hd.
  - intros m Hlm E. rewrite Hmine in E by done. case_bool_decide as Hmn.
    + subst m. pose proof (dl_new _ _ _ _ _ _ _ _ _ _ Hd) as Hnew. by rewrite Nat2Z.id in Hnew.
    + apply (dl_old _ _ _ _ _ _ _ _ _ _ Hd); [by rewrite Nat2Z.id| |by apply Hm].
      rewrite (td_len Ht m Hlm). unfold piece_len. lia.
  - destruct (mb_idle _ Hm) as [_ _ _ Hmap Hk]. destruct (dl_worker _ _ _ _ _ _ _ _ _ _ Hd) as (? & ? & ? & Em).
    split; try done; [by rewrite Em|]. unfold keys_null. by rewrite (dl_active _ _ _ _ _ _ _ _ _ _ Hd).
  - intros m Hlm. unfold psize. rewrite (dl_meta _ _ _ _ _ _ _ _ _ _ Hd), (dl_files _ _ _ _ _ _ _ _ _ _ Hd).
    apply (mb_size _ Hm m Hlm).
Qed.

Lemma missing_shrinks c c' w w' n :
  slave_peer_ c' = slave_peer_ c → n ∈ missing c w →
  (∀ m, (m < total)%nat → mine w' m = (bool_decide (m = n) || mine w m)) →
  (length (missing c' w') < length (missing c w))%nat ∧ ∀ m, m ∈ missing c' w' → m ∈ missing c w ∧ m ≠ n.
Proof.
  intros Es Hn Hmine. assert (∀ m, m ∈ missing c' w' → m ∈ missing c w ∧ m ≠ n) as Hsub.
  { intros m (Hlm & Hth & Hmm)%elem_of_missing. rewrite Hmine in Hmm by done.
    apply orb_false_iff in Hmm as [Hne%bool_decide_eq_false Hmm]. split; [|done]. apply elem_of_missing.
    unfold theirs in *. by rewrite <- Es. }
  split; [|done]. pose proof Hn as (Hlt & Hth & Hmm)%elem_of_missing.
  assert (missing c' w' = List.filter (fun m => (theirs c m && negb (mine w m)) && negb (bool_decide (m = n))) (seq 0 total)) as ->.
  { unfold missing. apply filter_ext_in. intros m Hm%in_seq. rewrite Hmine by lia. unfold theirs. rewrite Es.
    by destruct (bool_decide (m = n)), (mine w m), (db_test _ m). }
  unfold missing. apply (filter_shrinks _ _ _ n).
  - apply list_elem_of_In, in_seq. lia.
  - intros y [? _]%andb_true_iff. done.
  - by rewrite Hth, Hmm.
  - by rewrite bool_decide_true, andb_false_r.
Qed.

Lemma reads_blocks i n order :
  reads (B:=B) i (concat (map (fun k => deliver i 2 (nth_block (Z.of_nat n) (Ds n) k)) order) ++ [EvWorker])
    = concat (map (nth_block (Z.of_nat n) (Ds n)) order).
Proof.
  rewrite reads_app. change (reads i [EvWorker]) with (@nil byte). rewrite app_nil_r. induction order as [|k order IH]; [done|]. cbn [map concat].
  by rewrite reads_app, IH, reads_deliver.
Qed.

Lemma settled_blocks i n order :
  settled (B:=B) (concat (map (fun k => deliver i 2 (nth_block (Z.of_nat n) (Ds n) k)) order) ++ [EvWorker]).
Proof.
  apply settled_app. split; [|by repeat constructor]. induction order as [|k order IH]; [constructor|].
  cbn [map concat]. apply settled_app. split; [apply settled_deliver|done].
Qed.

Lemma receives i c0 c w0 w other n written :
  has_asked c0 w0 other n c w written →
  ∃ es c' js w', play es (put i c w) = Some (put i c' w') ∧ settled es ∧ reads i es = answer_bytes n ∧
    between_pieces c' w' other js ∧ slave_peer_ c' = slave_peer_ c ∧ wire c' = wire c ∧
    (length (missing c' w') < length (missing c w))%nat ∧
    ∀ m, (m < total)%nat → mine w' m = (bool_decide (m = n) || mine w m).
Proof.
  intros [Ho Hwant Hn [Hl Ha] _ _ _]. pose proof Hn as (Hlt & Hth & Hmm)%elem_of_missing.
  pose proof Ho as [Hm Hsub Hch Hint Hsz Hcl Hfree Hrand]. destruct (blocks_bounds n Hlt) as [Hb HD].
  pose proof (mb_idle _ Hm) as [Hq Hs Hqu Hmap _]. pose proof (td_total Ht).
  assert (∃ id rs, random_ w = id :: rs) as (id & rs & Er).
  { destruct (random_ w) as [|id rs]; [|by eexists _, _]. cbn [length] in Hrand.
    assert (0 < length (missing c w))%nat; [|lia]. by destruct (missing c w); [apply not_elem_of_nil in Hn|cbn; lia]. }
  destruct (deliver_piece i c w l pl (Z.of_nat n) (Ds n) (seq 0 (blocks_of (Ds n))) (Z.of_nat (length (Ds n))) id rs)
    as (c' & js & w' & E & Hd & Er'); try done.
  - lia.
  - rewrite Nat2Z.id. by apply Ht.
  - rewrite Nat2Z.id, (mb_meta _ Hm). by apply Ht.
  - rewrite (mb_meta _ Hm). apply Hm.
  - apply Hm.
  - rewrite Hmap, Er. cbn. rewrite decide_False; [done|]. rewrite lookup_empty. by intros [? ?].
  - destruct (member_delivered i c w n c' js w' Hm Hlt Hd) as [Hm' Hmine].
    destruct Hd as [Hcl' Hjs Hstr (Ks & Kst & Kw & Kc & Ko & Kr) _ _ _ _ _ _ _ Hreq Hsub' _ _].
    destruct (missing_shrinks c (posted c' js) w w' n Ks Hn Hmine) as [Hless Hsubset].
    eexists _, (posted c' js), js, w'. split; [rewrite (put_same i (posted c' js) w') by done; exact E|]. split; [apply settled_blocks|].
    split; [apply reads_blocks|].
    split; [|by split_and!]. split; try done.
    + split; try done.
      * unfold IsRemoteChoked in *. cbn. by rewrite Kst.
      * unfold IsClientInterested in *. cbn. by rewrite Kst.
      * cbn. by rewrite Ks.
      * intros m Hlm. unfold theirs. cbn. rewrite Ks. by apply Hcl.
      * intros m [Hmis Hne]%Hsubset _. rewrite Hreq. intros [Hin _]%elem_of_difference.
        revert Hin. apply Hfree; [done|]. by rewrite list_elem_of_singleton.
      * rewrite Er'. rewrite Er in Hrand. cbn [length] in *. lia.
    + cbn. by rewrite Hstr.
    + exists n. split; [done|]. rewrite Hmine, Hcl by done. by rewrite bool_decide_true.
Qed.

(** ** Piece after piece *)

(** A run that leaves nothing missing. *)
Definition completes (i j : nat) c w (st : Link B) : Prop :=
  ∃ c' w' v' a b, rtc (link_step i j) st (mkLink (put i c' w') v' a b) ∧ member w' ∧
    slave_peer_ c' = slave_peer_ c ∧ missing c' w' = [] ∧ ∀ m, (m < total)%nat → mine w m = true → mine w' m = true.

Lemma completes_from i j k c0 w0 c w s v other n js :
  has_asked c0 w0 other n c w (concat (map job_bytes js)) → announcements other js →
  (∀ m, mine v m = other m) → other_side s v k → (length (missing c w) ≤ k)%nat →
  completes i j c w (mkLink (put i c w) (put j s v) (length (wire s)) (length (wire c0))).
Proof.
  revert c0 w0 c w s v n js. induction k as [|k IH]; intros c0 w0 c w s v n js Ha Hjs Hv Hs Hk;
    pose proof (ha_missing _ _ _ _ _ _ _ Ha) as Hn.
  { destruct (missing c w); [by apply not_elem_of_nil in Hn|cbn in Hk; lia]. }
  pose proof Hn as (Hlt & Hth & _)%elem_of_missing.
  pose proof (os_claim _ _ _ _ (ha_side _ _ _ _ _ _ _ Ha) n Hlt Hth) as Hon.
  destruct (answers j s v k n js Hs Hlt) as (es & s1 & v1 & E1 & R1 & Hs1 & Hv1 & W1); [by rewrite Hv| |].
  { eapply announcements_mono; [|exact Hjs]. intros m Hm. by rewrite Hv. }
  destruct (receives i c0 c w0 w other n _ Ha) as (es2 & c2 & js2 & w2 & E2 & Q2 & R2 & Hbp & Hsl & W2 & Hless & Hmine).
  assert (rtc (link_step i j) (mkLink (put i c w) (put j s v) (length (wire s)) (length (wire c0)))
    (mkLink (put i c2 w2) (put j s1 v1) (length (wire s1)) (length (wire c2)))) as Hrun.
  { pose proof (ha_wire _ _ _ _ _ _ _ Ha) as Hw. rewrite <- R1 in Hw. rewrite <- R2 in W1. rewrite W2, W1, Hw.
    etrans; [apply (right_reads i j es c w _ _ (wire c0) [] _ E1); by rewrite app_nil_r|].
    apply (left_reads i j es2 _ _ s1 v1 (wire s) [] _ E2 Q2). by rewrite app_nil_r. }
  destruct (decide (missing c2 w2 = [])) as [Hnil|Hmore].
  { exists c2, w2, (put j s1 v1). eexists _, _. split; [exact Hrun|]. split; [apply Hbp|]. split; [done|]. split; [done|].
    intros m Hlm Hm. rewrite Hmine, Hm by done. apply orb_true_r. }
  destruct Hbp as [Ho Hc Hord Hrd Hstr Hann].
  destruct (asks_next i c2 js2 w2 other) as (es3 & n3 & c3 & w3 & E3 & Q3 & R3 & Ha3); try done.
  { eapply announcements_mono; [|exact Hann]. by intros m [? _]%andb_true_iff. }
  destruct (IH c2 w2 c3 w3 s1 v1 n3 js2 Ha3) as (c' & w' & v' & a & b & Hrun' & Hm' & Hsl' & Hmis' & Hmine').
  - eapply announcements_mono; [|exact Hann]. by intros m [_ ?]%andb_true_iff.
  - intros m. by rewrite Hv1.
  - done.
  - assert (missing c3 w3 = missing c2 w2) as ->; [|lia]. unfold missing, theirs. rewrite (ha_slave _ _ _ _ _ _ _ Ha3).
    apply filter_ext. intros m. by rewrite (ha_mine _ _ _ _ _ _ _ Ha3).
  - exists c', w', v', a, b. split; [|split; [done|split; [|split; [done|]]]].
    + etrans; [exact Hrun|]. etrans; [|exact Hrun'].
      pose proof (left_reads i j es3 _ _ s1 v1 (wire s1) [] (length (wire c2)) E3 Q3) as Hp.
      rewrite R3, !app_nil_r in Hp. by apply Hp.
    + by rewrite Hsl', (ha_slave _ _ _ _ _ _ _ Ha3).
    + intros m Hlm Hm. apply Hmine'; [done|]. rewrite (ha_mine _ _ _ _ _ _ _ Ha3), Hmine, Hm by done. apply orb_true_r.
Qed.
End Complete.

(** ** From the unchoke message on *)

Section Whole.
Context {B : Type} `{DynamicBitsetLaws B} `{Host} `{S1 : Sha1} `{!Sha1Laws S1}.
Context (l : list (bytes * Z)) (pl : Z) (meta : bytes) (Ds : nat → bytes) (Ht : torrent_data l pl meta Ds).
Implicit Types (w v : World B) (c s : PeerClient B).

(** An interested client without a piece, whose peer's unchoke message is the
    next thing to read, gets all the pieces the peer said it has. *)
Lemma completes_unchoked i j c w s v seen rs :
  member l pl meta Ds w → member l pl meta Ds v →
  listening c → active_piece_ c = None → 0 ≤ status_ c < 16 → IsClientInterested c = true →
  Size (bitfield_ (slave_peer_ c)) = piece_count_of meta →
  (∀ n, (n < piece_count_of meta)%nat → theirs c n = true → mine v n = true) →
  (∀ n, n ∈ missing meta c w → Z.of_nat n ∉ requested_pieces_ (master_peer_ w)) → subscribers_exist w →
  (2 * length (missing meta c w) ≤ length (random_ w))%nat →
  serving s v rs → (150 * length (missing meta c w) ≤ length rs)%nat → wire s = seen ++ unchoke_frame →
  ∃ st, rtc (link_step i j) (mkLink (put i c w) (put j s v) (length seen) (length (wire c))) st ∧
    ∀ n, (n < piece_count_of meta)%nat → theirs c n = true ∨ mine w n = true →
      mine (left_world st) n = true ∧ readable (left_world st) n (Ds n).
Proof.
  intros Hw Hv Hl Ha Hst Hint Hsz Hcl Hfree Hsub Hrand Hsv Hrs Hwire.
  assert (∀ c' w', member l pl meta Ds w' → slave_peer_ c' = slave_peer_ c → missing meta c' w' = [] →
    (∀ n, (n < piece_count_of meta)%nat → mine w n = true → mine w' n = true) →
    ∀ n, (n < piece_count_of meta)%nat → theirs c n = true ∨ mine w n = true →
      mine (put i c' w') n = true ∧ readable (put i c' w') n (Ds n)) as Hend.
  { intros c' w' Hm' Es Hmis Hmono n Hn Hor. assert (mine w' n = true) as Hmn.
    { destruct Hor as [Hth|]; [|auto]. destruct (mine w' n) eqn:E; [done|]. exfalso.
      apply (not_elem_of_nil n). rewrite <- Hmis. apply elem_of_missing. unfold theirs in *. by rewrite Es. }
    split; [exact Hmn|]. exact (member_readable l pl meta Ds w' n Ht Hm' Hn Hmn). }
  destruct (decide (missing meta c w = [])) as [Hnil|Hmore].
  { eexists. split; [apply rtc_refl|]. by apply Hend. }
  destruct (unchoked_flags (received (body_of unchoke []) 1 (body_read c)) _ Hst eq_refl) as [Hch Hint'].
  assert (our_side l pl meta Ds (unchoked c) w (mine v) []) as Ho.
  { split; try done; [etrans; [exact Hint'|exact Hint]|]. intros m Hm _. by apply Hfree. }
  destruct (asks_first l pl meta Ds Ht i c w (mine v) Ho) as (es & n & c1 & w1 & E & Q & R & Has); try done.
  pose proof (ha_missing _ _ _ _ _ _ _ _ _ _ _ Has) as Hn1. apply elem_of_missing in Hn1 as (Hn1 & Hth1 & _).
  assert (missing meta c1 w1 = missing meta c w) as Emis.
  { unfold missing, theirs. rewrite (ha_slave _ _ _ _ _ _ _ _ _ _ _ Has). apply filter_ext. intros m.
    by rewrite (ha_mine _ _ _ _ _ _ _ _ _ _ _ Has). }
  destruct (completes_from l pl meta Ds Ht i j (length (missing meta c w)) c w c1 w1 s v (mine v) n [])
    as (c' & w' & v' & a & b & Hrun & Hm' & Hsl & Hmis & Hmono); try done.
  - exists n. split; [done|]. split; [|done].
    exact (os_claim _ _ _ _ _ _ _ _ (ha_side _ _ _ _ _ _ _ _ _ _ _ Has) n Hn1 Hth1).
  - split; [done|]. by exists rs.
  - by rewrite Emis.
  - exists (mkLink (put i c' w') v' a b). split.
    + etrans; [|exact Hrun].
      pose proof (left_reads i j es _ _ s v seen [] (length (wire c)) E Q) as Hp.
      rewrite R, app_nil_r, <- Hwire in Hp. by apply Hp.
    + apply Hend; [done| |done|].
      * by rewrite Hsl, (ha_slave _ _ _ _ _ _ _ _ _ _ _ Has).
      * intros m Hlm Hm. apply Hmono; [done|]. by rewrite (ha_mine _ _ _ _ _ _ _ _ _ _ _ Has).
Qed.

(** ** From the connection on *)

(** Two members of the torrent that may meet: the one that dials lacks nothing
    it has been asking others for, the other one has every piece the first has. *)
Record may_meet (w v : World B) (q : Peer B) : Prop := {
  mm_left : member l pl meta Ds w;
  mm_right : member l pl meta Ds v;
  mm_says : ∃ ih, says w ih ∧ says v ih ∧ info_hash_ v = ih;
  mm_welcome : welcomes v (ip q);
  mm_ip : u32 (ip q) = ip q;
  mm_unchoke : available_unchoke_count_ (master_peer_ v) ≠ 0;
  mm_total : Z.of_nat (piece_count_of meta) < 2 ^ 24;
  mm_more n : (n < piece_count_of meta)%nat → mine w n = true → mine v n = true;
  mm_free n : (n < piece_count_of meta)%nat → mine v n = true → Z.of_nat n ∉ requested_pieces_ (master_peer_ w);
  mm_random : (2 * piece_count_of meta ≤ length (random_ w))%nat;
  mm_numbers : (150 * piece_count_of meta ≤ length (random_ v))%nat;
}.

Lemma length_missing c w : (length (missing meta c w) ≤ piece_count_of meta)%nat.
Proof. unfold missing. etrans; [apply List.filter_length_le|]. by rewrite length_seq. Qed.

Lemma lacks_dec w v :
  Size (my_bits v) = piece_count_of meta →
  lacks w (my_bits v) ∨ ∀ n, (n < piece_count_of meta)%nat → mine v n = true → mine w n = true.
Proof.
  intros Hs. destruct (List.filter (fun n => mine v n && negb (mine w n)) (seq 0 (piece_count_of meta))) as [|n rest] eqn:E.
  - right. intros n Hn Hv. destruct (mine w n) eqn:Hw; [done|].
    assert (In n []) as []. rewrite <- E. apply filter_In. split; [apply in_seq; lia|]. by rewrite Hv, Hw.
  - left. assert (In n (n :: rest)) as Hin by by left. rewrite <- E in Hin.
    apply filter_In in Hin as [Hn%in_seq [Hv Hw%negb_true_iff]%andb_true_iff]. exists n. rewrite Hs. split; [lia|done].
Qed.

Lemma completes_dialled i j (p q : Peer B) w v :
  may_meet w v q → clients v !! j = None → subscribers_exist (put i (dialled p) w) →
  ∃ st, rtc (link_step i j) (mkLink (put i (dialled p) w) v 0 0) st ∧
    ∀ n, (n < piece_count_of meta)%nat → mine v n = true →
      mine (left_world st) n = true ∧ readable (left_world st) n (Ds n).
Proof.
  intros [Hw Hv (ih & Hsw & Hsv & Hinfo) Hwel H32 Hav H24 Hmore Hfree Hrw Hrv] Hj Hsub.
  pose proof (mb_bits _ _ _ _ _ Hw) as Hbw. pose proof (mb_bits _ _ _ _ _ Hv) as Hbv.
  destruct (lacks_dec w v Hbv) as [Hlack|Hall].
  2:{ eexists. split; [apply rtc_refl|]. intros n Hn Hvn. split; [by apply Hall|].
      apply (member_readable l pl meta Ds); [done|by apply member_put|done|by apply Hall]. }
  destruct (greeting_run i j p q ih w v) as (c & s & seen & th & known & Hrun & Hth & Hc & Hkn & Hs);
    rewrite ?(mb_meta _ _ _ _ _ Hw), ?(mb_meta _ _ _ _ _ Hv); try done.
  { intros (n & Hn & Hvn & Hwn). unfold my_bits in Hn. rewrite Hbw in Hn. unfold mine, my_bits in *.
    by rewrite Hmore in Hvn. }
  rewrite (mb_meta _ _ _ _ _ Hw) in Hkn.
  destruct Hc as [Hl Hsl Ha Hst _]. set (v1 := with_sub j (ip q) v) in *.
  assert (member l pl meta Ds v1) as Hv1.
  { apply (member_same l pl meta Ds v); try done. destruct (mb_idle _ _ _ _ _ Hv). by split. }
  assert (∀ n, (n < piece_count_of meta)%nat → theirs c n = mine v n) as Hthv.
  { intros n Hn. unfold theirs, mine. rewrite Hsl. cbn. apply Hth. destruct Hth as [Hsz _].
    unfold Size, my_bits in *. lia. }
  assert (∀ n, n ∈ missing meta c (put i c w) → (n < piece_count_of meta)%nat ∧ mine v n = true) as Hmis.
  { intros n (Hn & Htn & _)%elem_of_missing. split; [done|]. by rewrite <- Hthv. }
  pose proof (length_missing c (put i c w)) as Hlen.
  destruct (completes_unchoked i j c (put i c w) s v1 seen (random_ v)) as (st & Hrun2 & Hend); try done.
  - by apply member_put.
  - rewrite Hst. lia.
  - unfold IsClientInterested. by rewrite Hst.
  - rewrite Hsl. cbn. rewrite Hth. exact Hbv.
  - intros n Hn. by rewrite Hthv.
  - intros n [Hn Hvn]%Hmis. by apply Hfree.
  - intros a k Hk. destruct (Hsub a k Hk) as [x Hx]. unfold put in *. cbn in *.
    destruct (decide (k = i)) as [->|Hne]; [rewrite lookup_insert_eq; by eexists|].
    rewrite lookup_insert_ne in * by done. by eexists.
  - change (random_ (put i c w)) with (random_ w). lia.
  - destruct Hs as [Hsl' Hss Hsa Hsst Hswi].
    unfold serving, IsRemoteInterested, IsClientChoked. rewrite Hsst, Hss, (mb_meta _ _ _ _ _ Hv1).
    split_and!; try done; try apply Hv1. lia.
  - lia.
  - apply Hs.
  - exists st. split; [etrans; [exact Hrun|]; by rewrite put_put in Hrun2|].
    intros n Hn Hvn. apply Hend; [done|]. left. by rewrite Hthv.
Qed.
End Whole.

(** ** Property *)

(** C3: two clients of a torrent that can connect bring each other up to date:
    when one dials the other, there is a run of the two over the connection,
    through both handshakes, the bitfields, interested and unchoke, and then
    request by request and piece by piece, after which every piece the other
    side had is done on our side and every block of it can be read from our
    files.  Nobody else was asked for those pieces; they have at most 150
    blocks; the worker's ids and our choices are drawn from numbers that do not
    run out; the other side has what we have and can still unchoke a peer. *)
Theorem download_completes {B : Type} `{DynamicBitsetLaws B} `{Host} `{S1 : Sha1} `{!Sha1Laws S1}
    l pl meta (Ds : nat → bytes) i j (p q : Peer B) w v :
  torrent_data l pl meta Ds → may_meet l pl meta Ds w v q → subscribers_exist w →
  clients w !! i = None → clients v !! j = None → welcomes w (ip p) →
  ∃ w1 st, handle_event (EvDial i p) w = Some (Ok (tt, w1)) ∧ rtc (link_step i j) (mkLink w1 v 0 0) st ∧
    ∀ n, (n < piece_count_of meta)%nat → mine v n = true →
      mine (left_world st) n = true ∧ readable (left_world st) n (Ds n).
Proof.
  intros Ht Hm Hsub Hi Hj Hwel.
  destruct (completes_dialled l pl meta Ds Ht i j p q (with_sub i (ip p) w) v) as (st & Hrun & Hend).
  - destruct Hm as [Hw Hv Hs ? ? ? ? ? ? ? ?]. split; try done.
    apply (member_same l pl meta Ds w); try done. destruct (mb_idle _ _ _ _ _ Hw). by split.
  - done.
  - intros a k. unfold put. cbn. intros [[<- <-]|[_ Hk]]%lookup_insert_Some; [rewrite lookup_insert_eq; by eexists|].
    destruct (decide (k = i)) as [->|Hne]; [rewrite lookup_insert_eq; by eexists|].
    rewrite lookup_insert_ne by done. by eapply Hsub.
  - exists (put i (dialled p) (with_sub i (ip p) w)), st. split; [by apply ev_dial|]. split; [exact Hrun|exact Hend].
Qed.

(** ** Two pieces *)

Module WholeTorrent.
#[local] Existing Instances x86_64 toy_sha1 toy_sha1_laws.

(** Two files of 30000 and 5000 bytes in pieces of 20000. *)
Definition info : Node :=
  NDict [(str "files", NArray [TwoFiles.file (str "a") 30000; TwoFiles.file (str "b") 5000]);
         (str "piece length", NInt 20000)].
Definition l : list (bytes * Z) := [(str "d/a", 30000); (str "d/b", 5000)].
Definition tf : TorrentFiles :=
  match multi_file (str "d") info ∅ with Ok (t, _) => t | _ => mkTorrentFiles 0 0 ∅ end.

Definition size_of (n : nat) : Z := if decide (n = 0)%nat then 20000 else 15000.
Definition Ds (n : nat) : bytes := replicate (Z.to_nat (size_of n)) (if decide (n = 0)%nat then x05 else x07).
Definition digests : bytes := GetSHA1 (Ds 0) ++ GetSHA1 (Ds 1).
Definition piece (n : nat) : Piece := full (Ds n) (Z.of_nat n) (seq 0 (blocks_of (Ds n))).

Definition written (n : nat) (f : fsys) : fsys :=
  match WritePieceToFile tf (piece n) f with Ok f => f | _ => ∅ end.

Definition info_hash : bytes := replicate 20 "I"%byte.

(** A client with the pieces [bits] on its disk, connected to nobody. *)
Definition a_world (bits : list bool) (pid : byte) (f : fsys) (rs : list Z) : World (list bool) :=
  let m := new_master (Peer_at (replicate 12 pid) 0x7f000001 6881) 2 info_hash in
  mkWorld digests info_hash (set_peer m (set_bitfield (as_peer m) bits)) ∅ (OptimalStrategy false) 0
          (mkManager tf ∅ (Start new_worker)) f rs.

(** We lack both pieces; the peer has both. *)
Definition our_world : World (list bool) := a_world [false; false] x01 (create_all l ∅) [5; 1; 2; 3].
Definition their_numbers : list Z := map Z.of_nat (seq 0 300).
Definition their_world : World (list bool) :=
  a_world [true; true] x02 (written 1 (written 0 (create_all l ∅))) their_numbers.

(** How the two see each other. *)
Definition them : Peer (list bool) := Peer_at (replicate 12 x04) 0x0a000002 6881.
Definition us : Peer (list bool) := Peer_at (replicate 12 x05) 0x0a000001 51413.

Lemma size_of_bounds n : 15000 ≤ size_of n ≤ 20000.
Proof. unfold size_of. case_decide; lia. Qed.

Lemma length_Ds n : Z.of_nat (length (Ds n)) = size_of n.
Proof. unfold Ds. rewrite length_replicate. apply Z2Nat.id. pose proof (size_of_bounds n). lia. Qed.

Lemma whole_ready : store_ready l 20000.
Proof.
  split; [lia|]. split; [|split; [reflexivity|by apply (bool_decide_unpack _); vm_compute]].
  intros x [->|[->|[]%not_elem_of_nil]%elem_of_cons]%elem_of_cons; cbn; lia.
Qed.

Lemma whole_meta : multi_meta (str "d") info 20000 l.
Proof. split; [reflexivity|]. eexists. split; reflexivity. Qed.

Lemma whole_layout : multi_file (str "d") info ∅ = Ok (tf, create_all l ∅).
Proof.
  destruct (multi_file_inv (str "d") info ∅ 20000 l whole_meta) as (cu & E & _); [lia| |done|].
  - intros x Hx. apply whole_ready in Hx. lia.
  - unfold tf. by rewrite E.
Qed.

Lemma created : files_exist l (create_all l ∅).
Proof.
  intros p [->|[->|[]%not_elem_of_nil]%elem_of_cons]%elem_of_cons; apply (bool_decide_unpack _); vm_compute; done.
Qed.

Lemma two_pieces : piece_count_of digests = 2%nat.
Proof. unfold piece_count_of, digests. by rewrite length_app, !length_GetSHA1. Qed.

Lemma torrent : torrent_data l 20000 digests Ds.
Proof.
  split; rewrite ?two_pieces.
  - intros n Hn. rewrite length_Ds. destruct n as [|[|n]]; [reflexivity|reflexivity|lia].
  - intros n _. rewrite length_Ds. pose proof (size_of_bounds n). unfold REQUEST_MAX_QUEUE_SIZE, most_request_size. lia.
  - intros n Hn. unfold digests. destruct n as [|[|n]]; [| |lia].
    + rewrite drop_0, take_app_length'; [done|]. by rewrite length_GetSHA1.
    + rewrite drop_app_length', take_ge; [done| |]; by rewrite length_GetSHA1.
  - lia.
Qed.

Lemma stored_world bits c f rs :
  files_exist l f → stored_as (a_world bits c f rs) l 20000.
Proof.
  intros Hf. split; [|exact whole_ready|done]. eexists _, _, _, _. split; [exact whole_meta|exact whole_layout].
Qed.

Lemma piece_in n : (n < 2)%nat → piece_fits l 20000 (piece n).
Proof.
  intros Hn. assert (piece_data (piece n) = Ds n) as Hd by by apply full_data.
  pose proof (size_data (piece n)) as Hs. rewrite Hd, length_Ds in Hs. unfold piece_fits. split_and!.
  - apply well_shaped_addressable, full_well_shaped; [done|]. pose proof (length_Ds n). pose proof (size_of_bounds n). lia.
  - change (index (piece n)) with (Z.of_nat n). lia.
  - pose proof (size_of_bounds n). lia.
  - change (index (piece n)) with (Z.of_nat n). rewrite Nat2Z.id, Hs.
    destruct n as [|[|n]]; [reflexivity|reflexivity|lia].
Qed.

(** Writing one of the pieces to the files. *)
Lemma write_piece n bits c f rs bits' c' rs' :
  (n < 2)%nat → files_exist l f →
  files_exist l (written n f) ∧ on_disk (a_world bits' c' (written n f) rs') n (Ds n) ∧
  ∀ m, m ≠ n → on_disk (a_world bits c f rs) m (Ds m) → on_disk (a_world bits' c' (written n f) rs') m (Ds m).
Proof.
  intros Hn Hf.
  destruct (write_stores (a_world bits c f rs) l 20000 (piece n) (stored_world _ _ _ _ Hf) (piece_in n Hn)) as (f' & E & Hst).
  unfold written. change (files_ (file_manager_ (a_world bits c f rs))) with tf in E.
  change (disk (a_world bits c f rs)) with f in E. rewrite E.
  destruct (Hst (a_world bits' c' f' rs') eq_refl eq_refl) as ([_ _ Hx] & Hnew & Hold). split; [exact Hx|].
  change (index (piece n)) with (Z.of_nat n) in *. rewrite Nat2Z.id in *. split.
  - assert (piece_data (piece n) = Ds n) as Hd by by apply full_data. by rewrite Hd in Hnew.
  - intros m Hne. apply Hold; [done|]. rewrite length_Ds. apply size_of_bounds.
Qed.

Lemma a_member bits c f rs :
  length bits = 2%nat → files_exist l f →
  (∀ n, (n < 2)%nat → nth n bits false = true → on_disk (a_world bits c f rs) n (Ds n)) →
  member l 20000 digests Ds (a_world bits c f rs).
Proof.
  intros Hb Hf Hd. split; rewrite ?two_pieces; try done.
  - by apply stored_world.
  - intros n Hn. rewrite length_Ds. unfold psize. change (meta_pieces_ _) with digests. rewrite two_pieces.
    destruct n as [|[|n]]; [reflexivity|reflexivity|lia].
Qed.

Lemma our_member : member l 20000 digests Ds our_world.
Proof.
  apply a_member; [done|apply created|]. intros [|[|n]] Hn; [discriminate|discriminate|lia].
Qed.

Lemma their_member : member l 20000 digests Ds their_world.
Proof.
  destruct (write_piece 0 [] x02 (create_all l ∅) [] [] x02 []) as (Hx0 & Hd0 & _); [lia|apply created|].
  destruct (write_piece 1 [] x02 _ [] [true; true] x02 their_numbers ltac:(lia) Hx0) as (Hx1 & Hd1 & Hold).
  apply a_member; [done|done|]. intros [|[|n]] Hn _; [|done|lia]. by apply Hold.
Qed.

Lemma they_meet : may_meet l 20000 digests Ds our_world their_world us.
Proof.
  split; rewrite ?two_pieces; try done.
  - exact our_member.
  - exact their_member.
  - exists info_hash. split; [|split; [|done]]; eexists; split_and!; reflexivity.
  - intros [|[|n]] Hn _; [reflexivity|reflexivity|lia].
Qed.

Lemma download_completes_witness :
  ∃ w1 st, handle_event (EvDial 0 them) our_world = Some (Ok (tt, w1)) ∧
    rtc (link_step 0 0) (mkLink w1 their_world 0 0) st ∧
    ∀ n, (n < piece_count_of digests)%nat → mine their_world n = true →
      mine (left_world st) n = true ∧ readable (left_world st) n (Ds n).
Proof.
  apply (download_completes l 20000 digests Ds 0 0 them us our_world their_world).
  - exact torrent.
  - exact they_meet.
  - intros a k Hk. discriminate Hk.
  - reflexivity.
  - reflexivity.
  - split; [reflexivity|]. vm_compute. congruence.
Defined.
End WholeTorrent.
