(* ===== verification/Integrity.v ===== *)
(** * What is marked done is on the disk

    The contents of the files: in every state the client can reach, each piece
    its bitfield announces is in the files with the bytes the metadata
    describes, as long as no block completes the piece under way under another
    piece's number.  Such a block is accepted and mixes the two pieces up.
    Before it, what the lambda of the file worker makes of a finished piece. *)

From Stdlib Require Import ZArith Lia Strings.Byte Strings.String.
From coqutil Require Import Byte Word.LittleEndianList.
From S2P Require Import Prelude Bytes Streams Worker Bencode Text Piece Files FilesFacts.
From S2P Require Import Bitset Bitfield Message Peer World PeerClient PeerFacts Exchange Download.
From S2P Require Import Invariant Handlers Safety Delivery Transfer Link Greeting Completion.

(** ** A property of states that computations keep *)

(** If [m] returns, [I] still holds and [Q] holds of the result. *)
Definition gives {S A} (I : S → Prop) (Q : A → Prop) (m : ST S A) : Prop :=
  ∀ s a s', m s = Ok (a, s') → I s → I s' ∧ Q a.

Abbreviation preserves I m := (gives I (fun _ => True) m).

Section Keeping.
Context {S : Type} (I : S → Prop).

Lemma gives_bind {A C} (Q : A → Prop) (R : C → Prop) (m : ST S A) f :
  gives I Q m → (∀ a, Q a → gives I R (f a)) → gives I R (m ≫= f).
Proof.
  intros Hm Hf s c s' (a & s1 & E1 & E2)%st_bind_Ok_inv Hs. destruct (Hm s a s1 E1 Hs) as [Hs1 Ha].
  by eapply Hf.
Qed.

Lemma preserves_bind {A C} (R : C → Prop) (m : ST S A) f :
  preserves I m → (∀ a, gives I R (f a)) → gives I R (m ≫= f).
Proof. intros Hm Hf. eapply gives_bind; [exact Hm|]. auto. Qed.

Lemma gives_ret {A} (Q : A → Prop) (a : A) : Q a → gives I Q (mret a).
Proof. intros Ha s a' s' [= <- <-]. auto. Qed.

Lemma preserves_lift {A} (m : outcome A) : preserves I (lift m).
Proof. intros s a s' [E ->]%lift_Ok_inv. auto. Qed.

Lemma preserves_get : preserves I get_st.
Proof. intros s a s' [= <- <-]. auto. Qed.

Lemma preserves_modify f : (∀ s, I s → I (f s)) → preserves I (modify f).
Proof. intros Hf s a s' [= <- <-]. auto. Qed.

Lemma preserves_when b (m : ST S unit) : preserves I m → preserves I (when b m).
Proof. intros Hm. destruct b; [done|by apply gives_ret]. Qed.

Lemma preserves_for_each {A} (l : list A) body :
  (∀ x, preserves I (body x)) → preserves I (for_each l body).
Proof.
  intros Hb. induction l as [|x l IH]; cbn [for_each]; [by apply gives_ret|]. by apply preserves_bind.
Qed.

(** What a computation without effects returned. *)
Lemma gives_lift {A} (m : outcome A) : gives I (fun a => m = Ok a) (lift m).
Proof. intros s a s' [E ->]%lift_Ok_inv. auto. Qed.

(** A part that only reads the state. *)
Lemma preserves_read {A} (f : S → outcome A) : preserves I (fun s => a ← f s; Ok (a, s)).
Proof. intros s a s' E. destruct (f s); try discriminate E. injection E as <- <-. auto. Qed.
End Keeping.

Create HintDb keeping.
#[export] Hint Resolve preserves_lift preserves_get : keeping.

(** Go through a computation. *)
Ltac keeping :=
  repeat first
    [ solve [auto with keeping]
    | progress intros
    | apply gives_ret; done
    | apply preserves_when
    | apply preserves_for_each
    | apply preserves_bind; [|intros]
    | progress autounfold with keeping
    | match goal with |- context [match ?x with _ => _ end] => destruct x end ].

(** ** Intact states *)

Section Intact.
Context {B : Type} `{DynamicBitsetLaws B} `{Host} `{S1 : Sha1} `{!Sha1Laws S1}.
Variables (l : list (bytes * Z)) (pl : Z) (meta : bytes).
Implicit Types (w : World B) (c : PeerClient B).

Let total : nat := piece_count_of meta.

(** Bytes that are piece [n] as far as the metadata tells: its length and digest. *)
Definition described (n : nat) (D : bytes) : Prop :=
  Z.of_nat (length D) = piece_len l pl n ∧ GetSHA1 D = take 20 (drop (20 * n) meta).

(** The piece a file worker is to write is the one the request names. *)
Definition named_request (j : FileJob) : Prop :=
  match j with
  | DownloadJob req => Piece.index (wr_piece req) = wr_piece_index req ∧ 0 ≤ wr_piece_index req
  | UploadJob _ => True
  end.

Definition numbered c : Prop := ∀ p next, active_piece_ c = Some (p, next) → 0 ≤ Piece.index p.

Record intact w : Prop := {
  in_meta : meta_pieces_ w = meta;
  in_bits : Size (bitfield_ (as_peer (master_peer_ w))) = total;
  in_stored : stored_as w l pl;
  in_disk n : (n < total)%nat → mine w n = true → ∃ D, described n D ∧ on_disk w n D;
  in_queue n : n ∈ queue_ (a_worker_ (file_manager_ w)) → named_request (n_func n);
  in_clients i c : clients w !! i = Some c → numbered c;
}.

(** What an intact state is about. *)
Lemma intact_same w w' :
  meta_pieces_ w' = meta_pieces_ w → bitfield_ (as_peer (master_peer_ w')) = bitfield_ (as_peer (master_peer_ w)) →
  disk w' = disk w → files_ (file_manager_ w') = files_ (file_manager_ w) →
  (∀ n, n ∈ queue_ (a_worker_ (file_manager_ w')) →
     n ∈ queue_ (a_worker_ (file_manager_ w)) ∨ named_request (n_func n)) →
  (∀ i c, clients w' !! i = Some c → clients w !! i = Some c ∨ numbered c) →
  intact w → intact w'.
Proof.
  intros Em Eb Ed Ef Hq Hc [I1 I2 I3 I4 I5 I6]. split.
  - congruence.
  - by rewrite Eb.
  - by eapply stored_as_same.
  - intros n Hn Hmine. unfold on_disk, mine in *. rewrite Ed, Ef. apply I4; [done|]. by rewrite <- Eb.
  - intros n Hn. destruct (Hq n Hn); auto.
  - intros i c Hi. destruct (Hc i c Hi); eauto.
Qed.

Abbreviation keeps_intact m := (preserves intact m).

Lemma intact_get_client i : keeps_intact (get_client i).
Proof. apply (preserves_read intact (fun w => opt_ub (clients w !! i))). Qed.

Lemma intact_get_master : keeps_intact get_master.
Proof. intros w a w' [= <- <-]. auto. Qed.

Lemma intact_total : keeps_intact TotalPiecesCount.
Proof. intros w a w' [= <- <-]. auto. Qed.

(** Client [i] changed, its active piece's number staying as it is. *)
Definition same_number (f : PeerClient B → PeerClient B) : Prop := ∀ c, numbered c → numbered (f c).

Lemma intact_modify_client i f : same_number f → keeps_intact (modify_client i f).
Proof.
  intros Hf w a w'. unfold modify_client. destruct (clients w !! i) as [c|] eqn:Hi; [|discriminate].
  intros [= <- <-] Hw. split; [|done]. apply (intact_same w); try done; [by left|].
  intros j cj. cbn. intros [[<- <-]|[Hne Hj]]%lookup_insert_Some; [|by left].
  right. apply Hf. by eapply (in_clients w).
Qed.

Lemma intact_modify_master f :
  (∀ m, bitfield_ (as_peer (f m)) = bitfield_ (as_peer m)) → keeps_intact (modify_master f).
Proof.
  intros Hf. apply preserves_modify. intros w. apply intact_same; try done; [apply Hf|by left|by left].
Qed.

Lemma same_number_active f : (∀ c, active_piece_ (f c) = active_piece_ c) → same_number f.
Proof. intros Hf c Hc p next. rewrite Hf. apply Hc. Qed.

Lemma same_number_dropped f : (∀ c, active_piece_ (f c) = None) → same_number f.
Proof. intros Hf c Hc p next. rewrite Hf. discriminate. Qed.

Lemma same_number_advance n : same_number (fun c =>
  match active_piece_ c with Some (p, begin) => set_active_piece c (Some (p, u64 (begin + n))) | None => c end).
Proof.
  intros c Hc p next. destruct (active_piece_ c) as [[q b]|] eqn:E; [|rewrite E; discriminate].
  cbn. intros [= <- <-]. by eapply Hc.
Qed.

Lemma same_number_dec : same_number dec_blocks_num.
Proof.
  intros c Hc p next. unfold dec_blocks_num. destruct (active_piece_ c) as [[q b]|] eqn:E; [|rewrite E; discriminate].
  cbn. intros [= <- <-]. cbn. by eapply Hc.
Qed.

Hint Resolve intact_get_client intact_get_master intact_total same_number_advance same_number_dec : keeping.
Hint Extern 2 (gives intact (fun _ => True) (modify_client _ _)) => apply intact_modify_client : keeping.
Hint Extern 2 (gives intact (fun _ => True) (modify_master _)) => apply intact_modify_master; done : keeping.
Hint Extern 3 (same_number _) => by apply same_number_active : keeping.
Hint Extern 4 (same_number _) => by apply same_number_dropped : keeping.

Hint Unfold Post Await Cancel Send Read Connect PieceDone PieceRequested PieceUploaded BindUpload UnbindUpload
  BindRequest UnbindRequest drop_timeout remind_about_self wait_piece stop_await GetPieceSize GetLastPieceSize : keeping.

Lemma intact_send_msg i m : keeps_intact (send_msg i m).
Proof. unfold send_msg. keeping. Qed.
Hint Resolve intact_send_msg : keeping.
Hint Unfold set_flag clear_flag send_keep_alive send_choke send_unchoke send_interested send_not_interested
  send_have send_request send_block send_cancel send_bitfield send_handshake : keeping.

Lemma intact_Disconnect i : keeps_intact (Disconnect i).
Proof.
  unfold Disconnect. apply preserves_bind; [keeping|]. intros c. destruct (is_disconnected c); [by apply gives_ret|].
  apply preserves_bind; [keeping|]. intros _ w u w'. intros (m & w1 & [= <- <-] & E)%st_bind_Ok_inv Hw.
  apply st_bind_Ok_inv in E as (m' & w1 & [Em ->]%lift_Ok_inv & E).
  apply st_bind_Ok_inv in E as ([] & w2 & [= <-] & E). revert E.
  assert (bitfield_ (as_peer m') = bitfield_ (as_peer (master_peer_ w))) as Hb.
  { unfold Unsubscribe in Em. outcome_inv. done. }
  intros E. assert (intact (set_master w m')) as Hw'
    by (apply (intact_same w); try done; [by left|by left]).
  apply (fun Hf => intact_modify_client _ _ Hf _ _ _ E Hw'). by apply same_number_active.
Qed.
Hint Resolve intact_Disconnect : keeping.

Hint Unfold do_read_header do_read_body : keeping.

Lemma intact_try_again i : keeps_intact (try_again_connect i).
Proof. unfold try_again_connect. keeping. Qed.

Lemma intact_access i : keeps_intact (access i).
Proof. unfold access. keeping. Qed.
Hint Resolve intact_try_again intact_access : keeping.

Hint Unfold verify_handshake on_handshake : keeping.

Lemma intact_Subscribe i p handshake :
  keeps_intact (new_object i p) ∧ keeps_intact (Subscribe i handshake).
Proof.
  split.
  - intros w u w'. unfold new_object. destruct (clients w !! i); [discriminate|]. intros [= <- <-] Hw. split; [|done].
    apply (intact_same w); try done; [by left|]. intros j c. cbn.
    intros [[<- <-]|[_ Hj]]%lookup_insert_Some; [right; by intros q b|by left].
  - unfold Subscribe, Process. apply preserves_bind; [keeping|]. intros c w u w'.
    intros (m & w1 & [= <- <-] & E)%st_bind_Ok_inv Hw. revert E.
    assert (bitfield_ (as_peer (subscribe_entry (master_peer_ w) (ip (slave_peer_ c)) i).2)
      = bitfield_ (as_peer (master_peer_ w))) as Hb.
    { unfold subscribe_entry. destruct (decide _); [done|]. by destruct (peers_subscribers_ _ !! _). }
    destruct (subscribe_entry _ _ _) as [fresh m']. cbn [snd] in Hb. intros E.
    apply st_bind_Ok_inv in E as ([] & w2 & [= <-] & E).
    assert (intact (set_master w m')) as Hw' by (apply (intact_same w); try done; [by left|by left]).
    refine ((_ : keeps_intact _) _ _ _ E Hw'). keeping.
Qed.

(** *** Requesting *)

Lemma collect_pieces_nonneg (bits : B) m e ids js : collect_pieces bits m e js = Ok ids → ∀ k, k ∈ ids → 0 ≤ k.
Proof.
  revert ids. induction js as [|i js IH]; intros ids E k Hk; cbn [collect_pieces] in E.
  - injection E as <-. by apply not_elem_of_nil in Hk.
  - outcome_inv. destruct (_ && _); [|by eapply IH].
    apply elem_of_cons in Hk as [->|Hk]; [apply u32_range|by eapply IH].
Qed.

Lemma intact_random a b : keeps_intact (GetNumberBetween a b).
Proof.
  intros w k w'. unfold GetNumberBetween. destruct (random_ w) as [|r rs]; [discriminate|]. intros [= <- <-] Hw.
  split; [|done]. apply (intact_same w); try done; [by left|by left].
Qed.
Hint Resolve intact_random : keeping.

Lemma intact_ChoosePiece (neigh : Peer B) :
  gives intact (fun chosen => ∀ k, chosen = Some k → 0 ≤ k) (ChoosePiece neigh).
Proof.
  intros w chosen w' E. rewrite ChoosePiece_any in E. revert chosen w' E. generalize (end_game_ (strategy_ w)) as e.
  intros e. revert w. change (gives intact (fun chosen => ∀ k, chosen = Some k → 0 ≤ k) (OptimalStrategy_ChoosePiece e neigh)).
  unfold OptimalStrategy_ChoosePiece. apply preserves_bind; [keeping|]. intros m.
  apply preserves_bind; [keeping|]. intros available.
  destruct (_ =? 0)%nat; [by apply gives_ret|].
  eapply gives_bind; [apply gives_lift|]. intros ids Hids. pose proof (collect_pieces_nonneg _ _ _ _ _ Hids) as Hk.
  destruct ids as [|id ids]; [by apply gives_ret|]. apply preserves_bind; [keeping|]. intros k.
  eapply gives_bind; [apply gives_lift|]. intros chosen Hc%opt_ub_Ok. apply preserves_bind; [keeping|]. intros _.
  apply gives_ret. intros k' [= <-]. by eapply Hk, list_elem_of_lookup_2.
Qed.

Lemma intact_active i : keeps_intact (active i).
Proof. unfold active. keeping. Qed.
Hint Resolve intact_active : keeping.

Lemma intact_request_loop n i ps : keeps_intact (request_loop n i ps).
Proof.
  revert ps. induction n as [|n IH]; intros ps; cbn [request_loop]; (destruct (_ >? _); [|by apply gives_ret]);
    [by apply gives_ret|]. unfold advance. keeping.
Qed.
Hint Resolve intact_request_loop : keeping.

Lemma intact_request_blocks i ps : keeps_intact (request_blocks i ps).
Proof. unfold request_blocks, advance. keeping. Qed.

Lemma intact_piece_size idx : keeps_intact (piece_size_of idx).
Proof. intros w a w'. unfold piece_size_of, mbind, ST_bind, TotalPiecesCount. destruct (_ =? _); by intros [= <- <-]. Qed.
Hint Resolve intact_request_blocks intact_piece_size : keeping.

Lemma intact_TryToRequestPiece i : keeps_intact (TryToRequestPiece i).
Proof.
  unfold TryToRequestPiece. apply preserves_bind; [keeping|]. intros c. destruct (active_piece_ c) as [[p b]|].
  - keeping.
  - apply preserves_bind; [keeping|]. intros m. apply preserves_bind; [keeping|]. intros total'.
    destruct (_ =? _); [keeping|]. destruct (IsRemoteChoked c); [by apply gives_ret|].
    apply preserves_bind; [keeping|]. intros _. eapply gives_bind; [apply intact_ChoosePiece|].
    intros [k|] Hk; [|by apply gives_ret]. apply preserves_bind; [keeping|]. intros ps.
    apply preserves_bind; [|keeping]. apply intact_modify_client. intros c' _ p next [= <- _]. by apply Hk.
Qed.
Hint Resolve intact_TryToRequestPiece : keeping.
Hint Unfold ClearAndTryRequest cancel_piece OnChoked OnUnchoked : keeping.

Lemma intact_cancel_loop n i id b len : keeps_intact (cancel_loop n i id b len).
Proof. revert b len. induction n as [|n IH]; intros b len; cbn [cancel_loop]; keeping. Qed.
Hint Resolve intact_cancel_loop : keeping.
Hint Unfold run_cancel_piece subscribers CancelPiece TryToRequestAgain SendHaveToAll : keeping.

Lemma intact_count_distributors js : keeps_intact (count_distributors js).
Proof. induction js as [|j js IH]; cbn [count_distributors]; keeping. Qed.
Hint Resolve intact_count_distributors : keeping.

(** *** The file manager *)

(** Jobs that may be added to the queue of the file workers. *)
Lemma intact_manager w m rs :
  files_ m = files_ (file_manager_ w) →
  (∀ n, n ∈ queue_ (a_worker_ m) → n ∈ queue_ (a_worker_ (file_manager_ w)) ∨ named_request (n_func n)) →
  intact w → intact (set_random (set_manager w m) rs).
Proof. intros Hf Hq. apply intact_same; try done. by left. Qed.

Lemma Enqueue_queue (a : AsyncWorker (J:=FileJob)) j rs id a' rs' :
  Enqueue a j rs = Ok (id, a', rs') → named_request j →
  ∀ n, n ∈ queue_ a' → n ∈ queue_ a ∨ named_request (n_func n).
Proof.
  intros E Hj n. destruct (Enqueue_cases a j rs) as [E'|(? & ? & ? & E' & Hq)]; rewrite E in E'; [discriminate E'|].
  injection E' as <- <- <-. rewrite Hq. intros [?| ->%list_elem_of_singleton]%elem_of_app; auto.
Qed.

Lemma list_erase_sub addr (q q' : list (Worker.Node (J:=FileJob))) : list_erase addr q = Ok q' → ∀ n, n ∈ q' → n ∈ q.
Proof.
  revert q'. induction q as [|x q IH]; intros q' E n Hn; cbn [list_erase] in E; [discriminate E|].
  case_decide; outcome_inv; [by right|]. apply elem_of_cons in Hn as [->|Hn]; [by left|right; by eapply IH].
Qed.

Lemma Erase_queue (a a' : AsyncWorker (J:=FileJob)) id :
  Erase a id = Ok a' → ∀ n, n ∈ queue_ a' → n ∈ queue_ a.
Proof. unfold Erase. destruct (_ !! id); intros E nd; outcome_inv; [by eapply list_erase_sub|done]. Qed.

Lemma intact_UploadPieceBlock req : keeps_intact (UploadPieceBlock req).
Proof.
  intros w id w' (w0 & w1 & [= <- <-] & E)%st_bind_Ok_inv Hw.
  apply st_bind_Ok_inv in E as ([[id1 m] rs] & w2 & [Eu ->]%lift_Ok_inv & E).
  apply st_bind_Ok_inv in E as ([] & w3 & [= <-] & [= <- <-]). split; [|done].
  unfold UploadBlock in Eu. outcome_inv.
  match goal with H : Enqueue _ _ _ = Ok _ |- _ => pose proof (Enqueue_queue _ _ _ _ _ _ H I) as Hq end.
  destruct (active_requests_ _ !! _); injection Eu as <- <- <-; by apply (intact_manager w).
Qed.

Lemma intact_CancelBlockUpload req : keeps_intact (CancelBlockUpload req).
Proof.
  intros w u w' (w0 & w1 & [= <- <-] & E)%st_bind_Ok_inv Hw.
  apply st_bind_Ok_inv in E as ([peer m] & w2 & [Ec ->]%lift_Ok_inv & E).
  apply st_bind_Ok_inv in E as ([] & w3 & [= <-] & E).
  assert (intact (set_manager w m)) as Hw'.
  { change (set_manager w m) with (set_random (set_manager w m) (random_ w)).
    unfold CancelBlock in Ec. destruct (active_requests_ _ !! _); outcome_inv; apply intact_manager; try done; [|by left].
    intros n Hn. left. by eapply Erase_queue. }
  refine ((_ : keeps_intact _) _ _ _ E Hw'). keeping.
Qed.
Hint Resolve intact_UploadPieceBlock intact_CancelBlockUpload : keeping.

Lemma intact_Torrent_DownloadPiece req : named_request (DownloadJob req) → keeps_intact (Torrent_DownloadPiece req).
Proof.
  intros Hreq w id w' (w0 & w1 & [= <- <-] & E)%st_bind_Ok_inv Hw.
  apply st_bind_Ok_inv in E as ([m rs] & w2 & [Eu ->]%lift_Ok_inv & [= <- <-]). split; [|done].
  unfold DownloadPiece in Eu. outcome_inv.
  match goal with H : Enqueue _ _ _ = Ok _ |- _ => pose proof (Enqueue_queue _ _ _ _ _ _ H Hreq) as Hq end.
  by apply intact_manager.
Qed.

(** *** Messages *)

Hint Unfold run_choked OnInterested OnNotInterested OnHave OnBitfield OnRequest OnPieceBlock BittorrentStrategy_OnPieceBlock
  OptimalStrategy_OnPieceBlock OnCancel
  OnBlockReadyToSend OnPort read_value response_cancel response_port
  handle_response on_header on_body keep_alive_fired : keeping.

Lemma intact_handle_response i : keeps_intact (handle_response i).
Proof. unfold handle_response. keeping. Qed.
Hint Resolve intact_handle_response : keeping.

(** *** The file workers *)

Lemma intact_upload req : keeps_intact (run_upload req).
Proof.
  intros w u w' (w0 & w1 & [= <- <-] & E)%st_bind_Ok_inv Hw.
  destruct (upload_entry (file_manager_ w) req) as [ret m] eqn:Eu.
  apply st_bind_Ok_inv in E as ([] & w2 & [= <-] & E).
  assert (intact (set_manager w m)) as Hw'.
  { change (set_manager w m) with (set_random (set_manager w m) (random_ w)).
    unfold upload_entry in Eu. destruct (active_requests_ _ !! _); injection Eu as <- <-;
      apply intact_manager; try done; by left. }
  refine ((_ : keeps_intact _) _ _ _ E Hw'). keeping.
Qed.

(** A bit may be set when the piece is on the disk. *)
Lemma intact_Have id w u w' :
  Have id w = Ok (u, w') → intact w →
  ((Z.to_nat id < total)%nat → ∃ D, described (Z.to_nat id) D ∧ on_disk w (Z.to_nat id) D) → intact w'.
Proof.
  intros (m & w1 & [= <- <-] & E)%st_bind_Ok_inv Hw Hd.
  apply st_bind_Ok_inv in E as (bits & w2 & [(Hlt & Hsz & Ht)%Set_Ok_inv ->]%lift_Ok_inv & E).
  apply st_bind_Ok_inv in E as ([] & w3 & [= <-] & E).
  refine (proj1 ((_ : keeps_intact (SendHaveToAll id)) _ _ _ E _)); [keeping|].
  destruct Hw as [I1 I2 I3 I4 I5 I6]. split; try done.
  - exact (eq_trans Hsz I2).
  - by apply (stored_as_same l pl w).
  - intros n Hn. unfold mine. cbn. rewrite Ht by (by rewrite I2). case_bool_decide as Hid; [|by apply I4].
    intros _. subst n. by apply Hd.
Qed.

Lemma intact_OnPieceDownloaded id : keeps_intact (OnPieceDownloaded id).
Proof.
  unfold OnPieceDownloaded, Strategy_OnPieceDownloaded, OptimalStrategy_OnPieceDownloaded,
    BittorrentStrategy_OnPieceDownloaded, DistributorsCount.
  apply preserves_bind; [apply preserves_modify; intros w; apply intact_same; try done; by left|]. intros _.
  apply preserves_bind; [keeping|]. intros w. destruct (strategy_ w) as [|e]; [keeping|].
  apply preserves_bind; [|keeping]. destruct e; [keeping|]. apply preserves_bind; [keeping|]. intros w1.
  apply preserves_bind; [keeping|]. intros n. apply preserves_when.
  apply preserves_modify. intros w'. apply intact_same; try done; by left.
Qed.

Hypothesis H20 : Z.of_nat total * 20 < 2 ^ 32.
Hypothesis Hsizes : ∀ n, (n < total)%nat → 0 < piece_len l pl n.

(** A checked piece written to the disk. *)
Lemma intact_write w req f :
  intact w → named_request (DownloadJob req) → (Z.to_nat (wr_piece_index req) < total)%nat →
  ArePieceValid (meta_pieces_ w) (finished_request req) = Ok true →
  size (sort_blocks (wr_piece req)) = piece_len l pl (Z.to_nat (wr_piece_index req)) →
  WritePieceToFile (files_ (file_manager_ w)) (sort_blocks (wr_piece req)) (disk w) = Ok f →
  intact (set_disk w f) ∧
  ∃ D, described (Z.to_nat (wr_piece_index req)) D ∧ on_disk (set_disk w f) (Z.to_nat (wr_piece_index req)) D.
Proof.
  intros Hw (Hidx & H0i) Hlt Hv Hsz Hwr. set (n := Z.to_nat (wr_piece_index req)) in *.
  set (p := sort_blocks (wr_piece req)) in *. assert (Piece.index p = wr_piece_index req) as Hip by done.
  rewrite (in_meta _ Hw) in Hv. rewrite ArePieceValid_eq in Hv; cbn [wr_piece_index finished_request]; try (fold n total); [|lia..].
  injection Hv as Hv. apply bool_decide_eq_true in Hv. cbn [wr_piece finished_request wr_piece_index] in Hv. fold p n in Hv.
  pose proof (size_data p) as Hsd. pose proof (Hsizes n Hlt) as Hs.
  assert (piece_fits l pl p) as Hfits.
  { unfold piece_fits. rewrite Hip. fold n. split_and!; [|lia..].
    destruct (stored_layout w l pl (in_stored _ Hw)) as (cu & Hi & Hcb & Hlay).
    eapply (WritePieceToFile_addressable l pl cu); [apply (in_stored _ Hw)|done|done|exact Hlay|..|exact Hwr];
      rewrite ?Hip; try lia. fold n. lia. }
  destruct (write_stores w l pl p (in_stored _ Hw) Hfits) as (f' & Ef & Hst). rewrite Hwr in Ef. injection Ef as <-.
  destruct (Hst (set_disk w f) eq_refl eq_refl) as (Hst' & Hnew & Hold). rewrite Hip in *. fold n in Hnew, Hold.
  assert (∃ D, described n D ∧ on_disk (set_disk w f) n D) as Hd.
  { exists (piece_data p). split; [split; [lia|exact Hv]|exact Hnew]. }
  split; [|exact Hd]. destruct Hw as [I1 I2 I3 I4 I5 I6]. split; try done.
  intros k Hk Hmine. destruct (decide (k = n)) as [->|Hne]; [done|].
  destruct (I4 k Hk Hmine) as (D & HD & Hon). exists D. split; [done|]. apply Hold; [done| |done].
  destruct HD as [HD _]. rewrite HD. unfold piece_len. lia.
Qed.

(** The piece to write passes the check and yet is not as long as the piece of its
    number: bytes of another length with the same digest. *)
Definition stray_length (req : WriteRequest) w : bool :=
  match ArePieceValid (meta_pieces_ w) (finished_request req) with
  | Ok true => negb (size (sort_blocks (wr_piece req)) =? piece_len l pl (Z.to_nat (wr_piece_index req)))
  | _ => false
  end.

Lemma intact_download req w u w' :
  run_download req w = Ok (u, w') → intact w → named_request (DownloadJob req) →
  stray_length req w = false → intact w'.
Proof.
  intros (w0 & w1 & [= <- <-] & E)%st_bind_Ok_inv Hw Hreq Hst. cbv zeta in E. fold (finished_request req) in E.
  apply st_bind_Ok_inv in E as (valid & w1 & [Hv ->]%lift_Ok_inv & E).
  apply st_bind_Ok_inv in E as ([] & w1 & E & E').
  refine (proj1 ((_ : keeps_intact (UnbindRequest _)) _ _ _ E' _)); [keeping|]. clear E'.
  destruct valid; [|by injection E as <-].
  apply st_bind_Ok_inv in E as (f & w2 & [Hwr ->]%lift_Ok_inv & E).
  apply st_bind_Ok_inv in E as ([] & w2 & [= <-] & E).
  apply st_bind_Ok_inv in E as ([] & w2 & Eh & E).
  apply (intact_OnPieceDownloaded _ _ _ _ E). clear E.
  assert (Z.to_nat (wr_piece_index req) < total)%nat as Hlt.
  { pose proof Eh as (m & w3 & [= <- <-] & E)%st_bind_Ok_inv.
    apply st_bind_Ok_inv in E as (bits & w3 & [(Hlt & _)%Set_Ok_inv _]%lift_Ok_inv & _).
    rewrite <- (in_bits _ Hw). exact Hlt. }
  unfold stray_length in Hst. rewrite Hv in Hst. apply negb_false_iff, Z.eqb_eq in Hst.
  destruct (intact_write w req f Hw Hreq Hlt Hv Hst Hwr) as [Hw1 Hd].
  by apply (intact_Have _ _ _ _ Eh Hw1).
Qed.

(** *** Lambdas *)

(** A block completes the active piece of [c] under another number. *)
Definition foreign_to c (idx : Z) : bool :=
  match active_piece_ c with
  | Some (p, _) => negb (idx =? Piece.index p) && (u64 (current_blocks_num p + 1) =? block_count p)
  | None => false
  end.

Lemma intact_block i idx b data c w u w' :
  run_block i idx b data w = Ok (u, w') → intact w → clients w !! i = Some c → foreign_to c idx = false → intact w'.
Proof.
  intros E Hw Hi Hf. unfold run_block in E. apply st_bind_Ok_inv in E as ([p next] & w1 & Ea & E).
  assert (w1 = w ∧ active_piece_ c = Some (p, next)) as [-> Ha].
  { apply st_bind_Ok_inv in Ea as (c' & w2 & Eg & [Ea ->]%lift_Ok_inv). unfold get_client in Eg. rewrite Hi in Eg.
    injection Eg as <- <-. split; [done|]. by apply opt_or_Ok in Ea. }
  pose proof (in_clients _ Hw i c Hi p next Ha) as H0i.
  apply st_bind_Ok_inv in E as (bl & w1 & [_ ->]%lift_Ok_inv & E).
  set (p' := mkPiece _ _ _ _) in E. assert (Piece.index p' = Piece.index p) as Hp' by done.
  refine (proj1 ((_ : keeps_intact _) w u w' E Hw)). apply preserves_bind.
  { apply intact_modify_client. intros c' _ q nx [= <- _]. by rewrite Hp'. }
  intros _. change (current_blocks_num p') with (u64 (current_blocks_num p + 1)).
  change (block_count p') with (block_count p).
  destruct (Z.eqb_spec (u64 (current_blocks_num p + 1)) (block_count p)) as [Hn|_]; [|keeping].
  apply preserves_bind.
  - apply intact_Torrent_DownloadPiece. cbn [wr_piece wr_piece_index named_request]. rewrite Hp'.
    unfold foreign_to in Hf. rewrite Ha, Hn, Z.eqb_refl, andb_true_r in Hf.
    apply negb_false_iff, Z.eqb_eq in Hf as ->. done.
  - intros _. apply preserves_bind; [|keeping]. apply intact_modify_client. intros c' _ q nx [= <- _]. exact H0i.
Qed.

Lemma intact_job i j : (∀ idx b data, j ≠ JBlock idx b data) → keeps_intact (run_job i j).
Proof. intros Hj. destruct j; cbn [run_job]; [keeping..|by destruct (Hj index begin data)]. Qed.

(** ** Events *)

(** The lambda to run completes its client's piece under another number. *)
Definition foreign_block (e : event (B:=B)) w : bool :=
  match e with
  | EvRun i =>
      match clients w !! i with
      | Some c => match strand c with JBlock idx _ _ :: _ => foreign_to c idx | _ => false end
      | None => false
      end
  | _ => false
  end.

Lemma intact_run i j js c w u w' :
  (_ ← modify_client i (fun c => set_strand c js); run_job i j) w = Ok (u, w') → intact w →
  clients w !! i = Some c → (∀ idx b data, j = JBlock idx b data → foreign_to c idx = false) → intact w'.
Proof.
  intros E Hw Hi Hj.
  assert ((∃ idx b data, j = JBlock idx b data) ∨ ∀ idx b data, j ≠ JBlock idx b data) as [(idx & b & data & ->)|Hn]
    by (destruct j; try (by right); left; by eexists _, _, _).
  - apply st_bind_Ok_inv in E as ([] & w1 & Em & E).
    unfold modify_client in Em. rewrite Hi in Em. injection Em as <-.
    apply (intact_block i idx b data (set_strand c js) _ _ _ E).
    + apply (intact_same w); try done; [by left|]. intros k ck. cbn.
      intros [[<- <-]|[_ Hk]]%lookup_insert_Some; [right; apply (in_clients _ Hw i c Hi)|by left].
    + apply lookup_insert_eq.
    + by eapply Hj.
  - refine (proj1 ((_ : keeps_intact _) w u w' E Hw)). apply preserves_bind; [keeping|]. intros _. by apply intact_job.
Qed.

(** The piece the file worker is to write has such a length. *)
Definition stray_piece (e : event (B:=B)) w : bool :=
  match e with
  | EvWorker =>
      match run_round (a_worker_ (file_manager_ w)) with
      | Some (DownloadJob req, _, _) => stray_length req w
      | _ => false
      end
  | _ => false
  end.

(** A computation that keeps every intact state keeps this one. *)
Lemma intact_by (m : ST (World B) unit) w u w' : m w = Ok (u, w') → intact w → keeps_intact m → intact w'.
Proof. intros E Hw Hm. by apply (Hm w u w'). Qed.

Lemma intact_worker w u w' :
  handle_event EvWorker w = Some (Ok (u, w')) → stray_piece EvWorker w = false → intact w → intact w'.
Proof.
  unfold stray_piece. cbn [handle_event]. destruct (run_round _) as [[[j id] a]|] eqn:Er; [|discriminate].
  cbn [mbind option_bind]. intros [= E] Hst Hw. destruct (run_round_popped _ _ _ _ Er) as (n & Hq & Hj).
  assert (intact (set_manager w (set_worker (file_manager_ w) a))) as Hw1.
  { change (set_manager w ?m) with (set_random (set_manager w m) (random_ w)). apply intact_manager; try done.
    intros n' Hn'. left. rewrite Hq. by right. }
  assert (named_request j) as Hreq by (rewrite <- Hj; apply (in_queue _ Hw); rewrite Hq; by left).
  destruct j as [req|req]; [by apply (intact_upload req _ _ _ E)|by apply (intact_download req _ _ _ E Hw1 Hreq)].
Qed.

Lemma intact_event e w u w' :
  handle_event e w = Some (Ok (u, w')) → foreign_block e w = false → stray_piece e w = false →
  intact w → intact w'.
Proof.
  intros E Hf Hst Hw. destruct e; [..|by apply (intact_worker w u w' E Hst)| |]; cbn [handle_event] in E;
    try (destruct (clients w !! i) as [c|] eqn:Hi; cbn [mbind option_bind] in E; [|discriminate E]).
  - destruct (strand c) as [|j js] eqn:Es; [discriminate E|]. apply (inj Some) in E.
    apply (intact_run i j js c w u w' E Hw Hi). intros idx b data ->. unfold foreign_block in Hf. by rewrite Hi, Es in Hf.
  - destruct (connecting c); [discriminate E|]. apply (inj Some) in E. apply (intact_by _ _ _ _ E Hw); keeping.
  - destruct (connecting c); [discriminate E|]. apply (inj Some) in E. apply (intact_by _ _ _ _ E Hw); keeping.
  - destruct (pending_writes c); [discriminate E|]. apply (inj Some) in E. apply (intact_by _ _ _ _ E Hw); keeping.
  - destruct (pending_writes c); [discriminate E|]. apply (inj Some) in E. apply (intact_by _ _ _ _ E Hw); keeping.
  - destruct (pending_reads c) as [|[size k] rs]; [discriminate E|]. case_bool_decide; [|discriminate E].
    apply (inj Some) in E. apply (intact_by _ _ _ _ E Hw); keeping.
  - destruct (pending_reads c) as [|[size k] rs]; [discriminate E|].
    apply (inj Some) in E. apply (intact_by _ _ _ _ E Hw); keeping.
  - destruct (timeout_ c); [|discriminate E]. apply (inj Some) in E. apply (intact_by _ _ _ _ E Hw); keeping.
  - destruct (keep_alive_timeout_ c); [|discriminate E]. apply (inj Some) in E. apply (intact_by _ _ _ _ E Hw); keeping.
  - destruct (piece_wait_timeout_ c); [|discriminate E]. apply (inj Some) in E. apply (intact_by _ _ _ _ E Hw); keeping.
  - destruct (clients w !! i); [discriminate E|]. destruct (slice _ _ _); try discriminate E.
    destruct (bool_decide _ && _); [|discriminate E]. apply (inj Some) in E. apply (intact_by _ _ _ _ E Hw).
    apply preserves_bind; [apply (intact_Subscribe i p None)|]. intros _. by apply intact_Subscribe.
  - destruct (clients w !! i); [discriminate E|]. apply (inj Some) in E. apply (intact_by _ _ _ _ E Hw).
    apply preserves_bind; [apply (intact_Subscribe i p None)|]. intros _. by apply intact_Subscribe.
Qed.

(** ** Runs without foreign blocks and pieces of stray length *)

Inductive clean_step : World B → World B → Prop :=
  | clean_event w e w' :
      handle_event e w = Some (Ok (tt, w')) → foreign_block e w = false → stray_piece e w = false → clean_step w w'.

Lemma intact_run_clean w w' : rtc clean_step w w' → intact w → intact w'.
Proof.
  induction 1 as [w|w1 w2 w3 Hs Hr IH]; [done|]. intros Hw. apply IH. destruct Hs as [w e w' E Hf Hst].
  by eapply intact_event.
Qed.

Lemma intact_readable w n :
  intact w → (n < total)%nat → mine w n = true → ∃ D, described n D ∧ readable w n D.
Proof.
  intros Hw Hn Hmine. destruct (in_disk _ Hw n Hn Hmine) as (D & [Hl Hh] & Hd). exists D. split; [done|].
  refine (on_disk_read w l pl n D _ _ _ _); [apply Hw|done|by apply Hsizes|done].
Qed.

(** The state the constructor of the torrent leaves is intact. *)
Lemma initial_intact info_hash (p : Peer B) s t f random :
  Size (bitfield_ p) = O → stored_as (initial meta info_hash p s t f random) l pl → intact (initial meta info_hash p s t f random).
Proof.
  intros Hz Hst. split; try done.
  - cbn. unfold Resize, Size. apply db_size_resize.
  - intros n Hn. unfold mine. cbn. unfold Resize. rewrite db_test_resize by done.
    unfold Size in Hz. rewrite decide_False by lia. done.
  - intros n Hn. by apply not_elem_of_nil in Hn.
Qed.
End Intact.

(** Playing events none of which is a foreign block or writes a stray piece. *)
Section Clean.
Context {B : Type} `{DynamicBitset B} `{Host} `{Sha1}.
Variables (l : list (bytes * Z)) (pl : Z).
Implicit Types w : World B.

Fixpoint clean_play (es : list event) w : option (World B) :=
  match es with
  | [] => Some w
  | e :: es =>
      if foreign_block e w || stray_piece l pl e w then None
      else match handle_event e w with Some (Ok (_, w)) => clean_play es w | _ => None end
  end.

Lemma clean_play_run es w w' : clean_play es w = Some w' → rtc (clean_step l pl) w w'.
Proof.
  revert w. induction es as [|e es IH]; intros w E; cbn [clean_play] in E; [injection E as <-; apply rtc_refl|].
  destruct (foreign_block e w) eqn:Ef; [discriminate E|]. destruct (stray_piece l pl e w) eqn:Es; [discriminate E|].
  destruct (handle_event e w) as [[[[] w1]| | | |]|] eqn:E1; try discriminate E.
  eapply rtc_l; [by eapply clean_event|by apply IH].
Qed.

Lemma clean_play_play es w w' : clean_play es w = Some w' → play es w = Some w'.
Proof.
  revert w. induction es as [|e es IH]; intros w E; cbn [clean_play play] in *; [done|].
  destruct (_ || _); [discriminate E|]. destruct (handle_event e w) as [[[[] w1]| | | |]|]; auto; discriminate E.
Qed.
End Clean.

(** ** A foreign block *)

Section Foreign.
Context {B : Type} `{DynamicBitsetLaws B} `{Host} `{S1 : Sha1} `{!Sha1Laws S1}.
Implicit Types (w : World B) (c : PeerClient B).

(** A piece of one block. *)
Definition one_block (q : Z) (D : bytes) : Piece := mkPiece [mkBlock D 0] 1 1 q.

Lemma one_block_sorted q D : sort_blocks (one_block q D) = one_block q D.
Proof. reflexivity. Qed.

Lemma one_block_fits l pl q D :
  0 ≤ q → 0 < Z.of_nat (length D) → Z.of_nat (length D) = piece_len l pl (Z.to_nat q) → piece_fits l pl (one_block q D).
Proof.
  intros Hq HD Hl. assert (size (one_block q D) = Z.of_nat (length D)) as Hs
    by (rewrite size_data; unfold piece_data, one_block; cbn [blocks map concat data_]; by rewrite app_nil_r).
  split_and!; [|done|lia|rewrite Hs; exact Hl]. apply well_shaped_addressable. exists (mkBlock D 0), [].
  cbn. split_and!; [done|lia|lia].
Qed.

(** The lambda of a block that names piece [idx], run while a piece [q] of one
    block is under way. *)
Lemma run_block_foreign i idx q D next id rs c w :
  active_piece_ c = Some (new_piece q 1, next) →
  draw_id (executing_callbacks_ (a_worker_ (file_manager_ w))) (random_ w) = Ok (id, rs) →
  run_block i idx 0 D (put i c w)
  = Ok (tt, put i (posted (set_active_piece c (Some (moved_from (one_block q D), next))) [JClearAndTry])
              (queued_world w id rs (mkWriteRequest (Some i) idx (one_block q D)))).
Proof.
  intros Ha Hd. unfold run_block.
  erewrite st_bind_Ok by (unfold active; erewrite st_bind_Ok by apply get_client_put; rewrite Ha; reflexivity).
  cbv iota. change (Z.to_nat (u32 (0 / most_request_size))) with O.
  erewrite st_bind_Ok by reflexivity. cbv beta zeta.
  change (mkPiece _ _ _ _) with (one_block q D).
  erewrite st_bind_Ok by apply modify_client_put. cbv beta.
  change (current_blocks_num (one_block q D) =? block_count (one_block q D)) with true. cbv iota.
  set (c1 := set_active_piece c _).
  erewrite st_bind_Ok by exact (Torrent_DownloadPiece_spec _ id rs (put i c1 w) Hd). cbv beta.
  change (queued_world (put i c1 w) id rs ?r) with (put i c1 (queued_world w id rs r)).
  erewrite st_bind_Ok by apply modify_client_put. cbv beta. unfold ClearAndTryRequest. by rewrite Post_put.
Qed.
End Foreign.

(** ** Properties *)


(** C11: what becomes of a finished piece.  One whose SHA-1 is not the one of the
    metadata leaves everything as it is but may be requested again.  One whose
    SHA-1 is right goes as writing it to the files goes: written, its bit is set,
    it counts as ready and is no longer requested, and telling the subscribers
    never fails; a write that throws ends the lambda with that exception.  With
    the files of a multi-file torrent and a piece of the length its number
    says, the write succeeds, and the piece is on the disk, when every byte is
    where the size of the first block says, and is undefined otherwise. *)
Theorem run_download_correct {B : Type} `{DynamicBitsetLaws B} `{Host} `{S1 : Sha1} `{!Sha1Laws S1}
    req (w : World B) :
  let idx := wr_piece_index req in
  let n := Z.to_nat idx in
  let p := sort_blocks (wr_piece req) in
  let valid := GetSHA1 (piece_data p) = take 20 (drop (20 * n) (meta_pieces_ w)) in
  let write := WritePieceToFile (files_ (file_manager_ w)) p (disk w) in
  0 ≤ idx → idx * 20 < 2 ^ 32 → (n < piece_count_of (meta_pieces_ w))%nat →
  Size (bitfield_ (as_peer (master_peer_ w))) = piece_count_of (meta_pieces_ w) → subscribers_exist w →
  (¬ valid → run_download req w = Ok (tt, set_master w (UnmarkRequestedPiece (master_peer_ w) idx))) ∧
  (valid →
    (∀ f, write = Ok f → ∃ w', run_download req w = Ok (tt, w') ∧ accepted w w' idx f) ∧
    (∀ e, write = Throw e → run_download req w = Throw e) ∧
    (write = UB → run_download req w = UB) ∧
    ∀ l pl, stored_as w l pl → Piece.index p = idx → 0 < size p → size p = piece_len l pl n →
      (addressable p → ∃ w' f, run_download req w = Ok (tt, w') ∧ accepted w w' idx f ∧ on_disk w' n (piece_data p)) ∧
      (¬ addressable p → run_download req w = UB)).
Proof.
  intros idx n p valid write H0i Hi Hn Hsz Hs.
  pose proof (ArePieceValid_eq (meta_pieces_ w) (finished_request req) H0i Hi Hn) as Hv.
  cbn [wr_piece wr_piece_index finished_request] in Hv. fold idx p n in Hv. fold valid in Hv.
  split; [intros Hd; rewrite bool_decide_false in Hv by done; by apply run_download_invalid|].
  intros Hd. rewrite bool_decide_true in Hv by done.
  assert (∀ f, write = Ok f → ∃ w', run_download req w = Ok (tt, w') ∧ accepted w w' idx f) as Hok.
  { intros f Hf. destruct (wp_Ok _ _ _ (run_download_valid req f w Hs ltac:(lia) Hv Hf)) as ([] & w' & E & Ha).
    by exists w'. }
  assert (write = UB → run_download req w = UB) as Hub by (intros E; exact (run_download_write req w Hv _ E)).
  split; [exact Hok|]. split; [intros e E; exact (run_download_write req w Hv _ E)|]. split; [exact Hub|].
  intros l pl Hst Hip Hp0 Hl. split; intros Ha.
  - destruct (write_stores w l pl p Hst) as (f & Hf & Hstores).
    { split_and!; [done|by rewrite Hip|done|by rewrite Hip]. }
    destruct (Hok f Hf) as (w' & E & Hacc). exists w', f. split_and!; [done|done|].
    destruct Hacc as (Hdisk & Hfm & _). destruct (Hstores w' Hdisk) as (_ & Hnew & _); [by rewrite Hfm|].
    rewrite Hip in Hnew. exact Hnew.
  - apply Hub. destruct (stored_layout w l pl Hst) as (cu & Hi' & Hcb & Hlay). destruct Hst as [_ Hr Hx].
    by apply (WritePieceToFile_odd l pl cu _ Hr Hi' Hcb Hlay); rewrite ?Hip.
Qed.

(** C25: a block names its piece itself, and nothing compares the name with the
    piece under way: when a piece [q] of one block is under way and the block
    that arrives is piece [idx] (known to the torrent, of the same size), the file
    worker checks it against the digest of [idx], writes it over [q]'s place in
    the files and marks [idx] as done, whose own place keeps what it had. *)
Theorem foreign_block_mixes_up {B : Type} `{DynamicBitsetLaws B} `{Host} `{S1 : Sha1} `{!Sha1Laws S1}
    i (c : PeerClient B) w l pl idx q D next js id rs :
  let a := a_worker_ (file_manager_ w) in
  let total := piece_count_of (meta_pieces_ w) in
  strand c = JBlock idx 0 D :: js → active_piece_ c = Some (new_piece q 1, next) → idx ≠ q →
  0 ≤ q → 0 ≤ idx < Z.of_nat total → Z.of_nat total * 20 < 2 ^ 32 →
  0 < Z.of_nat (length D) → Z.of_nat (length D) = piece_len l pl (Z.to_nat q) →
  GetSHA1 D = take 20 (drop (20 * Z.to_nat idx) (meta_pieces_ w)) →
  Size (bitfield_ (as_peer (master_peer_ w))) = total → subscribers_exist w → stored_as w l pl →
  quit_ a = false → stopped_ a = false → queue_ a = [] → draw_id (executing_callbacks_ a) (random_ w) = Ok (id, rs) →
  ∃ w', play [EvRun i; EvWorker] (put i c w) = Some w' ∧
    on_disk w' (Z.to_nat q) D ∧ mine w' (Z.to_nat idx) = true ∧
    ∀ n D', n ≠ Z.to_nat q → Z.of_nat (length D') ≤ pl → on_disk w n D' → on_disk w' n D'.
Proof.
  intros a total Hs Ha Hne Hq Hidx H20 HD Hl Hhash Hsz Hsub Hst Hqu Hsp Hqe Hd.
  erewrite play_cons.
  2:{ rewrite (ev_run i _ js c w Hs). cbn [run_job]. f_equal. by apply (run_block_foreign i idx q D next id rs). }
  set (c' := posted _ _). set (req := mkWriteRequest (Some i) idx (one_block q D)).
  pose proof (ev_worker_download id rs req (put i c' w) Hqu Hsp Hqe) as Ew.
  change (queued_world (put i c' w) id rs req) with (put i c' (queued_world w id rs req)) in Ew.
  cbn [play]. rewrite Ew. set (w2 := popped _ id).
  destruct (write_stores w l pl (one_block q D) Hst) as (f & Hwr & Hstores); [by apply one_block_fits|].
  assert (piece_data (one_block q D) = D) as Hpd by (unfold piece_data; cbn; apply app_nil_r).
  assert (ArePieceValid (meta_pieces_ w2) (finished_request req) = Ok true) as Hvalid.
  { change (finished_request req) with req. rewrite ArePieceValid_eq; change (wr_piece_index req) with idx; [|lia|lia|].
    - f_equal. apply bool_decide_true. change (wr_piece req) with (one_block q D). by rewrite Hpd.
    - change (meta_pieces_ w2) with (meta_pieces_ w). fold total. lia. }
  assert (Z.to_nat (wr_piece_index req) < Size (bitfield_ (as_peer (master_peer_ w2))))%nat as Hin
    by (change (Z.to_nat idx < Size (bitfield_ (as_peer (master_peer_ w))))%nat; lia).
  assert (subscribers_exist w2) as Hsub2 by exact (subscribers_put i c' (popped (queued_world w id rs req) id) Hsub).
  destruct (wp_Ok _ _ _ (run_download_valid req f w2 Hsub2 Hin Hvalid Hwr)) as ([] & w' & E' & Hacc).
  destruct Hacc as (Hdisk & Hfm & _ & _ & _ & _ & _ & _ & Hsize & Hbits).
  exists w'. rewrite E'. split; [done|]. destruct (Hstores w' Hdisk) as (_ & Hnew & Hold); [by rewrite Hfm|].
  rewrite Hpd in Hnew. split; [exact Hnew|]. split; [|exact Hold].
  unfold mine. rewrite Hbits by done. by rewrite bool_decide_true.
Qed.

(** C39: the digest of a piece does not say how its blocks were cut: a piece with
    the right bytes passes the check of the file worker, and when one of its
    bytes is not where the size of the first block says it is, writing the piece
    ends in undefined behaviour.  Whoever sends the blocks chooses their sizes. *)
Theorem odd_blocks_undefined {B : Type} `{DynamicBitsetLaws B} `{Host} `{S1 : Sha1} `{!Sha1Laws S1}
    (w : World B) l pl req n q :
  let a := a_worker_ (file_manager_ w) in
  let p := sort_blocks (wr_piece req) in
  let idx := wr_piece_index req in
  quit_ a = false → stopped_ a = false → queue_ a = n :: q → n_func n = DownloadJob req →
  Piece.index p = idx → 0 ≤ idx < Z.of_nat (piece_count_of (meta_pieces_ w)) → idx * 20 < 2 ^ 32 →
  stored_as w l pl → 0 < size p → size p = piece_len l pl (Z.to_nat idx) →
  GetSHA1 (piece_data p) = take 20 (drop (20 * Z.to_nat idx) (meta_pieces_ w)) →
  (∃ i, (i < length (piece_data p))%nat ∧ at_byte p i = UB) →
  handle_event EvWorker w = Some UB.
Proof.
  intros a p idx Hq Hs Hqu Hj Hip Hidx H20 Hst Hsz Hlen Hhash (k & Hk & Hodd).
  cbn [handle_event]. unfold run_round. fold a. rewrite Hq, Hs, Hqu. cbn [negb andb mbind option_bind]. rewrite Hj.
  f_equal. set (w1 := set_manager w _). unfold run_download. erewrite st_bind_Ok by reflexivity. cbv zeta beta.
  fold (finished_request req). erewrite st_bind_Ok.
  2:{ unfold lift. rewrite ArePieceValid_eq; change (wr_piece_index (finished_request req)) with idx; [|lia..|].
      - rewrite bool_decide_true by exact Hhash. reflexivity.
      - change (meta_pieces_ w1) with (meta_pieces_ w). lia. }
  cbv iota. destruct (stored_layout w l pl Hst) as (cu & Hi & Hcb & Hlay). destruct Hst as [_ Hr Hx].
  assert (WritePieceToFile (files_ (file_manager_ w1)) p (disk w1) = UB) as Hwr.
  { apply (WritePieceToFile_odd l pl cu _ Hr Hi Hcb Hlay); rewrite ?Hip; try done; [lia|].
    intros Ha. specialize (Ha k Hk). rewrite Hodd in Ha. apply lookup_lt_is_Some_2 in Hk as [b Hb].
    rewrite Hb in Ha. discriminate Ha. }
  unfold mbind, ST_bind, lift at 1. cbn [wr_piece finished_request]. fold p. by rewrite Hwr.
Qed.

(** ** Three pieces of four bytes *)

Module Honest.
Definition Ds (n : nat) : bytes := replicate 4 (nth n [x01; x02; x03] x00).

#[local] Existing Instances x86_64 fips_sha1 fips_sha1_laws.

Definition digests : bytes := GetSHA1 (Ds 0) ++ GetSHA1 (Ds 1) ++ GetSHA1 (Ds 2).

Lemma count : piece_count_of digests = 3%nat.
Proof. reflexivity. Qed.

Lemma pieces_sized n : (n < piece_count_of digests)%nat → 0 < piece_len TwoFiles.l 4 n.
Proof. rewrite count. intros Hn. destruct n as [|[|[|n]]]; [..|lia]; by vm_compute. Qed.

Definition start : World (list bool) :=
  initial digests Sample.info_hash Sample.me BittorrentStrategy TwoFiles.tf TwoFiles.f [0; 0; 0; 1; 2; 3; 4].

Lemma start_stored : stored_as start TwoFiles.l 4.
Proof.
  split; [|exact TwoFiles.ready|exact TwoFiles.exist]. eexists _, _, _, _. split; [exact TwoFiles.meta|exact TwoFiles.two_tf_eq].
Qed.

(** What peer [i] sends, and every lambda it leads to. *)
Definition him (i : nat) : Peer (list bool) := Peer_at (replicate 12 x02) (0x0a000001 + Z.of_nat i) 6882.
Definition runs (i n : nat) : list (event (B:=list bool)) := replicate n (EvRun i).
Definition hear (i after : nat) (body : bytes) : list (event (B:=list bool)) :=
  EvRead i (take 4 (frame body)) :: runs i 2 ++ EvRead i body :: runs i after.

(** The handshake, a peer with every piece, and its unchoke. *)
Definition opening (i : nat) : list (event (B:=list bool)) :=
  EvDial i (him i) :: runs i 2 ++ EvConnected i :: runs i 1 ++ EvWritten i :: runs i 2
    ++ EvRead i (MakeHandshake Sample.info_hash (id (him i))) :: runs i 3
    ++ hear i 2 (body_of bitfield [(1%nat, 0xe0)]) ++ hear i 2 (body_of unchoke []).

(** A block with the data of piece [n]. *)
Definition block (n : nat) : bytes := body_of piece_block (block_fields (Z.of_nat n) 0) ++ Ds n.

(** One piece asked for, sent, checked and stored. *)
Definition one_piece : list (event (B:=list bool)) := opening 0 ++ hear 0 2 (block 0) ++ [EvWorker].

Definition downloaded : World (list bool) := default start (clean_play TwoFiles.l 4 one_piece start).

Lemma downloaded_clean : rtc (clean_step TwoFiles.l 4) start downloaded.
Proof.
  apply (clean_play_run _ _ one_piece). unfold downloaded.
  assert (is_Some (clean_play TwoFiles.l 4 one_piece start)) as [w ->] by (vm_compute; by eexists). done.
Qed.


(** The second piece, whole. *)
Definition whole_piece : Piece := mkPiece [mkBlock (Ds 1) 0] 1 1 1.

Lemma run_download_correct_witness :
  ∃ w' f, run_download (mkWriteRequest (Some 0%nat) 1 whole_piece) start = Ok (tt, w') ∧
    accepted start w' 1 f ∧ on_disk w' 1 (Ds 1).
Proof.
  destruct (run_download_correct (mkWriteRequest (Some 0%nat) 1 whole_piece) start) as [_ Hv].
  - by vm_compute.
  - by vm_compute.
  - by vm_compute; lia.
  - reflexivity.
  - intros a j Ha. discriminate Ha.
  - destruct Hv as (_ & _ & _ & Hv); [by vm_compute|].
    apply (Hv TwoFiles.l 4 start_stored); [done|by vm_compute|by vm_compute|].
    apply well_shaped_addressable. exists (mkBlock (Ds 1) 0), []. cbn. split_and!; [done|lia|lia].
Defined.

(** A piece of one and three bytes. *)
Definition odd_piece : Piece := mkPiece [mkBlock [x01] 0; mkBlock [x01; x01; x01] 16384] 2 2 0.
Definition odd_world : World (list bool) :=
  queued_world start 7 [] (mkWriteRequest (Some 0%nat) 0 odd_piece).

Lemma odd_blocks_undefined_witness :
  piece_data odd_piece = Ds 0 ∧ handle_event EvWorker odd_world = Some UB.
Proof.
  split; [reflexivity|].
  apply (odd_blocks_undefined odd_world TwoFiles.l 4 (mkWriteRequest (Some 0%nat) 0 odd_piece)
    (mkNode 0 (DownloadJob (mkWriteRequest (Some 0%nat) 0 odd_piece)) 7) []).
  - reflexivity.
  - reflexivity.
  - reflexivity.
  - reflexivity.
  - reflexivity.
  - by vm_compute.
  - by vm_compute.
  - apply (stored_as_same TwoFiles.l 4 start); [done|done|exact start_stored].
  - by vm_compute.
  - by vm_compute.
  - by vm_compute.
  - exists 2%nat. split; [vm_compute; lia|by vm_compute].
Defined.

(** Two peers; the first one, asked for piece 0, sends what the second one was
    asked for. *)
Definition attack : list (event (B:=list bool)) := opening 0 ++ opening 1 ++ hear 0 0 (block 1).
Definition attacked : World (list bool) := default start (play attack start).

Lemma attacked_reachable : reachable start attacked.
Proof.
  unfold attacked. assert (is_Some (play attack start)) as [w E] by (vm_compute; by eexists). rewrite E.
  eapply play_reachable, E. constructor.
Qed.

(** Nothing is wrong yet. *)
Lemma attacked_stored : stored_as attacked TwoFiles.l 4.
Proof.
  assert (rtc (clean_step TwoFiles.l 4) start attacked) as Hr.
  { apply (clean_play_run _ _ attack). unfold attacked.
    assert (is_Some (clean_play TwoFiles.l 4 attack start)) as [w E] by (vm_compute; by eexists).
    by rewrite (clean_play_play _ _ _ _ _ E), E. }
  apply (intact_run_clean TwoFiles.l 4 digests ltac:(done) pieces_sized _ _ Hr), initial_intact; [done|exact start_stored].
Qed.

Lemma attacked_subscribers : subscribers_exist attacked.
Proof.
  intros a j. assert (map_Forall (fun _ j => is_Some (clients attacked !! j)) (peers_subscribers_ (master_peer_ attacked)))
    as Hs by (apply (bool_decide_unpack _); vm_compute; done). apply Hs.
Qed.

Lemma foreign_block_mixes_up_witness :
  reachable start attacked ∧ ∃ c, clients attacked !! 0%nat = Some c ∧
  ∃ w', play [EvRun 0; EvWorker] (put 0 c attacked) = Some w' ∧
    on_disk w' 0 (Ds 1) ∧ mine w' 1 = true ∧
    ∀ n D', n ≠ 0%nat → Z.of_nat (length D') ≤ 4 → on_disk attacked n D' → on_disk w' n D'.
Proof.
  split; [exact attacked_reachable|]. eexists. split; [vm_compute; reflexivity|].
  eapply (foreign_block_mixes_up 0 _ attacked TwoFiles.l 4 1 0 (Ds 1)).
  - reflexivity.
  - reflexivity.
  - lia.
  - lia.
  - by vm_compute.
  - by vm_compute.
  - by vm_compute.
  - by vm_compute.
  - by vm_compute.
  - by vm_compute.
  - exact attacked_subscribers.
  - exact attacked_stored.
  - by vm_compute.
  - by vm_compute.
  - by vm_compute.
  - by vm_compute.
Defined.
End Honest.
