(* ===== verification/Listener.v ===== *)
(** * The listener (src/Network/Listener.h, Listener.cpp)

    The port it binds, the loop that accepts connections, the handshake each of
    them has to send in time, and the torrents connections are handed to.  The
    torrents are the worlds of World.v; what happens inside one of them is an
    event of PeerClient.v. *)

From Stdlib Require Import ZArith Lia Strings.Byte Strings.String.
From coqutil Require Import Byte.
From S2P Require Import Prelude Bytes Streams Worker Bencode Text Piece Files.
From S2P Require Import Bitset Bitfield Message Peer World PeerClient.

Definition begin_port : Z := 6880.
Definition last_port : Z := 6889.

(** ** The port *)

(** What [ec] holds after [acceptor_.open(...) || acceptor_.bind(...)]; with
    [listen_throws e] it is not [address_in_use], and [listen] throws [e] then. *)
Inductive error_code := no_error | address_in_use | other_error | listen_throws (e : exn).

Definition no_free_port : exn := BadConnect "can't get free ports, try again later!".

(** The loop of [get_port], and [listen]; [bind] is what the system answers for a port. *)
Fixpoint get_port_loop (fuel : nat) (bind : Z → error_code) (port_ : Z) : outcome Z :=
  match fuel with
  | O => NoFuel
  | S fuel =>
      if port_ =? last_port then Throw no_free_port
      else
        let port_ := port_ + 1 in
        match bind port_ with
        | address_in_use => get_port_loop fuel bind port_
        | listen_throws e => Throw e
        | no_error | other_error => Ok port_
        end
  end.

Definition get_port (bind : Z → error_code) : outcome Z :=
  get_port_loop (Z.to_nat (last_port - begin_port + 1)) bind begin_port.

Section Listener.
Context {B : Type} `{DynamicBitset B} `{Host} `{Sha1}.

(** ** State *)

(** [participant]: its read is pending, its timer is armed, its socket has been
    closed by the timer. *)
Record participant := mkParticipant {
  reading : bool;
  timeout_ : bool;
  closed : bool;
}.

(** [Listener]: torrents by info hash, as numbers of their worlds; whether an
    [async_accept] is pending. *)
Record Listener := mkListener {
  torrents_ : gmap bytes nat;
  port_ : Z;
  accepting : bool;
  participants : gmap nat participant;
}.

Record Net := mkNet {
  listener : Listener;
  worlds : gmap nat (World B);
}.

Definition set_torrents (l : Listener) x := mkListener x (port_ l) (accepting l) (participants l).
Definition set_accepting (l : Listener) x := mkListener (torrents_ l) (port_ l) x (participants l).
Definition set_participants (l : Listener) x := mkListener (torrents_ l) (port_ l) (accepting l) x.
Definition set_listener (n : Net) x := mkNet x (worlds n).
Definition set_worlds (n : Net) x := mkNet (listener n) x.

(** ** Operations *)

Definition do_accept (l : Listener) : Listener := set_accepting l true.

(** The constructor; the node of the DHT is tested after it was moved from, so
    [dht_catcher] is never started. *)
Definition new_listener (bind : Z → error_code) : outcome Listener :=
  port ← get_port bind;
  Ok (do_accept (mkListener ∅ port false ∅)).

(** [emplace]: a torrent with the same info hash stays. *)
Definition AddTorrent (n : Net) (t : nat) : outcome Net :=
  w ← opt_ub (worlds n !! t);
  let l := listener n in
  match torrents_ l !! info_hash_ w with
  | Some _ => Ok n
  | None => Ok (set_listener n (set_torrents l (<[info_hash_ w := t]> (torrents_ l))))
  end.

Definition Verify (l : Listener) (k : nat) : Listener :=
  set_participants l (<[k := mkParticipant true true false]> (participants l)).

(** The callback of [async_accept]; [k] numbers the new participant. *)
Definition on_accept (ec : bool) (k : nat) (l : Listener) : Listener :=
  let l := set_accepting l false in
  let l := if ec then l else Verify l k in
  do_accept l.

(** The address and port of the other side become a peer with a random id. *)
Definition peer_of (rs : bytes) (remote_ep : bytes * Z) : outcome (Peer B) :=
  ip_int ← IpToInt (fst remote_ep);
  Ok (Peer_at rs (u32 ip_int) (u16 (snd remote_ep))).

(** The callback of the handshake's read: [None] stands for an error.  The log
    line looks at the first torrent.  [remote_ep] is what [remote_endpoint()]
    gives or throws, [i] numbers the new client, [rs] are the random bytes of
    its id.  Afterwards the participant is gone. *)
Definition on_handshake_read (k i : nat) (rs : bytes) (remote_ep : outcome (bytes * Z))
    (data : option bytes) (n : Net) : outcome Net :=
  let l := listener n in
  let n := set_listener n (set_participants l (delete k (participants l))) in
  match data with
  | None => Ok n
  | Some buff =>
      let info_hash := take 20 (drop 28 buff) in
      _ ← opt_ub (head (map_to_list (torrents_ l)));
      match torrents_ l !! info_hash with
      | None => Ok n
      | Some t =>
          w ← opt_ub (worlds n !! t);
          ep ← remote_ep;
          p ← peer_of rs ep;
          '(_, w) ← (_ ← new_object i p; Subscribe i (Some buff)) w;
          Ok (set_worlds n (<[t := w]> (worlds n)))
      end
  end.

(** The callback of the timer. *)
Definition on_participant_timeout (k : nat) (p : participant) (l : Listener) : Listener :=
  set_participants l (<[k := mkParticipant (reading p) false true]> (participants l)).

(** ** Events *)

Inductive net_event :=
  | NAddTorrent (t : nat)
  | NAccept (ec : bool) (k : nat)
  | NHandshake (k i : nat) (rs : bytes) (remote_ep : outcome (bytes * Z)) (data : option bytes)
  | NTimeout (k : nat)
  | NWorld (t : nat) (e : event (B:=B)).

(** [None]: the event cannot happen now.  A closed socket delivers no data; the
    connections of a world come from here. *)
Definition handle_net (e : net_event) (n : Net) : option (outcome Net) :=
  let l := listener n in
  match e with
  | NAddTorrent t => if worlds n !! t then Some (AddTorrent n t) else None
  | NAccept ec k =>
      if accepting l && bool_decide (participants l !! k = None)
      then Some (Ok (set_listener n (on_accept ec k l))) else None
  | NHandshake k i rs remote_ep data =>
      p ← participants l !! k;
      if reading p && match data with
                      | Some v => bool_decide (length v = handshake_length) && negb (closed p)
                      | None => true
                      end
         && forallb (fun '(_, w) => bool_decide (clients w !! i = None)) (map_to_list (worlds n))
      then Some (on_handshake_read k i rs remote_ep data n) else None
  | NTimeout k =>
      p ← participants l !! k;
      if timeout_ p then Some (Ok (set_listener n (on_participant_timeout k p l))) else None
  | NWorld t e =>
      w ← worlds n !! t;
      match e with
      | EvAccept _ _ _ => None
      | _ => r ← handle_event e w; Some ('(_, w) ← r; Ok (set_worlds n (<[t := w]> (worlds n))))
      end
  end.

Inductive net_step : Net → Net → Prop :=
  | net_step_event n e n' : handle_net e n = Some (Ok n') → net_step n n'.

Inductive net_reachable (n0 : Net) : Net → Prop :=
  | net_refl : net_reachable n0 n0
  | net_next n n' : net_reachable n0 n → net_step n n' → net_reachable n0 n'.
End Listener.

Arguments Net B : clear implicits.
Arguments net_event B : clear implicits.
