(* ===== verification/ListenerFacts.v ===== *)
(** * What the listener hands to the torrents

    The port it takes, the metadata no event of a torrent changes, and the
    refinement: whatever happens at the listener, each torrent only sees the
    events of PeerClient.v. *)

From Stdlib Require Import ZArith Lia Strings.Byte Strings.String.
From coqutil Require Import Byte.
From S2P Require Import Prelude Bytes Streams Worker Bencode Text Piece Files FilesFacts.
From S2P Require Import Bitset Bitfield Message Peer World PeerClient PeerFacts Exchange Download.
From S2P Require Import Invariant Handlers Safety Listener.

(** ** The port *)

Lemma get_port_loop_spec bind fuel port :
  port ≤ last_port → last_port - port < Z.of_nat fuel →
  match get_port_loop fuel bind port with
  | Ok p => port < p ≤ last_port ∧ bind p ≠ address_in_use ∧ ∀ q, port < q < p → bind q = address_in_use
  | Throw e => (e = no_free_port ∧ ∀ q, port < q ≤ last_port → bind q = address_in_use) ∨
      ∃ p, port < p ≤ last_port ∧ bind p = listen_throws e ∧ ∀ q, port < q < p → bind q = address_in_use
  | _ => False
  end.
Proof.
  revert port. induction fuel as [|fuel IH]; intros port Hp Hf; [lia|]. cbn [get_port_loop].
  destruct (Z.eqb_spec port last_port) as [->|Hne]; [left; split; [done|lia]|]. cbv zeta.
  destruct (bind (port + 1)) eqn:Eb.
  - split; [lia|]. split; [congruence|]. intros q Hq. lia.
  - specialize (IH (port + 1) ltac:(lia) ltac:(lia)).
    destruct (get_port_loop fuel bind (port + 1)) as [p|e| | |]; try done.
    + destruct IH as (H1 & H2 & H3). split; [lia|]. split; [done|]. intros q Hq.
      destruct (Z.eq_dec q (port + 1)) as [->|]; [done|]. apply H3. lia.
    + destruct IH as [(H1 & H2)|(p & Hlt & Ep & H2)]; [left; split; [done|]|right; exists p; split; [lia|split; [done|]]];
        intros q Hq; (destruct (Z.eq_dec q (port + 1)) as [->|]; [done|]); apply H2; lia.
  - split; [lia|]. split; [congruence|]. intros q Hq. lia.
  - right. exists (port + 1). split; [lia|]. split; [done|]. intros q Hq. lia.
Qed.

(** ** Metadata *)

Section Metadata.
Context {B : Type} `{DynamicBitset B} `{Host} `{Sha1}.
Implicit Types (w : World B).

(** What a torrent knows from its file: piece hashes, info hash, layout. *)
Definition metadata w : bytes * bytes * TorrentFiles := (meta_pieces_ w, info_hash_ w, files_ (file_manager_ w)).

(** [m] leaves the metadata alone. *)
Definition Frame {A} (m : ST (World B) A) : Prop :=
  ∀ w a w', m w = Ok (a, w') → metadata w' = metadata w.

Lemma frame_ret {A} (a : A) : Frame (mret a).
Proof. by intros w a' w' [= _ <-]. Qed.
Lemma frame_bind {A C} (m : ST (World B) A) (f : A → ST (World B) C) :
  Frame m → (∀ a, Frame (f a)) → Frame (m ≫= f).
Proof.
  intros Hm Hf w c w' (a & w1 & E & E')%st_bind_Ok_inv. rewrite (Hf a _ _ _ E'). by apply (Hm _ _ _ E).
Qed.
Lemma frame_lift {A} (m : outcome A) : Frame (lift m).
Proof. by intros w a w' [_ ->]%lift_Ok_inv. Qed.
Lemma frame_when b (m : ST (World B) unit) : Frame m → Frame (when b m).
Proof. destruct b; [done|]. intros _. apply frame_ret. Qed.
Lemma frame_for_each {A} (l : list A) (body : A → ST (World B) unit) :
  (∀ x, Frame (body x)) → Frame (for_each l body).
Proof. intros Hb. induction l as [|x l IH]; cbn [for_each]; [apply frame_ret|]. by apply frame_bind. Qed.
Lemma frame_get_st : Frame get_st.
Proof. by intros w a w' [= _ <-]. Qed.
Lemma frame_get_client i : Frame (get_client (B:=B) i).
Proof. intros w a w'. unfold get_client. destruct (clients w !! i); [|done]. by intros [= _ <-]. Qed.
Lemma frame_modify_client i f : Frame (modify_client (B:=B) i f).
Proof. intros w a w'. unfold modify_client. destruct (clients w !! i); [|done]. by intros [= _ <-]. Qed.
Lemma frame_get_master : Frame (get_master (B:=B)).
Proof. by intros w a w' [= _ <-]. Qed.
Lemma frame_modify_master f : Frame (modify_master (B:=B) f).
Proof. by intros w a w' [= _ <-]. Qed.
Lemma frame_total : Frame (TotalPiecesCount (B:=B)).
Proof. by intros w a w' [= _ <-]. Qed.
Lemma frame_GetPieceSize : Frame (GetPieceSize (B:=B)).
Proof. by intros w a w' [= _ <-]. Qed.
Lemma frame_GetLastPieceSize : Frame (GetLastPieceSize (B:=B)).
Proof. by intros w a w' [= _ <-]. Qed.
Lemma frame_GetNumberBetween a b : Frame (GetNumberBetween (B:=B) a b).
Proof. intros w x w'. unfold GetNumberBetween. destruct (random_ w); [done|]. by intros [= _ <-]. Qed.
Lemma frame_new_object i p : Frame (new_object (B:=B) i p).
Proof. intros w x w'. unfold new_object. destruct (clients w !! i); [done|]. by intros [= _ <-]. Qed.
Lemma frame_modify (f : World B → World B) : (∀ w, metadata (f w) = metadata w) → Frame (modify f).
Proof. intros Hf w a w' [= _ <-]. apply Hf. Qed.
End Metadata.

Create HintDb frame.
#[export] Hint Constants Opaque : frame.
#[export] Hint Resolve frame_ret frame_lift frame_get_st frame_get_client frame_modify_client frame_get_master
  frame_modify_master frame_total frame_GetPieceSize frame_GetLastPieceSize frame_GetNumberBetween
  frame_new_object : frame.

(** A member function is unfolded down to the primitives above. *)
Ltac frame_step :=
  match goal with
  | |- ∀ _, _ => intro
  | |- Frame (match ?x with _ => _ end) => destruct x
  | |- Frame (let _ := _ in _) => cbv zeta
  | |- Frame (modify _) => by apply frame_modify
  | |- Frame _ => first [simple apply frame_bind | simple apply frame_when | simple apply frame_for_each | solve [auto 1 with frame nocore]]
  end.
Ltac frames := repeat frame_step.
Tactic Notation "frame" reference(d) := unfold d; frames.

(** The manager's layout outlives its jobs. *)
Lemma UploadBlock_files m req rs id m' rs' : UploadBlock m req rs = Ok (id, m', rs') → files_ m' = files_ m.
Proof.
  unfold UploadBlock. intros ([[id1 a] rs1] & _ & E)%bind_Ok_inv.
  destruct (active_requests_ _ !! _); by injection E as <- <- <-.
Qed.
Lemma CancelBlock_files m req o m' : CancelBlock m req = Ok (o, m') → files_ m' = files_ m.
Proof.
  unfold CancelBlock. destruct (active_requests_ m !! _); [|by intros [= <- <-]].
  intros (a & _ & (p & _ & E)%bind_Ok_inv)%bind_Ok_inv. by injection E as <- <-.
Qed.
Lemma DownloadPiece_files m req rs m' rs' : DownloadPiece m req rs = Ok (m', rs') → files_ m' = files_ m.
Proof. unfold DownloadPiece. intros ([[id1 a] rs1] & _ & E)%bind_Ok_inv. by injection E as <- <-. Qed.
Lemma upload_entry_files m req b m' : upload_entry m req = (b, m') → files_ m' = files_ m.
Proof. unfold upload_entry. destruct (active_requests_ m !! _); by intros [= <- <-]. Qed.

Section Frames.
Context {B : Type} `{DynamicBitset B} `{Host} `{Sha1}.

Lemma f_set_flag i bit : Frame (set_flag (B:=B) i bit).
Proof. frame set_flag. Qed.
#[local] Hint Resolve f_set_flag : frame.
Lemma f_clear_flag i bit : Frame (clear_flag (B:=B) i bit).
Proof. frame clear_flag. Qed.
#[local] Hint Resolve f_clear_flag : frame.
Lemma f_Post i j : Frame (Post (B:=B) i j).
Proof. frame Post. Qed.
#[local] Hint Resolve f_Post : frame.
Lemma f_Await i k : Frame (Await (B:=B) i k).
Proof. frame Await. Qed.
#[local] Hint Resolve f_Await : frame.
Lemma f_Cancel i : Frame (Cancel (B:=B) i).
Proof. frame Cancel. Qed.
#[local] Hint Resolve f_Cancel : frame.
Lemma f_Send i m k : Frame (Send (B:=B) i m k).
Proof. frame Send. Qed.
#[local] Hint Resolve f_Send : frame.
Lemma f_Read i n k : Frame (Read (B:=B) i n k).
Proof. frame Read. Qed.
#[local] Hint Resolve f_Read : frame.
Lemma f_Connect i : Frame (Connect (B:=B) i).
Proof. frame Connect. Qed.
#[local] Hint Resolve f_Connect : frame.
Lemma f_PieceDone idx : Frame (PieceDone (B:=B) idx).
Proof. frame PieceDone. Qed.
#[local] Hint Resolve f_PieceDone : frame.
Lemma f_PieceRequested idx : Frame (PieceRequested (B:=B) idx).
Proof. frame PieceRequested. Qed.
#[local] Hint Resolve f_PieceRequested : frame.
Lemma f_PieceUploaded idx : Frame (PieceUploaded (B:=B) idx).
Proof. frame PieceUploaded. Qed.
#[local] Hint Resolve f_PieceUploaded : frame.
Lemma f_BindUpload id : Frame (BindUpload (B:=B) id).
Proof. frame BindUpload. Qed.
#[local] Hint Resolve f_BindUpload : frame.
Lemma f_UnbindUpload id : Frame (UnbindUpload (B:=B) id).
Proof. frame UnbindUpload. Qed.
#[local] Hint Resolve f_UnbindUpload : frame.
Lemma f_BindRequest id : Frame (BindRequest (B:=B) id).
Proof. frame BindRequest. Qed.
#[local] Hint Resolve f_BindRequest : frame.
Lemma f_UnbindRequest id : Frame (UnbindRequest (B:=B) id).
Proof. frame UnbindRequest. Qed.
#[local] Hint Resolve f_UnbindRequest : frame.
Lemma f_Disconnect i : Frame (Disconnect (B:=B) i).
Proof. frame Disconnect. Qed.
#[local] Hint Resolve f_Disconnect : frame.
Lemma f_try_again_connect i : Frame (try_again_connect (B:=B) i).
Proof. frame try_again_connect. Qed.
#[local] Hint Resolve f_try_again_connect : frame.
Lemma f_Process i hs : Frame (Process (B:=B) i hs).
Proof. frame Process. Qed.
#[local] Hint Resolve f_Process : frame.
Lemma f_Subscribe i hs : Frame (Subscribe (B:=B) i hs).
Proof. frame Subscribe. Qed.
#[local] Hint Resolve f_Subscribe : frame.
Lemma f_drop_timeout i : Frame (drop_timeout (B:=B) i).
Proof. frame drop_timeout. Qed.
#[local] Hint Resolve f_drop_timeout : frame.
Lemma f_remind_about_self i : Frame (remind_about_self (B:=B) i).
Proof. frame remind_about_self. Qed.
#[local] Hint Resolve f_remind_about_self : frame.
Lemma f_wait_piece i : Frame (wait_piece (B:=B) i).
Proof. frame wait_piece. Qed.
#[local] Hint Resolve f_wait_piece : frame.
Lemma f_do_read_header i : Frame (do_read_header (B:=B) i).
Proof. frame do_read_header. Qed.
#[local] Hint Resolve f_do_read_header : frame.
Lemma f_do_read_body i : Frame (do_read_body (B:=B) i).
Proof. frame do_read_body. Qed.
#[local] Hint Resolve f_do_read_body : frame.
Lemma f_send_msg i m : Frame (send_msg (B:=B) i m).
Proof. frame send_msg. Qed.
#[local] Hint Resolve f_send_msg : frame.
Lemma f_send_keep_alive i : Frame (send_keep_alive (B:=B) i).
Proof. frame send_keep_alive. Qed.
#[local] Hint Resolve f_send_keep_alive : frame.
Lemma f_send_choke i : Frame (send_choke (B:=B) i).
Proof. frame send_choke. Qed.
#[local] Hint Resolve f_send_choke : frame.
Lemma f_send_unchoke i : Frame (send_unchoke (B:=B) i).
Proof. frame send_unchoke. Qed.
#[local] Hint Resolve f_send_unchoke : frame.
Lemma f_send_interested i : Frame (send_interested (B:=B) i).
Proof. frame send_interested. Qed.
#[local] Hint Resolve f_send_interested : frame.
Lemma f_send_not_interested i : Frame (send_not_interested (B:=B) i).
Proof. frame send_not_interested. Qed.
#[local] Hint Resolve f_send_not_interested : frame.
Lemma f_send_have i idx : Frame (send_have (B:=B) i idx).
Proof. frame send_have. Qed.
#[local] Hint Resolve f_send_have : frame.
Lemma f_send_bitfield i : Frame (send_bitfield (B:=B) i).
Proof. frame send_bitfield. Qed.
#[local] Hint Resolve f_send_bitfield : frame.
Lemma f_send_request i idx b l : Frame (send_request (B:=B) i idx b l).
Proof. frame send_request. Qed.
#[local] Hint Resolve f_send_request : frame.
Lemma f_send_block i idx b d : Frame (send_block (B:=B) i idx b d).
Proof. frame send_block. Qed.
#[local] Hint Resolve f_send_block : frame.
Lemma f_send_cancel i idx b l : Frame (send_cancel (B:=B) i idx b l).
Proof. frame send_cancel. Qed.
#[local] Hint Resolve f_send_cancel : frame.
Lemma f_access i : Frame (access (B:=B) i).
Proof. frame access. Qed.
#[local] Hint Resolve f_access : frame.
Lemma f_verify_handshake i v : Frame (verify_handshake (B:=B) i v).
Proof. frame verify_handshake. Qed.
#[local] Hint Resolve f_verify_handshake : frame.
Lemma f_send_handshake i : Frame (send_handshake (B:=B) i).
Proof. frame send_handshake. Qed.
#[local] Hint Resolve f_send_handshake : frame.
Lemma f_on_handshake i d : Frame (on_handshake (B:=B) i d).
Proof. frame on_handshake. Qed.
#[local] Hint Resolve f_on_handshake : frame.
Lemma f_BittorrentStrategy_ChoosePiece p : Frame (BittorrentStrategy_ChoosePiece (B:=B) p).
Proof. frame BittorrentStrategy_ChoosePiece. Qed.
#[local] Hint Resolve f_BittorrentStrategy_ChoosePiece : frame.
Lemma f_OptimalStrategy_ChoosePiece e p : Frame (OptimalStrategy_ChoosePiece (B:=B) e p).
Proof. frame OptimalStrategy_ChoosePiece. Qed.
#[local] Hint Resolve f_OptimalStrategy_ChoosePiece : frame.
Lemma f_ChoosePiece p : Frame (ChoosePiece (B:=B) p).
Proof. frame ChoosePiece. Qed.
#[local] Hint Resolve f_ChoosePiece : frame.
Lemma f_piece_size_of idx : Frame (piece_size_of (B:=B) idx).
Proof. frame piece_size_of. Qed.
#[local] Hint Resolve f_piece_size_of : frame.
Lemma f_active i : Frame (active (B:=B) i).
Proof. frame active. Qed.
#[local] Hint Resolve f_active : frame.
Lemma f_advance i n : Frame (advance (B:=B) i n).
Proof. frame advance. Qed.
#[local] Hint Resolve f_advance : frame.
Lemma f_request_loop n i ps : Frame (request_loop (B:=B) n i ps).
Proof. revert i ps; induction n; intros; cbn [request_loop]; frames. Qed.
#[local] Hint Resolve f_request_loop : frame.
Lemma f_request_blocks i ps : Frame (request_blocks (B:=B) i ps).
Proof. frame request_blocks. Qed.
#[local] Hint Resolve f_request_blocks : frame.
Lemma f_TryToRequestPiece i : Frame (TryToRequestPiece (B:=B) i).
Proof. frame TryToRequestPiece. Qed.
#[local] Hint Resolve f_TryToRequestPiece : frame.
Lemma f_ClearAndTryRequest i : Frame (ClearAndTryRequest (B:=B) i).
Proof. frame ClearAndTryRequest. Qed.
#[local] Hint Resolve f_ClearAndTryRequest : frame.
Lemma f_cancel_piece i id : Frame (cancel_piece (B:=B) i id).
Proof. frame cancel_piece. Qed.
#[local] Hint Resolve f_cancel_piece : frame.
Lemma f_cancel_loop n i id b l : Frame (cancel_loop (B:=B) n i id b l).
Proof. revert i id b l; induction n; intros; cbn [cancel_loop]; frames. Qed.
#[local] Hint Resolve f_cancel_loop : frame.
Lemma f_run_cancel_piece i id : Frame (run_cancel_piece (B:=B) i id).
Proof. frame run_cancel_piece. Qed.
#[local] Hint Resolve f_run_cancel_piece : frame.
Lemma f_subscribers  : Frame (subscribers (B:=B) ).
Proof. frame subscribers. Qed.
#[local] Hint Resolve f_subscribers : frame.
Lemma f_SendHaveToAll n : Frame (SendHaveToAll (B:=B) n).
Proof. frame SendHaveToAll. Qed.
#[local] Hint Resolve f_SendHaveToAll : frame.
Lemma f_CancelPiece id : Frame (CancelPiece (B:=B) id).
Proof. frame CancelPiece. Qed.
#[local] Hint Resolve f_CancelPiece : frame.
Lemma f_TryToRequestAgain  : Frame (TryToRequestAgain (B:=B) ).
Proof. frame TryToRequestAgain. Qed.
#[local] Hint Resolve f_TryToRequestAgain : frame.
Lemma f_count_distributors l : Frame (count_distributors (B:=B) l).
Proof. induction l; intros; cbn [count_distributors]; frames. Qed.
#[local] Hint Resolve f_count_distributors : frame.
Lemma f_DistributorsCount  : Frame (DistributorsCount (B:=B) ).
Proof. frame DistributorsCount. Qed.
#[local] Hint Resolve f_DistributorsCount : frame.
Lemma f_UploadPieceBlock req : Frame (UploadPieceBlock (B:=B) req).
Proof.
  intros w a w'. unfold UploadPieceBlock. intros (w0 & w1 & [= <- <-] & E)%st_bind_Ok_inv.
  apply st_bind_Ok_inv in E as ([[id m] rs] & w1 & [E ->]%lift_Ok_inv & E').
  apply st_bind_Ok_inv in E' as (u & w2 & [= _ <-] & [= _ <-]).
  unfold metadata. cbn. by rewrite (UploadBlock_files _ _ _ _ _ _ E).
Qed.
#[local] Hint Resolve f_UploadPieceBlock : frame.
Lemma f_CancelBlockUpload req : Frame (CancelBlockUpload (B:=B) req).
Proof.
  intros w a w'. unfold CancelBlockUpload. intros (w0 & w1 & [= <- <-] & E)%st_bind_Ok_inv.
  apply st_bind_Ok_inv in E as ([o m] & w1 & [E ->]%lift_Ok_inv & E').
  apply st_bind_Ok_inv in E' as (u & w2 & [= _ <-] & E').
  assert (metadata w' = metadata (set_manager w m)) as -> by (revert E'; apply frame_when, f_UnbindUpload).
  unfold metadata. cbn. by rewrite (CancelBlock_files _ _ _ _ E).
Qed.
#[local] Hint Resolve f_CancelBlockUpload : frame.
Lemma f_Torrent_DownloadPiece req : Frame (Torrent_DownloadPiece (B:=B) req).
Proof.
  intros w a w'. unfold Torrent_DownloadPiece. intros (w0 & w1 & [= <- <-] & E)%st_bind_Ok_inv.
  apply st_bind_Ok_inv in E as ([m rs] & w1 & [E ->]%lift_Ok_inv & [= _ <-]).
  unfold metadata. cbn. by rewrite (DownloadPiece_files _ _ _ _ _ E).
Qed.
#[local] Hint Resolve f_Torrent_DownloadPiece : frame.
Lemma f_Have n : Frame (Have (B:=B) n).
Proof. frame Have. Qed.
#[local] Hint Resolve f_Have : frame.
Lemma f_BittorrentStrategy_OnPieceDownloaded id : Frame (BittorrentStrategy_OnPieceDownloaded (B:=B) id).
Proof. frame BittorrentStrategy_OnPieceDownloaded. Qed.
#[local] Hint Resolve f_BittorrentStrategy_OnPieceDownloaded : frame.
Lemma f_OptimalStrategy_OnPieceDownloaded e id : Frame (OptimalStrategy_OnPieceDownloaded (B:=B) e id).
Proof. frame OptimalStrategy_OnPieceDownloaded. Qed.
#[local] Hint Resolve f_OptimalStrategy_OnPieceDownloaded : frame.
Lemma f_Strategy_OnPieceDownloaded id : Frame (Strategy_OnPieceDownloaded (B:=B) id).
Proof. frame Strategy_OnPieceDownloaded. Qed.
#[local] Hint Resolve f_Strategy_OnPieceDownloaded : frame.
Lemma f_OnPieceDownloaded id : Frame (OnPieceDownloaded (B:=B) id).
Proof. frame OnPieceDownloaded. Qed.
#[local] Hint Resolve f_OnPieceDownloaded : frame.
Lemma f_SetPiece n : Frame (SetPiece (B:=B) n).
Proof. frame SetPiece. Qed.
#[local] Hint Resolve f_SetPiece : frame.
Lemma f_OnChoked i : Frame (OnChoked (B:=B) i).
Proof. frame OnChoked. Qed.
#[local] Hint Resolve f_OnChoked : frame.
Lemma f_run_choked i : Frame (run_choked (B:=B) i).
Proof. frame run_choked. Qed.
#[local] Hint Resolve f_run_choked : frame.
Lemma f_OnUnchoked i : Frame (OnUnchoked (B:=B) i).
Proof. frame OnUnchoked. Qed.
#[local] Hint Resolve f_OnUnchoked : frame.
Lemma f_OnInterested i : Frame (OnInterested (B:=B) i).
Proof. frame OnInterested. Qed.
#[local] Hint Resolve f_OnInterested : frame.
Lemma f_OnNotInterested i : Frame (OnNotInterested (B:=B) i).
Proof. frame OnNotInterested. Qed.
#[local] Hint Resolve f_OnNotInterested : frame.
Lemma f_OnHave i idx : Frame (OnHave (B:=B) i idx).
Proof. frame OnHave. Qed.
#[local] Hint Resolve f_OnHave : frame.
Lemma f_OnBitfield i : Frame (OnBitfield (B:=B) i).
Proof. frame OnBitfield. Qed.
#[local] Hint Resolve f_OnBitfield : frame.
Lemma f_OnRequest i idx b l : Frame (OnRequest (B:=B) i idx b l).
Proof. frame OnRequest. Qed.
#[local] Hint Resolve f_OnRequest : frame.
Lemma f_BittorrentStrategy_OnPieceBlock i idx b d : Frame (BittorrentStrategy_OnPieceBlock (B:=B) i idx b d).
Proof. frame BittorrentStrategy_OnPieceBlock. Qed.
#[local] Hint Resolve f_BittorrentStrategy_OnPieceBlock : frame.
Lemma f_OptimalStrategy_OnPieceBlock e i idx b d : Frame (OptimalStrategy_OnPieceBlock (B:=B) e i idx b d).
Proof. frame OptimalStrategy_OnPieceBlock. Qed.
#[local] Hint Resolve f_OptimalStrategy_OnPieceBlock : frame.
Lemma f_OnPieceBlock i idx b d : Frame (OnPieceBlock (B:=B) i idx b d).
Proof. frame OnPieceBlock. Qed.
#[local] Hint Resolve f_OnPieceBlock : frame.
Lemma f_run_block i idx b d : Frame (run_block (B:=B) i idx b d).
Proof. frame run_block. Qed.
#[local] Hint Resolve f_run_block : frame.
Lemma f_OnCancel i idx b l : Frame (OnCancel (B:=B) i idx b l).
Proof. frame OnCancel. Qed.
#[local] Hint Resolve f_OnCancel : frame.
Lemma f_OnBlockReadyToSend i idx b bl : Frame (OnBlockReadyToSend (B:=B) i idx b bl).
Proof. frame OnBlockReadyToSend. Qed.
#[local] Hint Resolve f_OnBlockReadyToSend : frame.
Lemma f_OnPort i p : Frame (OnPort (B:=B) i p).
Proof. frame OnPort. Qed.
#[local] Hint Resolve f_OnPort : frame.
Lemma f_read_value i n : Frame (read_value (B:=B) i n).
Proof. frame read_value. Qed.
#[local] Hint Resolve f_read_value : frame.
Lemma f_response_cancel i n : Frame (response_cancel (B:=B) i n).
Proof. frame response_cancel. Qed.
#[local] Hint Resolve f_response_cancel : frame.
Lemma f_response_port i n : Frame (response_port (B:=B) i n).
Proof. frame response_port. Qed.
#[local] Hint Resolve f_response_port : frame.
Lemma f_handle_response i : Frame (handle_response (B:=B) i).
Proof. frame handle_response. Qed.
#[local] Hint Resolve f_handle_response : frame.
Lemma f_on_header i d : Frame (on_header (B:=B) i d).
Proof. frame on_header. Qed.
#[local] Hint Resolve f_on_header : frame.
Lemma f_on_body i d : Frame (on_body (B:=B) i d).
Proof. frame on_body. Qed.
#[local] Hint Resolve f_on_body : frame.
Lemma f_run_upload req : Frame (run_upload (B:=B) req).
Proof.
  intros w a w'. unfold run_upload. intros (w0 & w1 & [= <- <-] & E)%st_bind_Ok_inv.
  destruct (upload_entry (file_manager_ w) req) as [ret m] eqn:Eu.
  apply st_bind_Ok_inv in E as (u & w1 & [= _ <-] & E').
  assert (metadata (set_manager w m) = metadata w) as <-
    by (unfold metadata; cbn; by rewrite (upload_entry_files _ _ _ _ Eu)).
  revert E'. match goal with |- ?f _ = _ → _ => assert (Frame f) as Hf; [frames|apply Hf] end.
Qed.
#[local] Hint Resolve f_run_upload : frame.
Lemma f_run_download req : Frame (run_download (B:=B) req).
Proof. frame run_download. Qed.
#[local] Hint Resolve f_run_download : frame.
Lemma f_run_job i j : Frame (run_job (B:=B) i j).
Proof. frame run_job. Qed.
#[local] Hint Resolve f_run_job : frame.
Lemma f_stop_await i : Frame (stop_await (B:=B) i).
Proof. frame stop_await. Qed.
#[local] Hint Resolve f_stop_await : frame.
Lemma f_keep_alive_fired i : Frame (keep_alive_fired (B:=B) i).
Proof. frame keep_alive_fired. Qed.
#[local] Hint Resolve f_keep_alive_fired : frame.

(** No event of a torrent changes its metadata. *)
Lemma event_metadata e (w w' : World B) : handle_event e w = Some (Ok (tt, w')) → metadata w' = metadata w.
Proof.
  assert (∀ m : ST (World B) unit, Frame m → ∀ u w1 w2, Some (m w1) = Some (Ok (u, w2)) → metadata w2 = metadata w1) as Hf
    by (intros m Hm u w1 w2 [= E]; by apply (Hm _ _ _ E)).
  destruct e; cbn [handle_event]; intros E;
    try (destruct (clients w !! i) as [c|] eqn:Hi; cbn [mbind option_bind] in E; [|discriminate E]).
  - destruct (strand c) as [|j js]; [discriminate E|]. revert E. apply Hf. frames.
  - destruct (connecting c) as [|n]; [discriminate E|]. revert E. apply Hf. frames.
  - destruct (connecting c) as [|n]; [discriminate E|]. revert E. apply Hf. frames.
  - destruct (pending_writes c) as [|k ks]; [discriminate E|]. revert E. apply Hf. frames.
  - destruct (pending_writes c) as [|k ks]; [discriminate E|]. revert E. apply Hf. frames.
  - destruct (pending_reads c) as [|[size k] rs]; [discriminate E|]. case_bool_decide; [|discriminate E].
    revert E. apply Hf. frames.
  - destruct (pending_reads c) as [|[size k] rs]; [discriminate E|]. revert E. apply Hf. frames.
  - destruct (World.timeout_ c) as [k|]; [|discriminate E]. revert E. apply Hf. frames.
  - destruct (keep_alive_timeout_ c); [|discriminate E]. revert E. apply Hf. frames.
  - destruct (piece_wait_timeout_ c); [|discriminate E]. revert E. apply Hf. frames.
  - destruct (run_round _) as [[[j id] a]|]; [|discriminate E]. cbn [mbind option_bind] in E.
    transitivity (metadata (set_manager w (set_worker (file_manager_ w) a))); [|done]. revert E. apply Hf. frames.
  - destruct (clients w !! i) eqn:Hi; [discriminate E|]. destruct (slice handshake 28 20); try discriminate E.
    destruct (_ && _); [|discriminate E]. revert E. apply Hf. frames.
  - destruct (clients w !! i) eqn:Hi; [discriminate E|]. revert E. apply Hf. frames.
Qed.
End Frames.

(** ** The listener and its torrents *)

Section Net.
Context {B : Type} `{DynamicBitset B} `{Host} `{Sha1}.
Implicit Types (n : Net B) (w : World B).

(** The torrents of [n] are those of [ws], some steps later, each under its own
    info hash; the listener accepts; every participant waits for its handshake,
    with its timer armed or its socket closed. *)
Record net_inv (ws : gmap nat (World B)) n : Prop := {
  ni_accepting : accepting (listener n) = true;
  ni_torrents h t : torrents_ (listener n) !! h = Some t → ∃ w, worlds n !! t = Some w ∧ info_hash_ w = h;
  ni_worlds t w : worlds n !! t = Some w → ∃ w0, ws !! t = Some w0 ∧ reachable w0 w;
  ni_participants k p : participants (listener n) !! k = Some p → reading p = true ∧ Listener.timeout_ p = negb (closed p);
}.

Lemma net_inv_start bind l ws : new_listener bind = Ok l → net_inv ws (mkNet l ws).
Proof.
  unfold new_listener. intros (port & _ & [= <-])%bind_Ok_inv. split; try done.
  intros t w Ht. exists w. split; [done|constructor].
Qed.

(** A step of the world of one torrent. *)
Lemma net_inv_world ws n t w e w' :
  net_inv ws n → worlds n !! t = Some w → handle_event e w = Some (Ok (tt, w')) →
  net_inv ws (set_worlds n (<[t := w']> (worlds n))).
Proof.
  intros [Hacc Hto Hwo Hpa] Ht He. pose proof (event_metadata e w w' He) as Hm.
  assert (info_hash_ w' = info_hash_ w) as Hh by (unfold metadata in Hm; by injection Hm).
  split; cbn [listener worlds set_worlds]; [done| | |done].
  - intros h t' Ht'. destruct (Hto h t' Ht') as (w1 & Hw1 & Hh1). destruct (decide (t' = t)) as [->|Hne].
    + rewrite lookup_insert_eq. exists w'. split; [done|]. rewrite Ht in Hw1. injection Hw1 as <-. congruence.
    + rewrite lookup_insert_ne by done. by exists w1.
  - intros t' w1. intros [[<- <-]|[Hne Hw1]]%lookup_insert_Some; [|by apply Hwo].
    destruct (Hwo t w Ht) as (w0 & Hw0 & Hr). exists w0. split; [done|]. eapply reachable_step; [exact Hr|]. by econstructor.
Qed.

Lemma accept_total i (p : Peer B) v w :
  clients w !! i = None → ∃ w', (_ ← new_object i p; Subscribe i (Some v)) w = Ok (tt, w').
Proof.
  intros Hi. erewrite st_bind_Ok by (unfold new_object; rewrite Hi; reflexivity).
  change (set_clients w (<[i:=new_client p]> (clients w))) with (put i (new_client p) w).
  unfold Subscribe. erewrite st_bind_Ok by apply get_client_put. erewrite st_bind_Ok by reflexivity. cbv beta.
  destruct (subscribe_entry _ _ _) as [fresh m]. erewrite st_bind_Ok by reflexivity. cbv beta.
  destruct fresh; [|by eexists]. cbn [when Process].
  change (set_master (put i (new_client p) w) m) with (put i (new_client p) (set_master w m)).
  eexists. apply Post_put.
Qed.

Lemma accept_event i (p : Peer B) v w :
  clients w !! i = None → length v = handshake_length → take 20 (drop 28 v) = info_hash_ w →
  handle_event (EvAccept i p v) w = Some ((_ ← new_object i p; Subscribe i (Some v)) w).
Proof.
  intros Hi Hl Hh. cbn [handle_event]. rewrite Hi. rewrite slice_total by (rewrite Hl; unfold handshake_length; lia).
  by rewrite Hh, !bool_decide_true.
Qed.

Lemma clients_fresh_in n t w i :
  worlds n !! t = Some w →
  forallb (fun '(_, w) => bool_decide (clients w !! i = None)) (map_to_list (worlds n)) = true → clients w !! i = None.
Proof.
  intros Ht Hf. rewrite forallb_forall in Hf. specialize (Hf (t, w)).
  apply (bool_decide_eq_true _), Hf, list_elem_of_In. by apply elem_of_map_to_list.
Qed.

Definition gone n k : Net B := set_listener n (set_participants (listener n) (delete k (participants (listener n)))).

Lemma net_inv_gone ws n k : net_inv ws n → net_inv ws (gone n k).
Proof. intros [Hacc Hto Hwo Hpa]. split; try done. cbn. intros k' p [_ Hp]%lookup_delete_Some. exact (Hpa _ _ Hp). Qed.

Lemma net_inv_step ws n n' : net_inv ws n → net_step n n' → net_inv ws n'.
Proof.
  intros Hn Hst. destruct Hst as [n e n' E]. pose proof Hn as [Hacc Hto Hwo Hpa].
  destruct e as [t|ec k|k i rs ep data|k|t e]; cbn [handle_net] in E.
  - destruct (worlds n !! t) as [w|] eqn:Ht; [|discriminate E]. injection E as E. unfold AddTorrent in E.
    rewrite Ht in E. cbn [opt_ub mbind outcome_bind] in E.
    destruct (torrents_ (listener n) !! info_hash_ w) eqn:Eh; injection E as <-; [done|]. split; try done.
    cbn. intros h t' [[<- <-]|[Hne Ht']]%lookup_insert_Some; [by exists w|by apply Hto].
  - destruct (accepting (listener n) && _) eqn:Eb; [|discriminate E]. injection E as <-. unfold on_accept.
    destruct ec; split; try done. cbn. intros k' p [[<- <-]|[Hne Hp]]%lookup_insert_Some; [done|exact (Hpa _ _ Hp)].
  - destruct (participants (listener n) !! k) as [p|] eqn:Ep; [|discriminate E]. cbn [mbind option_bind] in E.
    destruct (_ && _ && _) eqn:Eb; [|discriminate E]. injection E as E. unfold on_handshake_read in E.
    fold (gone n k) in E. apply andb_true_iff in Eb as [[_ Hl]%andb_true_iff Hf].
    destruct data as [v|]; [|injection E as <-; by apply net_inv_gone].
    apply andb_true_iff in Hl as [Hl%bool_decide_eq_true _].
    apply bind_Ok_inv in E as (h0 & _ & E). destruct (torrents_ (listener n) !! take 20 (drop 28 v)) as [t|] eqn:Eh;
      [|injection E as <-; by apply net_inv_gone].
    destruct (Hto _ _ Eh) as (w & Ht & Hh). change (worlds (gone n k)) with (worlds n) in E. rewrite Ht in E.
    cbn [opt_ub mbind outcome_bind] in E. apply bind_Ok_inv in E as (a & _ & E). apply bind_Ok_inv in E as (q & _ & E).
    apply bind_Ok_inv in E as ([[] w'] & E & [= <-]).
    apply (net_inv_world ws (gone n k) t w (EvAccept i q v) w'); [by apply net_inv_gone|done|].
    rewrite accept_event; [by rewrite E|by eapply clients_fresh_in|done|done].
  - destruct (participants (listener n) !! k) as [p|] eqn:Ep; [|discriminate E]. cbn [mbind option_bind] in E.
    destruct (Listener.timeout_ p); [|discriminate E]. injection E as <-. split; try done. cbn.
    intros k' p' [[<- <-]|[Hne Hp]]%lookup_insert_Some; [|exact (Hpa _ _ Hp)]. split; [|done]. exact (proj1 (Hpa _ _ Ep)).
  - destruct (worlds n !! t) as [w|] eqn:Ht; [|discriminate E]. cbn [mbind option_bind] in E.
    assert (∃ w', handle_event e w = Some (Ok (tt, w')) ∧ n' = set_worlds n (<[t := w']> (worlds n))) as (w' & He & ->).
    { destruct e; try discriminate E;
        (match type of E with context [handle_event ?e0 w] => destruct (handle_event e0 w) as [[[[] w']| | | |]|] end;
         try discriminate E; cbn in E; injection E as <-; by eexists). }
    by eapply net_inv_world.
Qed.

Lemma net_reachable_inv ws n0 n : net_inv ws n0 → net_reachable n0 n → net_inv ws n.
Proof. intros Hn0 Hr. induction Hr as [|n n' Hr IH Hst]; [done|]. by eapply net_inv_step. Qed.
End Net.

(** ** Properties *)

(** The listener takes the first port after 6880, up to 6889, that is not in
    use; it reports that there is none when all nine are, and throws what
    [listen] throws for the port it stopped at; the search always ends. *)
Theorem get_port_correct bind :
  match get_port bind with
  | Ok p => begin_port < p ≤ last_port ∧ bind p ≠ address_in_use ∧ ∀ q, begin_port < q < p → bind q = address_in_use
  | Throw e => (e = no_free_port ∧ ∀ q, begin_port < q ≤ last_port → bind q = address_in_use) ∨
      ∃ p, begin_port < p ≤ last_port ∧ bind p = listen_throws e ∧ ∀ q, begin_port < q < p → bind q = address_in_use
  | _ => False
  end.
Proof. unfold get_port. apply get_port_loop_spec; unfold begin_port, last_port; lia. Qed.

(** C18: whatever connections arrive and torrents are added, each torrent behind
    the listener only takes steps of the peer protocol on its own, so what holds
    of every reachable state of one torrent holds of all of them; the listener
    always accepts, and every participant waits for its handshake with its timer
    armed or its socket closed by it. *)
Theorem listener_refines {B : Type} `{DynamicBitset B} `{Host} `{Sha1} bind l ws (n : Net B) :
  new_listener bind = Ok l → net_reachable (mkNet l ws) n →
  (∀ t w, worlds n !! t = Some w → ∃ w0, ws !! t = Some w0 ∧ reachable w0 w) ∧
  accepting (listener n) = true ∧
  (∀ k p, participants (listener n) !! k = Some p → reading p = true ∧ Listener.timeout_ p = negb (closed p)).
Proof.
  intros Hl Hr. destruct (net_reachable_inv ws _ n (net_inv_start bind l ws Hl) Hr) as [Hacc _ Hwo Hpa]. done.
Qed.

(** C33: a handshake that arrives in time is dispatched by the info hash it names:
    the torrent added under that hash, and no other, gets the connection as a
    new peer client (event [EvAccept]); a hash nobody has ends the connection;
    before any torrent is added the log line dereferences the end of the map. *)
Theorem handshake_dispatched {B : Type} `{DynamicBitset B} `{Host} `{Sha1} bind l ws (n : Net B) k i rs ep p v r :
  new_listener bind = Ok l → net_reachable (mkNet l ws) n → peer_of rs ep = Ok p →
  handle_net (NHandshake k i rs (Ok ep) (Some v)) n = Some r →
  let h := take 20 (drop 28 v) in
  match torrents_ (listener n) !! h with
  | Some t => ∃ w w', worlds n !! t = Some w ∧ info_hash_ w = h ∧
      handle_event (EvAccept i p v) w = Some (Ok (tt, w')) ∧
      r = Ok (set_worlds (gone n k) (<[t := w']> (worlds n)))
  | None => r = if decide (torrents_ (listener n) = ∅) then UB else Ok (gone n k)
  end.
Proof.
  intros Hl Hr Hp E h. destruct (net_reachable_inv ws _ n (net_inv_start bind l ws Hl) Hr) as [Hacc Hto Hwo Hpa].
  cbn [handle_net] in E. destruct (participants (listener n) !! k) as [q|] eqn:Ep; [|discriminate E].
  cbn [mbind option_bind] in E. destruct (_ && _ && _) eqn:Eb; [|discriminate E]. injection E as <-.
  apply andb_true_iff in Eb as [[_ Hlen]%andb_true_iff Hf].
  apply andb_true_iff in Hlen as [Hlen%bool_decide_eq_true _].
  unfold on_handshake_read. fold (gone n k) h. destruct (torrents_ (listener n) !! h) as [t|] eqn:Eh.
  - destruct (Hto _ _ Eh) as (w & Ht & Hh). exists w.
    pose proof (clients_fresh_in n t w i Ht Hf) as Hi. destruct (accept_total i p v w Hi) as [w' E]. exists w'.
    split; [done|]. split; [done|]. split; [rewrite accept_event; [by rewrite E|done|done|done]|].
    destruct (map_to_list (torrents_ (listener n))) as [|a l'] eqn:Em.
    { apply map_to_list_empty_iff in Em. rewrite Em, lookup_empty in Eh. discriminate Eh. }
    change (worlds (gone n k)) with (worlds n). cbn [head opt_ub mbind outcome_bind]. rewrite Ht.
    cbn [opt_ub mbind outcome_bind]. rewrite Hp. cbn [mbind outcome_bind]. 
by rewrite E.
  - destruct (decide (torrents_ (listener n) = ∅)) as [->|Hne]; [by rewrite map_to_list_empty|].
    destruct (map_to_list (torrents_ (listener n))) as [|a l'] eqn:Em; [|done].
    apply map_to_list_empty_iff in Em. done.
Qed.

(** ** A connection that comes in *)

Module Incoming.
#[local] Existing Instances x86_64 toy_sha1 toy_sha1_laws.
Import Played.

Fixpoint play_net (es : list (net_event (list bool))) (n : Net (list bool)) : option (Net (list bool)) :=
  match es with
  | [] => Some n
  | e :: es => match handle_net e n with Some (Ok n) => play_net es n | _ => None end
  end.

Lemma play_net_reachable es n0 n n' : net_reachable n0 n → play_net es n = Some n' → net_reachable n0 n'.
Proof.
  revert n. induction es as [|e es IH]; intros n Hr E; cbn [play_net] in E; [by injection E as <-|].
  destruct (handle_net e n) as [[n1| | | |]|] eqn:E1; try discriminate E.
  eapply IH; [|exact E]. eapply net_next; [exact Hr|]. by econstructor.
Qed.

(** Port 6881 is taken. *)
Definition bind (port : Z) : error_code := if port =? 6881 then address_in_use else no_error.
Definition fresh_listener : Listener := mkListener ∅ 6882 true ∅.
Definition first : Net (list bool) := mkNet fresh_listener {[0%nat := start]}.
Definition waiting (es : list (net_event (list bool))) : Net (list bool) := default first (play_net es first).
Definition hello : bytes := MakeHandshake Sample.info_hash (replicate 20 x05).

Lemma listener_refines_witness :
  let n := waiting [NAddTorrent 0; NAccept false 3; NTimeout 3; NWorld 0 (EvDial 0 him)] in
  new_listener bind = Ok fresh_listener ∧ net_reachable first n ∧
  ((∀ t w, worlds n !! t = Some w →
      ∃ w0, ({[0%nat := start]} : gmap nat (World (list bool))) !! t = Some w0 ∧ reachable w0 w) ∧
   accepting (listener n) = true ∧
   (∀ k p, participants (listener n) !! k = Some p → reading p = true ∧ Listener.timeout_ p = negb (closed p))).
Proof.
  intros n. assert (new_listener bind = Ok fresh_listener) as Hl by (vm_compute; reflexivity).
  assert (net_reachable first n) as Hr.
  { eapply (play_net_reachable [NAddTorrent 0; NAccept false 3; NTimeout 3; NWorld 0 (EvDial 0 him)] _ first);
      [constructor|vm_compute; reflexivity]. }
  split; [exact Hl|]. split; [exact Hr|]. exact (listener_refines bind fresh_listener _ n Hl Hr).
Defined.

Lemma handshake_dispatched_witness :
  let n := waiting [NAddTorrent 0; NAccept false 3] in
  ∃ p r, peer_of (replicate 12 x07) (str "10.0.0.2", 51413) = Ok p ∧
    handle_net (NHandshake 3 1 (replicate 12 x07) (Ok (str "10.0.0.2", 51413)) (Some hello)) n = Some r ∧
    match torrents_ (listener n) !! take 20 (drop 28 hello) with
    | Some t => ∃ w w', worlds n !! t = Some w ∧ info_hash_ w = take 20 (drop 28 hello) ∧
        handle_event (EvAccept 1 p hello) w = Some (Ok (tt, w')) ∧
        r = Ok (set_worlds (gone n 3) (<[t := w']> (worlds n)))
    | None => r = if decide (torrents_ (listener n) = ∅) then UB else Ok (gone n 3)
    end.
Proof.
  intros n. assert (new_listener bind = Ok fresh_listener) as Hl by (vm_compute; reflexivity).
  assert (net_reachable first n) as Hr.
  { eapply (play_net_reachable [NAddTorrent 0; NAccept false 3] _ first); [constructor|vm_compute; reflexivity]. }
  set (e := NHandshake 3 1 (replicate 12 x07) (Ok (str "10.0.0.2", 51413)) (Some hello)).
  assert (match handle_net e n with Some _ => true | None => false end = true) as He by (vm_compute; reflexivity).
  destruct (handle_net e n) as [r|] eqn:E; [|discriminate He].
  eexists _, r. split; [vm_compute; reflexivity|]. split; [reflexivity|].
  refine (handshake_dispatched bind fresh_listener _ n 3%nat 1%nat (replicate 12 x07) (str "10.0.0.2", 51413) _ hello r Hl Hr _ E).
  vm_compute. reflexivity.
Defined.

Example listener_without_torrents :
  (n ← play_net [NAccept false 3] first;
   handle_net (NHandshake 3 1 (replicate 12 x07) (Ok (str "10.0.0.2", 51413)) (Some hello)) n) = Some UB.
Proof. vm_compute. reflexivity. Qed.
End Incoming.
