(* ===== verification/Torrent.v ===== *)
(** * The torrent and its trackers (src/BitTorrent/Torrent.h, Torrent.cpp, Tracker.cpp)

    Reading the torrent file, the list of trackers, the announcement to all of
    them with the choice of an answer, and the peers handed to the peer
    protocol.  The requesters are those of HttpTracker.v and UdpTracker.v, the
    running download is the [World] of World.v. *)

From Stdlib Require Import ZArith Lia Strings.Byte Strings.String.
From coqutil Require Import Byte.
From S2P Require Import Prelude Bytes Streams Worker Bencode Text Piece Files.
From S2P Require Import Bitset Bitfield Message Peer Tracker HttpTracker UdpTracker World PeerClient.

Section Torrent.
Context {B : Type} `{DynamicBitset B} `{Host} `{Sha1} `{Regex}.

(** ** Trackers *)

Inductive Requester :=
  | HttpRequester (s : httpRequester B)
  | UdpRequester (s : udpRequester B).

(** A [Tracker] object: its address, its requester, and whether a call of
    [Disconnect] posted by [Stop] is still to run. *)
Record TrackerObject := mkTrackerObject {
  object_url : Url;
  request : option Requester;
  stopping : bool;
}.

Definition make_tracker (announce_url : bytes) : outcome TrackerObject :=
  u ← Tracker_url announce_url; Ok (mkTrackerObject u None false).

(** [MakeRequester]: whether there is one already, else by the protocol. *)
Definition MakeRequester (o : TrackerObject) : Requester :=
  match request o with
  | Some r => r
  | None => if is_udp (object_url o) then UdpRequester UdpTracker.new_requester
            else HttpRequester HttpTracker.new_requester
  end.

Definition set_request (o : TrackerObject) (r : Requester) : TrackerObject :=
  mkTrackerObject (object_url o) (Some r) (stopping o).

(** The promise of a requester, once it is set. *)
Definition promise (r : Requester) : option (Response B + exn) :=
  match r with
  | HttpRequester s => HttpTracker.promise_of_resp s
  | UdpRequester s => UdpTracker.promise_of_resp s
  end.

Definition IsReady (r : Requester) : bool :=
  match r with
  | HttpRequester s => HttpTracker.can_reconnect_ s
  | UdpRequester s => UdpTracker.can_reconnect_ s
  end.

(** The two virtual calls of [Tracker::Request]; [r] is the random number of a
    UDP transaction. *)
Definition requester_connect (t : Tracker) (query : Query) (r : Z) (q : Requester) : outcome Requester :=
  match q with
  | HttpRequester s => '(_, s) ← HttpTracker.Connect t query s; Ok (HttpRequester s)
  | UdpRequester s => '(_, s) ← UdpTracker.Connect t query r s; Ok (UdpRequester s)
  end.
Definition requester_future (q : Requester) : outcome Requester :=
  match q with
  | HttpRequester s => '(_, s) ← HttpTracker.GetResponse s; Ok (HttpRequester s)
  | UdpRequester s => '(_, s) ← UdpTracker.GetResponse s; Ok (UdpRequester s)
  end.
Definition requester_disconnect (q : Requester) : Requester :=
  match q with
  | HttpRequester s => HttpRequester (HttpTracker.set_done s)
  | UdpRequester s => UdpRequester (UdpTracker.set_done s)
  end.

(** [Stop] posts the call, [run_stop] is the posted function. *)
Definition Stop (o : TrackerObject) : TrackerObject := mkTrackerObject (object_url o) (request o) true.
Definition run_stop (o : TrackerObject) : outcome TrackerObject :=
  q ← opt_ub (request o);
  Ok (mkTrackerObject (object_url o) (Some (requester_disconnect q)) false).

Definition CouldConnect (o : TrackerObject) : outcome bool :=
  match request o with
  | Some _ => Ok false
  | None => q ← opt_ub (request o); Ok (IsReady q)
  end.

(** ** The torrent *)

Inductive Launch := Any | Best.

(** [strategy_], [master_peer_], [file_manager_], [ready_pieces_num_] and the info
    hash are those of [world]. *)
Record Torrent := mkTorrent {
  uploaded_ : Z;
  downloaded_ : Z;
  left_ : Z;
  active_trackers_ : list TrackerObject;
  data_from_tracker_ : option (Response B);
  port_ : Z;
  meta_dict : Node;
  world : World B;
}.

Definition set_trackers (t : Torrent) ts : Torrent :=
  mkTorrent (uploaded_ t) (downloaded_ t) (left_ t) ts (data_from_tracker_ t) (port_ t) (meta_dict t) (world t).
Definition set_data (t : Torrent) d : Torrent :=
  mkTorrent (uploaded_ t) (downloaded_ t) (left_ t) (active_trackers_ t) d (port_ t) (meta_dict t) (world t).
Definition set_world (t : Torrent) w : Torrent :=
  mkTorrent (uploaded_ t) (downloaded_ t) (left_ t) (active_trackers_ t) (data_from_tracker_ t) (port_ t)
    (meta_dict t) w.

Definition HasTrackers (t : Torrent) : bool := bool_decide (active_trackers_ t ≠ []).
Definition GetPeersSize (t : Torrent) : nat :=
  match data_from_tracker_ t with Some r => length (peers r) | None => 0%nat end.
Definition Torrent_response (t : Torrent) : outcome (Response B) :=
  opt_or (logic_error "Trackers have not yet been polled") (data_from_tracker_ t).
Definition ActivePeersCount (t : Torrent) : outcome Z := '(n, _) ← DistributorsCount (world t); Ok n.

(** What a tracker asks its torrent for. *)
Definition tracker_view (t : Torrent) (o : TrackerObject) : Tracker :=
  mkTracker (object_url o) (info_hash_ (world t)) (id (as_peer (master_peer_ (world t)))) (port_ t).

Definition GetDefaultTrackerQuery (t : Torrent) : Query :=
  default_query (uploaded_ t) (downloaded_ t) (left_ t) Empty.

(** *** The list of trackers *)

Fixpoint make_trackers (l : list Node) : outcome (list TrackerObject) :=
  match l with
  | [] => Ok []
  | n :: l => url ← AsString n; o ← make_tracker url; os ← make_trackers l; Ok (o :: os)
  end.

(** The loop over [announce-list]: addresses and tiers of addresses. *)
Fixpoint announce_list (l : list Node) : outcome (list TrackerObject) :=
  match l with
  | [] => Ok []
  | n :: l =>
      os ← (if IsString n then make_trackers [n] else tier ← AsArray n; make_trackers tier);
      rest ← announce_list l;
      Ok (os ++ rest)
  end.

(** The body of the [try] block: [None] is [return false]. *)
Definition collect_trackers (meta : Node) : outcome (option (list TrackerObject)) :=
  announce_list_opt ← TryAt meta (str "announce-list");
  match announce_list_opt with
  | Some l => l ← AsArray l; os ← announce_list l; Ok (Some os)
  | None =>
      announce_opt ← TryAt meta (str "announce");
      match announce_opt with
      | Some n => os ← make_trackers [n]; Ok (Some os)
      | None => Ok None
      end
  end.

(** Every exception of the block is a [std::exception].  [shuffle] is what
    [std::shuffle] does with the list. *)
Definition fill_trackers (shuffle : list TrackerObject → list TrackerObject) (t : Torrent)
    : outcome (bool * Torrent) :=
  match collect_trackers (meta_dict t) with
  | Ok (Some trackers) => Ok (true, set_trackers t (active_trackers_ t ++ shuffle trackers))
  | Ok None | Throw _ => Ok (false, t)
  | UB => UB
  | Abort_assert => Abort_assert
  | NoFuel => NoFuel
  end.

(** *** Announcing *)

(** [Tracker::Request] for every tracker, and how it ends.  A tracker has its
    requester before [Connect] is called; an exception of [Connect] leaves the
    requester as it was, one of [GetResponse] comes after [Connect]. *)
Definition Tracker_Request (t : Tracker) (query : Query) (r : Z) (o : TrackerObject)
    : TrackerObject * outcome unit :=
  let q := MakeRequester o in
  match requester_connect t query r q with
  | Ok q =>
      match requester_future q with
      | Ok q => (set_request o q, Ok tt)
      | m => (set_request o q, _ ← m; Ok tt)
      end
  | m => (set_request o q, _ ← m; Ok tt)
  end.

(** The loop over [active_trackers_]: the first call that does not return ends
    it.  [rs] are the random numbers of the transactions. *)
Fixpoint request_all (view : TrackerObject → Tracker) (query : Query) (rs : nat → Z) (k : nat)
    (os : list TrackerObject) : list TrackerObject * outcome unit :=
  match os with
  | [] => ([], Ok tt)
  | o :: os =>
      let '(o, m) := Tracker_Request (view o) query (rs k) o in
      match m with
      | Ok _ => let '(os, m) := request_all view query rs (S k) os in (o :: os, m)
      | _ => (o :: os, m)
      end
  end.

(** [splice] of the element at [i] to the front. *)
Definition splice_front {A} (i : nat) (l : list A) : list A :=
  match l !! i with Some x => x :: delete i l | None => l end.

(** The loop of [Launch::Best] over the answers. *)
Fixpoint best_loop (results : list (Response B + exn)) (i j : nat) (resp : Response B)
    (os : list TrackerObject) : nat * Response B * list TrackerObject :=
  match results with
  | [] => (j, resp, os)
  | inl cur :: results =>
      if (length (peers resp) <? length (peers cur))%nat
      then best_loop results (S i) j cur (splice_front i os)
      else best_loop results (S i) j resp os
  | inr _ :: results => best_loop results (S i) (S j) resp os
  end.

(** The continuation of [when_all]; the exception it throws is the one [get]
    throws again.  The trackers are in their new order whether it throws or not. *)
Definition best_choice (results : list (Response B + exn)) (os : list TrackerObject)
    : list TrackerObject * outcome (Response B) :=
  let '(j, resp, os) := best_loop results 0 0 new_response os in
  (os, if bool_decide (j = length results) then Throw (logic_error "All get exceptions ") else Ok resp).

(** [DoneCheck], the continuation of [when_any]: [ready k i] tells whether the
    future of the [i]-th tracker, if its promise is ever set, is ready when the
    continuation runs for the [k]-th time; it does not run before one is.  It
    takes the first that is ready; after an exception the future is erased, and
    when none is left the iterator to it is dereferenced. *)
Abbreviation futures := (list (nat * option (Response B + exn))).

Fixpoint find_ready (ready : nat → bool) (pos : nat) (results : futures) : option (nat * (Response B + exn)) :=
  match results with
  | [] => None
  | (i, Some a) :: results => if ready i then Some (pos, a) else find_ready ready (S pos) results
  | (_, None) :: results => find_ready ready (S pos) results
  end.

Fixpoint DoneCheck (fuel : nat) (ready : nat → nat → bool) (k : nat) (results : futures) : outcome (Response B) :=
  match fuel with
  | O => NoFuel
  | S fuel =>
      match find_ready (ready k) 0 results with
      | None => NoFuel
      | Some (_, inl r) => Ok r
      | Some (any_res, inr _) =>
          match delete any_res results with
          | [] => UB
          | results => DoneCheck fuel ready (S k) results
          end
      end
  end.

(** Every round erases a future. *)
Definition any_choice (ready : nat → nat → bool) (results : list (option (Response B + exn)))
    : outcome (Response B) := DoneCheck (S (length results)) ready 0 (imap pair results).

(** What the network does while the answers are waited for: the state of each
    requester when its answer is taken, and which futures are ready when. *)
Record Network := mkNetwork {
  afterwards : nat → Requester → Requester;
  ready_at : nat → nat → bool;
}.

Definition network_runs (n : Network) (os : list TrackerObject) : list TrackerObject :=
  imap (fun k o => match request o with Some q => set_request o (afterwards n k q) | None => o end) os.

(** The futures of the requesters. *)
Definition answer (o : TrackerObject) : option (Response B + exn) := q ← request o; promise q.

(** [when_all] waits without end for a promise that is never set. *)
Fixpoint wait_all (results : list (option (Response B + exn))) : outcome (list (Response B + exn)) :=
  match results with
  | [] => Ok []
  | Some a :: results => rest ← wait_all results; Ok (a :: rest)
  | None :: _ => NoFuel
  end.

(** The [try] block after the requests: the trackers and the answer. *)
Definition choose (policy : Launch) (n : Network) (os : list TrackerObject)
    : list TrackerObject * outcome (Response B) :=
  match policy with
  | Best =>
      match wait_all (map answer os) with
      | Ok results => best_choice results os
      | m => (os, _ ← m; UB)
      end
  | Any => (os, any_choice (ready_at n) (map answer os))
  end.

(** [boost_exception e]: what is thrown as [e] is a [boost::exception] too, which
    is all the handler of [TryConnect] catches. *)
Definition catch_boost {A} (boost_exception : exn → bool) (m : outcome A) (handler : outcome A) : outcome A :=
  match m with
  | Throw e => if boost_exception e then handler else Throw e
  | m => m
  end.

Definition Process (t : Torrent) : Torrent :=
  let w := world t in
  set_world t (set_manager w (set_worker (file_manager_ w) (Start (a_worker_ (file_manager_ w))))).

Definition TryConnect (boost_exception : exn → bool) (n : Network) (rs : nat → Z) (policy : Launch)
    (event : Event) (t : Torrent) : outcome (bool * Torrent) :=
  if negb (HasTrackers t) then Ok (false, t)
  else
    let query := default_query (uploaded_ t) (downloaded_ t) (left_ t) event in
    let '(os, m) := request_all (tracker_view t) query rs 0 (active_trackers_ t) in
    match m with
    | Ok _ =>
        let '(os, m) := choose policy n (network_runs n os) in
        catch_boost boost_exception
          (resp ← m; Ok (true, Process (set_data (set_trackers t (map Stop os)) (Some resp))))
          (Ok (false, set_trackers t os))
    | m => catch_boost boost_exception (_ ← m; UB) (Ok (false, set_trackers t os))
    end.

Fixpoint could_reconnect (os : list TrackerObject) : outcome bool :=
  match os with
  | [] => Ok false
  | o :: os => b ← CouldConnect o; if (b : bool) then Ok true else could_reconnect os
  end.
Definition CouldReconnect (t : Torrent) : outcome bool := could_reconnect (active_trackers_ t).

(** *** What happens to a tracker between two calls *)

Inductive requester_step : Requester → Requester → Prop :=
  | http_step s e s' : HttpTracker.handle_event e s = Some (Ok (tt, s')) →
      requester_step (HttpRequester s) (HttpRequester s')
  | udp_step s e s' : UdpTracker.handle_event e s = Some (Ok (tt, s')) →
      requester_step (UdpRequester s) (UdpRequester s').

(** The events of a tracker: those of its requester, and the posted
    [Disconnect].  [None]: the event cannot happen now. *)
Inductive tracker_event :=
  | THttp (e : HttpTracker.event)
  | TUdp (e : UdpTracker.event)
  | TStop.

Definition handle_tracker (e : tracker_event) (o : TrackerObject) : option (outcome TrackerObject) :=
  match e, request o with
  | THttp e, Some (HttpRequester s) =>
      r ← HttpTracker.handle_event e s; Some ('(_, s) ← r; Ok (set_request o (HttpRequester s)))
  | TUdp e, Some (UdpRequester s) =>
      r ← UdpTracker.handle_event e s; Some ('(_, s) ← r; Ok (set_request o (UdpRequester s)))
  | TStop, _ => if stopping o then Some (run_stop o) else None
  | _, _ => None
  end.

Inductive tracker_step : TrackerObject → TrackerObject → Prop :=
  | tracker_handles o e o' : handle_tracker e o = Some (Ok o') → tracker_step o o'.

(** *** Meeting peers *)

(** One round of [InitiateJob]: a new client for the peer is subscribed. *)
Definition meet_peer (p : PeerImage B) : ST (World B) unit :=
  w ← get_st;
  let i := fresh (dom (clients w)) in
  _ ← new_object i (BE_struct p);
  Subscribe i None.

Definition InitiateJob (ps : list (PeerImage B)) : ST (World B) unit :=
  w ← get_st;
  _ ← modify_master (fun m => set_peer m (set_bitfield (as_peer m)
        (Resize (bitfield_ (as_peer m)) (piece_count_of (meta_pieces_ w)))));
  for_each ps meet_peer.

Definition ProcessMeetingPeers (t : Torrent) : outcome Torrent :=
  if (GetPeersSize t =? 0)%nat then Ok t
  else
    resp ← Torrent_response t;
    '(_, w) ← InitiateJob (peers resp) (world t);
    Ok (set_world t w).

(** *** The constructor *)

(** [filename] of a path, and its part before the last dot. *)
Fixpoint after_slash (acc path : bytes) : bytes :=
  match path with
  | [] => acc
  | b :: path => if decide (b = "/"%byte) then after_slash [] path else after_slash (acc ++ [b]) path
  end.
Fixpoint find_last_dot (i : nat) (s : bytes) : option nat :=
  match s with
  | [] => None
  | b :: s =>
      match find_last_dot (S i) s with
      | Some k => Some k
      | None => if decide (b = "."%byte) then Some i else None
      end
  end.
Definition backup_name (torrent_file_path : bytes) : bytes :=
  let f := after_slash [] torrent_file_path in
  match find_last_dot 0 f with Some pos => take pos f | None => str "Noname" end.

(** The dictionary after [meta_info_.dict] at [info] was accessed, and the info hash. *)
Definition read_meta (text : bytes) : outcome (Node * bytes) :=
  doc ← Load (2 * length text + 3) (is_open text);
  let '(dict, info) := ref_key (GetRoot doc) (str "info") in
  Ok (dict, GetSHA1 (MakeSerialize info)).

(** [GetMeta()] at [info] and the mutable access at [info] are the same node by now. *)
Definition directory_name (meta : Node) (torrent_file_path : bytes) : outcome bytes :=
  info ← at_key meta (str "info");
  name_value ← TryAt info (str "name");
  match name_value with
  | Some v =>
      files ← TryAt info (str "files");
      if bool_decide (is_Some files) then AsString v else Ok (backup_name torrent_file_path)
  | None => Ok (backup_name torrent_file_path)
  end.

(** The loop that marks every piece of a completed torrent. *)
Fixpoint set_all (n i : nat) (b : B) : outcome B :=
  match n with
  | O => Ok b
  | S n => b ← Set_ b i; set_all n (S i) b
  end.

Definition mark_completed (w : World B) : outcome (World B) :=
  let m := master_peer_ w in
  let bits := bitfield_ (as_peer m) in
  bits ← set_all (Size bits) 0 bits;
  Ok (set_ready (set_master w (set_peer m (set_bitfield (as_peer m) bits))) (Z.of_nat (Size bits))).

(** [torrent_file]: the contents of the file, when it can be opened; [ip]: the
    text of the local address of a socket; [rs]: the random bytes of the peer's
    id.  The directory is made when the files are. *)
Definition Torrent_Torrent (torrent_file : option bytes) (torrent_file_path download_path : bytes)
    (listener_port : Z) (is_completed : bool) (strategy : Strategy) (f : fsys) (rs local_ip : bytes)
    (shuffle : list TrackerObject → list TrackerObject) (random : list Z) : outcome Torrent :=
  text ← opt_or (logic_error ("can't open file" ++ newline)%string) torrent_file;
  '(meta, info_hash) ← read_meta text;
  dir ← directory_name meta torrent_file_path;
  '(files, f) ← fill_files (path_append download_path dir) meta f;
  pieces ← meta_pieces meta;
  my_ip ← IpToInt local_ip;
  let w := initial pieces info_hash (Peer_generated rs) strategy files f random in
  let m := master_peer_ w in
  let p := as_peer m in
  let w := set_master w (set_peer m (mkPeer (id p) (u32 my_ip) (port p) (bitfield_ p))) in
  w ← (if is_completed then mark_completed w else Ok w);
  '(_, t) ← fill_trackers shuffle (mkTorrent 0 0 0 [] None listener_port meta w);
  Ok t.
End Torrent.

Arguments Requester B : clear implicits.
Arguments TrackerObject B : clear implicits.
Arguments Network B : clear implicits.
Arguments Torrent B : clear implicits.
