(* ===== verification/TorrentFacts.v ===== *)
(** * What the torrent does with its trackers

    The choice among the answers, the list of trackers of a torrent file, the
    info hash, and the peers that are dialled. *)

From Stdlib Require Import ZArith Lia Strings.Byte Strings.String.
From coqutil Require Import Byte.
From S2P Require Import UdpFacts Prelude Bytes Streams Worker Bencode BencodeFacts Text Piece Files.
From S2P Require Import Bitset Bitfield Message Peer Tracker TrackerFacts HttpTracker HttpFacts UdpTracker World.
From S2P Require Import PeerClient Torrent.

Section TorrentFacts.
Context {B : Type} `{DynamicBitset B} `{Host} `{Sha1} `{Regex}.
Implicit Types (os : list (TrackerObject B)) (results : list (Response B + exn)).

(** ** The best of the answers *)

Definition failed (a : Response B + exn) : bool := match a with inl _ => false | inr _ => true end.
Definition peers_num (r : Response B) : nat := length (peers r).

(** The answer [resp] is the first with the most peers, and its tracker is the
    first of [os']; no answer has a peer otherwise. *)
Definition best_of results os (resp : Response B) os' : Prop :=
  (∀ r, inl r ∈ results → (peers_num r ≤ peers_num resp)%nat) ∧
  ((resp = new_response ∧ os' = os) ∨
   ∃ i, results !! i = Some (inl resp) ∧ (∀ k r, (k < i)%nat → results !! k = Some (inl r) → (peers_num r < peers_num resp)%nat) ∧
        (0 < peers_num resp)%nat ∧ os' !! 0%nat = os !! i).

Lemma splice_front_app {A} (x : A) front back :
  splice_front (length front) (front ++ x :: back) = x :: front ++ back.
Proof. unfold splice_front. by rewrite list_lookup_middle, delete_middle. Qed.

Definition fails results : nat := length (filter (fun a => failed a = true) results).

Lemma fails_snoc results a : fails (results ++ [a]) = (fails results + if failed a then 1 else 0)%nat.
Proof. unfold fails. rewrite list.filter_app, length_app, list.filter_cons, list.filter_nil. by destruct (failed a). Qed.

Lemma elem_of_snoc {A} (x y : A) l : x ∈ l ++ [y] ↔ x ∈ l ∨ x = y.
Proof. by rewrite elem_of_app, list_elem_of_singleton. Qed.

(** An answer that is no better, or none, after the ones seen. *)
Lemma best_of_later seen os resp front a x :
  length os = length seen → length front = length os →
  match a with inl r => (peers_num r ≤ peers_num resp)%nat | inr _ => True end →
  best_of seen os resp front → best_of (seen ++ [a]) (os ++ [x]) resp (front ++ [x]).
Proof.
  intros Hlen Hfront Ha [Hmax Hb]. split.
  - intros r [Hr| <-]%elem_of_snoc; auto.
  - destruct Hb as [[-> ->]|(i & Hi & Hfirst & Hpos & Hhd)]; [by left|right].
    pose proof (lookup_lt_Some _ _ _ Hi) as Hl. exists i. split_and!; [by apply lookup_app_l_Some| |done|].
    + intros k r Hk. rewrite lookup_app_l by lia. by apply Hfirst.
    + by rewrite !lookup_app_l by lia.
Qed.

(** A better answer: its tracker comes to the front. *)
Lemma best_of_better seen os resp front r x :
  length os = length seen → (peers_num resp < peers_num r)%nat →
  best_of seen os resp front → best_of (seen ++ [inl r]) (os ++ [x]) r (x :: front).
Proof.
  intros Hlen Hr [Hmax _]. split.
  - intros r' [Hr'|[= ->]]%elem_of_snoc; [|done]. specialize (Hmax _ Hr'). lia.
  - right. exists (length seen). split_and!; [by apply list_lookup_middle| |lia|by rewrite <- Hlen, list_lookup_middle].
    intros k r' Hk. rewrite lookup_app_l by done. intros E. apply list_elem_of_lookup_2, Hmax in E. lia.
Qed.

(** What holds when the loop has seen [seen]; the trackers behind are untouched. *)
Lemma best_loop_spec rest seen os front resp :
  length (seen ++ rest) = length os → front ≡ₚ take (length seen) os →
  best_of seen (take (length seen) os) resp front →
  ∃ resp' os', best_loop rest (length seen) (fails seen) resp (front ++ drop (length seen) os) =
      (fails (seen ++ rest), resp', os') ∧ os' ≡ₚ os ∧ best_of (seen ++ rest) os resp' os'.
Proof.
  revert seen front resp. induction rest as [|a rest IH]; intros seen front resp Hlen Hperm Hb.
  - rewrite app_nil_r in *. rewrite firstn_all2, skipn_all2, app_nil_r in * by lia. by exists resp, front.
  - rewrite length_app in Hlen. cbn [length] in Hlen.
    destruct (lookup_lt_is_Some_2 os (length seen)) as [x Hx]; [lia|].
    rewrite (drop_S _ _ _ Hx).
    assert (length front = length seen) as Hfront by (rewrite Hperm, length_take; lia).
    assert (length (take (length seen) os) = length seen) as Htake by (rewrite length_take; lia).
    pose proof (take_S_r os _ _ Hx) as Etake.
    specialize (IH (seen ++ [a])). rewrite <- app_assoc, (length_app seen [a]), fails_snoc in IH. cbn [length app] in IH.
    replace (length seen + 1)%nat with (S (length seen)) in IH by lia. rewrite Etake in IH.
    assert (∀ front' resp', front' ≡ₚ front ++ [x] → best_of (seen ++ [a]) (take (length seen) os ++ [x]) resp' front' →
      ∃ resp'' os', best_loop rest (S (length seen)) (fails seen + (if failed a then 1 else 0)) resp'
          (front' ++ drop (S (length seen)) os) = (fails (seen ++ a :: rest), resp'', os') ∧
        os' ≡ₚ os ∧ best_of (seen ++ a :: rest) os resp'' os') as IH'.
    { intros front' resp' Hp' Hb'. apply IH; [rewrite length_app; cbn [length]; lia|by rewrite Hp', Hperm|done]. }
    destruct a as [r|e]; cbn [best_loop failed].
    + rewrite Nat.add_0_r in IH'. destruct (Nat.ltb_spec (length (peers resp)) (length (peers r))) as [Hlt|Hge].
      * rewrite <- Hfront, splice_front_app, Hfront. apply (IH' (x :: front)); [apply Permutation_cons_append|].
        by eapply best_of_better.
      * rewrite (cons_middle x), app_assoc. apply (IH' (front ++ [x])); [done|]. apply best_of_later; [lia..|done|done].
    + rewrite (cons_middle x), app_assoc. replace (S (fails seen)) with (fails seen + 1)%nat by lia.
      apply (IH' (front ++ [x])); [done|]. apply best_of_later; [lia..|done|done].
Qed.

Lemma fails_all results : fails results = length results ↔ Forall (fun a => failed a = true) results.
Proof.
  unfold fails. induction results as [|a results IH]; [done|].
  rewrite list.filter_cons, list.Forall_cons, <- IH.
  pose proof (length_filter (fun a => failed a = true) results).
  case_decide; cbn [length]; [split; [intros [= E]; done|intros [_ E]; by rewrite E]|split; [lia|by intros [? _]]].
Qed.

Lemma best_choice_spec results os :
  length results = length os →
  ∃ resp os', best_choice results os =
      (os', if bool_decide (Forall (fun a => failed a = true) results)
            then Throw (logic_error "All get exceptions ") else Ok resp) ∧
    os' ≡ₚ os ∧ best_of results os resp os' ∧ (Forall (fun a => failed a = true) results → os' = os).
Proof.
  intros Hlen. destruct (best_loop_spec results [] os [] new_response) as (resp & os' & E & Hperm & Hb); [done..| |].
  { split; [intros r Hr; by apply not_elem_of_nil in Hr|by left]. }
  cbn [length app] in E. exists resp, os'. split_and!; [|done|done|].
  - unfold best_choice. rewrite drop_0 in E. change (fails []) with 0%nat in E. rewrite E. f_equal.
    rewrite (bool_decide_ext _ _ (fails_all results)). done.
  - intros Hall. destruct Hb as [_ [[_ ->]|(i & Hi & _)]]; [done|].
    rewrite list.Forall_forall in Hall. by pose proof (Hall _ (list_elem_of_lookup_2 _ _ _ Hi)).
Qed.

(** ** Announcing to all trackers *)

Lemma wait_all_answers results : wait_all (map Some results) = Ok results.
Proof. induction results as [|a results IH]; cbn; [done|]. by rewrite IH. Qed.

Definition all_exceptions : exn := logic_error "All get exceptions ".

(** C14: [TryConnect] with the policy Best, once every tracker has answered.
    When all of them failed the result is [false], or the exception if the
    handler does not catch it.  Otherwise the response kept is the first with
    the most peers, its tracker is the first of the list, no tracker is lost,
    every tracker is told to stop and the file workers are started. *)
Theorem TryConnect_best boost_exception n rs event (t : Torrent B) os results :
  active_trackers_ t ≠ [] →
  request_all (tracker_view t) (default_query (uploaded_ t) (downloaded_ t) (left_ t) event) rs 0 (active_trackers_ t)
    = (os, Ok tt) →
  map answer (network_runs n os) = map Some results →
  if bool_decide (Forall (fun a => failed a = true) results)
  then TryConnect boost_exception n rs Best event t =
         (if boost_exception all_exceptions then Ok (false, set_trackers t (network_runs n os))
          else Throw all_exceptions)
  else ∃ t' resp os', TryConnect boost_exception n rs Best event t = Ok (true, t') ∧
         data_from_tracker_ t' = Some resp ∧ best_of results (network_runs n os) resp os' ∧
         active_trackers_ t' = map Stop os' ∧ os' ≡ₚ network_runs n os ∧
         Worker.stopped_ (a_worker_ (file_manager_ (world t'))) = false.
Proof.
  intros Hne Hreq Hans. set (os1 := network_runs n os) in *.
  assert (length results = length os1) as Hlen by (apply (f_equal length) in Hans; by rewrite !length_map in Hans).
  destruct (best_choice_spec results os1 Hlen) as (resp & os' & E & Hperm & Hb & Hall).
  unfold TryConnect, HasTrackers. rewrite (bool_decide_true (active_trackers_ t ≠ [])) by done.
  cbn [negb]. rewrite Hreq.
  unfold choose. fold os1. rewrite Hans, wait_all_answers, E.
  case_bool_decide as Hf; cbn [catch_boost mbind outcome_bind].
  - by rewrite Hall.
  - exists (Process (set_data (set_trackers t (map Stop os')) (Some resp))), resp, os'.
    split_and!; [reflexivity|reflexivity|exact Hb|reflexivity|exact Hperm|reflexivity].
Qed.

(** ** The first of the answers *)

Lemma find_ready_Some (ready : nat → bool) pos (l : list (nat * option (Response B + exn))) k a :
  find_ready ready pos l = Some (k, a) → ∃ i j, k = (pos + j)%nat ∧ l !! j = Some (i, Some a).
Proof.
  revert pos. induction l as [|[i [b|]] l IH]; intros pos; cbn [find_ready]; [done| |].
  - destruct (ready i); [intros [= <- <-]; exists i, 0%nat; by rewrite Nat.add_0_r|].
    intros (i' & j & -> & Hj)%IH. exists i', (S j). split; [lia|done].
  - intros (i' & j & -> & Hj)%IH. exists i', (S j). split; [lia|done].
Qed.

Definition set_and_ready (ready : nat → bool) (f : nat * option (Response B + exn)) : Prop :=
  ready (fst f) = true ∧ is_Some (snd f).
#[local] Instance set_and_ready_dec ready f : Decision (set_and_ready ready f).
Proof. unfold set_and_ready. apply _. Defined.

Lemma find_ready_None ready pos l : find_ready ready pos l = None → filter (set_and_ready ready) l = [].
Proof.
  revert pos. induction l as [|[i [b|]] l IH]; intros pos; cbn [find_ready]; [done| |]; rewrite list.filter_cons.
  - destruct (ready i) eqn:Er; [done|]. intros E. rewrite decide_False; [by eapply IH|].
    intros [E1 _]. cbn [fst] in E1. by rewrite Er in E1.
  - intros E. rewrite decide_False; [by eapply IH|]. by intros [_ [? ?]].
Qed.

(** When the continuation runs for the [k]-th time more than [k] futures are
    ready: one at least that it has not erased. *)
Definition fires (ready : nat → nat → bool) (results : list (option (Response B + exn))) : Prop :=
  ∀ k, (k < length results)%nat → (k < length (filter (set_and_ready (ready k)) (imap pair results)))%nat.

Lemma DoneCheck_spec ready (results : list (option (Response B + exn))) fuel k erased l :
  fires ready results → erased ++ l ≡ₚ imap pair results → length erased = k → l ≠ [] → (length l ≤ fuel)%nat →
  match DoneCheck fuel ready k l with
  | Ok r => ∃ i, (i, Some (inl r)) ∈ l
  | UB => ∀ f, f ∈ l → ∃ i e, f = (i, Some (inr e))
  | _ => False
  end.
Proof.
  intros Hfire. revert k erased l. induction fuel as [|fuel IH]; intros k erased l Hp Hk Hl Hfuel.
  { destruct l; [done|cbn in Hfuel; lia]. }
  cbn [DoneCheck]. assert (k + length l = length results)%nat as Hlen.
  { rewrite <- Hk, <- length_app, Hp. by rewrite length_imap. }
  destruct (find_ready (ready k) 0 l) as [[pos a]|] eqn:Ef.
  - apply find_ready_Some in Ef as (i & j & -> & Hj). cbn [Nat.add].
    destruct a as [r|e]; [exists i; by eapply list_elem_of_lookup_2|].
    pose proof (delete_Permutation l j _ Hj) as Hd.
    assert (∀ f, f ∈ l → f = (i, Some (inr e)) ∨ f ∈ delete j l) as Hin.
    { intros f Hf. rewrite Hd in Hf. by apply elem_of_cons in Hf. }
    destruct (delete j l) as [|f0 l'] eqn:El.
    { intros f [->|Hf]%Hin; [by exists i, e|by apply not_elem_of_nil in Hf]. }
    rewrite <- El in Hd, Hin |- *. assert (delete j l ≠ []) as Hne by (by rewrite El).
    apply Permutation_length in Hd as Hdl. cbn [length] in Hdl.
    pose proof (IH (S k) (erased ++ [(i, Some (inr e))]) (delete j l)) as IH'.
    rewrite <- app_assoc, length_app, <- Hd in IH'. cbn [app length] in IH'.
    specialize (IH' Hp ltac:(lia) Hne ltac:(lia)).
    destruct (DoneCheck fuel ready (S k) (delete j l)) as [r| | | |]; [|done| |done..].
    + destruct IH' as [i' Hi']. exists i'. rewrite Hd. by right.
    + intros f [->|Hf]%Hin; [by exists i, e|]. by apply IH'.
  - apply find_ready_None in Ef. assert (0 < length l)%nat by (destruct l; [done|cbn; lia]).
    pose proof (Hfire k ltac:(lia)) as Hcount. rewrite <- Hp, list.filter_app, Ef, app_nil_r in Hcount.
    pose proof (length_filter (set_and_ready (ready k)) erased). lia.
Qed.

(** [Launch::Any], when every tracker answers sooner or later: the result is
    the response of one that succeeded; when all fail, the continuation uses the
    iterator of the future it has erased. *)
Theorem any_choice_correct ready (results : list (option (Response B + exn))) :
  results ≠ [] → fires ready results →
  match any_choice ready results with
  | Ok r => Some (inl r) ∈ results
  | UB => ∀ a, a ∈ results → ∃ e, a = Some (inr e)
  | _ => False
  end.
Proof.
  intros Hne Hfire. unfold any_choice.
  pose proof (DoneCheck_spec ready results (S (length results)) 0 [] (imap pair results) Hfire) as Hspec.
  cbn [app length] in Hspec. rewrite length_imap in Hspec.
  specialize (Hspec ltac:(done) eq_refl ltac:(destruct results; [by destruct Hne|discriminate]) ltac:(lia)).
  destruct (DoneCheck _ _ _ _) as [r| | | |]; try done.
  - destruct Hspec as [i (j & y & [= -> <-] & Hj)%elem_of_lookup_imap_1]. by eapply list_elem_of_lookup_2.
  - intros a (j & Hj)%list_elem_of_lookup.
    destruct (Hspec (j, a)) as (i & e & [= <- ->]); [by apply (elem_of_lookup_imap_2 pair)|by exists e].
Qed.

(** ** The list of trackers *)

Lemma TryAt_find d key : TryAt (NDict d) key = Ok (find key d).
Proof.
  unfold TryAt, count. cbn [AsDict]. rewrite bind_Ok. by destruct (find key d).
Qed.

(** The addresses a torrent file announces: those of [announce-list], tier by
    tier, or else the one of [announce]. *)
Definition string_of (n : Node) : option bytes := match n with NStr s => Some s | _ => None end.
Definition tier_of (n : Node) : option (list bytes) :=
  match n with NStr s => Some [s] | NArray l => mapM string_of l | _ => None end.
Definition announced (meta : Node) : option (list bytes) :=
  match meta with
  | NDict d =>
      match find (str "announce-list") d with
      | Some (NArray l) => ts ← mapM tier_of l; Some (concat ts)
      | Some _ => None
      | None => n ← find (str "announce") d; s ← string_of n; Some [s]
      end
  | _ => None
  end.

Definition url_ok (url : bytes) : Prop := split_url url ≠ [].
Definition tracker_of (url : bytes) : TrackerObject B := mkTrackerObject (deserialize (split_url url)) None false.

Lemma make_tracker_of url :
  make_tracker url = if bool_decide (url_ok url) then Ok (tracker_of url)
                     else Throw (logic_error "Bad url, can't take it apart").
Proof. unfold make_tracker, Tracker_url, tracker_of, url_ok. by destruct (split_url url). Qed.

Definition throws {A} (m : outcome A) : Prop := match m with Throw _ => True | _ => False end.

(** The trackers of a list of addresses: all of them, or an exception. *)
Definition made (urls : option (list bytes)) (m : outcome (list (TrackerObject B))) : Prop :=
  match urls with
  | Some urls => if bool_decide (Forall url_ok urls) then m = Ok (map tracker_of urls) else throws m
  | None => throws m
  end.

Lemma made_throws urls e : match urls with Some us => ¬ Forall url_ok us | None => True end → made urls (Throw e).
Proof. intros Hu. destruct urls as [us|]; [|done]. cbn. by rewrite bool_decide_false. Qed.

Lemma made_app u1 u2 m1 m2 :
  made u1 m1 → made u2 m2 →
  made (a ← u1; b ← u2; Some (a ++ b)) (a ← m1; b ← m2; Ok (a ++ b)).
Proof.
  intros H1' H2'. destruct u1 as [a|]; cbn in H1'; [|by destruct m1].
  case_bool_decide as Ha; [subst m1|destruct m1; try done; apply made_throws; destruct u2; [|done]; by intros [? _]%Forall_app].
  cbn [mbind outcome_bind option_bind]. destruct u2 as [b|]; cbn in H2'; [|by destruct m2].
  case_bool_decide as Hb; [subst m2|destruct m2; try done; apply made_throws; by intros [_ ?]%Forall_app].
  cbn. rewrite bool_decide_true by (by apply Forall_app). by rewrite map_app.
Qed.

Lemma make_trackers_made l : made (mapM string_of l) (make_trackers l).
Proof.
  induction l as [|n l IH]; [done|].
  assert (made (s ← string_of n; Some [s]) (u ← AsString n; o ← make_tracker u; Ok [o])) as Hn.
  { destruct n as [z|u|l'|d]; try done. cbn. rewrite make_tracker_of.
    rewrite (bool_decide_ext (Forall url_ok [u]) (url_ok u)) by apply list.Forall_singleton. by case_bool_decide. }
  pose proof (made_app _ _ _ _ Hn IH) as Happ. cbn [make_trackers mapM].
  destruct (AsString n) as [u| | | |]; cbn in Happ |- *; [destruct (make_tracker u); cbn in Happ |- *|..];
    by destruct (string_of n), (mapM string_of l).
Qed.

Lemma announce_list_made l : made (ts ← mapM tier_of l; Some (concat ts)) (announce_list l).
Proof.
  induction l as [|n l IH]; [done|].
  assert (made (tier_of n) (if IsString n then make_trackers [n] else tier ← AsArray n; make_trackers tier)) as Hn.
  { destruct n as [z|u|l'|d]; try done; [apply (make_trackers_made [NStr u])|apply make_trackers_made]. }
  pose proof (made_app _ _ _ _ Hn IH) as Happ. cbn [announce_list mapM].
  by destruct (tier_of n), (mapM tier_of l).
Qed.

Definition announced_trackers (meta : Node) : option (list (TrackerObject B)) :=
  urls ← announced meta;
  if bool_decide (Forall url_ok urls) then Some (map tracker_of urls) else None.

Lemma fill_trackers_made shuffle (t : Torrent B) urls m :
  made urls m → (os ← m; Ok (Some os)) = collect_trackers (meta_dict t) →
  fill_trackers shuffle t =
    match urls ≫= fun urls => if bool_decide (Forall url_ok urls) then Some (map tracker_of urls) else None with
    | Some os => Ok (true, set_trackers t (active_trackers_ t ++ shuffle os))
    | None => Ok (false, t)
    end.
Proof.
  intros Hm Hc. unfold fill_trackers. rewrite <- Hc. clear Hc.
  destruct urls as [us|]; cbn in *; [case_bool_decide; [by subst m|]|]; by destruct m.
Qed.

Lemma collect_trackers_dict d :
  collect_trackers (B:=B) (NDict d) =
    match find (str "announce-list") d with
    | Some l => l ← AsArray l; os ← announce_list l; Ok (Some os)
    | None =>
        match find (str "announce") d with
        | Some n => os ← make_trackers [n]; Ok (Some os)
        | None => Ok None
        end
    end.
Proof.
  unfold collect_trackers. rewrite !TryAt_find, bind_Ok.
  by destruct (find (str "announce-list") d), (find (str "announce") d).
Qed.

(** C37: The trackers of a torrent are exactly those of the addresses its file
    announces, in the order of the shuffle, behind the ones there were; when the
    file announces none in the expected form, or one of the addresses cannot be
    taken apart, not a single tracker is added. *)
Theorem fill_trackers_correct shuffle (t : Torrent B) :
  fill_trackers shuffle t =
    match announced_trackers (meta_dict t) with
    | Some os => Ok (true, set_trackers t (active_trackers_ t ++ shuffle os))
    | None => Ok (false, t)
    end.
Proof.
  unfold announced_trackers, announced.
  destruct (meta_dict t) as [z|s|l|d] eqn:Em; try (unfold fill_trackers; by rewrite Em).
  pose proof (collect_trackers_dict d) as Ec. rewrite <- Em in Ec.
  destruct (find (str "announce-list") d) as [[z|s|l|d']|];
    [unfold fill_trackers; by rewrite Ec..| | |].
  - by apply (fill_trackers_made _ _ _ _ (announce_list_made l)).
  - unfold fill_trackers. by rewrite Ec.
  - destruct (find (str "announce") d) as [n|]; [|unfold fill_trackers; by rewrite Ec].
    apply (fill_trackers_made shuffle t (s ← string_of n; Some [s]) (make_trackers [n])); [|done].
    pose proof (make_trackers_made [n]) as Hn. cbn [mapM] in Hn. by destruct (string_of n).
Qed.

(** ** Announcing again *)

Section Kept.
Context {S : Type} (flag : S → bool).

(** What a computation that returns leaves set. *)
Definition kept {A} (m : ST S A) : Prop := ∀ s a s', flag s = true → m s = Ok (a, s') → flag s' = true.

Lemma kept_bind {A C} (m : ST S A) (f : A → ST S C) : kept m → (∀ a, kept (f a)) → kept (m ≫= f).
Proof. intros Hm Hf s b s' Hs (a & s1 & E1 & E2)%st_bind_Ok_inv. eapply Hf, E2. by eapply Hm. Qed.
Lemma kept_same {A} (m : ST S A) : (∀ s a s', m s = Ok (a, s') → s' = s) → kept m.
Proof. intros Hm s a s' Hs E. by rewrite (Hm _ _ _ E). Qed.
Lemma kept_lift {A} (m : outcome A) : kept (lift m).
Proof. apply kept_same. by intros s a s' [_ ->]%lift_Ok_inv. Qed.
Lemma kept_get : kept get_st.
Proof. apply kept_same. by intros s a s' [= _ <-]. Qed.
Lemma kept_ret {A} (a : A) : kept (mret a).
Proof. apply kept_same. by intros s b s' [= _ <-]. Qed.
Lemma kept_modify f : (∀ s, flag (f s) = flag s) → kept (modify f).
Proof. intros Hf s a s' Hs [= _ <-]. by rewrite Hf. Qed.
Lemma kept_if {A} (b : bool) (m1 m2 : ST S A) : kept m1 → kept m2 → kept (if b then m1 else m2).
Proof. by destruct b. Qed.
Lemma kept_when (b : bool) (m : ST S unit) : kept m → kept (when b m).
Proof. intros Hm. apply kept_if; [done|apply kept_ret]. Qed.
End Kept.

Ltac kept_step := first
  [ apply kept_bind; [|intros ?] | apply kept_lift | apply kept_get | apply kept_ret | apply kept_when
  | apply kept_modify; reflexivity | apply kept_if
  | match goal with |- kept _ (match ?x with _ => _ end) => destruct x end ].

Lemma http_kept e s s' :
  HttpTracker.future_retrieved s = true → HttpTracker.handle_event e s = Some (Ok (tt, s')) →
  HttpTracker.future_retrieved (B:=B) s' = true.
Proof.
  intros Hs. assert (∀ m, kept HttpTracker.future_retrieved m → Some (m s) = Some (Ok (tt, s')) →
    HttpTracker.future_retrieved s' = true) as Hk by (intros m Hm [= E]; by eapply Hm).
  assert (∀ x, kept HttpTracker.future_retrieved (HttpTracker.fulfil (B:=B) x)) as Hful.
  { intros x s1 a s2 Hs1. unfold HttpTracker.fulfil. destruct (HttpTracker.promise_of_resp s1); [done|]. by intros [= _ <-]. }
  unfold HttpTracker.handle_event, HttpTracker.finish_read.
  destruct e; repeat case_match; try discriminate; apply Hk;
    unfold HttpTracker.do_request, HttpTracker.do_read_response_status, HttpTracker.SetException, HttpTracker.on_status,
      HttpTracker.on_response_header, HttpTracker.on_body_part, HttpTracker.on_body_end, HttpTracker.SetResponse,
      HttpTracker.stop_await, HttpTracker.run_job, HttpTracker.do_read_response_header, HttpTracker.do_read_response_body;
    repeat (apply Hful || kept_step).
Qed.

Lemma udp_kept e s s' :
  UdpTracker.future_retrieved s = true → UdpTracker.handle_event e s = Some (Ok (tt, s')) →
  UdpTracker.future_retrieved (B:=B) s' = true.
Proof.
  intros Hs. assert (∀ m, kept UdpTracker.future_retrieved m → Some (m s) = Some (Ok (tt, s')) →
    UdpTracker.future_retrieved s' = true) as Hk by (intros m Hm [= E]; by eapply Hm).
  assert (∀ x, kept UdpTracker.future_retrieved (UdpTracker.fulfil (B:=B) x)) as Hful.
  { intros x s1 a s2 Hs1. unfold UdpTracker.fulfil. destruct (UdpTracker.promise_of_resp s1); [done|]. by intros [= _ <-]. }
  assert (kept UdpTracker.future_retrieved (UdpTracker.Promote (B:=B))) as Hprom.
  { intros s1 a s2 Hs1. unfold UdpTracker.Promote. destruct (UdpTracker.endpoints_ s1); [done|]. by intros [= _ <-]. }
  assert (kept UdpTracker.future_retrieved (UdpTracker.open_socket (B:=B))) as Hopen.
  { intros s1 a s2 Hs1. unfold UdpTracker.open_socket. destruct (UdpTracker.socket_open s1); [done|]. by intros [= _ <-]. }
  assert (∀ err, kept UdpTracker.future_retrieved (UdpTracker.SetException (B:=B) err)) as Hexc.
  { intros err. unfold UdpTracker.SetException. repeat (apply Hful || kept_step). }
  assert (∀ n, kept UdpTracker.future_retrieved (UdpTracker.try_connect (B:=B) n)) as Htry.
  { induction n as [|n IH]; cbn [UdpTracker.try_connect]; unfold UdpTracker.update_endpoint;
      repeat (apply Hprom || apply Hexc || apply IH || kept_step). }
  assert (kept UdpTracker.future_retrieved (UdpTracker.do_try_announce (B:=B))) as Hann.
  { unfold UdpTracker.do_try_announce. repeat (apply Htry || kept_step). }
  unfold UdpTracker.handle_event. destruct e; repeat case_match; try discriminate; apply Hk;
    unfold UdpTracker.on_sent, UdpTracker.on_send_failed, UdpTracker.on_connect_response, UdpTracker.on_announce_response,
      UdpTracker.SetResponse, UdpTracker.do_try_connect_delay, UdpTracker.do_try_announce_delay, UdpTracker.run_job;
    repeat (apply Hful || apply Hopen || apply Hexc || apply Htry || apply Hann || kept_step).
Qed.

(** The future of the requester has been taken. *)
Definition future_taken (q : Requester B) : bool :=
  match q with
  | HttpRequester s => HttpTracker.future_retrieved s
  | UdpRequester s => UdpTracker.future_retrieved s
  end.
Definition taken (o : TrackerObject B) : Prop := ∃ q, request o = Some q ∧ future_taken q = true.

Lemma requester_step_taken q q' : requester_step q q' → future_taken q = true → future_taken q' = true.
Proof. intros []; cbn; eauto using http_kept, udp_kept. Qed.

Lemma tracker_step_taken o o' : tracker_step o o' → taken o → taken o'.
Proof.
  intros [o1 e o1' E] (q0 & E0 & Ht). unfold handle_tracker in E. rewrite E0 in E. destruct e as [e|e|].
  - destruct q0 as [s|s]; [|done]. destruct (HttpTracker.handle_event e s) as [[[[] s']| | | |]|] eqn:Es; try done.
    injection E as <-. exists (HttpRequester s'). split; [done|]. by eapply http_kept.
  - destruct q0 as [s|s]; [done|]. destruct (UdpTracker.handle_event e s) as [[[[] s']| | | |]|] eqn:Es; try done.
    injection E as <-. exists (UdpRequester s'). split; [done|]. by eapply udp_kept.
  - destruct (stopping o1); [|done]. unfold run_stop in E. rewrite E0 in E. cbn in E. injection E as <-.
    exists (requester_disconnect q0). split; [done|]. by destruct q0.
Qed.

Lemma rtc_kept {A} (R : A → A → Prop) (P : A → Prop) x y : (∀ x y, R x y → P x → P y) → rtc R x y → P x → P y.
Proof. intros Hstep. induction 1; eauto. Qed.

Lemma future_taken_again q : future_taken q = true → requester_future q = Throw future_already_retrieved.
Proof. destruct q; cbn; unfold HttpTracker.GetResponse, UdpTracker.GetResponse; by intros ->. Qed.

Lemma requester_future_takes q q' : requester_future q = Ok q' → future_taken q' = true.
Proof.
  destruct q as [s|s]; cbn; unfold HttpTracker.GetResponse, UdpTracker.GetResponse;
    [destruct (HttpTracker.future_retrieved s)|destruct (UdpTracker.future_retrieved s)]; try done; by intros [= <-].
Qed.

Lemma request_all_taken view query rs k os os' :
  request_all view query rs k os = (os', Ok tt) → length os' = length os ∧ Forall taken os'.
Proof.
  revert k os'. induction os as [|o os IH]; intros k os'; cbn [request_all]; [by intros [= <-]|].
  unfold Tracker_Request. destruct (requester_connect _ _ _ _) as [q| | | |]; try done.
  destruct (requester_future q) as [q'| | | |] eqn:Ef; try done.
  destruct (request_all view query rs (S k) os) as [os1 m1] eqn:E1. intros [= <- ->].
  destruct (IH _ _ E1) as [Hl Hall]. split; [cbn; by rewrite Hl|]. constructor; [|done].
  exists q'. split; [done|]. by eapply requester_future_takes.
Qed.

(** While the answers are awaited the requesters do nothing but take steps. *)
Definition network_ok (n : Network B) : Prop := ∀ k q, rtc requester_step q (afterwards n k q).

Lemma network_runs_taken n os : network_ok n → Forall taken os → Forall taken (network_runs n os).
Proof.
  intros Hn Hall. apply list.Forall_forall. intros o' (k & o & -> & Ho)%elem_of_lookup_imap_1.
  rewrite list.Forall_forall in Hall. destruct (Hall _ (list_elem_of_lookup_2 _ _ _ Ho)) as (q & Eq & Ht).
  rewrite Eq. exists (afterwards n k q). split; [done|].
  eapply (rtc_kept requester_step (fun q => future_taken q = true)), Ht; [|apply Hn]. by apply requester_step_taken.
Qed.

Lemma wait_all_length l results : wait_all l = Ok results → length results = length l.
Proof.
  revert results. induction l as [|[a|] l IH]; intros results; cbn; [by intros [= <-]| |done].
  intros (rest & E & [= <-])%bind_Ok_inv. cbn. by rewrite (IH _ E).
Qed.

Lemma choose_permutation policy n os os' m : choose policy n os = (os', m) → os' ≡ₚ os.
Proof.
  unfold choose. destruct policy; [by intros [= <- _]|].
  destruct (wait_all (map answer os)) as [results| | | |] eqn:Ew; try by intros [= <- _].
  apply wait_all_length in Ew. rewrite length_map in Ew.
  destruct (best_choice_spec results os Ew) as (resp & os1 & -> & Hp & _). by intros [= <- _].
Qed.

Lemma TryConnect_true boost_exception n rs policy event (t t1 : Torrent B) :
  TryConnect boost_exception n rs policy event t = Ok (true, t1) →
  ∃ os os' resp, active_trackers_ t ≠ [] ∧
    request_all (tracker_view t) (default_query (uploaded_ t) (downloaded_ t) (left_ t) event) rs 0 (active_trackers_ t)
      = (os, Ok tt) ∧
    choose policy n (network_runs n os) = (os', Ok resp) ∧
    t1 = Process (set_data (set_trackers t (map Stop os')) (Some resp)).
Proof.
  unfold TryConnect, HasTrackers. case_bool_decide as Ht; [|done]. cbn [negb].
  destruct (request_all _ _ _ _ _) as [os m] eqn:Er. destruct m as [[]|e| | |]; cbn; try done; [|by destruct (boost_exception e)].
  destruct (choose policy n (network_runs n os)) as [os' m] eqn:Ec.
  destruct m as [resp|e| | |]; cbn; try done; [|by destruct (boost_exception e)].
  intros [= <-]. by exists os, os', resp.
Qed.

(** An attempt that fails leaves everything but the trackers alone. *)
Lemma TryConnect_false boost_exception n rs policy event (t t1 : Torrent B) :
  TryConnect boost_exception n rs policy event t = Ok (false, t1) → ∃ os, t1 = set_trackers t os.
Proof.
  unfold TryConnect. destruct (negb _); [intros [= <-]; exists (active_trackers_ t); by destruct t|].
  destruct (request_all _ _ _ _ _) as [os m]. destruct m as [[]|e| | |]; cbn; try done.
  - destruct (choose policy n (network_runs n os)) as [os' m1]. destruct m1 as [resp|e| | |]; cbn; try done.
    destruct (boost_exception e); [|done]. intros [= <-]. by eexists.
  - destruct (boost_exception e); [|done]. intros [= <-]. by eexists.
Qed.

Lemma request_all_fails view query rs k o os os' :
  taken o → request_all view query rs k (o :: os) ≠ (os', Ok tt).
Proof.
  intros (q & Eq & Ht) E. cbn [request_all] in E. unfold Tracker_Request, MakeRequester in E. rewrite Eq in E.
  destruct (requester_connect (view o) query (rs k) q) as [q'| | | |] eqn:Ec; try done.
  assert (future_taken q' = true) as Ht'.
  { destruct q as [s|s]; cbn in Ec; apply bind_Ok_inv in Ec as ([[] s'] & Ec & [= <-]); cbn in Ht |- *.
    - assert (kept HttpTracker.future_retrieved (HttpTracker.Connect (B:=B) (view o) query)) as Hk
        by (unfold HttpTracker.Connect; repeat kept_step). by eapply Hk.
    - assert (kept UdpTracker.future_retrieved (UdpTracker.Connect (B:=B) (view o) query (rs k))) as Hk
        by (unfold UdpTracker.Connect; repeat kept_step). by eapply Hk. }
  by rewrite (future_taken_again _ Ht') in E.
Qed.

Lemma could_reconnect_taken os : Forall taken os → could_reconnect os = Ok false.
Proof.
  induction 1 as [|o os (q & Eq & _) _ IH]; [done|]. cbn [could_reconnect]. unfold CouldConnect. by rewrite Eq.
Qed.

Lemma TryConnect_taken boost_exception n rs policy event (t t1 : Torrent B) :
  network_ok n → TryConnect boost_exception n rs policy event t = Ok (true, t1) → Forall taken (active_trackers_ t1).
Proof.
  intros Hn (os & os' & resp & Hne & Hreq & Hchoose & ->)%TryConnect_true.
  apply request_all_taken in Hreq as [_ Hall]. change (Forall taken (map Stop os')).
  apply list.Forall_fmap. eapply list.Forall_impl.
  - rewrite (choose_permutation _ _ _ _ _ Hchoose). by apply network_runs_taken.
  - by intros o (q & Eq & Ht); exists q.
Qed.

(** A torrent announces itself once.  Before it has, the question whether it
    could connect again goes through a null pointer; after it has, whatever
    happens to the trackers then, the answer is always no, and a further
    [TryConnect] never succeeds. *)
Theorem announced_once boost_exception n rs policy event (t t1 : Torrent B) n2 rs2 policy2 event2 (t2 : Torrent B) :
  network_ok n → TryConnect boost_exception n rs policy event t = Ok (true, t1) →
  Forall2 (rtc tracker_step) (active_trackers_ t1) (active_trackers_ t2) →
  (Forall (fun o => request o = None) (active_trackers_ t) → CouldReconnect t = UB) ∧
  CouldReconnect t2 = Ok false ∧ ∀ t3, TryConnect boost_exception n2 rs2 policy2 event2 t2 ≠ Ok (true, t3).
Proof.
  intros Hn Hconn Hlater. pose proof (TryConnect_taken _ _ _ _ _ _ _ Hn Hconn) as Hstop.
  apply TryConnect_true in Hconn as (_ & _ & _ & Hne & _).
  assert (Forall taken (active_trackers_ t2)) as Hall2.
  { clear -Hlater Hstop. revert Hstop. induction Hlater as [|o o2 l l2 Ho _ IH]; [done|].
    intros [Ht Hl]%list.Forall_cons. constructor; [|by apply IH].
    eapply (rtc_kept tracker_step taken), Ht; [apply tracker_step_taken|done]. }
  split_and!.
  - intros Hnone. unfold CouldReconnect. destruct (active_trackers_ t) as [|o l]; [done|].
    apply list.Forall_cons in Hnone as [Ho _]. cbn [could_reconnect]. unfold CouldConnect. by rewrite Ho.
  - by apply could_reconnect_taken.
  - intros t3 (os2 & os2' & r2 & Hne2 & Hreq2 & _ & _)%TryConnect_true.
    destruct (active_trackers_ t2) as [|o l]; [done|]. apply list.Forall_cons in Hall2 as [Ho _].
    by apply request_all_fails in Hreq2.
Qed.

(** *** What may go wrong with a tracker *)

(** A requester whose [Connect] has returned: the invariants of HttpFacts.v and
    UdpFacts.v. *)
Definition requester_ok (q : Requester B) : Prop :=
  match q with
  | HttpRequester s => http_ok s
  | UdpRequester s => ∃ t query tid, 0 ≤ tid < 2 ^ 32 ∧ good_tracker t ∧ inv t query tid True s
  end.
Definition tracker_ok (o : TrackerObject B) : Prop := ∃ q, request o = Some q ∧ requester_ok q.

(** The answers that cannot be taken apart. *)
Definition bad_answer_of (e : tracker_event) (o : TrackerObject B) : Prop :=
  match e, request o with
  | THttp e, Some (HttpRequester s) => unreadable s e
  | TUdp e, Some (UdpRequester s) => bad_reply (UdpTracker.c_req_transaction_id s) s e = true
  | _, _ => False
  end.

Definition open_or_set (s : httpRequester B) : bool :=
  HttpTracker.is_set s || match HttpTracker.promise_of_resp s with None => true | Some _ => false end.

Lemma open_or_set_ok s : http_ok s ↔ open_or_set s = true.
Proof. unfold http_ok, open_or_set. destruct (HttpTracker.is_set s), (HttpTracker.promise_of_resp s); naive_solver. Qed.

Lemma http_ok_kept e s s' : http_ok s → HttpTracker.handle_event e s = Some (Ok (tt, s')) → http_ok (B:=B) s'.
Proof.
  rewrite !open_or_set_ok. intros Hs. assert (∀ m, kept open_or_set m → Some (m s) = Some (Ok (tt, s')) →
    open_or_set s' = true) as Hk by (intros m Hm [= E]; by eapply Hm).
  assert (∀ x, kept open_or_set (_ ← HttpTracker.fulfil (B:=B) x; HttpTracker.Disconnect)) as Hful.
  { intros x s1 a s2 Hs1 ([] & s3 & _ & E)%st_bind_Ok_inv. by injection E as _ <-. }
  unfold HttpTracker.handle_event, HttpTracker.finish_read.
  destruct e; repeat case_match; try discriminate; apply Hk;
    unfold HttpTracker.do_request, HttpTracker.do_read_response_status, HttpTracker.SetException, HttpTracker.on_status,
      HttpTracker.on_response_header, HttpTracker.on_body_part, HttpTracker.on_body_end, HttpTracker.SetResponse,
      HttpTracker.stop_await, HttpTracker.run_job, HttpTracker.do_read_response_header, HttpTracker.do_read_response_body;
    repeat (apply Hful || kept_step).
Qed.

(** The number of the request is that of its invariant, once something is received. *)
Lemma bad_reply_own t query tid st s e :
  inv t query tid st s → bad_reply (UdpTracker.c_req_transaction_id (B:=B) s) s e = bad_reply tid s e.
Proof.
  intros Hs. unfold bad_reply. destruct e as [| | | | |data dur fr| | |]; try done.
  destruct (pending_receives s) as [|[n []] vs] eqn:Ep; try done.
  destruct (live_receiving t query tid st s n _ vs Hs Ep) as [(_ & _ & _ & (_ & _ & Hv) & _)|Hc _ _]; [congruence|].
  by rewrite (ctr_tid _ _ _ _ _ Hc).
Qed.

Lemma udp_event_ok e s m :
  requester_ok (UdpRequester s) → bad_reply (UdpTracker.c_req_transaction_id s) s e = false →
  UdpTracker.handle_event e s = Some m → ∃ s', m = Ok (tt, s') ∧ requester_ok (UdpRequester s').
Proof.
  intros (t & query & tid & Hr & Ht & Hs) Hb E. rewrite (bad_reply_own _ _ _ _ _ _ Hs) in Hb.
  set (n := match e with UdpTracker.EvResolved eps => length eps | _ => 0%nat end).
  assert (bounded n e) as Hn by (destruct e; cbn; try done; reflexivity).
  destruct (inv_step t query tid True n Hr s e m Ht Hs Hb Hn E) as (s' & -> & Hs' & _). exists s'. split; [done|]. by exists t, query, tid.
Qed.

(** Every event of a tracker that was asked: but for an answer that cannot be
    taken apart it is handled to its end. *)
Lemma tracker_event_ok e o r :
  tracker_ok o → ¬ bad_answer_of e o → handle_tracker e o = Some r → ∃ o', r = Ok o' ∧ tracker_ok o'.
Proof.
  intros (q & Eq & Hq) Hb E. unfold handle_tracker, bad_answer_of in *. rewrite Eq in E, Hb. destruct e as [e|e|].
  - destruct q as [s|s]; [|done]. destruct (HttpTracker.handle_event e s) as [m|] eqn:Es; [|done].
    destruct (http_event_ok e s m Hq Hb Es) as (s' & -> & Hs'). injection E as <-. eexists. split; [done|].
    by exists (HttpRequester s').
  - destruct q as [s|s]; [done|]. destruct (UdpTracker.handle_event e s) as [m|] eqn:Es; [|done].
    apply not_true_is_false in Hb. destruct (udp_event_ok e s m Hq Hb Es) as (s' & -> & Hs'). injection E as <-.
    eexists. split; [done|]. by exists (UdpRequester s').
  - destruct (stopping o); [|done]. unfold run_stop in E. rewrite Eq in E. injection E as <-. eexists. split; [done|].
    exists (requester_disconnect q). split; [done|]. destruct q as [s|s]; [done|].
    destruct Hq as (t & query & tid & Hr & Ht & Hs). exists t, query, tid. split; [done|split; [done|]].
    by apply (inv_stop t query tid True 0).
Qed.

Lemma requester_step_ok q q' : requester_step q q' → requester_ok q → requester_ok q'.
Proof.
  intros [s e s' E|s e s' E] Hq; [by eapply http_ok_kept|]. pose proof Hq as (t & query & tid & Hr & Ht & Hs).
  destruct (udp_event_ok e s (Ok (tt, s')) Hq) as (s1 & [= <-] & Hs1); [|done|done].
  rewrite (bad_reply_own _ _ _ _ _ _ Hs). eapply (not_bad t query tid True 0); [done|exact Hs|exact E].
Qed.

Lemma tracker_step_ok o o' : tracker_step o o' → tracker_ok o → tracker_ok o'.
Proof.
  intros [o1 e o1' E] Ho. pose proof Ho as (q & Eq & Hq). unfold handle_tracker in E. rewrite Eq in E. destruct e as [e|e|].
  - destruct q as [s|s]; [|done]. destruct (HttpTracker.handle_event e s) as [[[[] s']| | | |]|] eqn:Es; try done.
    injection E as <-. exists (HttpRequester s'). split; [done|]. eapply requester_step_ok; [by econstructor|done].
  - destruct q as [s|s]; [done|]. destruct (UdpTracker.handle_event e s) as [[[[] s']| | | |]|] eqn:Es; try done.
    injection E as <-. exists (UdpRequester s'). split; [done|]. eapply requester_step_ok; [by econstructor|done].
  - destruct (tracker_event_ok TStop o1 (Ok o1') Ho) as (o2 & [= <-] & ?); [by intros []|exact E|done].
Qed.

(** *** The first request *)

(** A tracker nobody has asked. *)
Definition unasked (o : TrackerObject B) : Prop := request o = None ∧ stopping o = false.

Lemma unasked_quiet e o : unasked o → handle_tracker e o = None.
Proof. intros [Er Es]. unfold handle_tracker. rewrite Er, Es. by destruct e. Qed.

(** The parts of the tracker's view an announcement is made of. *)
Lemma announce_parts t query arr x :
  make_announce_request t query arr = Ok x →
  ∃ t', good_tracker t' ∧ make_announce_request t' query arr = Ok x.
Proof.
  unfold make_announce_request. intros (ih & Ei & E)%bind_Ok_inv. apply bind_Ok_inv in E as (pid & Ep & E).
  exists (mkTracker (tracker_url t) ih pid (u16 (GetPort t))).
  assert (∀ l a n x, slice l a n = Ok x → length x = n) as Hl.
  { intros l a n y. unfold slice. case_decide; [|done]. intros [= <-]. rewrite length_take, length_drop. lia. }
  pose proof (Hl _ _ _ _ Ei) as Hi. pose proof (Hl _ _ _ _ Ep) as Hp. split.
  - split_and!; [done|done|cbn; unfold u16; apply Z.mod_pos_bound; lia..].
  - cbn [GetInfoHash GetMasterPeerId GetPort]. rewrite (slice_prefix _ [x00] 20 Hi), <- (app_nil_r pid), (slice_prefix _ [] 20 Hp), !bind_Ok.
    replace (u16 (u16 (GetPort t))) with (u16 (GetPort t)) by (unfold u16; by rewrite Zmod_mod). exact E.
Qed.

Lemma first_udp_request t query r s s' :
  plain_query query → UdpTracker.Connect t query r UdpTracker.new_requester = Ok (tt, s) →
  UdpTracker.GetResponse s = Ok (tt, s') → requester_ok (UdpRequester s').
Proof.
  intros Hq E Ef. unfold UdpTracker.GetResponse in Ef. destruct (UdpTracker.future_retrieved s); [done|]. injection Ef as <-.
  assert (∃ t', good_tracker t' ∧ UdpTracker.Connect t' query r UdpTracker.new_requester = Ok (tt, s)) as (t' & Ht' & E').
  { unfold UdpTracker.Connect in *. erewrite st_bind_Ok in E by reflexivity. cbv beta in E.
    change (negb (UdpTracker.can_reconnect_ UdpTracker.new_requester)) with false in E. cbv iota in E.
    erewrite st_bind_Ok in E by reflexivity. cbv beta in E. erewrite st_bind_Ok in E by reflexivity. cbv beta in E.
    apply st_bind_Ok_inv in E as (arr & s1 & E1 & E). unfold lift in E1. apply bind_Ok_inv in E1 as (x & Ex & [= <- <-]).
    destruct (announce_parts _ _ _ _ Ex) as (t' & Ht' & Ex'). exists t'. split; [done|].
    erewrite st_bind_Ok by reflexivity. cbv beta.
    change (negb (UdpTracker.can_reconnect_ UdpTracker.new_requester)) with false. cbv iota.
    do 2 (erewrite st_bind_Ok by reflexivity; cbv beta). erewrite st_bind_Ok by (unfold lift; rewrite Ex'; reflexivity).
    exact E. }
  exists t', query, (u32 r). split; [apply u32_range|split; [done|]].
  destruct (Connect_inv t' query (u32 r) True 0 _ r s Ht' Hq eq_refl eq_refl E') as [[Hc He Ho Hu|[(Hset & Hp & Hi)|Hc He Hu]] _].
  - apply inv_unresolved; [by destruct Hc; split|done|done|]. by destruct Hu; [apply to_resolve|apply being_resolved].
  - apply inv_live, live_done. by split_and!.
  - apply inv_live, live_busy; [by destruct Hc; split|done|].
    destruct Hu; [by eapply to_send|by eapply sending|by eapply to_receive|by eapply receiving|by eapply to_wait|by eapply waiting].
Qed.

Lemma first_http_request t query s s' :
  HttpTracker.Connect t query HttpTracker.new_requester = Ok (tt, s) → HttpTracker.GetResponse s = Ok (tt, s') →
  http_ok (B:=B) s'.
Proof.
  intros E Ef. unfold HttpTracker.GetResponse in Ef. destruct (HttpTracker.future_retrieved s); [done|]. injection Ef as <-.
  apply open_or_set_ok. change (open_or_set s = true).
  assert (kept open_or_set (HttpTracker.Connect (B:=B) t query)) as Hk by (unfold HttpTracker.Connect; repeat kept_step).
  exact (Hk HttpTracker.new_requester tt s eq_refl E).
Qed.

Lemma request_all_ok view query rs k os os' :
  plain_query query → Forall unasked os → request_all view query rs k os = (os', Ok tt) → Forall tracker_ok os'.
Proof.
  intros Hq. revert k os'. induction os as [|o os IH]; intros k os' Hall; cbn [request_all]; [by intros [= <-]|].
  apply list.Forall_cons in Hall as [[Ho _] Hall]. unfold Tracker_Request, MakeRequester. rewrite Ho.
  destruct (requester_connect _ _ _ _) as [q| | | |] eqn:Ec; try done.
  destruct (requester_future q) as [q'| | | |] eqn:Ef; try done.
  destruct (request_all view query rs (S k) os) as [os1 m1] eqn:E1. intros [= <- ->].
  constructor; [|by eapply IH]. exists q'. split; [done|].
  destruct (is_udp _); cbn in Ec; apply bind_Ok_inv in Ec as ([[] s] & Ec & [= <-]); cbn in Ef;
    apply bind_Ok_inv in Ef as ([[] s'] & Ef & [= <-]); [by eapply first_udp_request|by eapply first_http_request].
Qed.

Lemma TryConnect_ok boost_exception n rs policy event (t t1 : Torrent B) :
  network_ok n → Forall unasked (active_trackers_ t) → TryConnect boost_exception n rs policy event t = Ok (true, t1) →
  Forall tracker_ok (active_trackers_ t1).
Proof.
  intros Hn Hall (os & os' & resp & Hne & Hreq & Hchoose & ->)%TryConnect_true.
  apply request_all_ok in Hreq; [|done|done]. change (Forall tracker_ok (map Stop os')).
  apply list.Forall_fmap. eapply (list.Forall_impl tracker_ok).
  - rewrite (choose_permutation _ _ _ _ _ Hchoose). apply list.Forall_forall.
    intros o' (k & o & -> & Ho)%elem_of_lookup_imap_1. rewrite list.Forall_forall in Hreq.
    destruct (Hreq o (list_elem_of_lookup_2 _ _ _ Ho)) as (q & Eq & Hq). rewrite Eq. exists (afterwards n k q).
    split; [done|]. eapply (rtc_kept requester_step requester_ok); [apply requester_step_ok|apply Hn|done].
  - by intros o (q & Eq & Hq); exists q.
Qed.

(** The trackers of the torrent file have not been asked. *)
Lemma make_trackers_unasked l os : make_trackers (B:=B) l = Ok os → Forall unasked os.
Proof.
  revert os. induction l as [|n l IH]; intros os; cbn [make_trackers]; [by intros [= <-]|].
  intros (url & _ & E)%bind_Ok_inv. apply bind_Ok_inv in E as (o & Eo & E). apply bind_Ok_inv in E as (os' & Eos & [= <-]).
  unfold make_tracker in Eo. apply bind_Ok_inv in Eo as (u & _ & [= <-]). constructor; [done|by apply IH].
Qed.

Lemma announce_list_unasked l os : announce_list (B:=B) l = Ok os → Forall unasked os.
Proof.
  revert os. induction l as [|n l IH]; intros os; cbn [announce_list]; [by intros [= <-]|].
  intros (os1 & E1 & E)%bind_Ok_inv. apply bind_Ok_inv in E as (os2 & E2 & [= <-]). apply list.Forall_app. split; [|by apply IH].
  destruct (IsString n); [by eapply make_trackers_unasked|]. apply bind_Ok_inv in E1 as (tier & _ & E1).
  by eapply make_trackers_unasked.
Qed.

Lemma fill_trackers_unasked shuffle (b : bool) (t t' : Torrent B) :
  (∀ l, shuffle l ≡ₚ l) → Forall unasked (active_trackers_ t) → fill_trackers shuffle t = Ok (b, t') →
  Forall unasked (active_trackers_ t').
Proof.
  intros Hsh Ht. unfold fill_trackers. destruct (collect_trackers _) as [[os|]|e| | |] eqn:Ec; try done; intros [= _ <-]; try done.
  apply list.Forall_app. split; [done|]. rewrite (Hsh os). unfold collect_trackers in Ec.
  apply bind_Ok_inv in Ec as ([l|] & _ & Ec).
  - apply bind_Ok_inv in Ec as (l' & _ & Ec). apply bind_Ok_inv in Ec as (os' & Eos & [= <-]). by eapply announce_list_unasked.
  - apply bind_Ok_inv in Ec as ([n|] & _ & Ec); [|done]. apply bind_Ok_inv in Ec as (os' & Eos & [= <-]).
    by eapply make_trackers_unasked.
Qed.

(** ** The constructor *)

Lemma emplace_present {V} k (v x : V) d : keys_sorted d = true → find k d = Some v → emplace k x d = d.
Proof.
  induction d as [|[k' v'] d IH]; [done|]. intros Hs. cbn [find emplace].
  pose proof Hs as Hs'. apply keys_sorted_cons in Hs' as [Hs' Ha].
  destruct (bytes_ltb k k') eqn:E1.
  - case_decide as Ek; [subst; by rewrite bytes_ltb_irrefl in E1|]. intros Hf.
    rewrite (find_above k k' d) in Hf by auto. done.
  - destruct (bytes_ltb k' k) eqn:E2; [|done]. case_decide as Ek; [subst; by rewrite bytes_ltb_irrefl in E2|].
    intros Hf. by rewrite IH.
Qed.

Lemma find_split {V} k (v : V) d : find k d = Some v → ∃ d1 d2, d = d1 ++ (k, v) :: d2.
Proof.
  induction d as [|[k' v'] d IH]; [done|]. cbn [find]. case_decide as Ek.
  - intros [= ->]. subst. by exists [], d.
  - intros (d1 & d2 & ->)%IH. by exists ((k', v') :: d1), d2.
Qed.

Lemma read_meta_document d rest info :
  node_ok (NDict d) = true → no_empty_str (NDict d) = true → find (str "info") d = Some info →
  read_meta (MakeSerialize (NDict d) ++ rest) = Ok (NDict d, GetSHA1 (MakeSerialize info)).
Proof.
  intros Hok Hne Hf. unfold read_meta, Load. rewrite (loads_all _ Hok Hne) by (rewrite length_app; lia).
  cbn [mbind outcome_bind GetRoot]. unfold ref_key.
  cbn [node_ok] in Hok. apply andb_true_iff in Hok as [Hs _].
  by rewrite (emplace_present _ info), Hf.
Qed.

Lemma set_all_spec `{!DynamicBitsetLaws B} n i (b : B) :
  (i + n)%nat = Size b →
  ∃ b', set_all n i b = Ok b' ∧ Size b' = Size b ∧
    ∀ j, (j < Size b)%nat → Test b' j = Ok (bool_decide (i ≤ j)%nat || db_test b j).
Proof.
  unfold Size. revert i b. induction n as [|n IH]; intros i b Hn; cbn [set_all].
  - exists b. split_and!; [done|done|]. intros j Hj. unfold Test, in_range.
    rewrite (bool_decide_true (j < db_size b)%nat), (bool_decide_false (i ≤ j)%nat) by lia. done.
  - unfold Set_ at 1, in_range. rewrite bool_decide_true by lia. rewrite bind_Ok.
    destruct (IH (S i) (db_set b i true)) as (b' & -> & Hsz & Htest); [rewrite db_size_set; lia|].
    rewrite db_size_set in Hsz, Htest by lia. exists b'. split_and!; [done|done|].
    intros j Hj. rewrite Htest by done. f_equal. rewrite db_test_set by lia.
    destruct (decide (j = i)) as [->|Hne]; [by rewrite orb_true_r, bool_decide_true|].
    f_equal. apply bool_decide_ext. lia.
Qed.

(** The state before the loop over the pieces of a completed torrent. *)
Definition constructed (pieces info_hash rs : bytes) (strategy : Strategy) (files : TorrentFiles) (f : fsys)
    (random : list Z) (addr : Z) : World B :=
  let w := initial pieces info_hash (Peer_generated rs) strategy files f random in
  let p := as_peer (master_peer_ w) in
  set_master w (set_peer (master_peer_ w) (mkPeer (id p) (u32 addr) (port p) (bitfield_ p))).

(** Which pieces a constructed torrent has: all or none. *)
Definition has_all_or_none (completed : bool) (n : nat) (w : World B) : Prop :=
  let bits := bitfield_ (as_peer (master_peer_ w)) in
  Size bits = n ∧ (∀ i, (i < n)%nat → Test bits i = Ok completed) ∧
  ready_pieces_num_ w = (if completed then Z.of_nat n else 0).

Lemma mark_constructed `{!DynamicBitsetLaws B} pieces info_hash rs strategy files f random addr (completed : bool) :
  let w0 := constructed pieces info_hash rs strategy files f random addr in
  ∃ bits, (if completed then mark_completed w0 else Ok w0) =
      Ok (set_ready (set_master w0 (set_peer (master_peer_ w0) (set_bitfield (as_peer (master_peer_ w0)) bits)))
            (if completed then Z.of_nat (piece_count_of pieces) else 0)) ∧
    Size bits = piece_count_of pieces ∧ ∀ i, (i < piece_count_of pieces)%nat → Test bits i = Ok completed.
Proof.
  intros w0. set (b0 := bitfield_ (as_peer (master_peer_ w0))).
  assert (Size b0 = piece_count_of pieces) as Hsz by apply db_size_resize.
  destruct completed.
  - destruct (set_all_spec (Size b0) 0 b0) as (bits & E & Hbits & Htest); [done|].
    exists bits. unfold mark_completed. fold b0. rewrite E, bind_Ok, Hbits, Hsz. split_and!; [done|done|].
    intros i Hi. rewrite Htest by lia. done.
  - exists b0. split_and!; [done|done|]. intros i Hi. unfold Test, in_range. rewrite bool_decide_true by (by rewrite <- Hsz in Hi).
    f_equal. subst b0. cbn. unfold Resize. rewrite db_test_resize by done. by rewrite db_size_make.
Qed.

(** C13: A torrent constructed from a file in canonical form: the info hash is
    the digest of the very bytes of the file that follow the key info, the
    handshake carries it with the own id, the own bitfield has a bit per piece,
    all set or all clear, and the trackers are those the file announces. *)
Theorem torrent_constructed `{!DynamicBitsetLaws B} d rest path download lport (completed : bool) strategy f rs local_ip
    shuffle random
    info dir files f1 pieces addr :
  node_ok (NDict d) = true → no_empty_str (NDict d) = true → find (str "info") d = Some info →
  directory_name (NDict d) path = Ok dir → fill_files (path_append download dir) (NDict d) f = Ok (files, f1) →
  meta_pieces (NDict d) = Ok pieces → IpToInt local_ip = Ok addr →
  let text := MakeSerialize (NDict d) ++ rest in
  ∃ t pre post info_bytes,
    Torrent_Torrent (B:=B) (Some text) path download lport completed strategy f rs local_ip shuffle random = Ok t ∧
    text = pre ++ MakeSerialize (NStr (str "info")) ++ info_bytes ++ post ∧ info_bytes = MakeSerialize info ∧
    info_hash_ (world t) = GetSHA1 info_bytes ∧
    handshake_message_ (master_peer_ (world t)) = MakeHandshake (GetSHA1 info_bytes) (str "-CP2060-" ++ rs) ∧
    has_all_or_none completed (piece_count_of pieces) (world t) ∧
    files_ (file_manager_ (world t)) = files ∧ disk (world t) = f1 ∧
    active_trackers_ t = match announced_trackers (NDict d) with Some os => shuffle os | None => [] end.
Proof.
  intros Hok Hne Hinfo Hdir Hfiles Hpieces Hip text.
  destruct (find_split _ _ _ Hinfo) as (d1 & d2 & Ed).
  destruct (mark_constructed pieces (GetSHA1 (MakeSerialize info)) rs strategy files f1 random addr completed)
    as (bits & Emark & Hsz & Htest).
  unfold Torrent_Torrent. cbn [opt_or]. rewrite bind_Ok. unfold text.
  rewrite (read_meta_document d rest info) by done. rewrite bind_Ok, Hdir, bind_Ok, Hfiles, bind_Ok, Hpieces, bind_Ok, Hip, bind_Ok.
  cbv zeta. unfold constructed in Emark. cbv zeta in Emark. rewrite Emark, bind_Ok.
  rewrite fill_trackers_correct. cbn [meta_dict].
  set (ser := fun kv : bytes * Node => let '(k, v) := kv in MakeSerialize_str k ++ MakeSerialize v).
  assert (text = ("d"%byte :: concat (map ser d1)) ++ MakeSerialize (NStr (str "info")) ++ MakeSerialize info ++
    concat (map ser d2) ++ "e"%byte :: rest) as Etext.
  { unfold text. cbn [MakeSerialize]. fold ser. rewrite Ed, map_app, concat_app. cbn [map concat ser app].
    by rewrite <- !app_assoc. }
  destruct (announced_trackers (NDict d)) as [os|];
    eexists _, ("d"%byte :: concat (map ser d1)), (concat (map ser d2) ++ "e"%byte :: rest), (MakeSerialize info);
    (split; [reflexivity|]); (split; [exact Etext|]); split_and!; try reflexivity; done.
Qed.

(** ** Meeting peers *)

Abbreviation subs w := (peers_subscribers_ (master_peer_ w)).
Abbreviation own_ip w := (ip (as_peer (master_peer_ w))).

(** A client that has been told to connect and nothing else. *)
Definition dialling (p : Peer B) : PeerClient B := set_strand (new_client p) [JConnect; JAwait ACancel].

(** The peers [ps] have been met between [w] and [w']: no client is lost, every
    peer whose address is not the own one is subscribed, and what is new among
    the subscribers are new clients that dial one of [ps]. *)
Record met (ps : list (Peer B)) (w w' : World B) : Prop := {
  met_clients : clients w ⊆ clients w';
  met_subs : subs w ⊆ subs w';
  met_own : own_ip w' = own_ip w;
  met_all p : p ∈ ps → IpToStr (ip p) ≠ IpToStr (own_ip w) → is_Some (subs w' !! ip p);
  met_new a i : subs w' !! a = Some i → subs w !! a = None →
    IpToStr a ≠ IpToStr (own_ip w) ∧ clients w !! i = None ∧
    ∃ p, p ∈ ps ∧ ip p = a ∧ clients w' !! i = Some (dialling p);
}.

Lemma met_nil w w' : clients w' = clients w → subs w' = subs w → own_ip w' = own_ip w → met [] w w'.
Proof.
  intros Ec Es Eo. split; [by rewrite Ec|by rewrite Es|done| |].
  - intros p Hp. by apply not_elem_of_nil in Hp.
  - intros a i Ha Hn. rewrite Es in Ha. congruence.
Qed.

Lemma met_app ps1 ps2 w w1 w2 : met ps1 w w1 → met ps2 w1 w2 → met (ps1 ++ ps2) w w2.
Proof.
  intros [C1 S1 O1 A1 N1] [C2 S2 O2 A2 N2]. split; [by etrans|by etrans|congruence| |].
  - intros p [Hp|Hp]%elem_of_app Hown; [|apply A2; by rewrite ?O1].
    destruct (A1 _ Hp Hown) as [i Hi]. exists i. by eapply lookup_weaken.
  - intros a i Ha Hn. destruct (subs w1 !! a) as [j|] eqn:E1.
    + pose proof (lookup_weaken _ _ _ _ E1 S2) as E2. assert (j = i) as -> by congruence.
      destruct (N1 _ _ E1 Hn) as (Hown & Hc & p & Hp & Hip & Hcl). split_and!; [done|done|].
      exists p. split_and!; [apply elem_of_app; by left|done|by eapply lookup_weaken].
    + destruct (N2 _ _ Ha E1) as (Hown & Hc & p & Hp & Hip & Hcl). split_and!; [congruence| |].
      * destruct (clients w !! i) eqn:E; [|done]. by rewrite (lookup_weaken _ _ _ _ E C1) in Hc.
      * exists p. split_and!; [apply elem_of_app; by right|done|done].
Qed.

Lemma meet_peer_met (p : PeerImage B) w : ∃ w', meet_peer p w = Ok (tt, w') ∧ met [BE_struct p] w w'.
Proof.
  set (i := fresh (dom (clients w))). set (q := BE_struct p).
  assert (clients w !! i = None) as Hi by (apply not_elem_of_dom, is_fresh).
  set (w1 := set_clients w (<[i := new_client q]> (clients w))).
  assert (meet_peer p w = Subscribe i None w1) as ->.
  { unfold meet_peer. erewrite st_bind_Ok by reflexivity. cbv beta zeta. fold i q.
    apply (st_bind_Ok (new_object i q) (fun _ => Subscribe i None) w tt w1). unfold new_object. by rewrite Hi. }
  unfold Subscribe. assert (get_client i w1 = Ok (new_client q, w1)) as Eg
    by (unfold get_client; cbn; by rewrite lookup_insert_eq).
  rewrite (st_bind_Ok _ _ _ _ _ Eg). erewrite st_bind_Ok by reflexivity. cbn [new_client slave_peer_].
  unfold subscribe_entry. change (master_peer_ w1) with (master_peer_ w).
  assert (clients w ⊆ clients w1) as Hc by (by apply insert_subseteq).
  destruct (decide (IpToStr (ip q) = IpToStr (own_ip w))) as [Eown|Hown].
  - exists w1. split; [by destruct w|]. split; [done..| |].
    + intros p' ->%list_elem_of_singleton. done.
    + intros a j Ha Hn. cbn in Ha. congruence.
  - destruct (subs w !! ip q) as [j|] eqn:Es.
    + exists w1. split; [by destruct w|]. split; [done..| |].
      * intros p' ->%list_elem_of_singleton _. by exists j.
      * intros a k Ha Hn. cbn in Ha. congruence.
    + set (m := set_subscribers (master_peer_ w) (<[ip q := i]> (subs w))).
      exists (set_clients (set_master w1 m) (<[i := dialling q]> (clients w))). split.
      * erewrite st_bind_Ok by reflexivity. cbn [when]. unfold World.Process, World.Connect, World.Await, World.Post.
        assert (∀ c f w', clients w' = <[i := c]> (clients w) →
          modify_client i f w' = Ok (tt, set_clients w' (<[i := f c]> (clients w)))) as Em.
        { intros c f w' E. unfold modify_client. rewrite E, lookup_insert_eq. cbn. by rewrite insert_insert_eq. }
        rewrite (st_bind_Ok _ _ _ _ _ (Em (new_client q) _ (set_master w1 m) eq_refl)).
        by erewrite Em by reflexivity.
      * split; cbn; [by apply insert_subseteq|by apply insert_subseteq|done| |].
        -- intros p' ->%list_elem_of_singleton _. by rewrite lookup_insert_eq.
        -- intros a k Ha Hn. destruct (decide (a = ip q)) as [->|Ha'].
           ++ rewrite lookup_insert_eq in Ha. injection Ha as <-. split_and!; [done|done|].
              exists q. split_and!; [by apply list_elem_of_singleton|done|by rewrite lookup_insert_eq].
           ++ rewrite lookup_insert_ne in Ha by done. congruence.
Qed.

Lemma for_each_met (ps : list (PeerImage B)) w :
  ∃ w', for_each ps meet_peer w = Ok (tt, w') ∧ met (map BE_struct ps) w w'.
Proof.
  revert w. induction ps as [|p ps IH]; intros w; cbn [for_each map]; [exists w; split; [done|by apply met_nil]|].
  destruct (meet_peer_met p w) as (w1 & E1 & M1). destruct (IH w1) as (w2 & E2 & M2).
  exists w2. rewrite (st_bind_Ok _ _ _ _ _ E1). split; [done|]. exact (met_app [_] _ _ _ _ M1 M2).
Qed.

Lemma ProcessMeetingPeers_met (t : Torrent B) :
  match data_from_tracker_ t with
  | Some resp => ∃ w', ProcessMeetingPeers t = Ok (set_world t w') ∧ met (map BE_struct (peers resp)) (world t) w'
  | None => ProcessMeetingPeers t = Ok t
  end.
Proof.
  unfold ProcessMeetingPeers, GetPeersSize, Torrent_response.
  destruct (data_from_tracker_ t) as [resp|]; [|done]. cbn [opt_or]. rewrite bind_Ok.
  destruct (peers resp) as [|p ps] eqn:Eps; cbn [length Nat.eqb].
  - exists (world t). split; [by destruct t|by apply met_nil].
  - set (m := set_peer (master_peer_ (world t)) (set_bitfield (as_peer (master_peer_ (world t)))
      (Resize (bitfield_ (as_peer (master_peer_ (world t)))) (piece_count_of (meta_pieces_ (world t)))))).
    destruct (for_each_met (p :: ps) (set_master (world t) m)) as (w' & E & M). exists w'. split.
    + unfold InitiateJob. erewrite st_bind_Ok by reflexivity. cbv beta. unfold modify_master.
      erewrite st_bind_Ok by reflexivity. cbv beta. fold m. by rewrite E.
    + by apply (met_app [] _ _ (set_master (world t) m)); [apply met_nil|].
Qed.

(** The peers of the tracker's answer are met: [ProcessMeetingPeers] always
    returns, every peer but the own address ends up subscribed, at most one
    client an address, the new ones dialling, and no client is lost. *)
Theorem meeting_peers (t : Torrent B) :
  match data_from_tracker_ t with
  | Some resp => ∃ w', ProcessMeetingPeers t = Ok (set_world t w') ∧ met (map BE_struct (peers resp)) (world t) w'
  | None => ProcessMeetingPeers t = Ok t
  end.
Proof. apply ProcessMeetingPeers_met. Qed.
End TorrentFacts.

(** ** A torrent and two trackers *)

(** An address is taken apart at its colons and slashes. *)
Fixpoint url_words (w : bytes) (l : bytes) : list bytes :=
  let ws := if bool_decide (w = []) then [] else [w] in
  match l with
  | [] => ws
  | b :: l => if bool_decide (b = ":"%byte ∨ b = "/"%byte) then ws ++ url_words [] l else url_words (w ++ [b]) l
  end.

#[local] Instance words_regex : Regex := {| split_url := url_words []; split_bencode := from_line_d true |}.
#[local] Existing Instances x86_64 toy_sha1 toy_sha1_laws.

Definition example_info : Node :=
  NDict [(str "length", NInt 5); (str "name", NStr (str "cow.txt")); (str "piece length", NInt 4);
         (str "pieces", NStr (replicate 40 "p"%byte))].
Definition example_meta : list (bytes * Node) :=
  [(str "announce-list", NArray [NArray [NStr (str "http://a.org/ann")]; NStr (str "http://b.org:80/ann")]);
   (str "info", example_info)].

Lemma torrent_constructed_witness :
  ∃ (t : Torrent (list bool)) pre post,
    Torrent_Torrent (Some (MakeSerialize (NDict example_meta) ++ [x0a])) (str "/home/cow.torrent") (str "/tmp") 6881 true
      (OptimalStrategy false) ∅ (replicate 12 "r"%byte) (str "10.0.0.1") (fun l => l) [] = Ok t ∧
    MakeSerialize (NDict example_meta) ++ [x0a] = pre ++ str "4:info" ++ MakeSerialize example_info ++ post ∧
    info_hash_ (world t) = GetSHA1 (MakeSerialize example_info) ∧ has_all_or_none true 2 (world t) ∧
    length (active_trackers_ t) = 2%nat.
Proof.
  assert (is_okb (fill_files (str "/tmp/cow") (NDict example_meta) ∅) = true) as Hok by (vm_compute; reflexivity).
  destruct (is_okb_Ok _ Hok) as [[files f1] Hfiles].
  destruct (torrent_constructed (B:=list bool) example_meta [x0a] (str "/home/cow.torrent") (str "/tmp") 6881 true
    (OptimalStrategy false) ∅ (replicate 12 "r"%byte) (str "10.0.0.1") (fun l => l) [] example_info (str "cow")
    files f1 (replicate 40 "p"%byte) 167772161)
    as (t & pre & post & ib & E & Etext & -> & Ehash & _ & Hall & _ & _ & Etr);
    [vm_compute; reflexivity..|exact Hfiles|vm_compute; reflexivity|vm_compute; reflexivity|].
  exists t, pre, post. split_and!; [exact E|exact Etext|exact Ehash|exact Hall|rewrite Etr; vm_compute; reflexivity].
Defined.

(** What happens to the requesters: the first cannot resolve its host, the second
    gets the document of HttpFacts.v. *)
Definition example_exchange : list HttpTracker.event :=
  [HttpTracker.EvRun; HttpTracker.EvRun; HttpTracker.EvConnected; HttpTracker.EvRun; HttpTracker.EvWritten;
   HttpTracker.EvRun; HttpTracker.EvRun; HttpTracker.EvUntil (str "HTTP/1.1 200 OK" ++ crlf);
   HttpTracker.EvRun; HttpTracker.EvRun; HttpTracker.EvUntil example_header; HttpTracker.EvRun; HttpTracker.EvRun;
   HttpTracker.EvEof (MakeSerialize (NDict example_document)) (fun _ => []) (fun _ => [])].
Definition example_failure : list HttpTracker.event :=
  [HttpTracker.EvRun; HttpTracker.EvRun; HttpTracker.EvConnectFailed false "Host not found"].

Definition exchange (es : list HttpTracker.event) (q : Requester (list bool)) : Requester (list bool) :=
  match q with
  | HttpRequester s => match events es s with Ok s' => HttpRequester s' | _ => q end
  | UdpRequester _ => q
  end.

Lemma events_steps es (s s' : httpRequester (list bool)) :
  events es s = Ok s' → rtc requester_step (HttpRequester s) (HttpRequester s').
Proof.
  revert s. induction es as [|e es IH]; intros s; cbn [events]; [by intros [= <-]|].
  destruct (HttpTracker.handle_event e s) as [m|] eqn:E; [|done].
  intros ([[] s1] & -> & Hs)%bind_Ok_inv. eapply rtc_l; [by econstructor|by apply IH].
Qed.

Definition example_network : Network (list bool) :=
  mkNetwork (fun k => exchange (if decide (k = 0%nat) then example_failure else example_exchange)) (fun _ _ => true).

Lemma example_network_ok : network_ok example_network.
Proof.
  intros k [s|s]; cbn; [|done]. destruct (events _ s) as [s'| | | |] eqn:E; [|done..]. by eapply events_steps.
Qed.

Definition example_torrent : Torrent (list bool) :=
  mkTorrent 0 0 0 [tracker_of (str "http://a.org/ann"); tracker_of (str "http://b.org:80/ann")] None 6881
    (NDict example_meta)
    (initial (replicate 40 "p"%byte) (replicate 20 "A"%byte) (Peer_generated (replicate 12 "r"%byte))
       (OptimalStrategy false) (mkTorrentFiles 4 1 ∅) ∅ []).

Definition example_requested : list (TrackerObject (list bool)) :=
  fst (request_all (tracker_view example_torrent) (default_query 0 0 0 Started) (fun _ => 0) 0
         (active_trackers_ example_torrent)).
Definition example_results : list (Response (list bool) + exn) :=
  match wait_all (map answer (network_runs example_network example_requested)) with Ok l => l | _ => [] end.

(** The second tracker comes to the front. *)
Lemma TryConnect_best_witness :
  ∃ t' resp, TryConnect (fun _ => true) example_network (fun _ => 0) Best Started example_torrent = Ok (true, t') ∧
    data_from_tracker_ t' = Some resp ∧ length (peers resp) = 2%nat ∧
    (fun o => Host_ (object_url o)) <$> head (active_trackers_ t') = Some (str "b.org").
Proof.
  pose proof (TryConnect_best (fun _ => true) example_network (fun _ => 0) Started example_torrent example_requested
    example_results) as Hbest.
  rewrite bool_decide_false in Hbest by (vm_compute; intros Hall; inversion Hall as [|? ? ? Hall2]; inversion Hall2; discriminate).
  destruct Hbest as (t' & resp & os' & E & Edata & _ & _ & _ & _); [discriminate|vm_compute; reflexivity..|].
  exists t', resp. split; [exact E|]. split; [exact Edata|].
  assert (TryConnect (fun _ => true) example_network (fun _ => 0) Best Started example_torrent = Ok (true, t')) as E' by exact E.
  vm_compute in E'. injection E' as <-. injection Edata as <-. split; vm_compute; reflexivity.
Defined.

Lemma any_choice_correct_witness :
  any_choice (fun _ _ => true) [Some (inr (BadConnect "a")); Some (inr (BadConnect "b"))] = UB (A:=Response (list bool)) ∧
  match any_choice (fun _ _ => true) [Some (inr (BadConnect "a")); Some (inl new_response)] with
  | Ok r => Some (inl (r : Response (list bool))) ∈ [Some (inr (BadConnect "a")); Some (inl new_response)]
  | UB => False
  | _ => False
  end.
Proof.
  split; [vm_compute; reflexivity|].
  pose proof (any_choice_correct (B:=list bool) (fun _ _ => true)
    [Some (inr (BadConnect "a")); Some (inl new_response)]) as Hany.
  apply Hany; [discriminate|]. intros k Hk. cbn in Hk. vm_compute. lia.
Defined.

Definition example_announced_torrent : Torrent (list bool) :=
  match TryConnect (fun _ => true) example_network (fun _ => 0) Best Started example_torrent with
  | Ok (_, t) => t
  | _ => example_torrent
  end.

Lemma announced_once_witness :
  CouldReconnect example_torrent = UB ∧ CouldReconnect example_announced_torrent = Ok false ∧
  ∀ t3, TryConnect (fun _ => true) example_network (fun _ => 0) Best Empty example_announced_torrent ≠ Ok (true, t3).
Proof.
  destruct (announced_once (fun _ => true) example_network (fun _ => 0) Best Started example_torrent
    example_announced_torrent example_network (fun _ => 0) Best Empty example_announced_torrent) as (H1 & H2 & H3).
  - exact example_network_ok.
  - vm_compute. reflexivity.
  - apply Forall_Forall2_diag, list.Forall_true. intros o. reflexivity.
  - split; [apply H1; repeat constructor|]. split; [exact H2|exact H3].
Defined.
