(* ===== verification/Main.v ===== *)
(** * The program (src/main_bittorrent.cpp)

    [main] and the threads it starts: the threads that run the service (the
    listener, sockets and timers), the file workers, and [main_thread], which
    meets the peers of the trackers' answer again and again.  A [Session] is
    the running program: the listener of Listener.v, the torrent of Torrent.v
    with its world, and where [main] and [main_thread] are.  Console output and
    time measurements are left out. *)

From Stdlib Require Import ZArith Lia Strings.Byte Strings.String.
From coqutil Require Import Byte.
From S2P Require Import Prelude Bytes Streams Worker Bencode Text Piece Files.
From S2P Require Import Bitset Bitfield Message Peer Tracker HttpTracker UdpTracker World PeerClient.
From S2P Require Import Listener Torrent.

(** ** The command line *)

Record Options := mkOptions {
  torrent_dir : bytes;
  output_dir : bytes;
  is_completed : bool;
}.

(** [None]: the usage is printed and the program ends with 1. *)
Definition read_options (current_path : bytes) (argv : list bytes) : option Options :=
  if (length argv <? 2)%nat then None
  else
    torrent_dir ← argv !! 1%nat;
    let output_dir := default current_path (argv !! 2%nat) in
    let is_completed := match argv !! 3%nat with
                        | Some a => bool_decide (a = str "completed")
                        | None => false
                        end in
    Some (mkOptions torrent_dir output_dir is_completed).

Section Main.
Context {B : Type} `{DynamicBitset B} `{Host} `{Sha1} `{Regex}.

(** What the program finds on the machine: the contents of a file that can be
    opened, the answers of [bind], the random numbers, what is thrown as a
    [boost::exception] too. *)
Record Machine := mkMachine {
  current_path : bytes;
  open_file : bytes → option bytes;
  file_system : fsys;
  bind_answer : Z → error_code;
  local_ip : bytes;
  id_bytes : bytes;
  shuffle : list (TrackerObject B) → list (TrackerObject B);
  numbers : list Z;
  boost_exception : exn → bool;
}.

(** ** The running program *)

(** The next statement of [main]: constructing the torrent, [AddTorrent], the
    [try] block, waiting for a key, joining [main_thread]. *)
Inductive main_pc :=
  | MTorrent (o : Options)
  | MAdd
  | MConnect
  | MKey
  | MJoin
  | MExit (code : Z).

(** [main_thread]: not started, at the test of its loop, asleep, ended. *)
Inductive thread_pc := TNone | TLoop | TSleep | TDone.

Record Session := mkSession {
  listener_ : Listener;
  torrent : option (Torrent B);
  main : main_pc;
  main_thread : thread_pc;
  working : bool;
  service_runs : bool;
}.

Definition set_listener_ (p : Session) x :=
  mkSession x (torrent p) (main p) (main_thread p) (working p) (service_runs p).
Definition set_torrent (p : Session) x :=
  mkSession (listener_ p) x (main p) (main_thread p) (working p) (service_runs p).
Definition set_main (p : Session) x :=
  mkSession (listener_ p) (torrent p) x (main_thread p) (working p) (service_runs p).
Definition set_thread (p : Session) x :=
  mkSession (listener_ p) (torrent p) (main p) x (working p) (service_runs p).

(** The listener and the world behind it, which has the number 0. *)
Definition net_of (p : Session) : Net B :=
  mkNet (listener_ p) match torrent p with Some t => {[0%nat := world t]} | None => ∅ end.

Definition with_net (p : Session) (n : Net B) : Session :=
  set_torrent (set_listener_ p (listener n))
    (match torrent p, worlds n !! 0%nat with
     | Some t, Some w => Some (set_world t w)
     | t, _ => t
     end).

(** Up to the statement that starts the service: [inl] is the exit code. *)
Definition start_main (m : Machine) (argv : list bytes) : outcome (Z + Session) :=
  match read_options (current_path m) argv with
  | None => Ok (inl 1)
  | Some o =>
      l ← new_listener (bind_answer m);
      Ok (inr (mkSession l None (MTorrent o) TNone true true))
  end.

(** [service_exit] and the end of [main]: the service is stopped first. *)
Definition exit_with (p : Session) (code : Z) : Session :=
  mkSession (listener_ p) (torrent p) (MExit code) (main_thread p) (working p) false.

(** ** The statements of [main] *)

Definition construct_torrent (m : Machine) (o : Options) (p : Session) : outcome Session :=
  t ← Torrent_Torrent (open_file m (torrent_dir o)) (torrent_dir o) (output_dir o) (Listener.port_ (listener_ p))
        (is_completed o) (OptimalStrategy false) (file_system m) (id_bytes m) (local_ip m) (shuffle m) (numbers m);
  Ok (set_main (set_torrent p (Some t)) MAdd).

Definition add_torrent (p : Session) : outcome Session :=
  n ← AddTorrent (net_of p) 0%nat; Ok (set_main (with_net p n) MConnect).

(** The [try] block: [GetPieceCount] for the message, then the announcement.
    Whatever is thrown is a [std::exception] and ends the program. *)
Definition connect_torrent (m : Machine) (n : Network B) (rs : nat → Z) (p : Session) : outcome Session :=
  t ← opt_ub (torrent p);
  match (_ ← meta_pieces (meta_dict t); TryConnect (boost_exception m) n rs Best Empty t) with
  | Ok (true, t) => Ok (set_thread (set_main (set_torrent p (Some t)) MKey) TLoop)
  | Ok (false, t) => Ok (exit_with (set_torrent p (Some t)) 0)
  | Throw _ => Ok (exit_with p 1)
  | UB => UB
  | Abort_assert => Abort_assert
  | NoFuel => NoFuel
  end.

(** The key: [main_thread] is told to end and the service is stopped. *)
Definition key_pressed (p : Session) : Session :=
  mkSession (listener_ p) (torrent p) MJoin (main_thread p) false false.

(** ** [main_thread] *)

Definition thread_loop (p : Session) : outcome Session :=
  if working p then
    t ← opt_ub (torrent p);
    t ← ProcessMeetingPeers t;
    Ok (set_thread (set_torrent p (Some t)) TSleep)
  else Ok (set_thread p TDone).

(** After [wait_for]; nothing catches what is thrown here. *)
Definition thread_wakes (m : Machine) (n : Network B) (rs : nat → Z) (p : Session) : outcome Session :=
  t ← opt_ub (torrent p);
  could ← CouldReconnect t;
  if (could : bool) then
    '(_, t) ← TryConnect (boost_exception m) n rs Best Empty t;
    Ok (set_thread (set_torrent p (Some t)) TLoop)
  else Ok (set_thread p TLoop).

(** ** Events *)

(** [n], [rs]: the network and the transaction numbers of an announcement.
    [PTracker k e]: an event of the requester of the [k]-th tracker. *)
Inductive session_event :=
  | PMain (n : Network B) (rs : nat → Z)
  | PKey
  | PThread (n : Network B) (rs : nat → Z)
  | PNet (e : net_event B)
  | PTracker (k : nat) (e : tracker_event).

(** Whose event it is: torrents are added by [main], peers dialled by
    [main_thread], and without the service only the file workers run. *)
Definition from_service (on : bool) (e : net_event B) : bool :=
  match e with
  | NAddTorrent _ | NWorld _ (EvDial _ _) => false
  | NWorld _ EvWorker => true
  | _ => on
  end.

(** [None]: the event cannot happen now. *)
Definition handle_session (m : Machine) (e : session_event) (p : Session) : option (outcome Session) :=
  match e with
  | PMain n rs =>
      match main p with
      | MTorrent o => Some (construct_torrent m o p)
      | MAdd => Some (add_torrent p)
      | MConnect => Some (connect_torrent m n rs p)
      | MJoin => match main_thread p with TDone => Some (Ok (set_main p (MExit 0))) | _ => None end
      | MKey | MExit _ => None
      end
  | PKey => match main p with MKey => Some (Ok (key_pressed p)) | _ => None end
  | PThread n rs =>
      match main_thread p with
      | TLoop => Some (thread_loop p)
      | TSleep => Some (thread_wakes m n rs p)
      | TNone | TDone => None
      end
  | PNet e =>
      if from_service (service_runs p) e then
        r ← handle_net e (net_of p); Some (n ← r; Ok (with_net p n))
      else None
  | PTracker k e =>
      if service_runs p then
        t ← torrent p;
        o ← active_trackers_ t !! k;
        r ← handle_tracker e o;
        Some (o ← r; Ok (set_torrent p (Some (set_trackers t (<[k := o]> (active_trackers_ t))))))
      else None
  end.

(** The requesters run while a thread waits for their answers. *)
Definition event_ok (e : session_event) : Prop :=
  match e with
  | PMain n _ | PThread n _ => ∀ k q, rtc requester_step q (afterwards n k q)
  | _ => True
  end.

Inductive session_step (m : Machine) : Session → Session → Prop :=
  | step_session e p p' : event_ok e → handle_session m e p = Some (Ok p') → session_step m p p'.

Definition runs_to (m : Machine) : Session → Session → Prop := rtc (session_step m).
End Main.

Arguments Machine B : clear implicits.
Arguments Session B : clear implicits.
Arguments session_event B : clear implicits.
