(* ===== verification/MainFacts.v ===== *)
(** * What the running program does

    The invariant of the program from the command line on: its world is that
    of a torrent whose peer protocol has only taken its own steps, its listener
    knows the torrent, its trackers have been asked once.  Then a whole
    download, from the announcement to the files. *)

From Stdlib Require Import ZArith Lia Strings.Byte Strings.String.
From coqutil Require Import Byte.
From stdpp Require Import relations.
From S2P Require Import Prelude Bytes Streams Worker Bencode Text Piece Files FilesFacts.
From S2P Require Import Bitset Bitfield Message Peer Tracker HttpTracker UdpTracker World PeerClient PeerFacts.
From S2P Require Import Exchange Download Invariant Handlers Safety Listener ListenerFacts Torrent TorrentFacts Main.

Section Worlds.
Context {B : Type} `{DynamicBitsetLaws B} `{Host} `{S1 : Sha1} `{!Sha1Laws S1} `{Regex}.
Implicit Types (w : World B) (t : Torrent B).

Lemma reachable_metadata w0 w : reachable w0 w → metadata w = metadata w0.
Proof.
  induction 1 as [|w w' _ IH Hst]; [done|]. destruct Hst as [w e w' E]. by rewrite (event_metadata e w w' E).
Qed.

Definition small w : Prop := Z.of_nat (total_of w) < 2 ^ 24.

Lemma small_metadata w w' : metadata w' = metadata w → small w' → small w.
Proof. unfold small, total_of. by intros [= <- _ _]. Qed.

(** Changing the own bits to as many others, the own address, or whether the
    file workers run. *)
Lemma wf_own w w' :
  meta_pieces_ w' = meta_pieces_ w → clients w' = clients w →
  queue_ (a_worker_ (file_manager_ w')) = queue_ (a_worker_ (file_manager_ w)) →
  active_requests_ (file_manager_ w') = active_requests_ (file_manager_ w) →
  peers_subscribers_ (master_peer_ w') = peers_subscribers_ (master_peer_ w) →
  handshake_message_ (master_peer_ w') = handshake_message_ (master_peer_ w) →
  Size (bitfield_ (as_peer (master_peer_ w'))) = total_of w → wf w → wf w'.
Proof.
  intros Em Ec Eq Ef Es Eh Hsz [Ht _ Hh Hc Hs Hq Hk].
  assert (∀ j c, subscribed w j c → subscribed w' j c) as Hsub by (unfold subscribed, subs; by rewrite Es).
  split.
  - unfold total_of. by rewrite Em.
  - unfold total_of in *. by rewrite Em.
  - by rewrite Eh.
  - rewrite Ec. intros j c Hj. destruct (Hc j c Hj) as [Hok Hor]. unfold total_of. rewrite Em.
    split; [done|]. destruct Hor; auto.
  - unfold subs. rewrite Es, Ec. done.
  - rewrite Eq. intros n Hn. specialize (Hq n Hn). unfold job_engaged, engaged in *.
    destruct (n_func n); [|done]. destruct Hq as (p & Hp & c & Hj & Hsc). exists p. split; [done|].
    exists c. rewrite Ec. auto.
  - unfold keys_null. by rewrite Ef.
Qed.

(** ** The constructor *)

Lemma mark_completed_wf w w' : mark_completed w = Ok w' → wf w → wf w' ∧ metadata w' = metadata w.
Proof.
  unfold mark_completed. intros (bits & E & [= <-])%bind_Ok_inv Hw. split; [|done].
  destruct (set_all_spec (Size (bitfield_ (as_peer (master_peer_ w)))) 0 (bitfield_ (as_peer (master_peer_ w))))
    as (b & E' & Hs & _); [done|]. rewrite E in E'. injection E' as <-.
  apply (wf_own w); try done. cbn. rewrite Hs. apply Hw.
Qed.

Lemma constructed_unasked file path download lport completed strategy f rs ip0 shuffle random t :
  (∀ l, shuffle l ≡ₚ l) →
  Torrent_Torrent file path download lport completed strategy f rs ip0 shuffle random = Ok t →
  Forall unasked (active_trackers_ t).
Proof.
  intros Hsh. unfold Torrent_Torrent. intros (text & _ & E)%bind_Ok_inv. apply bind_Ok_inv in E as ([meta ih] & _ & E).
  apply bind_Ok_inv in E as (dir & _ & E). apply bind_Ok_inv in E as ([files f'] & _ & E).
  apply bind_Ok_inv in E as (pieces & _ & E). apply bind_Ok_inv in E as (my_ip & _ & E). cbv zeta in E.
  apply bind_Ok_inv in E as (w & _ & E). apply bind_Ok_inv in E as ([b t1] & Ef & [= <-]).
  eapply (fill_trackers_unasked shuffle b _ t1 Hsh); [|exact Ef]. constructor.
Qed.

Lemma fill_trackers_world shuffle (b : bool) t t' : fill_trackers shuffle t = Ok (b, t') → world t' = world t.
Proof. unfold fill_trackers. destruct (collect_trackers _) as [[os|]|e| | |]; by intros [= _ <-]. Qed.

Lemma constructed_wf file path download lport completed strategy f rs ip0 shuffle random t :
  Torrent_Torrent file path download lport completed strategy f rs ip0 shuffle random = Ok t →
  small (world t) → wf (world t).
Proof.
  unfold Torrent_Torrent. intros (text & _ & E)%bind_Ok_inv. apply bind_Ok_inv in E as ([meta ih] & Em & E).
  apply bind_Ok_inv in E as (dir & _ & E). apply bind_Ok_inv in E as ([files f'] & _ & E).
  apply bind_Ok_inv in E as (pieces & _ & E). apply bind_Ok_inv in E as (my_ip & _ & E). cbv zeta in E.
  apply bind_Ok_inv in E as (w & Ew & E). apply bind_Ok_inv in E as ([b t1] & Ef & [= <-]).
  rewrite (fill_trackers_world _ _ _ _ Ef). cbn [world]. intros Hsmall.
  set (w0 := initial pieces ih (Peer_generated rs) strategy files f' random) in *.
  set (w1 := set_master w0 _) in *.
  assert (length ih = 20%nat) as Hih.
  { unfold read_meta in Em. apply bind_Ok_inv in Em as (doc & _ & Em). destruct (ref_key _ _) as [dict inf].
    injection Em as _ <-. apply length_GetSHA1. }
  assert (small w0 → wf w1) as Hw1.
  { intros Hs. apply (wf_own w0); try done; [cbn; unfold Resize, Size; apply db_size_resize|]. by apply initial_wf. }
  destruct completed; [|injection Ew as <-; by apply Hw1].
  assert (metadata w = metadata w1) as Hm.
  { unfold mark_completed in Ew. apply bind_Ok_inv in Ew as (bits & _ & Ew). by injection Ew as <-. }
  apply (mark_completed_wf w1 w Ew), Hw1. exact (small_metadata w1 w Hm Hsmall).
Qed.

(** ** Meeting peers *)

Lemma meet_peer_step (p : PeerImage B) w w' : meet_peer p w = Ok (tt, w') → step w w'.
Proof.
  set (i := (base.fresh (dom (clients w)) : nat)). intros E. apply (step_event w (EvDial i (BE_struct p)) w').
  cbn [handle_event]. assert (clients w !! i = None) as -> by (apply not_elem_of_dom, is_fresh). f_equal.
  unfold meet_peer in E. by erewrite st_bind_Ok in E by reflexivity.
Qed.

Lemma meet_peers_steps (ps : list (PeerImage B)) w w' : for_each ps meet_peer w = Ok (tt, w') → reachable w w'.
Proof.
  assert (∀ w0, reachable w0 w → for_each ps meet_peer w = Ok (tt, w') → reachable w0 w') as Hgen; [|apply Hgen; constructor].
  revert w. induction ps as [|p ps IH]; intros w w0 Hr; cbn [for_each]; [by intros [= <-]|].
  intros ([] & w1 & E1 & E2)%st_bind_Ok_inv. apply (IH w1 w0); [|done]. eapply reachable_step; [done|].
  by eapply meet_peer_step.
Qed.

(** The own bits are given the torrent's size before the peers are met. *)
Definition resized w : World B :=
  let m := master_peer_ w in
  set_master w (set_peer m (set_bitfield (as_peer m) (Resize (bitfield_ (as_peer m)) (piece_count_of (meta_pieces_ w))))).

Lemma ProcessMeetingPeers_steps t t' :
  ProcessMeetingPeers t = Ok t' →
  t' = t ∨ ∃ w', t' = set_world t w' ∧ reachable (resized (world t)) w'.
Proof.
  unfold ProcessMeetingPeers. destruct (_ =? _)%nat; [intros [= <-]; by left|].
  intros (resp & _ & E)%bind_Ok_inv. apply bind_Ok_inv in E as ([[] w'] & E & [= <-]). right. exists w'.
  split; [done|]. unfold InitiateJob in E. erewrite st_bind_Ok in E by reflexivity. cbv beta in E.
  unfold modify_master in E. erewrite st_bind_Ok in E by reflexivity. by eapply meet_peers_steps.
Qed.

Lemma resized_wf w : wf w → wf (resized w).
Proof. apply wf_own; try done. cbn. unfold Resize, Size. apply db_size_resize. Qed.

Lemma ProcessMeetingPeers_keeps t t' :
  ProcessMeetingPeers t = Ok t' →
  metadata (world t') = metadata (world t) ∧ active_trackers_ t' = active_trackers_ t ∧
  (wf (world t) → wf (world t')).
Proof.
  intros [->|(w' & -> & Hr)]%ProcessMeetingPeers_steps; [done|]. split; [by apply reachable_metadata in Hr|].
  split; [done|]. intros Hw. eapply reachable_wf; [|exact Hr]. by apply resized_wf.
Qed.
End Worlds.

(** ** The invariant of the program *)

Section Session.
Context {B : Type} `{DynamicBitsetLaws B} `{Host} `{S1 : Sha1} `{!Sha1Laws S1} `{Regex}.
Implicit Types (p : Session B) (t : Torrent B) (n : Net B) (m : Machine B).

(** The listener knows no torrent but ours; it accepts, and participants wait
    for their handshakes. *)
Record listens p : Prop := {
  ls_accepting : accepting (listener_ p) = true;
  ls_torrents h k : torrents_ (listener_ p) !! h = Some k →
    k = 0%nat ∧ ∃ t, torrent p = Some t ∧ info_hash_ (world t) = h;
  ls_participants k q : participants (listener_ p) !! k = Some q →
    reading q = true ∧ Listener.timeout_ q = negb (closed q);
}.

Lemma world_of_net p k w : worlds (net_of p) !! k = Some w → k = 0%nat ∧ ∃ t, torrent p = Some t ∧ world t = w.
Proof.
  cbn. destruct (torrent p) as [t|]; [|by rewrite lookup_empty].
  intros [<- <-]%lookup_singleton_Some. split; [done|]. by exists t.
Qed.

Lemma net_of_world p t : torrent p = Some t → worlds (net_of p) !! 0%nat = Some (world t).
Proof. cbn. intros ->. by rewrite lookup_singleton_eq. Qed.

Lemma listens_net p : listens p → net_inv (worlds (net_of p)) (net_of p).
Proof.
  intros [Ha Ht Hp]. split; [done| | |done].
  - intros h k (-> & t & Et & Eh)%Ht. exists (world t). split; [by apply net_of_world|done].
  - intros k w Hw. exists w. split; [done|constructor].
Qed.

Lemma net_listens p n : net_inv (worlds (net_of p)) n → listens (with_net p n).
Proof.
  intros [Ha Ht Hw Hp]. split; [done| |done]. cbn. intros h k (w & Ek & Eh)%Ht.
  destruct (Hw k w Ek) as (w0 & (-> & t & Et & <-)%world_of_net & _). split; [done|].
  exists (set_world t w). by rewrite Et, Ek.
Qed.

(** The torrent afterwards is the torrent before, its world some steps later. *)
Lemma with_net_torrent p n t' :
  net_inv (worlds (net_of p)) n → torrent (with_net p n) = Some t' →
  ∃ t, torrent p = Some t ∧ reachable (world t) (world t') ∧ active_trackers_ t' = active_trackers_ t.
Proof.
  intros [_ _ Hw _]. cbn. destruct (torrent p) as [t|] eqn:Et; [|done].
  destruct (worlds n !! 0%nat) as [w|] eqn:Ew; intros [= <-]; exists t; (split; [done|]); [|by split; [constructor|]].
  split; [|done]. destruct (Hw _ _ Ew) as (w0 & (_ & t0 & Et0 & <-)%world_of_net & Hr). cbn. congruence.
Qed.

Lemma with_net_same p n t :
  net_inv (worlds (net_of p)) n → torrent p = Some t → ∃ t', torrent (with_net p n) = Some t' ∧
    active_trackers_ t' = active_trackers_ t.
Proof. intros _ Et. cbn. rewrite Et. destruct (worlds n !! 0%nat); eexists; by split. Qed.

(** The hash under which the listener knows a torrent only changes with it. *)
Lemma listens_torrent p t t' :
  listens p → torrent p = Some t → info_hash_ (world t') = info_hash_ (world t) → listens (set_torrent p (Some t')).
Proof.
  intros [Ha Ht Hp] Et Eh. split; [done| |done]. cbn. intros h k (-> & t0 & Et0 & <-)%Ht. split; [done|].
  exists t'. split; [done|]. congruence.
Qed.

(** An event of the network never takes a torrent from the listener. *)
Lemma handle_net_torrents e n n' :
  handle_net e n = Some (Ok n') → torrents_ (listener n) ⊆ torrents_ (listener n').
Proof.
  destruct e as [t|ec k|k i rs ep data|k|t e]; cbn [handle_net]; intros E.
  - destruct (worlds n !! t) as [w|] eqn:Et; [|discriminate E]. injection E as E. unfold AddTorrent in E.
    rewrite Et in E. cbn [opt_ub mbind outcome_bind] in E.
    destruct (torrents_ (listener n) !! info_hash_ w) eqn:Eh; injection E as <-; [done|]. by apply insert_subseteq.
  - destruct (_ && _); [|discriminate E]. injection E as <-. unfold on_accept. by destruct ec.
  - destruct (participants (listener n) !! k) as [q|]; [|discriminate E]. cbn [mbind option_bind] in E.
    destruct (_ && _ && _); [|discriminate E]. injection E as E. unfold on_handshake_read in E.
    destruct data as [v|]; [|by injection E as <-]. apply bind_Ok_inv in E as (x & _ & E). cbn in E.
    destruct (torrents_ (listener n) !! _) as [t|]; [|by injection E as <-].
    apply bind_Ok_inv in E as (w & _ & E). apply bind_Ok_inv in E as (a & _ & E). apply bind_Ok_inv in E as (q' & _ & E).
    apply bind_Ok_inv in E as ([[] w'] & _ & E). by injection E as <-.
  - destruct (participants (listener n) !! k) as [q|]; [|discriminate E]. cbn [mbind option_bind] in E.
    destruct (Listener.timeout_ q); [|discriminate E]. by injection E as <-.
  - destruct (worlds n !! t) as [w|]; [|discriminate E]. cbn [mbind option_bind] in E.
    assert (∀ e0, (r ← handle_event e0 w; Some ('(_, w) ← r; Ok (set_worlds n (<[t:=w]> (worlds n))))) = Some (Ok n') →
      listener n' = listener n) as Hev.
    { intros e0 E0. destruct (handle_event e0 w) as [[[[] w']| | | |]|]; try discriminate E0. cbn in E0. by injection E0 as <-. }
    destruct e; try discriminate E; by rewrite (Hev _ E).
Qed.

Definition early (pc : main_pc) : Prop := match pc with MTorrent _ | MAdd | MConnect => True | _ => False end.

Record session_inv p : Prop := {
  si_listens : listens p;
  si_world t : torrent p = Some t → small (world t) → wf (world t);
  si_fresh o : main p = MTorrent o → torrent p = None;
  si_early : early (main p) → main_thread p = TNone;
  si_unasked t : early (main p) → torrent p = Some t → Forall unasked (active_trackers_ t);
  si_added : main p = MConnect → torrents_ (listener_ p) ≠ ∅;
  si_started : main_thread p ≠ TNone →
    torrents_ (listener_ p) ≠ ∅ ∧
    ∃ t, torrent p = Some t ∧ Forall taken (active_trackers_ t) ∧ Forall tracker_ok (active_trackers_ t);
}.

(** What [std::shuffle] is known to do. *)
Definition shuffles m : Prop := ∀ l, shuffle m l ≡ₚ l.

Lemma start_inv m argv p : start_main m argv = Ok (inr p) → session_inv p.
Proof.
  unfold start_main, new_listener. destruct (read_options _ _) as [o|]; [|done].
  intros (l & (port & _ & [= <-])%bind_Ok_inv & [= <-])%bind_Ok_inv. by split.
Qed.

(** The parts [main_thread] and the listener may change. *)
Lemma construct_inv m o p p' :
  shuffles m → session_inv p → main p = MTorrent o → construct_torrent m o p = Ok p' → session_inv p'.
Proof.
  intros Hsh [[Ha Ht Hp] Hw Hf He Hua _ Hs] Em. unfold construct_torrent. intros (t & Et & [= <-])%bind_Ok_inv.
  pose proof (Hf o Em) as Hnone. pose proof (He ltac:(by rewrite Em)) as Htn. split; cbn.
  - split; [done| |done]. cbn. intros h k (_ & t0 & Et0 & _)%Ht. congruence.
  - intros t' [= <-]. by eapply constructed_wf.
  - done.
  - done.
  - intros t' _ [= <-]. by eapply constructed_unasked.
  - done.
  - intros Hn. by destruct Hn.
Qed.

Lemma add_inv p p' : session_inv p → main p = MAdd → add_torrent p = Ok p' → session_inv p'.
Proof.
  intros [Hl Hw Hf He Hua _ Hs] Em. unfold add_torrent. intros (n & En & [= <-])%bind_Ok_inv.
  pose proof (He ltac:(by rewrite Em)) as Htn.
  assert (∃ t, torrent p = Some t) as [t Et].
  { unfold AddTorrent in En. apply bind_Ok_inv in En as (w & Ew & _).
    destruct (worlds (net_of p) !! 0%nat) eqn:E0; [|done]. apply world_of_net in E0 as (_ & t & Et & _). by exists t. }
  assert (handle_net (NAddTorrent 0) (net_of p) = Some (Ok n)) as Eh.
  { cbn [handle_net]. rewrite (net_of_world p t Et). by rewrite En. }
  assert (net_inv (worlds (net_of p)) n) as Hn.
  { eapply net_inv_step; [by apply listens_net|]. by econstructor. }
  split; cbn [main set_main with_net set_torrent set_listener_ listener_ torrent main_thread].
  - pose proof (net_listens p n Hn) as [Ha Ht Hp]. by split.
  - intros t' Et'. destruct (with_net_torrent p n t' Hn Et') as (t0 & Et0 & Hr & _). intros Hsm.
    eapply reachable_wf; [|exact Hr]. apply Hw; [done|]. eapply small_metadata; [by apply reachable_metadata|done].
  - done.
  - done.
  - intros t' _ Et'. destruct (with_net_torrent p n t' Hn Et') as (t0 & Et0 & _ & ->). apply Hua; [by rewrite Em|done].
  - intros _. unfold AddTorrent in En. rewrite (net_of_world p t Et) in En. cbn [opt_ub mbind outcome_bind] in En.
    destruct (torrents_ (listener (net_of p)) !! info_hash_ (world t)) eqn:E1; injection En as <-; cbn.
    + cbn in E1. intros E2. by rewrite E2, lookup_empty in E1.
    + apply insert_non_empty.
  - intros Hne. by destruct Hne.
Qed.

Lemma connect_inv m (n : Network B) rs p p' :
  session_inv p → main p = MConnect → network_ok n → connect_torrent m n rs p = Ok p' → session_inv p'.
Proof.
  intros [Hl Hw Hf He Hua Had Hs] Em Hn. unfold connect_torrent. intros (t & Et & E)%bind_Ok_inv.
  assert (torrent p = Some t) as Et'
    by (destruct (torrent p); [by injection Et as ->|discriminate Et]). clear Et.
  pose proof (Had Em) as Hadded.
  assert (∀ code t', info_hash_ (world t') = info_hash_ (world t) → world t' = world t →
    session_inv (exit_with (set_torrent p (Some t')) code)) as Hexit.
  { intros code t' Eh Ew. pose proof (He ltac:(by rewrite Em)) as Htn. split; cbn; try done.
    - destruct (listens_torrent p t t' Hl Et' Eh). by split.
    - intros t0 [= <-]. rewrite Ew. by apply Hw. }
  destruct (meta_pieces (meta_dict t)) as [ps|e| | |]; cbn in E; try done.
  2:{ injection E as <-. assert (exit_with p 1 = exit_with (set_torrent p (Some t)) 1) as ->
        by (unfold exit_with; cbn; by rewrite Et'). by apply Hexit. }
  destruct (TryConnect (boost_exception m) n rs Best Empty t) as [[[] t1]|e| | |] eqn:Ec; try done; injection E as <-.
  - pose proof (TryConnect_taken _ _ _ _ _ _ _ Hn Ec) as Htaken.
    pose proof (TryConnect_ok _ _ _ _ _ _ _ Hn (Hua t ltac:(by rewrite Em) Et') Ec) as Hgood.
    apply TryConnect_true in Ec as (os & os' & resp & _ & _ & _ & Et1).
    assert (info_hash_ (world t1) = info_hash_ (world t)) as Eh by by subst t1.
    split; cbn; try done.
    + destruct (listens_torrent p t t1 Hl Et' Eh). by split.
    + intros t0 [= <-] Hsm. assert (small (world t)) as Hsm0 by by subst t1. specialize (Hw t Et' Hsm0).
      subst t1. apply (wf_own (world t)); try done. apply Hw.
    + intros _. split; [done|]. by exists t1.
  - apply TryConnect_false in Ec as [os ->]. by apply Hexit.
  - assert (exit_with p 1 = exit_with (set_torrent p (Some t)) 1) as ->
      by (unfold exit_with; cbn; by rewrite Et'). by apply Hexit.
Qed.

Lemma loop_inv p p' : session_inv p → main_thread p ≠ TNone → thread_loop p = Ok p' → session_inv p'.
Proof.
  intros [Hl Hw Hf He Hua Had Hs] Hn. unfold thread_loop. destruct (Hs Hn) as (Hto & t & Et & Htk & Hok).
  assert (¬ early (main p)) as Hlate by (intros Hear; by apply He in Hear).
  destruct (working p).
  - rewrite Et. cbn [opt_ub mbind outcome_bind]. intros (t' & Emeet & [= <-])%bind_Ok_inv.
    destruct (ProcessMeetingPeers_keeps t t' Emeet) as (Hm & Htr & Hwf). split; cbn; try done.
    + assert (info_hash_ (world t') = info_hash_ (world t)) as Eh by (unfold metadata in Hm; by injection Hm).
      destruct (listens_torrent p t t' Hl Et Eh). by split.
    + intros t0 [= <-] Hsm. apply Hwf, Hw; [done|]. by eapply small_metadata.
    + intros o Eo. destruct Hlate. by rewrite Eo.
    + intros _. split; [done|]. exists t'. by rewrite Htr.
  - intros [= <-]. split; cbn; try done; [by destruct Hl|]. intros _. split; [done|]. by exists t.
Qed.

Lemma wakes_loops m (n : Network B) rs p :
  session_inv p → main_thread p ≠ TNone → thread_wakes m n rs p = Ok (set_thread p TLoop).
Proof.
  intros Hp Hn. destruct (si_started _ Hp Hn) as (_ & t & Et & Htk & _). unfold thread_wakes. rewrite Et.
  cbn [opt_ub mbind outcome_bind]. unfold CouldReconnect. by rewrite could_reconnect_taken.
Qed.

Lemma thread_inv p pc : session_inv p → main_thread p ≠ TNone → session_inv (set_thread p pc).
Proof.
  intros [Hl Hw Hf He Hua Had Hs] Hn. destruct (Hs Hn) as (Hto & t & Et & Htk & Hok).
  split; cbn; try done; [by destruct Hl| |by intros _; split; [|exists t]].
  intros Hear. by apply He in Hear.
Qed.

Lemma main_inv p pc : session_inv p → ¬ early pc → session_inv (set_main p pc).
Proof.
  intros [Hl Hw Hf He Hua Had Hs] Hpc. split; cbn; try done; [by destruct Hl|..].
  - intros o ->. by destruct Hpc.
  - intros ->. by destruct Hpc.
Qed.

Lemma key_inv p : session_inv p → session_inv (key_pressed p).
Proof. intros [Hl Hw Hf He Hua Had Hs]. split; cbn; try done. by destruct Hl. Qed.

Lemma net_event_inv p e n : session_inv p → handle_net e (net_of p) = Some (Ok n) → session_inv (with_net p n).
Proof.
  intros [Hl Hw Hf He Hua Had Hs] E.
  assert (net_inv (worlds (net_of p)) n) as Hn.
  { eapply net_inv_step; [by apply listens_net|]. by econstructor. }
  pose proof (handle_net_torrents _ _ _ E) as Hsub. cbn [listener net_of] in Hsub.
  assert (torrents_ (listener_ p) ≠ ∅ → torrents_ (listener n) ≠ ∅) as Hne.
  { intros Hne Hemp. apply Hne, map_eq. intros h. rewrite lookup_empty. destruct (_ !! h) eqn:Eh; [|done].
    pose proof (lookup_weaken _ _ _ _ Eh Hsub) as Ex. by rewrite Hemp, lookup_empty in Ex. }
  split.
  - by apply net_listens.
  - intros t' Et'. destruct (with_net_torrent p n t' Hn Et') as (t0 & Et0 & Hr & _). intros Hsm.
    eapply reachable_wf; [|exact Hr]. apply Hw; [done|]. eapply small_metadata; [by apply reachable_metadata|done].
  - intros o Eo. cbn. by rewrite (Hf o Eo).
  - exact He.
  - intros t' Hear Et'. destruct (with_net_torrent p n t' Hn Et') as (t0 & Et0 & _ & ->). by apply Hua.
  - intros Em. cbn. by apply Hne, Had.
  - intros Htn. destruct (Hs Htn) as (Hto & t & Et & Htk & Hok). split; [cbn; by apply Hne|].
    destruct (with_net_same p n t Hn Et) as (t' & Et' & Htr). exists t'. by rewrite Htr.
Qed.

(** A tracker that was asked. *)
Lemma asked p k o t e r :
  session_inv p → torrent p = Some t → active_trackers_ t !! k = Some o → main_thread p ≠ TNone →
  handle_tracker e o = Some r → ¬ bad_answer_of e o → ∃ o', r = Ok o' ∧ tracker_ok o'.
Proof.
  intros Hp Et Ho Hn E Hb. destruct (si_started _ Hp Hn) as (_ & t0 & Et0 & _ & Hok). rewrite Et in Et0. injection Et0 as <-.
  eapply tracker_event_ok; [|exact Hb|exact E]. rewrite list.Forall_lookup in Hok. by eapply Hok.
Qed.

Lemma tracker_inv p t k o o' e :
  session_inv p → torrent p = Some t → active_trackers_ t !! k = Some o → handle_tracker e o = Some (Ok o') →
  session_inv (set_torrent p (Some (set_trackers t (<[k := o']> (active_trackers_ t))))).
Proof.
  intros [Hl Hw Hf He Hua Had Hs] Et Ho E. split; cbn; try done.
  - by apply (listens_torrent p t).
  - intros t0 [= <-]. exact (Hw t Et).
  - intros o0 Eo. by rewrite (Hf o0 Eo) in Et.
  - intros t0 Hear [= <-]. pose proof (Hua t Hear Et) as Hall. rewrite list.Forall_lookup in Hall.
    by rewrite (unasked_quiet e o (Hall k o Ho)) in E.
  - intros Hn. destruct (Hs Hn) as (Hto & t0 & Et0 & Htk & Hok). split; [done|]. rewrite Et in Et0. injection Et0 as <-.
    eexists. split; [done|]. cbn. rewrite list.Forall_lookup in Htk. pose proof (Htk k o Ho) as Htko. rewrite <- list.Forall_lookup in Htk.
    rewrite list.Forall_lookup in Hok. pose proof (Hok k o Ho) as Hoko. rewrite <- list.Forall_lookup in Hok.
    split; apply list.Forall_insert; try done; [by eapply tracker_step_taken; [econstructor|]|].
    by eapply tracker_step_ok; [econstructor|].
Qed.

Lemma session_step_inv m p p' : shuffles m → session_inv p → session_step m p p' → session_inv p'.
Proof.
  intros Hsh Hp Hst. destruct Hst as [e p p' Hok E].
  destruct e as [n rs| |n rs|e|k e]; cbn [handle_session] in E.
  - destruct (main p) as [o| | | | |code] eqn:Em; try discriminate E.
    + injection E as E. by eapply construct_inv.
    + injection E as E. by eapply add_inv.
    + injection E as E. by eapply connect_inv.
    + destruct (main_thread p); try discriminate E. injection E as <-. apply main_inv; [done|]. by intros [].
  - destruct (main p); try discriminate E. injection E as <-. by apply key_inv.
  - destruct (main_thread p) eqn:Et; try discriminate E; injection E as E.
    + eapply loop_inv; [exact Hp|by rewrite Et|exact E].
    + rewrite wakes_loops in E by (done || by rewrite Et). injection E as <-. apply thread_inv; [exact Hp|by rewrite Et].
  - destruct (from_service _ _); [|discriminate E].
    destruct (handle_net e (net_of p)) as [r|] eqn:En; [|discriminate E]. cbn in E. injection E as E.
    apply bind_Ok_inv in E as (n & -> & [= <-]). by eapply net_event_inv.
  - destruct (service_runs p); [|discriminate E]. destruct (torrent p) as [t|] eqn:Et; [|discriminate E].
    cbn [mbind option_bind] in E. destruct (active_trackers_ t !! k) as [o|] eqn:Ho; [|discriminate E].
    cbn [mbind option_bind] in E. destruct (handle_tracker e o) as [r|] eqn:Eh; [|discriminate E].
    cbn [mbind option_bind] in E. injection E as E. apply bind_Ok_inv in E as (o' & -> & [= <-]).
    by eapply tracker_inv.
Qed.

Lemma runs_inv m p p' : shuffles m → runs_to m p p' → session_inv p → session_inv p'.
Proof. intros Hsh. induction 1 as [p|p p1 p' Hst _ IH]; [done|]. intros Hp. apply IH. by eapply session_step_inv. Qed.

(** ** Every event of a started program *)

(** What the program does not handle: a block its piece has no place for, a
    remote address that cannot be had or read, what may go wrong in a job of the
    file workers, and an answer of a tracker that cannot be taken apart. *)
Definition unhandled (e : session_event B) t : Prop :=
  match e with
  | PNet (NWorld _ e) => e = EvWorker ∨ unexpected_block e (world t)
  | PNet (NHandshake _ _ rs ep (Some _)) => ¬ ∃ q, (ep ≫= peer_of (B:=B) rs) = Ok q
  | PTracker k e => ∃ o, active_trackers_ t !! k = Some o ∧ bad_answer_of e o
  | _ => False
  end.

(** The program goes on, or waits for a random number. *)
Definition goes_on {A} (r : outcome A) : Prop := (∃ a, r = Ok a) ∨ r = NoFuel.

Lemma handshake_goes_on k i rs ep data p r :
  listens p → torrents_ (listener_ p) ≠ ∅ → (∀ v, data = Some v → ∃ q, (ep ≫= peer_of (B:=B) rs) = Ok q) →
  handle_net (NHandshake k i rs ep data) (net_of p) = Some r → goes_on r.
Proof.
  intros Hl Hne Hep E. left. cbn [handle_net] in E.
  destruct (participants (listener (net_of p)) !! k) as [q|]; [|discriminate E]. cbn [mbind option_bind] in E.
  destruct (_ && _ && _) eqn:Eb; [|discriminate E]. injection E as <-. apply andb_true_iff in Eb as [_ Hfr].
  unfold on_handshake_read. destruct data as [v|]; [|by eexists]. destruct (Hep v eq_refl) as (q' & Eq).
  apply bind_Ok_inv in Eq as (a & Ea & Eq). cbn [listener net_of].
  destruct (map_to_list (torrents_ (listener_ p))) as [|x l] eqn:Em.
  { apply map_to_list_empty_iff in Em. by rewrite Em in Hne. }
  cbn [head opt_ub mbind outcome_bind]. destruct (torrents_ (listener_ p) !! take 20 (drop 28 v)) as [j|] eqn:Ej; [|by eexists].
  destruct (ls_torrents _ Hl _ _ Ej) as (-> & t & Et & _). pose proof (net_of_world p t Et) as Ew.
  change (worlds (set_listener (net_of p) _)) with (worlds (net_of p)). rewrite Ew. cbn [opt_ub mbind outcome_bind].
  rewrite Ea. cbn [mbind outcome_bind]. rewrite Eq. cbn [mbind outcome_bind].
  destruct (accept_total i q' v (world t)) as [w' E']; [by eapply clients_fresh_in|]. rewrite E'. by eexists.
Qed.

Lemma net_goes_on e p t r :
  session_inv p → torrents_ (listener_ p) ≠ ∅ → torrent p = Some t → small (world t) → ¬ unhandled (PNet e) t →
  from_service (service_runs p) e = true → handle_net e (net_of p) = Some r → goes_on r.
Proof.
  intros Hp Hne Et Hsm Hun Hfrom E. pose proof (si_listens _ Hp) as Hl. pose proof (si_world _ Hp t Et Hsm) as Hw.
  destruct e as [k|ec k|k i rs ep data|k|k e]; [discriminate Hfrom|..].
  - cbn [handle_net] in E. destruct (_ && _); [|discriminate E]. injection E as <-. left. by eexists.
  - apply (handshake_goes_on k i rs ep data p r); try done. intros v ->. cbn in Hun.
    destruct (ep ≫= peer_of (B:=B) rs) as [q|x| | |] eqn:Eq; [by exists q|destruct Hun; intros [q Hq]; discriminate Hq..].
  - cbn [handle_net] in E. destruct (participants _ !! k); [|discriminate E]. cbn [mbind option_bind] in E.
    destruct (Listener.timeout_ _); [|discriminate E]. injection E as <-. left. by eexists.
  - cbn [handle_net] in E. destruct (worlds (net_of p) !! k) as [w|] eqn:Ek; [|discriminate E].
    apply world_of_net in Ek as (-> & t0 & Et0 & <-). rewrite Et in Et0. injection Et0 as <-. cbn [mbind option_bind] in E.
    cbn [unhandled] in Hun.
    assert (∀ r0, handle_event e (world t) = Some r0 → r = (r0 ≫= fun '(_, w) => Ok (set_worlds (net_of p) (<[0%nat:=w]> (worlds (net_of p))))) →
      goes_on r) as Hgo.
    { intros r0 Er0 ->. pose proof (event_good e (world t) r0 Hw Er0) as Hg.
      destruct r0 as [[[] w']| | | |]; try (by destruct Hg; auto); [left; by eexists|by right]. }
    destruct e; try discriminate Hfrom; try discriminate E;
      (match type of E with context [handle_event ?e0 (world t)] => destruct (handle_event e0 (world t)) as [r0|] eqn:Er end;
       [|discriminate E]; cbn in E; injection E as E; by eapply Hgo).
Qed.

Lemma started_goes_on m e p t r :
  session_inv p → main_thread p ≠ TNone → torrent p = Some t → small (world t) → ¬ unhandled e t →
  handle_session m e p = Some r → goes_on r.
Proof.
  intros Hp Hn Et Hsm Hun E. destruct (si_started _ Hp Hn) as (Hto & _).
  assert (¬ early (main p)) as Hlate by (intros Hear; by apply (si_early _ Hp) in Hear).
  destruct e as [n rs| |n rs|e|k e]; cbn [handle_session] in E.
  - destruct (main p); try discriminate E; try (by destruct Hlate). destruct (main_thread p); try discriminate E.
    injection E as <-. left. by eexists.
  - destruct (main p); try discriminate E. injection E as <-. left. by eexists.
  - destruct (main_thread p) eqn:Ept; try discriminate E; injection E as <-.
    + unfold thread_loop. destruct (working p); [|left; by eexists]. rewrite Et. cbn [opt_ub mbind outcome_bind].
      pose proof (ProcessMeetingPeers_met t) as Hm. destruct (data_from_tracker_ t) as [resp|].
      * destruct Hm as (w' & -> & _). left. by eexists.
      * rewrite Hm. left. by eexists.
    + rewrite wakes_loops by (done || by rewrite Ept). left. by eexists.
  - destruct (from_service _ _) eqn:Ef; [|discriminate E].
    destruct (handle_net e (net_of p)) as [r0|] eqn:En; [|discriminate E]. cbn in E. injection E as <-.
    destruct (net_goes_on e p t r0 Hp Hto Et Hsm Hun Ef En) as [[n ->]| ->]; [left; by eexists|by right].
  - destruct (service_runs p); [|discriminate E]. rewrite Et in E.
    cbn [mbind option_bind] in E. destruct (active_trackers_ t !! k) as [o|] eqn:Ho; [|discriminate E].
    cbn [mbind option_bind] in E. destruct (handle_tracker e o) as [r0|] eqn:Eh; [|discriminate E].
    cbn [mbind option_bind] in E. injection E as <-. left.
    destruct (asked p k o t e r0 Hp Et Ho Hn Eh) as (o' & -> & _); [|by eexists].
    intros Hb. destruct Hun. by exists o.
Qed.
End Session.

(** ** Properties *)

(** C8: for a torrent of less than [2^24] pieces, once [main_thread] has been
    started, whatever the key, the network, the trackers and the timers do and in
    whatever order, the program handles every event, those of the trackers'
    requesters and the posted [Disconnect] included, to its end, or waits for the
    random generator.  The exceptions are those of [unhandled]: a block the active
    piece has no place for, a remote address that cannot be had or read, the jobs
    of the file workers, and an answer of a tracker that cannot be taken apart
    (a status line without a number, a document that cannot be read, a datagram of
    [bad_reply]).  The listener knows the torrent, the connections keep their
    invariant, and the program never asks its trackers again. *)
Theorem program_safe {B : Type} `{DynamicBitsetLaws B} `{Host} `{S1 : Sha1} `{!Sha1Laws S1} `{Regex}
    (m : Machine B) argv p0 p t :
  shuffles m → start_main m argv = Ok (inr p0) → runs_to m p0 p → main_thread p ≠ TNone → torrent p = Some t → small (world t) →
  (∀ e r, handle_session m e p = Some r → ¬ unhandled e t → goes_on r) ∧
  torrents_ (listener_ p) ≠ ∅ ∧
  (∀ h k, torrents_ (listener_ p) !! h = Some k → h = info_hash_ (world t)) ∧
  (∀ i c, clients (world t) !! i = Some c → (tokens c ≤ 1)%nat) ∧
  CouldReconnect t = Ok false.
Proof.
  intros Hsh Hstart Hruns Hn Et Hsm. pose proof (runs_inv m p0 p Hsh Hruns (start_inv m argv p0 Hstart)) as Hp.
  destruct (si_started _ Hp Hn) as (Hto & t0 & Et0 & Htk & _). rewrite Et in Et0. injection Et0 as <-.
  split_and!; [|done| | |by apply could_reconnect_taken].
  - intros e r E Hun. by eapply started_goes_on.
  - intros h k (_ & t0 & Et0 & <-)%(ls_torrents _ (si_listens _ Hp)). congruence.
  - intros i c Hi. by apply (wf_clients _ (si_world _ Hp t Et Hsm) i c Hi).
Qed.

(** ** A program that runs *)

Module Started.
(** A digest of bytes below 128: [isalnum] is undefined for the others where
    characters are signed. *)
#[local] Instance plain_sha1 : Sha1 := {|
  sha1_state := bytes;
  sha1_init := [];
  sha1_process_bytes := fun h a => h ++ a;
  sha1_process_block := fun h a => h ++ a;
  sha1_get_digest := fun h => map (fun v => Z.land v 0x7f7f7f7f) (sha1_get_digest (Sha1:=toy_sha1) h);
|}.
#[local] Instance plain_sha1_laws : Sha1Laws plain_sha1.
Proof. split; [done|..]; intros; cbn; [apply app_assoc|apply app_nil_r|done]. Qed.
#[local] Existing Instances words_regex x86_64.

(** Port 6881 is taken; the torrent file is that of TorrentFacts.v. *)
Definition machine : Machine (list bool) :=
  mkMachine (str "/tmp")
    (fun path => if decide (path = str "/home/cow.torrent") then Some (MakeSerialize (NDict example_meta) ++ [x0a]) else None)
    ∅ (fun port => if port =? 6881 then address_in_use else no_error) (str "10.0.0.1") (replicate 12 "r"%byte) (fun l => l)
    [] (fun _ => true).

Definition argv : list bytes := [str "cpptorrent"; str "/home/cow.torrent"].

Fixpoint play_session (es : list (session_event (list bool))) (p : Session (list bool)) : option (Session (list bool)) :=
  match es with
  | [] => Some p
  | e :: es => match handle_session machine e p with Some (Ok p) => play_session es p | _ => None end
  end.

Lemma play_session_runs es p p' : Forall event_ok es → play_session es p = Some p' → runs_to machine p p'.
Proof.
  intros Hok. revert p. induction Hok as [|e es He _ IH]; intros p; cbn [play_session]; [intros [= <-]; apply rtc_refl|].
  destruct (handle_session machine e p) as [[p1| | | |]|] eqn:E; try done. intros E'.
  eapply rtc_l; [by eapply step_session|by apply IH].
Qed.

(** A connection comes in, the trackers answer, and the peers are met: one of them
    has our own address, the other one is dialled.  The first tracker is stopped,
    and its timer expires. *)
Definition course : list (session_event (list bool)) :=
  [PMain example_network (fun _ => 0); PMain example_network (fun _ => 0); PNet (NAccept false 0);
   PMain example_network (fun _ => 0); PThread example_network (fun _ => 0); PNet (NWorld 0 (EvRun 1));
   PTracker 0 TStop; PTracker 0 (THttp HttpTracker.EvReconnect)].

Definition beginning : Session (list bool) :=
  mkSession (mkListener ∅ 6882 true ∅) None (MTorrent (mkOptions (str "/home/cow.torrent") (str "/tmp") false)) TNone true true.
Definition running : Session (list bool) := default beginning (play_session course beginning).
Definition running_torrent : Torrent (list bool) := default example_torrent (torrent running).

Lemma running_plays : play_session course beginning = Some running.
Proof. vm_compute. reflexivity. Qed.

Lemma running_has : torrent running = Some running_torrent.
Proof. vm_compute. reflexivity. Qed.

Lemma program_safe_witness :
  start_main machine argv = Ok (inr beginning) ∧ length (map_to_list (clients (world running_torrent))) = 2%nat ∧
  (∀ e r, handle_session machine e running = Some r → ¬ unhandled e running_torrent → goes_on r) ∧
  torrents_ (listener_ running) ≠ ∅ ∧
  (∀ h k, torrents_ (listener_ running) !! h = Some k → h = info_hash_ (world running_torrent)) ∧
  (∀ i c, clients (world running_torrent) !! i = Some c → (tokens c ≤ 1)%nat) ∧
  CouldReconnect running_torrent = Ok false.
Proof.
  assert (start_main machine argv = Ok (inr beginning)) as Hstart by (vm_compute; reflexivity).
  split; [exact Hstart|]. split; [vm_compute; reflexivity|].
  apply (program_safe machine argv beginning running running_torrent).
  - intros l. reflexivity.
  - exact Hstart.
  - apply (play_session_runs course); [|exact running_plays].
    repeat constructor; intros k q; apply example_network_ok.
  - vm_compute. discriminate.
  - exact running_has.
  - vm_compute. reflexivity.
Defined.
End Started.
