(* ===== verification/MainDownload.v ===== *)
(** * From the announcement to the files

    A run of the whole program: the trackers are asked, one of them names a
    peer, [main_thread] dials it, and over the connection every piece the peer
    has is brought to the disk.  The connection is that of Link.v, the run of
    the two sides that of Completion.v. *)

From Stdlib Require Import ZArith Lia Strings.Byte Strings.String.
From coqutil Require Import Byte.
From stdpp Require Import relations.
From S2P Require Import Prelude Bytes Streams Worker Bencode Text Piece Files FilesFacts.
From S2P Require Import Bitset Bitfield Message Peer Tracker HttpTracker UdpTracker World PeerClient PeerFacts.
From S2P Require Import Exchange Download Invariant Handlers Safety Delivery Transfer Link Greeting Completion.
From S2P Require Import TrackerFacts HttpFacts Listener ListenerFacts Torrent TorrentFacts Main MainFacts.

Section Running.
Context {B : Type} `{DynamicBitsetLaws B} `{Host} `{S1 : Sha1} `{!Sha1Laws S1} `{Regex}.
Implicit Types (p : Session B) (t : Torrent B) (m : Machine B) (w v : World B).

(** The steps of our side of a connection are steps of the program. *)
Lemma link_runs m i j st st' :
  rtc (link_step i j) st st' →
  ∀ p t, torrent p = Some t → world t = left_world st → service_runs p = true →
  ∃ p' t', runs_to m p p' ∧ torrent p' = Some t' ∧ world t' = left_world st' ∧ service_runs p' = true.
Proof.
  induction 1 as [st|st1 st2 st3 Hst _ IH]; intros p t Et Ew Hon; [exists p, t; by split_and!; [apply rtc_refl|..]|].
  destruct Hst as [e a a' b n k E Ho Hp|e a b b' n k E Hp]; cbn in Ew, IH; [|by eapply IH].
  set (p1 := with_net p (set_worlds (net_of p) (<[0%nat := a']> (worlds (net_of p))))).
  assert (torrent p1 = Some (set_world t a')) as Et1 by (cbn; by rewrite Et, lookup_insert_eq).
  destruct (IH p1 (set_world t a') Et1 eq_refl Hon) as (p' & t' & Hr & Hrest). exists p', t'. split; [|done].
  eapply rtc_l; [|exact Hr]. apply (step_session m (PNet (NWorld 0 e))); [done|]. cbn [handle_session].
  assert (from_service (service_runs p) (NWorld 0 e) = true) as -> by (rewrite Hon; by destruct e).
  assert (handle_net (NWorld 0 e) (net_of p) = Some (Ok (set_worlds (net_of p) (<[0%nat := a']> (worlds (net_of p))))))
    as ->; [|done].
  cbn [handle_net]. rewrite (net_of_world p t Et), Ew. cbn [mbind option_bind].
  destruct e; try discriminate Ho; by rewrite E.
Qed.

(** [file_manager_->Process()] changes nothing when the workers run already. *)
Lemma Process_idle t : idle (world t) → Torrent.Process t = t.
Proof.
  intros [_ Hs _ _ _]. unfold Torrent.Process. destruct t as [u d l ts dt po me w]. cbn in *. f_equal.
  destruct w as [ps ih mp cl st rd [fl ar wk] dk rnd]. cbn in *. unfold set_manager, set_worker. cbn. f_equal. f_equal.
  unfold Start. destruct wk. cbn in *. by subst.
Qed.

(** The dialled peer of an answer that names one. *)
Lemma meets_one t resp (pi : PeerImage B) :
  data_from_tracker_ t = Some resp → peers resp = [pi] → welcomes (world t) (ip (BE_struct pi)) →
  ∃ i, clients (world t) !! i = None ∧
    ProcessMeetingPeers t
      = Ok (set_world t (put i (dialled (BE_struct pi)) (with_sub i (ip (BE_struct pi)) (resized (world t))))).
Proof.
  intros Ed Ep Hw. set (w := world t). set (i := (base.fresh (dom (clients w)) : nat)). exists i.
  assert (clients w !! i = None) as Hi by (apply not_elem_of_dom, is_fresh). split; [done|].
  unfold ProcessMeetingPeers, GetPeersSize, Torrent_response. rewrite Ed. cbn [opt_or mbind outcome_bind].
  rewrite Ep. cbn [length Nat.eqb]. fold w.
  assert (InitiateJob [pi] w
    = Ok (tt, put i (dialled (BE_struct pi)) (with_sub i (ip (BE_struct pi)) (resized w)))) as ->; [|done].
  unfold InitiateJob. erewrite st_bind_Ok by reflexivity. cbv beta. unfold modify_master.
  erewrite st_bind_Ok by reflexivity. cbv beta. fold (resized w). cbn [for_each].
  erewrite st_bind_Ok; [reflexivity|]. unfold meet_peer. erewrite st_bind_Ok by reflexivity. cbv beta zeta.
  change (clients (resized w)) with (clients w). fold i. rewrite subscribe_new by done. cbn [World.Process].
  unfold World.Connect, World.Await. erewrite st_bind_Ok by apply Post_put. rewrite Post_put. by rewrite posted_posted.
Qed.

Lemma resized_bits w n :
  Size (my_bits w) = piece_count_of (meta_pieces_ w) → (n < piece_count_of (meta_pieces_ w))%nat →
  mine (resized w) n = mine w n.
Proof.
  intros Hs Hn. unfold mine. cbn. unfold Resize, Size, my_bits in *. rewrite db_test_resize by done.
  by rewrite decide_True by lia.
Qed.

Lemma may_meet_resized l pl meta Ds w v (q : Peer B) i a :
  may_meet l pl meta Ds w v q → may_meet l pl meta Ds (with_sub i a (resized w)) v q.
Proof.
  intros [Hw Hv Hs Hwel Hip Hun Ht Hmore Hfree Hr1 Hr2].
  pose proof Hw as [Hm Hb Hst Hd Hid Hz].
  assert (∀ n, (n < piece_count_of meta)%nat → mine (with_sub i a (resized w)) n = mine w n) as Hmine.
  { intros n Hn. apply resized_bits; by rewrite Hm. }
  split; try done.
  - split; try done.
    + cbn. unfold Resize, Size. rewrite db_size_resize. by rewrite Hm.
    + destruct Hst as [? ? ?]. by split.
    + intros n Hn. rewrite Hmine by done. by apply Hd.
    + destruct Hid. by split.
  - intros n Hn. rewrite Hmine by done. by apply Hmore.
Qed.
End Running.

(** ** Property *)

(** C2: the whole way of a download: [main] asks the trackers, the answer names a
    peer of the torrent we can connect to, [main_thread] dials it, and from
    there on there is a run of the program and the peer over their connection
    after which every piece the peer has is done and can be read from the files;
    the run of the connection on our side is a run of the program.  The peer and
    we may meet as in [download_completes]. *)
Theorem program_downloads {B : Type} `{DynamicBitsetLaws B} `{Host} `{S1 : Sha1} `{!Sha1Laws S1} `{Regex}
    l pl meta (Ds : nat → bytes) (m : Machine B) n rs p t t1 resp pi j q v :
  torrent_data l pl meta Ds →
  main p = MConnect → main_thread p = TNone → service_runs p = true → working p = true → torrent p = Some t →
  meta_pieces (meta_dict t) = Ok meta →
  network_ok n → TryConnect (boost_exception m) n rs Best Empty t = Ok (true, t1) →
  data_from_tracker_ t1 = Some resp → peers resp = [pi] →
  may_meet l pl meta Ds (world t) v q → subscribers_exist (world t) → clients v !! j = None →
  welcomes (world t) (ip (BE_struct pi)) →
  ∃ i p1 t2 st p2 t3,
    runs_to m p p1 ∧ torrent p1 = Some t2 ∧ clients (world t) !! i = None ∧
    clients (world t2) !! i = Some (dialled (BE_struct pi)) ∧
    rtc (link_step i j) (mkLink (world t2) v 0 0) st ∧
    runs_to m p1 p2 ∧ torrent p2 = Some t3 ∧ world t3 = left_world st ∧
    ∀ k, (k < piece_count_of meta)%nat → mine v k = true → mine (world t3) k = true ∧ readable (world t3) k (Ds k).
Proof.
  intros Ht Hmain Hthread Hon Hwork Et Hmeta Hn Hconn Hdata Hpeers Hmeet Hsub Hj Hwel.
  pose proof (TryConnect_true _ _ _ _ _ _ _ Hconn) as (os & os' & r & _ & _ & _ & Et1).
  assert (world t1 = world t) as Ew.
  { rewrite Et1, Process_idle; [done|]. exact (mb_idle _ _ _ _ _ (mm_left _ _ _ _ _ _ _ Hmeet)). }
  destruct (meets_one t1 resp pi Hdata Hpeers) as (i & Hi & Emeet); [by rewrite Ew|]. rewrite Ew in Hi, Emeet.
  set (a := ip (BE_struct pi)) in *. set (w1 := with_sub i a (resized (world t))) in *.
  set (t2 := set_world t1 (put i (dialled (BE_struct pi)) w1)) in *.
  set (pa := set_thread (set_main (set_torrent p (Some t1)) MKey) TLoop).
  set (pb := set_thread (set_torrent pa (Some t2)) TSleep).
  assert (runs_to m p pb) as Hrun.
  { eapply rtc_l; [|eapply rtc_once].
    - apply (step_session m (PMain n rs) p pa); [exact Hn|]. cbn [handle_session]. rewrite Hmain. f_equal.
      unfold connect_torrent. rewrite Et. cbn [opt_ub mbind outcome_bind]. rewrite Hmeta. cbn [mbind outcome_bind].
      by rewrite Hconn.
    - apply (step_session m (PThread n rs) pa pb); [exact Hn|]. cbn [handle_session]. f_equal.
      unfold thread_loop. change (working pa) with (working p). rewrite Hwork. cbn [torrent pa set_thread set_main set_torrent].
      cbn [opt_ub mbind outcome_bind]. by rewrite Emeet. }
  destruct (completes_dialled l pl meta Ds Ht i j (BE_struct pi) q w1 v) as (st & Hlink & Hend); [by apply may_meet_resized|done| |].
  { intros b k. unfold put. cbn. intros [[<- <-]|[_ Hk]]%lookup_insert_Some; [rewrite lookup_insert_eq; by eexists|].
    destruct (decide (k = i)) as [->|Hne]; [rewrite lookup_insert_eq; by eexists|].
    rewrite lookup_insert_ne by done. by eapply Hsub. }
  destruct (link_runs m i j _ st Hlink pb t2) as (p2 & t3 & Hrun2 & Et3 & Ew3 & _); [done|done|exact Hon|].
  exists i, pb, t2, st, p2, t3. split_and!; try done.
  - apply clients_put.
  - intros k Hk Hv. rewrite Ew3. by apply Hend.
Qed.

(** ** The whole way, once *)

Module WholeWay.
#[local] Existing Instances words_regex x86_64 toy_sha1 toy_sha1_laws.
Import WholeTorrent.

(** The tracker's answer names one peer, 10.0.0.2:6881. *)
Definition document : list (bytes * Node) :=
  [(str "interval", NInt 1800); (str "peers", NStr (peer_bytes (0x0a000002, 6881)))].
Definition answers : list HttpTracker.event :=
  [HttpTracker.EvRun; HttpTracker.EvRun; HttpTracker.EvConnected; HttpTracker.EvRun; HttpTracker.EvWritten;
   HttpTracker.EvRun; HttpTracker.EvRun; HttpTracker.EvUntil (str "HTTP/1.1 200 OK" ++ crlf);
   HttpTracker.EvRun; HttpTracker.EvRun; HttpTracker.EvUntil example_header; HttpTracker.EvRun; HttpTracker.EvRun;
   HttpTracker.EvEof (MakeSerialize (NDict document)) (fun _ => []) (fun _ => [])].
Definition network : Network (list bool) := mkNetwork (fun _ => exchange answers) (fun _ _ => true).

Lemma network_is_ok : network_ok network.
Proof.
  intros k [s|s]; cbn [network afterwards exchange]; [|apply rtc_refl]. destruct (events answers s) as [s'| | | |] eqn:E; [by eapply events_steps|done..].
Qed.

(** [main] is about to ask the tracker. *)
Definition our_torrent : Torrent (list bool) :=
  mkTorrent 0 0 0 [tracker_of (str "http://a.org/ann")] None 6881
    (NDict [(str "info", NDict [(str "pieces", NStr digests)])]) our_world.
Definition machine : Machine (list bool) :=
  mkMachine (str "/tmp") (fun _ => None) ∅ (fun _ => no_error) (str "10.0.0.1") [] (fun l => l) [] (fun _ => true).
Definition session : Session (list bool) :=
  mkSession (mkListener ∅ 6881 true ∅) (Some our_torrent) MConnect TNone true true.

Definition one_peer (r : outcome (bool * Torrent (list bool))) : bool :=
  match r with
  | Ok (true, t) =>
      match data_from_tracker_ t with
      | Some resp => match peers resp with [pi] => ip (BE_struct pi) =? 0x0a000002 | _ => false end
      | None => false
      end
  | _ => false
  end.

Lemma one_peer_inv r :
  one_peer r = true → ∃ t resp pi, r = Ok (true, t) ∧ data_from_tracker_ t = Some resp ∧ peers resp = [pi] ∧
                                   ip (BE_struct pi) = 0x0a000002.
Proof.
  unfold one_peer. destruct r as [[[] t]| | | |]; try done. destruct (data_from_tracker_ t) as [resp|] eqn:Ed; [|done].
  destruct (peers resp) as [|pi [|]] eqn:Ep; try done. intros E%Z.eqb_eq. by exists t, resp, pi.
Qed.

Lemma tracker_names_peer : one_peer (TryConnect (fun _ => true) network (fun _ => 0) Best Empty our_torrent) = true.
Proof. vm_compute. reflexivity. Qed.

Lemma program_downloads_witness :
  ∃ i p1 t2 st p2 t3,
    runs_to machine session p1 ∧ Main.torrent p1 = Some t2 ∧ clients our_world !! i = None ∧
    (∃ q, clients (world t2) !! i = Some (dialled q)) ∧
    rtc (link_step i 0) (mkLink (world t2) their_world 0 0) st ∧
    runs_to machine p1 p2 ∧ Main.torrent p2 = Some t3 ∧ world t3 = left_world st ∧
    ∀ k, (k < piece_count_of digests)%nat → mine their_world k = true → mine (world t3) k = true ∧ readable (world t3) k (Ds k).
Proof.
  destruct (one_peer_inv _ tracker_names_peer) as (t1 & resp & pi & E1 & Ed & Ep & Hip).
  assert (welcomes (world our_torrent) (ip (BE_struct pi))) as Hwel.
  { rewrite Hip. split; [reflexivity|]. vm_compute. congruence. }
  assert (subscribers_exist (world our_torrent)) as Hsub by (intros a k Hk; discriminate Hk).
  assert (meta_pieces (meta_dict our_torrent) = Ok digests) as Hmeta by reflexivity.
  pose proof (program_downloads l 20000 digests Ds machine network (fun _ => 0) session our_torrent t1 resp pi 0 us
    their_world WholeTorrent.torrent eq_refl eq_refl eq_refl eq_refl eq_refl Hmeta network_is_ok E1 Ed Ep they_meet
    Hsub eq_refl Hwel) as (i & p1 & t2 & st & p2 & t3 & Hr1 & Et2 & Hi & Hc & Hl & Hr2 & Et3 & Ew & Hend).
  exists i, p1, t2, st, p2, t3. split; [exact Hr1|]. split; [exact Et2|]. split; [exact Hi|].
  split; [exists (BE_struct pi); exact Hc|]. split; [exact Hl|]. split; [exact Hr2|]. split; [exact Et3|].
  split; [exact Ew|exact Hend].
Defined.
End WholeWay.
