(* ===== verification/Dht.v ===== *)
(** * The routing table of the DHT (src/DHT/Kbucket.cpp, RouteTable.cpp, Node.cpp)

    Buckets of shared pointers to node clients, kept in a vector.  A pointer is
    the number of an object; [raznica] and the status are fields of the object
    and shared by whoever holds the pointer.  [Ping] returns at once
    (NodeClient.cpp line 32), so refreshing a bucket only drops dead nodes. *)

From Stdlib Require Import ZArith Lia Strings.Byte Strings.String.
From coqutil Require Import Byte.
From S2P Require Import Prelude Bytes Text Bitset Bitfield.

Definition KBuckets_deep : nat := 8.
Definition max_nearest_nodes : nat := 35.
Definition key_size : nat := 100.

Section Dht.
Context {B : Type} `{DynamicBitset B}.

(** [dht::Node] with the status of its [NodeClient]. *)
Record Node := mkNode {
  node_id : B;
  raznica : Z;
  status_enabled : bool;
}.

Definition set_raznica (n : Node) (r : Z) : Node := mkNode (node_id n) r (status_enabled n).
Definition IsAlive (n : Node) : bool := status_enabled n.

(** The constructor: [key] is the string of random characters. *)
Definition Node_make `{Host} `{Sha1} (key : bytes) : outcome Node :=
  let sha1 := GetSHA1 key in
  id ← Bitfield_data sha1 (length sha1);
  _ ← assert_ (bool_decide (Size id = SHA1_SIZE_BITS));
  Ok (mkNode id 0 true).

Record RouteTable := mkTable {
  master_ : Node;
  objects : gmap nat Node;
  buckets_ : list (list nat);
}.

Definition set_objects (t : RouteTable) o : RouteTable := mkTable (master_ t) o (buckets_ t).
Definition set_buckets (t : RouteTable) b : RouteTable := mkTable (master_ t) (objects t) b.

(** The constructor reserves room for as many buckets as an id has bits. *)
Definition new_table (master : Node) : RouteTable := mkTable master ∅ [].
Definition capacity : nat := SHA1_SIZE_BITS.

Abbreviation M := (ST RouteTable).

Definition node (j : nat) : M Node := fun t => n ← opt_ub (objects t !! j); Ok (n, t).
Definition modify_node (j : nat) (f : Node → Node) : M unit := fun t =>
  n ← opt_ub (objects t !! j); Ok (tt, set_objects t (<[j := f n]> (objects t))).
Definition bucket (k : nat) : M (list nat) := fun t => l ← opt_ub (buckets_ t !! k); Ok (l, t).
Definition set_bucket (k : nat) (l : list nat) : M unit :=
  modify (fun t => set_buckets t (<[k := l]> (buckets_ t))).
Definition buckets_size : M nat := fun t => Ok (length (buckets_ t), t).

(** ** Kbucket.cpp *)

(** The loop of [BucketDistance]; both counters are [size_t]. *)
Fixpoint distance_loop (n i : nat) (bit_pos : Z) (n1 n2 : B) : outcome Z :=
  match n with
  | O => Ok bit_pos
  | S n =>
      a ← Test n1 i; b ← Test n2 i;
      if xorb a b then Ok bit_pos else distance_loop n (S i) (u64 (bit_pos - 1)) n1 n2
  end.

Definition BucketDistance (n1 n2 : B) : outcome Z :=
  _ ← assert_ (bool_decide (Size n1 = Size n2) && bool_decide (Size n1 = SHA1_SIZE_BITS));
  distance_loop SHA1_SIZE_BITS 0 (Z.of_nat SHA1_SIZE_BITS - 1) n1 n2.

(** [dht_constants::SHA1_SIZE_BITS - 1 - BucketDistance(id, master)]. *)
Definition bucket_of (id master : B) : outcome Z :=
  d ← BucketDistance id master; Ok (u64 (Z.of_nat SHA1_SIZE_BITS - 1 - d)).

(** [update_nodes]: what stays of the list, with its length. *)
Fixpoint alive_nodes (l : list nat) : M (list nat) :=
  match l with
  | [] => mret []
  | j :: l => n ← node j; rest ← alive_nodes l; mret (if IsAlive n then j :: rest else rest)
  end.

Definition update_nodes (k : nat) : M nat :=
  l ← bucket k; l ← alive_nodes l; _ ← set_bucket k l; mret (length l).

Definition UpdateNodes (k : nat) : M nat := update_nodes k.

Definition AddNode (k j : nat) : M bool :=
  l ← bucket k;
  room ← (if decide (length l < KBuckets_deep)%nat then mret true
          else n ← update_nodes k; mret (bool_decide (n < KBuckets_deep)%nat));
  if (room : bool) then l ← bucket k; _ ← set_bucket k (l ++ [j]); mret true else mret false.

(** [find_node]: the position of the first node with the id. *)
Fixpoint find_node (id : B) (l : list nat) : M (option nat) :=
  match l with
  | [] => mret None
  | j :: l =>
      n ← node j;
      if bitfield_eq (node_id n) id then mret (Some 0%nat)
      else r ← find_node id l; mret (S <$> r)
  end.

Definition Exist (k : nat) (id : B) : M bool :=
  l ← bucket k; r ← find_node id l;
  match r with
  | Some i => j ← lift (opt_ub (l !! i)); n ← node j; mret (IsAlive n)
  | None => mret false
  end.

Definition GetNode (k : nat) (id : B) : M (option nat) :=
  l ← bucket k; r ← find_node id l;
  match r with Some i => j ← lift (opt_ub (l !! i)); mret (Some j) | None => mret None end.

Definition ResetNode (k j : nat) : M unit :=
  l ← bucket k; n ← node j; r ← find_node (node_id n) l;
  match r with Some i => set_bucket k (<[i := j]> l) | None => mret tt end.

Definition Kick (k : nat) (id : B) : M unit :=
  l ← bucket k; r ← find_node id l;
  match r with Some i => set_bucket k (take i l ++ drop (S i) l) | None => mret tt end.

(** [copy_if] of [SplitTheBucket], which also stores the bucket of every node. *)
Fixpoint split_copy (master : B) (by_id : Z) (l : list nat) : M (list nat) :=
  match l with
  | [] => mret []
  | j :: l =>
      n ← node j;
      n_id ← lift (bucket_of (node_id n) master);
      _ ← modify_node j (fun n => set_raznica n n_id);
      rest ← split_copy master by_id l;
      mret (if n_id =? by_id then rest else j :: rest)
  end.

(** [remove_if] of [SplitTheBucket]. *)
Fixpoint split_keep (master : B) (by_id : Z) (l : list nat) : M (list nat) :=
  match l with
  | [] => mret []
  | j :: l =>
      n ← node j;
      n_id ← lift (bucket_of (node_id n) master);
      rest ← split_keep master by_id l;
      mret (if n_id =? by_id then j :: rest else rest)
  end.

Definition split_empty : exn := logic_error "trying to split empty k-bucket!".

Definition SplitTheBucket (k : nat) (by_id : Z) : M (list nat) :=
  l ← bucket k;
  match l with
  | [] => lift (Throw split_empty)
  | _ =>
      t ← get_st;
      let master_id := node_id (master_ t) in
      new_bucket ← split_copy master_id by_id l;
      kept ← split_keep master_id by_id l;
      _ ← set_bucket k kept;
      mret new_bucket
  end.

(** The copy constructor, the copy assignment (which reads [cpy] while it holds
    its lock) and [Size]; the pointers are shared by both buckets. *)
Definition Kbucket_copy (cpy : nat) : M (list nat) := bucket cpy.
Definition Kbucket_assign (k cpy : nat) : M unit := nodes ← bucket cpy; set_bucket k nodes.
Definition Kbucket_Size (k : nat) : M nat := l ← bucket k; mret (length l).

(** ** RouteTable.cpp *)

Definition FindBucket (id : B) : M Z :=
  n ← buckets_size;
  _ ← when (n =? 0)%nat (modify (fun t => set_buckets t (buckets_ t ++ [[]])));
  num_buckets ← buckets_size;
  t ← get_st;
  i ← lift (bucket_of (node_id (master_ t)) id);
  mret (i `min` (Z.of_nat num_buckets - 1)).

Definition try_to_split : M bool :=
  n ← buckets_size;
  if decide (n < SHA1_SIZE_BITS - 1 ∧ n ≠ 0)%nat then
    last_size ← Kbucket_Size (n - 1);
    if decide (0 < last_size)%nat then
      new_bucket ← SplitTheBucket (n - 1) (Z.of_nat n - 1);
      _ ← modify (fun t => set_buckets t (buckets_ t ++ [new_bucket]));
      mret true
    else mret false
  else mret false.

(** [bucket] is a reference into the vector: a push beyond the capacity would
    move the buckets away under it. *)
Definition InsertNode (j : nat) : M unit :=
  n ← node j;
  bucket_id ← FindBucket (node_id n);
  let k := Z.to_nat bucket_id in
  _ ← modify_node j (fun n => set_raznica n bucket_id);
  added ← AddNode k j;
  size ← buckets_size;
  if negb added && (bucket_id =? Z.of_nat size - 1) then
    split ← try_to_split;
    if (split : bool) then
      size ← buckets_size;
      _ ← lift (if decide (size ≤ capacity)%nat then Ok tt else UB);
      _ ← AddNode k j; mret tt
    else mret tt
  else mret tt.

Definition KickNode (id : B) : M unit :=
  bucket_id ← FindBucket id; Kick (Z.to_nat bucket_id) id.

(** [XORDistance(hash, n1->id) < XORDistance(hash, n2->id)]. *)
Definition nearer (hash : B) (j1 j2 : nat) : M bool :=
  n1 ← node j1; n2 ← node j2;
  d1 ← lift (XORDistance hash (node_id n1)); d2 ← lift (XORDistance hash (node_id n2));
  mret (bitfield_lt d1 d2).

Fixpoint sort_insert (hash : B) (j : nat) (l : list nat) : M (list nat) :=
  match l with
  | [] => mret [j]
  | x :: l => lt ← nearer hash j x;
      if (lt : bool) then mret (j :: x :: l) else r ← sort_insert hash j l; mret (x :: r)
  end.

(** Dereferencing a reverse iterator, [i] steps from [rbegin()]. *)
Definition deref_reverse (i : nat) : M (list nat) := fun t =>
  l ← opt_ub (reverse (buckets_ t) !! i); Ok (l, t).

(** The [for] ranges over the two iterators of its initializer list. *)
Definition FindNearestList (hash : B) : M (list nat) :=
  n ← buckets_size;
  first ← deref_reverse 0;
  second ← deref_reverse n;
  res ← foldr (fun j acc => l ← acc; sort_insert hash j l) (mret []) (first ++ second);
  mret (take max_nearest_nodes res).
End Dht.

Arguments Node B : clear implicits.
Arguments RouteTable B : clear implicits.
