(* ===== verification/DhtFacts.v ===== *)
(** * What the routing table promises

    The bucket a node belongs to, the invariant of the table, the operations
    in every reachable state, and where a split goes wrong. *)

From Stdlib Require Import ZArith Lia Strings.Byte Strings.String.
From coqutil Require Import Byte.
From S2P Require Import Prelude Bytes Text Bitset Bitfield Dht.

(** ** The bucket of an id *)

Section Distance.
Context {B : Type} `{DynamicBitset B}.
Implicit Types a b : B.

(** How many of the [n] bits from [i] on two ids share before they differ. *)
Fixpoint common (n i : nat) a b : nat :=
  match n with
  | O => O
  | S n => if xorb (db_test a i) (db_test b i) then O else S (common n (S i) a b)
  end.

Definition prefix a b : nat := common SHA1_SIZE_BITS 0 a b.

Lemma common_le n i a b : (common n i a b ≤ n)%nat.
Proof.
  revert i. induction n as [|n IH]; intros i; cbn [common]; [lia|].
  destruct (xorb _ _); [lia|]. specialize (IH (S i)). lia.
Qed.

Lemma common_same n i a b k :
  (k < common n i a b)%nat → db_test a (i + k) = db_test b (i + k).
Proof.
  revert i k. induction n as [|n IH]; intros i k Hk; cbn [common] in Hk; [lia|].
  destruct (xorb (db_test a i) (db_test b i)) eqn:E; [lia|]. destruct k as [|k].
  - rewrite Nat.add_0_r. destruct (db_test a i), (db_test b i); done.
  - rewrite <- Nat.add_succ_comm. apply IH. lia.
Qed.

Lemma common_differ n i a b :
  (common n i a b < n)%nat → db_test a (i + common n i a b) ≠ db_test b (i + common n i a b).
Proof.
  revert i. induction n as [|n IH]; intros i Hk; cbn [common] in *; [lia|].
  destruct (xorb (db_test a i) (db_test b i)) eqn:E.
  - rewrite Nat.add_0_r. destruct (db_test a i), (db_test b i); done.
  - rewrite <- Nat.add_succ_comm. apply IH. lia.
Qed.

Lemma common_sym n i a b : common n i a b = common n i b a.
Proof. revert i. induction n as [|n IH]; intros i; cbn [common]; [done|]. by rewrite xorb_comm, IH. Qed.

Lemma prefix_sym a b : prefix a b = prefix b a.
Proof. apply common_sym. Qed.

Lemma prefix_le a b : (prefix a b ≤ SHA1_SIZE_BITS)%nat.
Proof. apply common_le. Qed.

Lemma prefix_same a b i : (i < prefix a b)%nat → db_test a i = db_test b i.
Proof. apply (common_same SHA1_SIZE_BITS 0). Qed.

Lemma prefix_differ a b :
  (prefix a b < SHA1_SIZE_BITS)%nat → db_test a (prefix a b) ≠ db_test b (prefix a b).
Proof. apply (common_differ SHA1_SIZE_BITS 0). Qed.

Lemma distance_loop_spec n i bp a b :
  Size a = SHA1_SIZE_BITS → Size b = SHA1_SIZE_BITS → (i + n ≤ SHA1_SIZE_BITS)%nat →
  0 ≤ bp < 2 ^ 64 → distance_loop n i bp a b = Ok (u64 (bp - Z.of_nat (common n i a b))).
Proof.
  intros Ha Hb. revert i bp. induction n as [|n IH]; intros i bp Hi Hbp; cbn [distance_loop common].
  - rewrite Z.sub_0_r, u64_small by lia. done.
  - rewrite (Test_in a), (Test_in b) by lia. cbn [mbind outcome_bind].
    destruct (xorb _ _); [by rewrite Z.sub_0_r, u64_small by lia|].
    rewrite IH by (try apply u64_range; lia). f_equal. unfold u64. rewrite Zminus_mod_idemp_l. f_equal. lia.
Qed.

Lemma bucket_of_prefix a b :
  Size a = SHA1_SIZE_BITS → Size b = SHA1_SIZE_BITS → bucket_of a b = Ok (Z.of_nat (prefix a b)).
Proof.
  intros Ha Hb. unfold bucket_of, BucketDistance. rewrite Ha, Hb.
  rewrite !bool_decide_true by done. cbn [andb assert_ mbind outcome_bind].
  rewrite distance_loop_spec by (try done; unfold SHA1_SIZE_BITS; lia). cbn [mbind outcome_bind].
  f_equal. fold (prefix a b). pose proof (prefix_le a b) as Hp. unfold SHA1_SIZE_BITS in *.
  unfold u64. rewrite Zminus_mod_idemp_r. rewrite Z.mod_small; lia.
Qed.
End Distance.
#[local] Opaque prefix.

(** ** The operations as equations *)

Section Equations.
Context {B : Type} `{DynamicBitset B}.
Implicit Types t : RouteTable B.

Definition alive t (j : nat) : bool :=
  match objects t !! j with Some n => status_enabled n | None => false end.

(** The shared prefix of an object's id and the master's. *)
Definition shared t (j : nat) : nat :=
  match objects t !! j with Some n => prefix (node_id (master_ t)) (node_id n) | None => O end.

Definition known t (l : list nat) : Prop :=
  ∀ j, j ∈ l → ∃ n, objects t !! j = Some n ∧ Size (node_id n) = SHA1_SIZE_BITS.

Lemma known_cons t j l : known t (j :: l) ↔
  (∃ n, objects t !! j = Some n ∧ Size (node_id n) = SHA1_SIZE_BITS) ∧ known t l.
Proof.
  unfold known. split; [intros Hk; split; [apply Hk; by left|intros x Hx; apply Hk; by right]|].
  intros [Hj Hl] x [->|Hx]%elem_of_cons; auto.
Qed.

Lemma alive_nodes_eq t l : known t l → alive_nodes l t = Ok (List.filter (alive t) l, t).
Proof.
  induction l as [|j l IH]; [done|]. intros [(n & Hn & _) Hl]%known_cons. cbn [alive_nodes List.filter].
  erewrite st_bind_Ok by (unfold node; rewrite Hn; reflexivity). cbv beta.
  erewrite st_bind_Ok by (by apply IH). cbv beta.
  assert (alive t j = IsAlive n) as -> by (unfold alive; by rewrite Hn). by destruct (IsAlive n).
Qed.

Definition with_bucket t (k : nat) (l : list nat) : RouteTable B := set_buckets t (<[k := l]> (buckets_ t)).

Lemma update_nodes_eq t k l :
  buckets_ t !! k = Some l → known t l →
  update_nodes k t = Ok (length (List.filter (alive t) l), with_bucket t k (List.filter (alive t) l)).
Proof.
  intros Hk Hl. unfold update_nodes. erewrite st_bind_Ok by (unfold bucket; rewrite Hk; reflexivity). cbv beta.
  erewrite st_bind_Ok by (by apply alive_nodes_eq). reflexivity.
Qed.

(** The bucket after [AddNode] and whether there was room. *)
Definition added t (l : list nat) (j : nat) : bool * list nat :=
  if decide (length l < KBuckets_deep)%nat then (true, l ++ [j])
  else let l := List.filter (alive t) l in
       if decide (length l < KBuckets_deep)%nat then (true, l ++ [j]) else (false, l).

Lemma AddNode_eq t k l j :
  buckets_ t !! k = Some l → known t l →
  AddNode k j t = Ok (fst (added t l j), with_bucket t k (snd (added t l j))).
Proof.
  intros Hk Hl. unfold AddNode, added. erewrite st_bind_Ok by (unfold bucket; rewrite Hk; reflexivity). cbv beta.
  pose proof (lookup_lt_Some _ _ _ Hk) as Hlt. case_decide as Hd.
  - erewrite st_bind_Ok by reflexivity. cbv iota beta.
    erewrite st_bind_Ok by (unfold bucket; rewrite Hk; reflexivity). reflexivity.
  - erewrite st_bind_Ok.
    2:{ erewrite st_bind_Ok by (by apply update_nodes_eq). reflexivity. }
    case_decide as Hd2.
    + rewrite bool_decide_true by done. cbv iota beta. erewrite st_bind_Ok.
      2:{ unfold bucket, with_bucket. cbn [set_buckets buckets_]. rewrite list_lookup_insert_eq by done. reflexivity. }
      cbv beta. erewrite st_bind_Ok by reflexivity. unfold with_bucket. cbn [set_buckets buckets_].
      cbn. by rewrite list_insert_insert_eq.
    + rewrite bool_decide_false by done. reflexivity.
Qed.

(** Only [raznica] and the buckets may differ. *)
Definition same_nodes t t' : Prop :=
  master_ t' = master_ t ∧ ∀ j,
    (fun n => (node_id n, status_enabled n)) <$> objects t' !! j =
    (fun n => (node_id n, status_enabled n)) <$> objects t !! j.

#[export] Instance same_nodes_refl : Reflexive same_nodes.
Proof. by intros t. Qed.
#[export] Instance same_nodes_trans : Transitive same_nodes.
Proof. intros t1 t2 t3 [M1 E1] [M2 E2]. split; [congruence|]. intros j. by rewrite E2, E1. Qed.

Lemma same_nodes_known t t' l : same_nodes t t' → known t l → known t' l.
Proof.
  intros [_ E] Hk j (n & Hn & Hs)%Hk. specialize (E j). rewrite Hn in E.
  apply fmap_Some in E as (n' & Hn' & [= Hid _]). exists n'. by rewrite <- Hid.
Qed.

Lemma same_nodes_alive t t' j : same_nodes t t' → alive t' j = alive t j.
Proof.
  intros [_ E]. specialize (E j). unfold alive.
  destruct (objects t' !! j), (objects t !! j); cbn in E; try done. by injection E.
Qed.

Lemma same_nodes_shared t t' j : same_nodes t t' → shared t' j = shared t j.
Proof.
  intros [M E]. specialize (E j). unfold shared. rewrite M.
  destruct (objects t' !! j), (objects t !! j); [|discriminate E..|reflexivity].
  cbn [fmap option_fmap option_map] in E. by injection E as -> _.
Qed.

Lemma modify_node_same t j n r :
  objects t !! j = Some n →
  ∃ t', modify_node j (fun n => set_raznica n r) t = Ok (tt, t') ∧ same_nodes t t' ∧ buckets_ t' = buckets_ t.
Proof.
  intros Hn. unfold modify_node. rewrite Hn. cbn. eexists. split; [done|]. split; [|done].
  split; [done|]. intros x. cbn. destruct (decide (x = j)) as [->|Hne].
  - by rewrite lookup_insert_eq, Hn.
  - by rewrite lookup_insert_ne.
Qed.

(** The bucket [by_id] of a list, and the rest. *)
Definition is_at t (by_id : Z) (j : nat) : bool := Z.of_nat (shared t j) =? by_id.

Lemma filter_ext_elem {A} (f g : A → bool) l : (∀ x, x ∈ l → f x = g x) → List.filter f l = List.filter g l.
Proof. intros E. apply filter_ext_in. intros x Hx. apply E. by apply list_elem_of_In. Qed.

Lemma split_copy_eq t by_id l :
  Size (node_id (master_ t)) = SHA1_SIZE_BITS → known t l →
  ∃ t', split_copy (node_id (master_ t)) by_id l t = Ok (List.filter (fun j => negb (is_at t by_id j)) l, t') ∧
    same_nodes t t' ∧ buckets_ t' = buckets_ t.
Proof.
  remember (node_id (master_ t)) as m eqn:Em. intros Hm. revert t Em.
  induction l as [|j l IH]; intros t Em; [intros _; by exists t|].
  intros [(n & Hn & Hs) Hl]%known_cons. cbn [split_copy List.filter].
  erewrite st_bind_Ok by (unfold node; rewrite Hn; reflexivity). cbv beta.
  erewrite st_bind_Ok by (unfold lift; rewrite bucket_of_prefix by done; reflexivity). cbv beta.
  destruct (modify_node_same t j n (Z.of_nat (prefix (node_id n) m)) Hn) as (t1 & E1 & Hs1 & Hb1).
  erewrite st_bind_Ok by exact E1. cbv beta.
  destruct (IH t1) as (t2 & E2 & Hs2 & Hb2).
  { rewrite Em. f_equal. symmetry. apply Hs1. }
  { by eapply same_nodes_known. }
  exists t2. erewrite st_bind_Ok by exact E2. split; [|split; [by etrans|congruence]].
  assert (List.filter (fun j => negb (is_at t1 by_id j)) l = List.filter (fun j => negb (is_at t by_id j)) l) as ->.
  { apply filter_ext_elem. intros x _. unfold is_at. by rewrite (same_nodes_shared _ _ x Hs1). }
  assert (is_at t by_id j = (Z.of_nat (prefix (node_id n) m) =? by_id)) as ->
    by (unfold is_at, shared; by rewrite Hn, <- Em, prefix_sym).
  by destruct (_ =? _).
Qed.

Lemma split_keep_eq t by_id l :
  Size (node_id (master_ t)) = SHA1_SIZE_BITS → known t l →
  split_keep (node_id (master_ t)) by_id l t = Ok (List.filter (is_at t by_id) l, t).
Proof.
  intros Hm. induction l as [|j l IH]; [done|].
  intros [(n & Hn & Hs) Hl]%known_cons. cbn [split_keep List.filter].
  erewrite st_bind_Ok by (unfold node; rewrite Hn; reflexivity). cbv beta.
  erewrite st_bind_Ok by (unfold lift; rewrite bucket_of_prefix by done; reflexivity). cbv beta.
  erewrite st_bind_Ok by (by apply IH). cbv beta.
  assert (is_at t by_id j = (Z.of_nat (prefix (node_id n) (node_id (master_ t))) =? by_id)) as ->
    by (unfold is_at, shared; by rewrite Hn, prefix_sym).
  by destruct (_ =? _).
Qed.

Lemma SplitTheBucket_eq t k by_id l :
  Size (node_id (master_ t)) = SHA1_SIZE_BITS → buckets_ t !! k = Some l → known t l → l ≠ [] →
  ∃ t', SplitTheBucket k by_id t
      = Ok (List.filter (fun j => negb (is_at t by_id j)) l, with_bucket t' k (List.filter (is_at t by_id) l)) ∧
    same_nodes t t' ∧ buckets_ t' = buckets_ t.
Proof.
  intros Hm Hk Hl Hne. destruct (split_copy_eq t by_id l Hm Hl) as (t' & E & Hs & Hb).
  exists t'. split; [|done]. unfold SplitTheBucket.
  erewrite st_bind_Ok by (unfold bucket; rewrite Hk; reflexivity). cbv beta.
  destruct l as [|x l]; [done|]. erewrite st_bind_Ok by reflexivity. cbv beta zeta.
  erewrite st_bind_Ok by exact E. cbv beta. destruct Hs as [Ms Es].
  rewrite <- Ms. erewrite st_bind_Ok.
  2:{ apply split_keep_eq; [by rewrite Ms|]. by apply (same_nodes_known t). }
  erewrite st_bind_Ok by reflexivity. unfold mret, ST_ret, with_bucket. do 4 f_equal.
  apply filter_ext_elem. intros y _. unfold is_at. by rewrite (same_nodes_shared t t').
Qed.

(** The table [FindBucket] leaves: it has at least one bucket. *)
Definition opened t : RouteTable B := match buckets_ t with [] => set_buckets t [[]] | _ => t end.

Lemma FindBucket_eq t id :
  Size (node_id (master_ t)) = SHA1_SIZE_BITS → Size id = SHA1_SIZE_BITS →
  FindBucket id t = Ok (Z.of_nat (prefix (node_id (master_ t)) id `min` (length (buckets_ (opened t)) - 1)), opened t).
Proof.
  intros Hm Hid. unfold FindBucket. erewrite st_bind_Ok by reflexivity. cbv beta.
  assert (∀ t', master_ t' = master_ t → (0 < length (buckets_ t'))%nat →
    (num_buckets ← buckets_size; t ← get_st;
     i ← lift (bucket_of (node_id (master_ t)) id); mret (i `min` (Z.of_nat num_buckets - 1))) t'
    = Ok (Z.of_nat (prefix (node_id (master_ t)) id `min` (length (buckets_ t') - 1)), t')) as Hrest.
  { intros t' Em Hlt. erewrite st_bind_Ok by reflexivity. cbv beta. erewrite st_bind_Ok by reflexivity. cbv beta.
    rewrite Em. erewrite st_bind_Ok by (unfold lift; rewrite bucket_of_prefix by done; reflexivity).
    unfold mret, ST_ret. do 2 f_equal. lia. }
  unfold opened. destruct (buckets_ t) as [|l ls] eqn:Eb; cbn [length Nat.eqb when].
  - erewrite st_bind_Ok by reflexivity. rewrite Eb. cbn [app]. apply Hrest; [done|cbn; lia].
  - erewrite st_bind_Ok by reflexivity. apply Hrest; [done|rewrite Eb; cbn; lia].
Qed.
End Equations.

(** ** The invariant *)

Section Invariant.
Context {B : Type} `{DynamicBitset B}.
Implicit Types t : RouteTable B.

Record table_inv t : Prop := {
  inv_master : Size (node_id (master_ t)) = SHA1_SIZE_BITS;
  inv_objects j n : objects t !! j = Some n → Size (node_id n) = SHA1_SIZE_BITS;
  inv_count : (length (buckets_ t) < SHA1_SIZE_BITS)%nat;
  inv_depth k l : buckets_ t !! k = Some l → (length l ≤ KBuckets_deep)%nat;
  inv_nodes k l j : buckets_ t !! k = Some l → j ∈ l → is_Some (objects t !! j) ∧ (k ≤ shared t j)%nat;
}.

Lemma inv_known t k l : table_inv t → buckets_ t !! k = Some l → known t l.
Proof.
  intros Ht Hk j Hj. destruct (inv_nodes _ Ht _ _ _ Hk Hj) as [[n Hn] _]. exists n.
  split; [done|]. by eapply inv_objects.
Qed.

Lemma new_table_inv (m : Node B) : Size (node_id m) = SHA1_SIZE_BITS → table_inv (new_table m).
Proof. intros Hm. by split; [..|intros k l j Hk]; cbn; unfold SHA1_SIZE_BITS; try done; try lia. Qed.

Lemma same_nodes_inv t t' : same_nodes t t' → buckets_ t' = buckets_ t → table_inv t → table_inv t'.
Proof.
  intros Hs Hb Ht. pose proof Hs as [M E]. split.
  - rewrite M. apply Ht.
  - intros j n Hn. specialize (E j). rewrite Hn in E. cbn in E. symmetry in E.
    apply fmap_Some in E as (n' & Hn' & [= -> _]). by eapply inv_objects.
  - rewrite Hb. apply Ht.
  - rewrite Hb. apply Ht.
  - intros k l j Hk Hj. rewrite Hb in Hk. destruct (inv_nodes _ Ht _ _ _ Hk Hj) as [[n Hn] Hle].
    rewrite (same_nodes_shared t t') by done. split; [|done]. specialize (E j). rewrite Hn in E.
    apply fmap_Some in E as (n' & Hn' & _). by exists n'.
Qed.

(** A bucket may be replaced by any list that is short enough and deep enough. *)
Lemma with_bucket_inv t k l :
  table_inv t → (length l ≤ KBuckets_deep)%nat →
  (∀ j, j ∈ l → is_Some (objects t !! j) ∧ (k ≤ shared t j)%nat) → table_inv (with_bucket t k l).
Proof.
  intros Ht Hlen Hl. split; [apply Ht|apply Ht|cbn; rewrite length_insert; apply Ht|..].
  - intros k' l' Hk'. cbn in Hk'. apply list_lookup_insert_Some in Hk' as [(<- & <- & _)|[_ Hk']];
      [done|by eapply inv_depth].
  - intros k' l' j Hk' Hj. cbn in Hk'. apply list_lookup_insert_Some in Hk' as [(<- & <- & _)|[_ Hk']];
      [by apply Hl|exact (inv_nodes _ Ht _ _ _ Hk' Hj)].
Qed.

Lemma opened_inv t : table_inv t → table_inv (opened t).
Proof.
  intros Ht. unfold opened. destruct (buckets_ t) eqn:E; [|done].
  split; [apply Ht|apply Ht|cbn; unfold SHA1_SIZE_BITS; lia|..].
  - intros [|k] l Hk; [|done]. injection Hk as <-. cbn. lia.
  - intros [|k] l j Hk Hj; [|done]. injection Hk as <-. by apply not_elem_of_nil in Hj.
Qed.

Lemma elem_of_List_filter (f : nat → bool) l x : x ∈ List.filter f l ↔ x ∈ l ∧ f x = true.
Proof. rewrite !list_elem_of_In. apply filter_In. Qed.

Lemma length_List_filter (f : nat → bool) l : (length (List.filter f l) ≤ length l)%nat.
Proof. induction l as [|x l IH]; cbn; [lia|]. destruct (f x); cbn; lia. Qed.

(** What [AddNode] does to a bucket. *)
Lemma added_elem t l j x : x ∈ snd (added t l j) → x = j ∨ x ∈ l.
Proof.
  unfold added. repeat case_decide; cbn [snd]; rewrite ?elem_of_app, ?list_elem_of_singleton, ?elem_of_List_filter;
    naive_solver.
Qed.

Lemma added_length t l j : (length l ≤ KBuckets_deep)%nat → (length (snd (added t l j)) ≤ KBuckets_deep)%nat.
Proof.
  intros Hl. pose proof (length_List_filter (alive t) l). unfold added.
  repeat case_decide; cbn [snd]; rewrite ?length_app; cbn [length]; lia.
Qed.

Lemma added_keeps t l j x : x ∈ l → alive t x = true → x ∈ snd (added t l j).
Proof.
  intros Hx Ha. unfold added.
  repeat case_decide; cbn [snd]; rewrite ?elem_of_app, ?elem_of_List_filter; naive_solver.
Qed.

Lemma added_new t l j : fst (added t l j) = true → j ∈ snd (added t l j).
Proof.
  unfold added. repeat case_decide; cbn [fst snd]; try done; intros _; apply elem_of_app; right; by left.
Qed.

Lemma AddNode_inv t k l j :
  table_inv t → buckets_ t !! k = Some l → is_Some (objects t !! j) → (k ≤ shared t j)%nat →
  table_inv (with_bucket t k (snd (added t l j))).
Proof.
  intros Ht Hk Hj Hs. apply with_bucket_inv; [done|apply added_length; by eapply inv_depth|].
  intros x [->|Hx]%added_elem; [done|]. by eapply inv_nodes.
Qed.

(** The nodes of a table. *)
Definition in_table t (j : nat) : Prop := ∃ k l, buckets_ t !! k = Some l ∧ j ∈ l.

Lemma in_with_bucket t k l l0 j :
  buckets_ t !! k = Some l0 → in_table (with_bucket t k l) j → j ∈ l ∨ in_table t j.
Proof.
  intros Hk (k' & l' & Hk' & Hj). cbn in Hk'. apply list_lookup_insert_Some in Hk' as [(<- & <- & _)|[_ Hk']]; [by left|].
  right. by exists k', l'.
Qed.

Lemma with_bucket_in t k l l0 j :
  buckets_ t !! k = Some l0 → in_table t j → (j ∈ l0 → j ∈ l) → in_table (with_bucket t k l) j.
Proof.
  intros Hk (k' & l' & Hk' & Hj) Hl. pose proof (lookup_lt_Some _ _ _ Hk) as Hlt.
  destruct (decide (k' = k)) as [->|Hne].
  - exists k, l. cbn. rewrite list_lookup_insert_eq by done. split; [done|]. apply Hl. congruence.
  - exists k', l'. cbn. by rewrite list_lookup_insert_ne.
Qed.

Lemma opened_in t j : in_table (opened t) j ↔ in_table t j.
Proof.
  unfold opened. destruct (buckets_ t) as [|b bs] eqn:E; [|done]. split.
  - intros ([|k] & l & Hk & Hj); [|done]. injection Hk as <-. by apply not_elem_of_nil in Hj.
  - intros (k & l & Hk & Hj). by rewrite E in Hk.
Qed.

(** One more bucket at the end. *)
Lemma push_bucket_inv t l :
  table_inv t → (S (length (buckets_ t)) < SHA1_SIZE_BITS)%nat → (length l ≤ KBuckets_deep)%nat →
  (∀ j, j ∈ l → is_Some (objects t !! j) ∧ (length (buckets_ t) ≤ shared t j)%nat) →
  table_inv (set_buckets t (buckets_ t ++ [l])).
Proof.
  intros Ht Hlen Hd Hl. split; [apply Ht|apply Ht|cbn; rewrite length_app; cbn; lia|..].
  - intros k' l' Hk'. cbn in Hk'. apply lookup_app_Some in Hk' as [Hk'|[Hle Hk']]; [by eapply inv_depth|].
    destruct (k' - length (buckets_ t))%nat; [|done]. by injection Hk' as <-.
  - intros k' l' j Hk' Hj. cbn in Hk'. apply lookup_app_Some in Hk' as [Hk'|[Hle Hk']];
      [exact (inv_nodes _ Ht _ _ _ Hk' Hj)|].
    destruct (k' - length (buckets_ t))%nat eqn:E; [|done]. injection Hk' as <-.
    replace k' with (length (buckets_ t)) by lia. by apply Hl.
Qed.

Lemma Kbucket_Size_eq t k l : buckets_ t !! k = Some l → Kbucket_Size k t = Ok (length l, t).
Proof. intros Hk. unfold Kbucket_Size. by erewrite st_bind_Ok by (unfold bucket; rewrite Hk; reflexivity). Qed.

(** The last bucket split: what has the depth of the bucket stays. *)
Lemma split_spec t bs l :
  table_inv t → buckets_ t = bs ++ [l] → (length bs < SHA1_SIZE_BITS - 2)%nat → l ≠ [] →
  let d := Z.of_nat (length bs) in
  ∃ t', try_to_split t = Ok (true, t') ∧ table_inv t' ∧ same_nodes t t' ∧
    buckets_ t' = bs ++ [List.filter (is_at t d) l; List.filter (fun j => negb (is_at t d j)) l].
Proof.
  intros Ht Hb Hlen Hne d. unfold try_to_split. erewrite st_bind_Ok by reflexivity. cbv beta.
  rewrite Hb, length_app. cbn [length]. rewrite decide_True by lia.
  replace (length bs + 1 - 1)%nat with (length bs) by lia.
  replace (Z.of_nat (length bs + 1) - 1) with d by lia.
  assert (buckets_ t !! length bs = Some l) as Hk by (by rewrite Hb, list_lookup_middle).
  erewrite st_bind_Ok by (apply Kbucket_Size_eq, Hk). cbv beta.
  rewrite decide_True by (destruct l; [done|cbn; lia]).
  destruct (SplitTheBucket_eq t (length bs) d l) as (t1 & E & Hs & Hb1);
    [apply Ht|done|by eapply inv_known|done|].
  erewrite st_bind_Ok by exact E. cbv beta. erewrite st_bind_Ok by reflexivity.
  pose proof (same_nodes_inv t t1 Hs Hb1 Ht) as Ht1.
  assert (buckets_ t1 !! length bs = Some l) as Hk1 by by rewrite Hb1.
  assert (∀ j, j ∈ l → is_Some (objects t1 !! j) ∧ (length bs ≤ shared t1 j)%nat) as Hl1
    by (intros j Hj; by eapply inv_nodes).
  pose proof (inv_depth _ Ht1 _ _ Hk1) as Hd1.
  eexists. split; [reflexivity|]. split; [apply push_bucket_inv|split; [done|]].
  - apply with_bucket_inv; [done|pose proof (length_List_filter (is_at t d) l); lia|].
    intros j [Hj _]%elem_of_List_filter. by apply Hl1.
  - cbn. rewrite length_insert, Hb1, Hb, length_app. cbn. lia.
  - pose proof (length_List_filter (fun j => negb (is_at t d j)) l). lia.
  - intros j [Hj Hat]%elem_of_List_filter. destruct (Hl1 j Hj) as [? Hle]. split; [done|].
    cbn. rewrite length_insert, Hb1, Hb, length_app. cbn.
    unfold shared in *. cbn. unfold is_at in Hat. rewrite <- (same_nodes_shared t t1) in Hat by done.
    apply negb_true_iff, Z.eqb_neq in Hat. unfold shared in Hat. lia.
  - cbn [with_bucket set_buckets buckets_]. rewrite Hb1, Hb, insert_app_r_alt, Nat.sub_diag by lia.
    cbn [list_insert]. by rewrite <- app_assoc.
Qed.

Lemma split_stops t : table_inv t → buckets_ t = [] ∨ list.last (buckets_ t) = Some [] ∨
  (SHA1_SIZE_BITS - 1 ≤ length (buckets_ t))%nat → try_to_split t = Ok (false, t).
Proof.
  intros Ht Hc. unfold try_to_split. erewrite st_bind_Ok by reflexivity. cbv beta. case_decide as Hd; [|done].
  destruct Hc as [E|[Hl|?]]; [rewrite E in Hd; cbn in Hd; lia| |lia].
  rewrite last_lookup in Hl. replace (pred (length (buckets_ t))) with (length (buckets_ t) - 1)%nat in Hl by lia.
  erewrite st_bind_Ok by (apply Kbucket_Size_eq, Hl). reflexivity.
Qed.

Lemma in_table_concat t x : in_table t x ↔ x ∈ concat (buckets_ t).
Proof.
  unfold in_table. rewrite list_elem_of_In, in_concat. split.
  - intros (k & l & Hk & Hx). exists l. split; apply list_elem_of_In; [by eapply list_elem_of_lookup_2|done].
  - intros (l & Hl & Hx). apply list_elem_of_In, list_elem_of_lookup in Hl as [k Hk]. exists k, l.
    by rewrite list_elem_of_In.
Qed.

Lemma split_in t t' bs l (f : nat → bool) x :
  buckets_ t = bs ++ [l] → buckets_ t' = bs ++ [List.filter f l; List.filter (fun j => negb (f j)) l] →
  in_table t' x ↔ in_table t x.
Proof.
  intros E E'. rewrite !in_table_concat, E, E', !concat_app. cbn [concat]. rewrite !app_nil_r.
  rewrite !elem_of_app, !elem_of_List_filter, negb_true_iff. destruct (f x); naive_solver.
Qed.

(** From [t] to [t'] no node but [j] has come in and no live one has gone. *)
Record between t t' (j : nat) : Prop := {
  btw_same : same_nodes t t';
  btw_in x : in_table t' x → x = j ∨ in_table t x;
  btw_keep x : in_table t x → alive t x = true → in_table t' x;
}.

Definition inserted t t' (j : nat) : Prop := table_inv t' ∧ between t t' j.

Lemma between_table t t1 t2 j :
  between t t1 j → same_nodes t1 t2 → (∀ x, in_table t2 x ↔ in_table t1 x) → between t t2 j.
Proof.
  intros [Hs Hin Hk] Hs2 Hiff. split; [by etrans|..]; intros x Hx; [|intros Ha]; apply Hiff in Hx || apply Hiff; auto.
Qed.

Lemma same_buckets_in t t' x : buckets_ t' = buckets_ t → in_table t' x ↔ in_table t x.
Proof. unfold in_table. by intros ->. Qed.

(** Putting [j] into a bucket that it is deep enough for. *)
Lemma insert_step t t0 k l j :
  table_inv t → buckets_ t !! k = Some l → is_Some (objects t !! j) → (k ≤ shared t j)%nat →
  between t0 t j → inserted t0 (with_bucket t k (snd (added t l j))) j.
Proof.
  intros Ht Hk Hj Hle [Hs Hin Hkeep]. split; [by apply AddNode_inv|]. split; [done|..].
  - intros x [[->|Hx]%added_elem|Hx]%(in_with_bucket _ _ _ l); [by left| |by apply Hin|done].
    apply Hin. by exists k, l.
  - intros x Hx Ha. apply (with_bucket_in _ _ _ l); [done|by apply Hkeep|]. intros Hxl.
    apply added_keeps; [done|]. by rewrite (same_nodes_alive t0 t).
Qed.

Lemma same_nodes_is_Some t t' j : same_nodes t t' → is_Some (objects t !! j) → is_Some (objects t' !! j).
Proof. intros [_ E] Hj. specialize (E j). rewrite <- (fmap_is_Some (fun n => (node_id n, status_enabled n))), E. by rewrite fmap_is_Some. Qed.

(** The end of [InsertNode]: a full last bucket is split and tried again. *)
Lemma insert_retry t0 t k l j :
  table_inv t → buckets_ t !! k = Some l → l ≠ [] → is_Some (objects t !! j) → (k ≤ shared t j)%nat →
  between t0 t j → k = (length (buckets_ t) - 1)%nat →
  ∃ t', (split ← try_to_split;
         if (split : bool) then
           size ← buckets_size;
           _ ← lift (if decide (size ≤ capacity)%nat then Ok tt else UB);
           _ ← AddNode k j; mret tt
         else mret tt) t = Ok (tt, t') ∧ inserted t0 t' j.
Proof.
  intros Ht Hk Hne Hj Hle Hb ->.
  destruct (decide (SHA1_SIZE_BITS - 1 ≤ length (buckets_ t))%nat) as [Hfull|Hroom].
  { exists t. erewrite st_bind_Ok by (apply split_stops; auto). done. }
  destruct (buckets_ t) as [|l' bs _] eqn:Eb using rev_ind; [done|].
  rewrite length_app in *. cbn [length] in *.
  replace (length bs + 1 - 1)%nat with (length bs) in * by lia.
  rewrite list_lookup_middle in Hk by done. injection Hk as ->.
  destruct (split_spec t bs l Ht Eb ltac:(lia) Hne) as (t1 & E & Ht1 & Hs1 & Hb1).
  erewrite st_bind_Ok by exact E. cbv iota beta. erewrite st_bind_Ok by reflexivity. cbv beta.
  rewrite Hb1, length_app. cbn [length].
  erewrite st_bind_Ok by (unfold lift, capacity; rewrite decide_True by lia; reflexivity). cbv beta.
  assert (buckets_ t1 !! length bs = Some (List.filter (is_at t (Z.of_nat (length bs))) l)) as Hk1
    by by rewrite Hb1, list_lookup_middle.
  erewrite st_bind_Ok by (apply AddNode_eq; [exact Hk1|by eapply inv_known]).
  eexists. split; [reflexivity|]. apply insert_step; [done|done|by eapply same_nodes_is_Some| |].
  - by rewrite (same_nodes_shared t t1).
  - eapply between_table; [done|done|]. intros x. by eapply split_in.
Qed.

Lemma InsertNode_spec t j n :
  table_inv t → objects t !! j = Some n → ∃ t', InsertNode j t = Ok (tt, t') ∧ inserted t t' j.
Proof.
  intros Ht Hn. pose proof (inv_objects _ Ht _ _ Hn) as Hsz. unfold InsertNode.
  erewrite st_bind_Ok by (unfold node; rewrite Hn; reflexivity). cbv beta.
  erewrite st_bind_Ok by (apply FindBucket_eq; [apply Ht|done]). cbv beta zeta. rewrite Nat2Z.id.
  set (k := (prefix _ _ `min` _)%nat).
  assert (objects (opened t) !! j = Some n) as Hn0 by (unfold opened; by destruct (buckets_ t)).
  assert (same_nodes t (opened t)) as Hs0 by (unfold opened; by destruct (buckets_ t)).
  destruct (modify_node_same (opened t) j n (Z.of_nat k) Hn0) as (t1 & E1 & Hs1 & Hb1).
  erewrite st_bind_Ok by exact E1. cbv beta.
  pose proof (same_nodes_inv _ _ Hs1 Hb1 (opened_inv t Ht)) as Ht1.
  assert (same_nodes t t1) as Hs by by etrans.
  assert (shared t1 j = prefix (node_id (master_ t)) (node_id n)) as Hsh.
  { rewrite (same_nodes_shared t t1) by done. unfold shared. by rewrite Hn. }
  assert (is_Some (objects t1 !! j)) as Hj by (eapply same_nodes_is_Some; [done|by eexists]).
  assert (0 < length (buckets_ (opened t)))%nat as Hlen
    by (unfold opened; destruct (buckets_ t) eqn:E; [cbn; lia|rewrite E; cbn; lia]).
  destruct (lookup_lt_is_Some_2 (buckets_ t1) k) as [l Hk]; [rewrite Hb1; lia|].
  assert (between t t1 j) as Hbt.
  { split; [done|..]; intros x Hx; [|intros _]; rewrite ?(same_buckets_in _ t1 x Hb1), ?opened_in in *; auto. }
  erewrite st_bind_Ok by (apply AddNode_eq; [exact Hk|by eapply inv_known]). cbv beta.
  pose proof (insert_step t1 t k l j Ht1 Hk Hj ltac:(lia) Hbt) as [Ht2 Hbt2].
  erewrite st_bind_Ok by reflexivity. cbv beta.
  destruct (negb (fst (added t1 l j)) && (Z.of_nat k =? Z.of_nat (length (buckets_ (with_bucket t1 k (snd (added t1 l j))))) - 1))
    eqn:Ec; [|by eexists].
  apply andb_true_iff in Ec as [Hfull Hlast%Z.eqb_eq].
  apply (insert_retry _ _ _ (snd (added t1 l j))); [done| | |done| |done|lia].
  - cbn. apply list_lookup_insert_eq. by apply lookup_lt_Some in Hk.
  - intros Hnil. revert Hfull Hnil. unfold added. repeat case_decide; cbn; try done. intros _ Hnil.
    rewrite Hnil in *. cbn in *. unfold KBuckets_deep in *. lia.
  - cbn. change (k ≤ shared t1 j)%nat. lia.
Qed.

(** ** Removing nodes *)

Definition has_id t (id : B) (j : nat) : bool :=
  match objects t !! j with Some n => bitfield_eq (node_id n) id | None => false end.

Fixpoint find_pos (f : nat → bool) (l : list nat) : option nat :=
  match l with
  | [] => None
  | j :: l => if f j then Some 0%nat else S <$> find_pos f l
  end.

Lemma find_node_eq t id l : known t l → find_node id l t = Ok (find_pos (has_id t id) l, t).
Proof.
  induction l as [|j l IH]; [done|]. intros [(n & Hn & _) Hl]%known_cons. cbn [find_node find_pos].
  erewrite st_bind_Ok by (unfold node; rewrite Hn; reflexivity). cbv beta.
  assert (has_id t id j = bitfield_eq (node_id n) id) as -> by (unfold has_id; by rewrite Hn).
  destruct (bitfield_eq (node_id n) id); [done|]. by erewrite st_bind_Ok by (by apply IH).
Qed.

(** The bucket after [Kick]. *)
Definition kicked t (id : B) (l : list nat) : list nat :=
  match find_pos (has_id t id) l with Some i => take i l ++ drop (S i) l | None => l end.

Lemma Kick_eq t k l id :
  buckets_ t !! k = Some l → known t l → Kick k id t = Ok (tt, with_bucket t k (kicked t id l)).
Proof.
  intros Hk Hl. unfold Kick, kicked. erewrite st_bind_Ok by (unfold bucket; rewrite Hk; reflexivity). cbv beta.
  erewrite st_bind_Ok by (by apply find_node_eq). cbv beta. destruct (find_pos _ l); [reflexivity|].
  unfold mret, ST_ret, with_bucket. rewrite list_insert_id by done. by destruct t.
Qed.

Lemma kicked_elem t id l x : x ∈ kicked t id l → x ∈ l.
Proof.
  unfold kicked. destruct (find_pos _ l) as [i|]; [|done].
  rewrite elem_of_app. intros [Hx|Hx]; [by eapply elem_of_take in Hx as (? & ?%list_elem_of_lookup_2 & _)|].
  rewrite <- (take_drop (S i) l). apply elem_of_app. by right.
Qed.

Lemma kicked_keeps t id l x : x ∈ l → has_id t id x = false → x ∈ kicked t id l.
Proof.
  unfold kicked. intros Hx Hid. destruct (find_pos (has_id t id) l) as [i|] eqn:E; [|done].
  revert i E. induction l as [|j l IH]; intros i E; [done|]. cbn [find_pos] in E.
  apply elem_of_cons in Hx as [->|Hx].
  - rewrite Hid in E. destruct (find_pos _ l); [|done]. injection E as <-. by left.
  - destruct (has_id t id j); [injection E as <-; done|].
    destruct (find_pos _ l) as [i'|] eqn:E'; [|done]. injection E as <-. cbn. right. by apply IH.
Qed.

Lemma kicked_length t id l : (length (kicked t id l) ≤ length l)%nat.
Proof.
  unfold kicked. destruct (find_pos _ l); [|done]. rewrite length_app, length_take, length_drop. lia.
Qed.

(** A bucket may lose nodes. *)
Lemma shrink_inv t k l l' :
  table_inv t → buckets_ t !! k = Some l → (length l' ≤ length l)%nat → (∀ x, x ∈ l' → x ∈ l) →
  table_inv (with_bucket t k l').
Proof.
  intros Ht Hk Hlen Hsub. apply with_bucket_inv; [done|pose proof (inv_depth _ Ht _ _ Hk); lia|].
  intros j Hj%Hsub. by eapply inv_nodes.
Qed.

Lemma KickNode_spec t id :
  table_inv t → Size id = SHA1_SIZE_BITS →
  ∃ t', KickNode id t = Ok (tt, t') ∧ table_inv t' ∧ (∀ x, in_table t' x → in_table t x) ∧
    (∀ x, in_table t x → has_id t id x = false → in_table t' x).
Proof.
  intros Ht Hid. unfold KickNode. erewrite st_bind_Ok by (apply FindBucket_eq; [apply Ht|done]). cbv beta.
  rewrite Nat2Z.id. set (k := (_ `min` _)%nat). pose proof (opened_inv t Ht) as Ht0.
  destruct (lookup_lt_is_Some_2 (buckets_ (opened t)) k) as [l Hk].
  { assert (0 < length (buckets_ (opened t)))%nat
      by (unfold opened; destruct (buckets_ t) eqn:E; [cbn; lia|rewrite E; cbn; lia]). lia. }
  rewrite (Kick_eq _ _ l id Hk) by (by eapply inv_known). eexists. split; [done|].
  assert (has_id (opened t) id = has_id t id) as Hh by (unfold opened; by destruct (buckets_ t)).
  split; [apply (shrink_inv _ _ l); [done|done|apply kicked_length|apply kicked_elem]|]. split; intros x Hx.
  - apply (in_with_bucket _ _ _ l) in Hx as [Hx%kicked_elem|Hx]; [|by apply opened_in|done].
    apply opened_in. by exists k, l.
  - intros Hxid. apply (with_bucket_in _ _ _ l); [done|by apply opened_in|]. intros Hxl.
    apply kicked_keeps; [done|]. by rewrite Hh.
Qed.

(** ** Reachable tables *)

(** The steps of the master node and of what its node clients go through. *)
Inductive dht_step : RouteTable B → RouteTable B → Prop :=
  | dht_new t j n : objects t !! j = None → Size (node_id n) = SHA1_SIZE_BITS →
      dht_step t (set_objects t (<[j := n]> (objects t)))
  | dht_disable t j n : objects t !! j = Some n →
      dht_step t (set_objects t (<[j := mkNode (node_id n) (raznica n) false]> (objects t)))
  | dht_insert t j t' : is_Some (objects t !! j) → InsertNode j t = Ok (tt, t') → dht_step t t'
  | dht_kick t id t' : Size id = SHA1_SIZE_BITS → KickNode id t = Ok (tt, t') → dht_step t t'
  | dht_refresh t k n t' : UpdateNodes k t = Ok (n, t') → dht_step t t'.

Inductive dht_reachable (t0 : RouteTable B) : RouteTable B → Prop :=
  | dht_start : dht_reachable t0 t0
  | dht_next t t' : dht_reachable t0 t → dht_step t t' → dht_reachable t0 t'.

Lemma UpdateNodes_spec t k :
  table_inv t → (k < length (buckets_ t))%nat → ∃ n t', UpdateNodes k t = Ok (n, t') ∧ table_inv t'.
Proof.
  intros Ht Hk. destruct (lookup_lt_is_Some_2 _ _ Hk) as [l Hl]. eexists _, _.
  split; [apply update_nodes_eq; [exact Hl|by eapply inv_known]|].
  apply (shrink_inv _ _ l); [done|done|apply length_List_filter|]. by intros x [? _]%elem_of_List_filter.
Qed.

(** Objects with ids of the right size may come and change their status. *)
Lemma objects_inv t j n :
  table_inv t → Size (node_id n) = SHA1_SIZE_BITS →
  match objects t !! j with Some n' => node_id n' = node_id n | None => True end →
  table_inv (set_objects t (<[j := n]> (objects t))).
Proof.
  intros Ht Hn Hj. split; [apply Ht| |apply Ht|apply Ht|].
  - intros x y. cbn. intros [[_ <-]|[_ Hx]]%lookup_insert_Some; [done|by eapply inv_objects].
  - intros k l x Hk Hx. destruct (inv_nodes _ Ht _ _ _ Hk Hx) as [[n' Hx'] Hle]. unfold shared in *. cbn.
    destruct (decide (x = j)) as [->|Hne].
    + rewrite lookup_insert_eq. split; [done|]. rewrite Hx' in Hj, Hle. by rewrite <- Hj.
    + rewrite lookup_insert_ne by done. by rewrite Hx' in *.
Qed.

Lemma dht_step_inv t t' : dht_step t t' → table_inv t → table_inv t'.
Proof.
  intros [t1 j n Hj Hn|t1 j n Hj|t1 j t2 [n Hj] E|t1 id t2 Hid E|t1 k n t2 E] Ht.
  - apply objects_inv; [done|done|by rewrite Hj].
  - apply objects_inv; [done|exact (inv_objects _ Ht _ _ Hj)|by rewrite Hj].
  - destruct (InsertNode_spec _ _ _ Ht Hj) as (t3 & E3 & Ht3 & _). rewrite E in E3. by injection E3 as ->.
  - destruct (KickNode_spec _ _ Ht Hid) as (t3 & E3 & Ht3 & _). rewrite E in E3. by injection E3 as ->.
  - destruct (decide (k < length (buckets_ t1))%nat) as [Hk|Hk].
    + destruct (UpdateNodes_spec _ _ Ht Hk) as (n3 & t3 & E3 & Ht3). rewrite E in E3. by injection E3 as -> ->.
    + unfold UpdateNodes, update_nodes, bucket in E. apply st_bind_Ok_inv in E as (l & t3 & E1 & _).
      rewrite lookup_ge_None_2 in E1 by lia. discriminate E1.
Qed.

Lemma dht_reachable_inv t0 t : table_inv t0 → dht_reachable t0 t → table_inv t.
Proof. induction 2; [done|]. by eapply dht_step_inv. Qed.
End Invariant.

(** ** A split that loses track *)

Section Misplaced.
Context {B : Type} `{DynamicBitset B}.
Implicit Types t : RouteTable B.

Lemma List_filter_all (f : nat → bool) l : (∀ x, x ∈ l → f x = true) → List.filter f l = l.
Proof.
  intros Hf. induction l as [|x l IH]; [done|]. cbn. rewrite Hf by (by left). f_equal.
  apply IH. intros y Hy. apply Hf. by right.
Qed.

Lemma List_filter_none (f : nat → bool) l : (∀ x, x ∈ l → f x = false) → List.filter f l = [].
Proof.
  intros Hf. induction l as [|x l IH]; [done|]. cbn. rewrite Hf by (by left).
  apply IH. intros y Hy. apply Hf. by right.
Qed.

Lemma added_full t l j :
  length l = KBuckets_deep → (∀ x, x ∈ l → alive t x = true) → added t l j = (false, l).
Proof.
  intros Hl Ha. unfold added. rewrite (List_filter_all (alive t)) by done. rewrite !decide_False by lia. done.
Qed.

Lemma misplace t j n bs l :
  table_inv t → buckets_ t = bs ++ [l] → length l = KBuckets_deep → (length bs < SHA1_SIZE_BITS - 2)%nat →
  objects t !! j = Some n → (length bs < prefix (node_id (master_ t)) (node_id n))%nat →
  (∀ x, x ∈ l → alive t x = true ∧ (length bs < shared t x)%nat) →
  ∃ t', InsertNode j t = Ok (tt, t') ∧ same_nodes t t' ∧ buckets_ t' = bs ++ [[j]; l].
Proof.
  intros Ht Hb Hl Hlen Hn Hp Hx. pose proof (inv_objects _ Ht _ _ Hn) as Hsz.
  assert (opened t = t) as Hop by (unfold opened; rewrite Hb; by destruct bs).
  assert (l ≠ []) as Hne by (intros ->; discriminate Hl).
  unfold InsertNode. erewrite st_bind_Ok by (unfold node; rewrite Hn; reflexivity). cbv beta.
  erewrite st_bind_Ok by (apply FindBucket_eq; [apply Ht|done]). cbv beta zeta.
  rewrite Nat2Z.id, Hop, Hb, length_app. cbn [length].
  replace (_ `min` _)%nat with (length bs) by lia.
  destruct (modify_node_same t j n (Z.of_nat (length bs)) Hn) as (t1 & E1 & Hs1 & Hb1).
  erewrite st_bind_Ok by exact E1. cbv beta. pose proof (same_nodes_inv _ _ Hs1 Hb1 Ht) as Ht1.
  rewrite Hb in Hb1. assert (buckets_ t1 !! length bs = Some l) as Hk by by rewrite Hb1, list_lookup_middle.
  erewrite st_bind_Ok by (apply AddNode_eq; [exact Hk|by eapply inv_known]). cbv beta.
  rewrite added_full by (try done; intros x Hxl; rewrite (same_nodes_alive t t1) by done; by apply Hx).
  cbn [fst snd]. assert (with_bucket t1 (length bs) l = t1) as ->
    by (unfold with_bucket; rewrite list_insert_id by done; by destruct t1).
  erewrite st_bind_Ok by reflexivity. cbv beta. rewrite Hb1, length_app. cbn [length negb andb].
  destruct (Z.eqb_spec (Z.of_nat (length bs)) (Z.of_nat (length bs + 1) - 1)); [|lia].
  destruct (split_spec t1 bs l Ht1 Hb1 Hlen Hne) as (t2 & E2 & Ht2 & Hs2 & Hb2).
  erewrite st_bind_Ok by exact E2. cbv iota beta. erewrite st_bind_Ok by reflexivity. cbv beta.
  rewrite Hb2, length_app. cbn [length].
  erewrite st_bind_Ok by (unfold lift, capacity; rewrite decide_True by lia; reflexivity). cbv beta.
  assert (∀ x, x ∈ l → is_at t1 (Z.of_nat (length bs)) x = false) as Hat.
  { intros x [_ Hd]%Hx. unfold is_at. rewrite (same_nodes_shared t t1) by done. apply Z.eqb_neq. lia. }
  rewrite (List_filter_none (is_at t1 _)), List_filter_all in Hb2 by (intros x Hxl; by rewrite ?Hat).
  assert (buckets_ t2 !! length bs = Some []) as Hk2 by by rewrite Hb2, list_lookup_middle.
  erewrite st_bind_Ok by (apply AddNode_eq; [exact Hk2|by eapply inv_known]).
  eexists. split; [reflexivity|]. split; [by etrans|].
  cbn. rewrite Hb2, insert_app_r_alt, Nat.sub_diag by lia. done.
Qed.

Lemma kick_misses t j n bs l :
  Size (node_id (master_ t)) = SHA1_SIZE_BITS → Size (node_id n) = SHA1_SIZE_BITS → known t l →
  buckets_ t = bs ++ [[j]; l] → (length bs < prefix (node_id (master_ t)) (node_id n))%nat →
  (∀ x, x ∈ l → has_id t (node_id n) x = false) →
  FindBucket (node_id n) t = Ok (Z.of_nat (S (length bs)), t) ∧ KickNode (node_id n) t = Ok (tt, t).
Proof.
  intros Hm Hsz Hl Hb Hp Hid. assert (opened t = t) as Hop by (unfold opened; rewrite Hb; by destruct bs).
  pose proof (FindBucket_eq t (node_id n) Hm Hsz) as E. rewrite Hop, Hb, length_app in E. cbn [length] in E.
  replace (_ `min` _)%nat with (S (length bs)) in E by lia. split; [done|].
  unfold KickNode. erewrite st_bind_Ok by exact E. cbv beta. rewrite Nat2Z.id.
  assert (buckets_ t !! S (length bs) = Some l) as Hk.
  { rewrite Hb, lookup_app_r by lia. by replace (S (length bs) - length bs)%nat with 1%nat by lia. }
  rewrite (Kick_eq _ _ l) by done. unfold kicked.
  assert (find_pos (has_id t (node_id n)) l = None) as ->.
  { clear -Hid. induction l as [|x l IH]; [done|]. cbn. rewrite Hid by (by left).
    rewrite IH; [done|]. intros y Hy. apply Hid. by right. }
  unfold with_bucket. rewrite list_insert_id by done. by destruct t.
Qed.
End Misplaced.

(** ** Properties *)

(** For two ids of 160 bits the bucket index computed from [BucketDistance]
    is the number of leading bits they share, 160 for equal ids (where the
    subtraction wraps around twice). *)
Theorem bucket_of_correct {B : Type} `{DynamicBitset B} (a b : B) :
  Size a = SHA1_SIZE_BITS → Size b = SHA1_SIZE_BITS →
  ∃ p, bucket_of a b = Ok (Z.of_nat p) ∧ (p ≤ SHA1_SIZE_BITS)%nat ∧
    (∀ i, (i < p)%nat → db_test a i = db_test b i) ∧
    ((p < SHA1_SIZE_BITS)%nat → db_test a p ≠ db_test b p).
Proof.
  intros Ha Hb. exists (prefix a b). split; [by apply bucket_of_prefix|]. split; [apply prefix_le|].
  by split; [intros i; apply prefix_same|apply prefix_differ].
Qed.

(** C27: in every state the DHT's master node can reach, with any objects coming,
    dying, being inserted and kicked and buckets refreshed, no bucket has more
    than eight nodes, there are fewer than 160 buckets, and every node of bucket
    [k] shares at least [k] leading bits with the master; the insertion of any
    object and the removal of any id end without an error: no failed assertion,
    no invalidated bucket reference, no access outside a bucket. *)
Theorem dht_safe {B : Type} `{DynamicBitset B} (m : Node B) t :
  Size (node_id m) = SHA1_SIZE_BITS → dht_reachable (new_table m) t →
  (∀ k l, buckets_ t !! k = Some l → (length l ≤ KBuckets_deep)%nat ∧
     ∀ j, j ∈ l → ∃ n p, objects t !! j = Some n ∧
       bucket_of (node_id (master_ t)) (node_id n) = Ok (Z.of_nat p) ∧ (k ≤ p)%nat) ∧
  (length (buckets_ t) < SHA1_SIZE_BITS)%nat ∧
  (∀ j, is_Some (objects t !! j) → is_Ok (InsertNode j t)) ∧
  (∀ id, Size id = SHA1_SIZE_BITS → is_Ok (KickNode id t)) ∧
  (∀ k, (k < length (buckets_ t))%nat → is_Ok (UpdateNodes k t)).
Proof.
  intros Hm Hr. pose proof (dht_reachable_inv _ _ (new_table_inv m Hm) Hr) as Ht. split_and!.
  - intros k l Hk. split; [by eapply inv_depth|]. intros j Hj.
    destruct (inv_nodes _ Ht _ _ _ Hk Hj) as [[n Hn] Hle]. exists n, (shared t j). split; [done|]. split; [|done].
    unfold shared. rewrite Hn. apply bucket_of_prefix; [apply Ht|by eapply inv_objects].
  - apply Ht.
  - intros j [n Hn]. destruct (InsertNode_spec t j n Ht Hn) as (t' & E & _). by eexists.
  - intros id Hid. destruct (KickNode_spec t id Ht Hid) as (t' & E & _). by eexists.
  - intros k Hk. destruct (UpdateNodes_spec t k Ht Hk) as (n & t' & E & _). by eexists.
Qed.

(** inserting a node into a reachable table never drops a live one: the nodes
    of the table afterwards are among the old ones and the new one, and every
    old one that is alive is still there. *)
Theorem InsertNode_keeps_alive {B : Type} `{DynamicBitset B} (m : Node B) t j :
  Size (node_id m) = SHA1_SIZE_BITS → dht_reachable (new_table m) t → is_Some (objects t !! j) →
  ∃ t', InsertNode j t = Ok (tt, t') ∧
    (∀ x, x ∈ concat (buckets_ t') → x = j ∨ x ∈ concat (buckets_ t)) ∧
    (∀ x n, x ∈ concat (buckets_ t) → objects t !! x = Some n → IsAlive n = true → x ∈ concat (buckets_ t')).
Proof.
  intros Hm Hr [n Hn]. pose proof (dht_reachable_inv _ _ (new_table_inv m Hm) Hr) as Ht.
  destruct (InsertNode_spec t j n Ht Hn) as (t' & E & _ & [_ Hin Hk]). exists t'. split; [done|].
  setoid_rewrite <- in_table_concat. split; [done|]. intros x nx Hx Hnx Ha. apply Hk; [done|].
  unfold alive. by rewrite Hnx.
Qed.

(** When a full last bucket is split, [InsertNode] retries the bucket it had
    and not the one the new node belongs to: a node that shares more bits than
    the old bucket stands for ends up in the old bucket, alone, where neither
    [FindBucket] nor [KickNode] looks for it. *)
Theorem InsertNode_misplaces {B : Type} `{DynamicBitset B} t j (n : Node B) bs l :
  table_inv t → buckets_ t = bs ++ [l] → length l = KBuckets_deep → (length bs < SHA1_SIZE_BITS - 2)%nat →
  objects t !! j = Some n → (length bs < prefix (node_id (master_ t)) (node_id n))%nat →
  (∀ x, x ∈ l → alive t x = true ∧ (length bs < shared t x)%nat ∧ has_id t (node_id n) x = false) →
  ∃ t', InsertNode j t = Ok (tt, t') ∧ buckets_ t' = bs ++ [[j]; l] ∧
    FindBucket (node_id n) t' = Ok (Z.of_nat (S (length bs)), t') ∧ KickNode (node_id n) t' = Ok (tt, t').
Proof.
  intros Ht Hb Hl Hlen Hn Hp Hx.
  destruct (misplace t j n bs l) as (t' & E & Hs & Hb'); try done.
  { intros x Hxl. destruct (Hx x Hxl) as (? & ? & _). done. }
  exists t'. split; [done|]. split; [done|]. pose proof Hs as [Hm Hobj].
  apply (kick_misses t' j n bs l).
  - rewrite Hm. apply Ht.
  - exact (inv_objects _ Ht _ _ Hn).
  - eapply same_nodes_known; [exact Hs|]. eapply (inv_known _ (length bs)); [exact Ht|].
    by rewrite Hb, list_lookup_middle.
  - exact Hb'.
  - rewrite Hm. exact Hp.
  - intros x Hxl. destruct (Hx x Hxl) as (_ & _ & Hid). unfold has_id in *. specialize (Hobj x).
    destruct (objects t' !! x), (objects t !! x); [|discriminate Hobj..|reflexivity].
    cbn [fmap option_fmap option_map] in Hobj. injection Hobj as -> _. exact Hid.
Qed.

(** [FindNearestList] is undefined for every table and hash: the range of its
    loop is the two iterators themselves, and the second one is past the end. *)
Theorem FindNearestList_undefined {B : Type} `{DynamicBitset B} (hash : B) t :
  FindNearestList hash t = UB.
Proof.
  unfold FindNearestList. erewrite st_bind_Ok by reflexivity. cbv beta. unfold mbind, ST_bind, deref_reverse.
  destruct (reverse (buckets_ t) !! 0%nat); [|done]. cbn.
  assert (reverse (buckets_ t) !! length (buckets_ t) = None) as ->; [|done].
  apply lookup_ge_None_2. rewrite length_reverse. lia.
Qed.

(** ** The properties at concrete inputs *)

Module SampleIds.
(** An id of zeros but for bit [p]. *)
Definition id_at (p : nat) : list bool := replicate p false ++ true :: replicate (159 - p) false.
Definition master : Node (list bool) := mkNode (replicate 160 false) 0 true.
Definition object (p : nat) : Node (list bool) := mkNode (id_at p) 0 true.
Definition objs : gmap nat (Node (list bool)) :=
  list_to_map (map (fun j => (j, object (j + 1))) (seq 0 9)).
Definition eight : list nat := seq 0 8.
Definition full : RouteTable (list bool) := mkTable master objs [eight].

Lemma objs_size : map_Forall (fun _ n => Size (node_id n) = SHA1_SIZE_BITS) objs.
Proof. apply (bool_decide_unpack _). vm_compute. done. Qed.

Lemma full_inv : table_inv full.
Proof.
  split; [done|apply objs_size|cbn; unfold SHA1_SIZE_BITS; lia|..].
  - intros [|k] l Hk; [|done]. injection Hk as <-. done.
  - intros [|k] l j Hk Hj; [|done]. injection Hk as <-. split; [|lia].
    assert (Forall (fun j => is_Some (objs !! j)) eight) as Hf by (apply (bool_decide_unpack _); vm_compute; done).
    exact (proj1 (list.Forall_forall _ _) Hf j Hj).
Qed.

Lemma full_eight x : x ∈ eight →
  alive full x = true ∧ (0 < shared full x)%nat ∧ has_id full (id_at 9) x = false.
Proof.
  revert x. apply list.Forall_forall. Transparent prefix. apply (bool_decide_unpack _). vm_compute. done.
Qed.
#[local] Opaque prefix.
End SampleIds.

Lemma bucket_of_correct_witness :
  ∃ p, bucket_of (SampleIds.id_at 5) (replicate 160 false) = Ok (Z.of_nat p) ∧ (p ≤ SHA1_SIZE_BITS)%nat ∧
    (∀ i, (i < p)%nat → db_test (SampleIds.id_at 5) i = db_test (replicate 160 false) i) ∧
    ((p < SHA1_SIZE_BITS)%nat → db_test (SampleIds.id_at 5) p ≠ db_test (replicate 160 false) p).
Proof. apply (bucket_of_correct (SampleIds.id_at 5) (replicate 160 false)); reflexivity. Defined.

(** A table after one object has come. *)
Lemma SampleIds_reachable :
  dht_reachable (new_table SampleIds.master)
    (set_objects (new_table SampleIds.master) {[0%nat := SampleIds.object 3]}).
Proof. eapply dht_next; [apply dht_start|]. by apply dht_new. Qed.

Lemma dht_safe_witness :
  is_Ok (InsertNode 0 (set_objects (new_table SampleIds.master) {[0%nat := SampleIds.object 3]})).
Proof.
  destruct (dht_safe SampleIds.master
    (set_objects (new_table SampleIds.master) {[0%nat := SampleIds.object 3]})) as (_ & _ & Hi & _).
  - reflexivity.
  - apply SampleIds_reachable.
  - apply Hi. by eexists.
Defined.

Lemma InsertNode_keeps_alive_witness :
  ∃ t', InsertNode 0 (set_objects (new_table SampleIds.master) {[0%nat := SampleIds.object 3]}) = Ok (tt, t') ∧
    (∀ x, x ∈ concat (buckets_ t') → x = 0%nat ∨ x ∈ []).
Proof.
  destruct (InsertNode_keeps_alive SampleIds.master
    (set_objects (new_table SampleIds.master) {[0%nat := SampleIds.object 3]}) 0%nat) as (t' & E & Hin & _).
  - reflexivity.
  - apply SampleIds_reachable.
  - by eexists.
  - by exists t'.
Defined.

Lemma InsertNode_misplaces_witness :
  ∃ t', InsertNode 8 SampleIds.full = Ok (tt, t') ∧ buckets_ t' = [] ++ [[8%nat]; SampleIds.eight] ∧
    FindBucket (SampleIds.id_at 9) t' = Ok (Z.of_nat 1, t') ∧ KickNode (SampleIds.id_at 9) t' = Ok (tt, t').
Proof.
  apply (InsertNode_misplaces SampleIds.full 8%nat (SampleIds.object 9) [] SampleIds.eight).
  - apply SampleIds.full_inv.
  - reflexivity.
  - reflexivity.
  - cbn. lia.
  - vm_compute. reflexivity.
  - apply (bool_decide_unpack _). vm_compute. exact I.
  - apply SampleIds.full_eight.
Defined.
