(* ===== verification/DhtMaster.v ===== *)
(** * The master node of the DHT and its clients (src/DHT/Node.h, Node.cpp, src/Network/DHT/NodeClient.h, NodeClient.cpp, KRPC.h; [dht_catcher] of src/Network/Listener.cpp)

    [MasterNode] owns the routing table of Dht.v and a worker with one thread;
    nodes are inserted and queries called by its jobs.  A [NodeClient] is a
    [dht::Node] with a UDP socket: what the table reads of it is an object of
    the table, the rest is a [Client] of the same number.  Events are those of
    the sockets, the timers and the worker.  A callback is a number; [called]
    lists the ones that were called. *)

From Stdlib Require Import ZArith Lia Strings.Byte Strings.String.
From coqutil Require Import Byte.
From S2P Require Import Prelude Bytes Streams Bencode Text Message Tracker Worker Bitset Bitfield Dht.

Definition Callback := nat.

(** ** KRPC.h *)

(** [KRPCQuery] is abstract and no class of the source implements [Call]: there
    are no objects of it, and a shared pointer to one can only be null. *)
Inductive KRPCQuery : Set := .
Definition rpc_type := option KRPCQuery.

(** ** The state *)

(** What a timer does after cancelling the operations. *)
Inductive TimerThen := TNothing | TFailed (on_failed : Callback).

Inductive Job :=
  | JResolve (host port : bytes)
  | JAwait (k : TimerThen)
  | JSend (msg : bytes) (type : bytes) (on_success on_failed : Callback)
  | JReceive (max_size : nat).

(** The members of [dht::Node] the routing table does not read, and those of
    [UDPSocket] and [NodeClient]. *)
Record Client := mkClient {
  id_sha1 : bytes;
  ip : Z;
  port : Z;
  weight : Z;
  socket_open : bool;
  endpoints_ : list Z;
  timeout_ : option TimerThen;
  jobs : list Job;
  resolving : nat;
  pending_sends : list (bytes * Z * bytes * Callback * Callback);
  pending_receives : list nat;
  req_by_callbacks_ : gmap bytes (Callback * Callback);
}.

Definition set_node (c : Client) sha i p w : Client :=
  mkClient sha i p w (socket_open c) (endpoints_ c) (timeout_ c) (jobs c) (resolving c) (pending_sends c) (pending_receives c)
    (req_by_callbacks_ c).
Definition set_endpoints (c : Client) eps : Client :=
  mkClient (id_sha1 c) (ip c) (port c) (weight c) (socket_open c) eps (timeout_ c) (jobs c) (resolving c) (pending_sends c)
    (pending_receives c) (req_by_callbacks_ c).
Definition set_timeout (c : Client) t : Client :=
  mkClient (id_sha1 c) (ip c) (port c) (weight c) (socket_open c) (endpoints_ c) t (jobs c) (resolving c) (pending_sends c)
    (pending_receives c) (req_by_callbacks_ c).
Definition set_jobs (c : Client) js : Client :=
  mkClient (id_sha1 c) (ip c) (port c) (weight c) (socket_open c) (endpoints_ c) (timeout_ c) js (resolving c) (pending_sends c)
    (pending_receives c) (req_by_callbacks_ c).
Definition set_pending (c : Client) r ss vs : Client :=
  mkClient (id_sha1 c) (ip c) (port c) (weight c) (socket_open c) (endpoints_ c) (timeout_ c) (jobs c) r ss vs (req_by_callbacks_ c).
Definition set_callbacks (c : Client) cs : Client :=
  mkClient (id_sha1 c) (ip c) (port c) (weight c) (socket_open c) (endpoints_ c) (timeout_ c) (jobs c) (resolving c) (pending_sends c)
    (pending_receives c) cs.
Definition set_open (c : Client) : Client :=
  mkClient (id_sha1 c) (ip c) (port c) (weight c) true (endpoints_ c) (timeout_ c) (jobs c) (resolving c)
    (pending_sends c) (pending_receives c) (req_by_callbacks_ c).

(** The lambdas the worker runs. *)
Inductive WorkerJob := InsertJob (nc : nat) | CallJob (rpc : rpc_type).

Section DhtMaster.
Context {B : Type} `{DynamicBitset B} `{Host} `{Sha1}.

(** The id of the master is that of the table's [master_]. *)
Record MasterNode := mkMaster {
  master_sha1 : bytes;
  route_table_ : RouteTable B;
  a_worker_ : AsyncWorker (J:=WorkerJob);
  clients : gmap nat Client;
  called : list Callback;
}.

Definition set_table (m : MasterNode) t : MasterNode :=
  mkMaster (master_sha1 m) t (a_worker_ m) (clients m) (called m).
Definition set_worker (m : MasterNode) w : MasterNode :=
  mkMaster (master_sha1 m) (route_table_ m) w (clients m) (called m).
Definition set_clients (m : MasterNode) cs : MasterNode :=
  mkMaster (master_sha1 m) (route_table_ m) (a_worker_ m) cs (called m).
Definition set_called (m : MasterNode) cs : MasterNode :=
  mkMaster (master_sha1 m) (route_table_ m) (a_worker_ m) (clients m) cs.

(** The constructor, once the cache directory is there; [key] as in [Node_make]. *)
Definition MasterNode_make (key : bytes) : outcome MasterNode :=
  n ← Node_make key;
  Ok (mkMaster (GetSHA1 key) (new_table n) (Start new_worker) ∅ []).

Abbreviation M := (ST MasterNode).

(** An operation of the routing table. *)
Definition on_table {A} (f : ST (RouteTable B) A) : M A := fun m =>
  '(a, t) ← f (route_table_ m); Ok (a, set_table m t).

Definition client (j : nat) : M Client := fun m => c ← opt_ub (clients m !! j); Ok (c, m).
Definition modify_client (j : nat) (f : Client → Client) : M unit := fun m =>
  c ← opt_ub (clients m !! j); Ok (tt, set_clients m (<[j := f c]> (clients m))).

(** ** Node.cpp *)

(** [rs] are the numbers the generator gives for the id of a job. *)
Definition enqueue (job : WorkerJob) (rs : list Z) : M unit := fun m =>
  '(_, w, _) ← Enqueue (a_worker_ m) job rs; Ok (tt, set_worker m w).

Definition AddRPC (rpc : rpc_type) (rs : list Z) : M unit := enqueue (CallJob rpc) rs.
Definition TryToInsertNode (nc : nat) (rs : list Z) : M unit := enqueue (InsertJob nc) rs.

Definition Call (q : KRPCQuery) : M unit := match q with end.

Definition run_worker_job (job : WorkerJob) : M unit :=
  match job with
  | InsertJob nc => on_table (InsertNode nc)
  | CallJob rpc => q ← lift (opt_ub rpc); Call q
  end.

(** A round of the worker's thread, with the job it runs. *)
Definition worker_round (m : MasterNode) : option (outcome (unit * MasterNode)) :=
  match run_round (a_worker_ m) with
  | Some (job, _, w) => Some (run_worker_job job (set_worker m w))
  | None => None
  end.

(** ** NodeClient.cpp *)

(** [make_shared<NodeClient>(ip, port, master, strand)]: the number of the new object. *)
Definition new_client (key : bytes) (ip port : Z) : M nat := fun m =>
  n ← Node_make key;
  let t := route_table_ m in
  let j := base.fresh (dom (objects t)) in
  Ok (j, set_clients (set_table m (set_objects t (<[j := n]> (objects t))))
           (<[j := mkClient (GetSHA1 key) ip port 0 false [] None [] 0 [] [] ∅]> (clients m))).

Definition Post (j : nat) (job : Job) : M unit := modify_client j (fun c => set_jobs c (jobs c ++ [job])).
Definition stop_await (j : nat) : M unit := modify_client j (fun c => set_timeout c None).
Definition call (f : Callback) : M unit := modify (fun m => set_called m (called m ++ [f])).

(** [status_ = status::DISABLED] *)
Definition disable (j : nat) : M unit :=
  on_table (modify_node j (fun n => mkNode (node_id n) (raznica n) false)).
Definition client_alive (j : nat) : M bool := on_table (n ← node j; mret (IsAlive n)).

Definition connect (j : nat) : M unit :=
  c ← client j;
  _ ← Post j (JResolve (IpToStr (ip c)) (print_dec (port c)));
  Post j (JAwait TNothing).

Definition MakeMessage (doc : Document) : bytes :=
  sm_data (CopyFrom_stream (sm_make BigEndian) (is_open (MakeSerialize (GetRoot doc)))).

(** What follows the first statement is never reached. *)
Definition Ping (j : nat) (on_failed : Callback) : M unit := mret tt.

Definition SendQuery (j : nat) (doc : Document) (on_success on_failed : Callback) : M unit :=
  type ← lift (n ← at_key (GetRoot doc) (str "q"); AsString n);
  _ ← Post j (JSend (MakeMessage doc) type on_success on_failed);
  Post j (JAwait (TFailed on_failed)).

Definition get_dht_query (j : nat) : M unit := Post j (JReceive MTU).

(** The callback of a read; whatever it throws leaves the service. *)
Definition on_datagram (j : nat) (data : bytes) (rs : list Z) : M unit :=
  alive ← client_alive j;
  if (alive : bool) then
    doc ← lift (Load (2 * length data + 3) (is_open data));
    y ← lift (n ← at_key (GetRoot doc) (str "y"); AsString n);
    _ ← when (negb (bool_decide (y = str "r"))) (AddRPC None rs);
    get_dht_query j
  else mret tt.

(** ** Listener.cpp *)

(** The other constructor of [NodeClient]: the address is that of the socket's
    other side, as the system gives it; the socket is open already. *)
Definition client_of_socket (key : bytes) (remote_ep : outcome (bytes * Z)) : M nat :=
  ep ← lift remote_ep;
  ip_int ← lift (IpToInt (fst ep));
  j ← new_client key (u32 ip_int) (u16 (snd ep));
  _ ← modify_client j set_open;
  mret j.

(** The callback of [dht_catcher]: the operator [[]] is that of arrays, and the
    type it gives is not used. *)
Definition on_dht_datagram (key : bytes) (remote_ep : outcome (bytes * Z)) (data : bytes) (rs1 rs2 : list Z) : M unit :=
  j ← client_of_socket key remote_ep;
  _ ← TryToInsertNode j rs1;
  root ← lift ('(root, _) ← LoadNode (2 * length data + 3) (is_open data); Ok root);
  type ← lift (n ← at_index root (Z.to_nat (byte.unsigned "q")); AsString n);
  AddRPC None rs2.

(** ** Socket.h *)

(** Datagrams go to, and come from, [*endpoint_iter_]. *)
Definition endpoint (j : nat) : M Z := c ← client j; lift (opt_ub (head (endpoints_ c))).

(** [socket_.open(protocol)], the overload that throws. *)
Definition open_socket (j : nat) : M unit :=
  c ← client j;
  if socket_open c then lift (Throw already_open) else modify_client j set_open.

Definition run_job (j : nat) (job : Job) : M unit :=
  match job with
  | JResolve _ _ => modify_client j (fun c => set_pending c (S (resolving c)) (pending_sends c) (pending_receives c))
  | JAwait k => modify_client j (fun c => set_timeout c (Some k))
  | JSend msg type s f =>
      ep ← endpoint j;
      modify_client j (fun c => set_pending c (resolving c) (pending_sends c ++ [(msg, ep, type, s, f)]) (pending_receives c))
  | JReceive max_size =>
      _ ← endpoint j;
      modify_client j (fun c => set_pending c (resolving c) (pending_sends c) (pending_receives c ++ [max_size]))
  end.

Definition on_sent (j : nat) (type : bytes) (s f : Callback) : M unit :=
  modify_client j (fun c => set_callbacks c (<[type := (s, f)]> (req_by_callbacks_ c))).
Definition on_send_failed (j : nat) (f : Callback) : M unit := _ ← call f; disable j.
Definition on_timeout (j : nat) (k : TimerThen) : M unit :=
  match k with TNothing => mret tt | TFailed f => _ ← call f; disable j end.

(** ** Events *)

(** [NRefresh]: the timer of a bucket; the others name the client they are of. *)
Inductive event :=
  | NRun (j : nat)
  | NResolved (j : nat) (eps : list Z)
  | NResolveFailed (j : nat)
  | NSent (j : nat)
  | NSendFailed (j : nat)
  | NReceived (j : nat) (data : bytes) (rs : list Z)
  | NReceiveFailed (j : nat)
  | NTimeout (j : nat)
  | NRefresh (k : nat)
  | NWorker.

(** [None]: the event cannot happen now. *)
Definition handle_event (e : event) (m : MasterNode) : option (outcome (unit * MasterNode)) :=
  match e with
  | NRun j =>
      c ← clients m !! j;
      match jobs c with
      | job :: js => Some ((_ ← modify_client j (fun c => set_jobs c js); run_job j job) m)
      | [] => None
      end
  | NResolved j eps =>
      c ← clients m !! j;
      match resolving c, eps with
      | S n, _ :: _ => Some ((
          _ ← modify_client j (fun c => set_pending c n (pending_sends c) (pending_receives c));
          _ ← modify_client j (fun c => set_endpoints c eps);
          _ ← stop_await j;
          open_socket j) m)
      | _, _ => None
      end
  | NResolveFailed j =>
      c ← clients m !! j;
      match resolving c with
      | S n => Some (modify_client j (fun c => set_pending c n (pending_sends c) (pending_receives c)) m)
      | O => None
      end
  | NSent j =>
      c ← clients m !! j;
      match pending_sends c with
      | (_, _, type, s, f) :: ss => Some ((
          _ ← modify_client j (fun c => set_pending c (resolving c) ss (pending_receives c));
          on_sent j type s f) m)
      | [] => None
      end
  | NSendFailed j =>
      c ← clients m !! j;
      match pending_sends c with
      | (_, _, _, _, f) :: ss => Some ((
          _ ← modify_client j (fun c => set_pending c (resolving c) ss (pending_receives c));
          on_send_failed j f) m)
      | [] => None
      end
  | NReceived j data rs =>
      c ← clients m !! j;
      match pending_receives c with
      | max_size :: vs =>
          if bool_decide (length data ≤ max_size)%nat then Some ((
            _ ← modify_client j (fun c => set_pending c (resolving c) (pending_sends c) vs);
            _ ← stop_await j;
            on_datagram j data rs) m)
          else None
      | [] => None
      end
  | NReceiveFailed j =>
      c ← clients m !! j;
      match pending_receives c with
      | _ :: vs => Some ((
          _ ← modify_client j (fun c => set_pending c (resolving c) (pending_sends c) vs);
          _ ← stop_await j;
          disable j) m)
      | [] => None
      end
  | NTimeout j =>
      c ← clients m !! j;
      match timeout_ c with
      | Some k => Some ((_ ← stop_await j; on_timeout j k) m)
      | None => None
      end
  | NRefresh k =>
      if bool_decide (k < length (buckets_ (route_table_ m)))%nat
      then Some ((_ ← on_table (UpdateNodes k); mret tt) m) else None
  | NWorker => worker_round m
  end.

(** What others may do with the master node besides: make a client by either
    constructor, hand it to the table, and call what [NodeClient] declares for
    it, [connect], [get_dht_query] and [SendQuery], any number of times in any
    order.  Nothing under src/ calls these three: main_dht and the listener only
    make clients and hand them over. *)
Inductive master_step : MasterNode → MasterNode → Prop :=
  | step_event m e m' : handle_event e m = Some (Ok (tt, m')) → master_step m m'
  | step_client m key i p j m' : length key = key_size → new_client key i p m = Ok (j, m') → master_step m m'
  | step_socket m key remote_ep j m' : length key = key_size → client_of_socket key remote_ep m = Ok (j, m') → master_step m m'
  | step_connect m j m' : connect j m = Ok (tt, m') → master_step m m'
  | step_listen m j m' : get_dht_query j m = Ok (tt, m') → master_step m m'
  | step_query m j doc s f m' : SendQuery j doc s f m = Ok (tt, m') → master_step m m'
  | step_insert m j rs m' : is_Some (clients m !! j) → TryToInsertNode j rs m = Ok (tt, m') → master_step m m'.
End DhtMaster.

Arguments MasterNode B : clear implicits.
