(* ===== verification/DhtMasterFacts.v ===== *)
(** * What the master node of the DHT promises

    The invariant of the master node and its clients, what can end the program,
    and what becomes of queries. *)

From Stdlib Require Import ZArith Lia Strings.Byte Strings.String.
From coqutil Require Import Byte.
From stdpp Require Import relations.
From S2P Require Import Prelude Bytes Streams Bencode Text Message Tracker Worker Bitset Bitfield Dht DhtFacts DhtMaster.

Section Made.
Context {B : Type} `{DynamicBitsetLaws B} `{Host} `{S1 : Sha1} `{!Sha1Laws S1}.

(** The assertion of the constructor holds. *)
Lemma Node_made key : ∃ n : Node B, Node_make key = Ok n ∧ Size (node_id n) = SHA1_SIZE_BITS ∧ IsAlive n = true.
Proof.
  unfold Node_make. rewrite Bitfield_data_bytes. cbn [mbind outcome_bind].
  destruct (Bitfield_bytes_spec (B:=B) (GetSHA1 key)) as [Hs _]. rewrite length_GetSHA1 in Hs.
  rewrite bool_decide_true by done. cbn. eexists. split; [reflexivity|]. by split.
Qed.
End Made.

Section Master.
Context {B : Type} `{DynamicBitset B} `{Host} `{S1 : Sha1}.
Implicit Types m : MasterNode B.

(** ** The invariant *)

Definition queued m : list WorkerJob := n_func <$> queue_ (a_worker_ m).

Record master_ok m : Prop := {
  mo_table : table_inv (route_table_ m);
  mo_clients j : is_Some (clients m !! j) ↔ is_Some (objects (route_table_ m) !! j);
  mo_jobs j : InsertJob j ∈ queued m → is_Some (clients m !! j);
  mo_worker : worker_inv (a_worker_ m);
  mo_started : stopped_ (a_worker_ m) = false;
}.

Lemma table_ok m t :
  master_ok m → table_inv t → (∀ j, is_Some (objects t !! j) ↔ is_Some (objects (route_table_ m) !! j)) →
  master_ok (set_table m t).
Proof.
  intros [Ht Hc Hj Hw Hs] Ht' Ho. split; cbn; try done. intros j. by rewrite Hc, Ho.
Qed.

Lemma clients_ok m cs :
  master_ok m → (∀ j, is_Some (cs !! j) ↔ is_Some (clients m !! j)) → master_ok (set_clients m cs).
Proof.
  intros [Ht Hc Hj Hw Hs] Hcs. split; cbn; try done.
  - intros j. by rewrite Hcs.
  - intros j Hin. rewrite Hcs. by apply Hj.
Qed.

Lemma client_ok m j c c' : master_ok m → clients m !! j = Some c → master_ok (set_clients m (<[j := c']> (clients m))).
Proof.
  intros Hm Hj. apply clients_ok; [done|]. intros x.
  destruct (decide (x = j)) as [->|Hne]; [rewrite lookup_insert_eq, Hj; split; by eexists|by rewrite lookup_insert_ne].
Qed.

Lemma called_ok m fs : master_ok m → master_ok (set_called m fs).
Proof. by intros [? ? ? ? ?]. Qed.

(** ** The worker *)

Lemma enqueue_ok m job rs u m' :
  master_ok m → enqueue job rs m = Ok (u, m') → (∀ j, job = InsertJob j → is_Some (clients m !! j)) →
  master_ok m' ∧ queued m' = queued m ++ [job] ∧ route_table_ m' = route_table_ m ∧ clients m' = clients m.
Proof.
  intros [Ht Hc Hj Hw Hs] E Hjob. unfold enqueue in E.
  apply bind_Ok_inv in E as ([[id w] rs'] & E & [= <- <-]). destruct (Enqueue_inv _ _ _ _ _ _ Hw E) as [Hw' _].
  unfold Enqueue in E. apply bind_Ok_inv in E as ([id' rs''] & _ & [= _ <- _]).
  assert (queued (set_worker m
    {| queue_ := queue_ (a_worker_ m) ++ [{| n_addr := next_addr (a_worker_ m); n_func := job; n_id := id' |}];
       executing_callbacks_ := <[id' := next_addr (a_worker_ m)]> (executing_callbacks_ (a_worker_ m));
       quit_ := quit_ (a_worker_ m); stopped_ := stopped_ (a_worker_ m); next_addr := S (next_addr (a_worker_ m)) |})
    = queued m ++ [job]) as Hq by (unfold queued; cbn; by rewrite fmap_app).
  split; [|split; [exact Hq|done]]. split; try done.
  intros j. rewrite Hq. intros [Hin|Hin%list_elem_of_singleton]%elem_of_app; [by apply Hj|by apply Hjob].
Qed.

Lemma enqueue_draws m job rs : (∃ u m', enqueue job rs m = Ok (u, m')) ∨ enqueue job rs m = NoFuel.
Proof.
  unfold enqueue, Enqueue.
  assert (∀ ids, (∃ p, draw_id ids rs = Ok p) ∨ draw_id ids rs = NoFuel) as Hd.
  { intros ids. induction rs as [|r rs IH]; [by right|]. cbn [draw_id]. case_decide; [done|left; by eexists]. }
  destruct (Hd (executing_callbacks_ (a_worker_ m))) as [[[id rs'] ->]| ->]; [left; by eexists _, _|by right].
Qed.

(** A round takes the first job. *)
Lemma round_takes m job rest :
  master_ok m → queued m = job :: rest →
  ∃ id w, run_round (a_worker_ m) = Some (job, id, w) ∧ master_ok (set_worker m w) ∧ queued (set_worker m w) = rest.
Proof.
  intros [Ht Hc Hj Hw Hs] Hq. unfold queued in Hq. destruct (queue_ (a_worker_ m)) as [|n q] eqn:Eq; [done|].
  injection Hq as Hjob Hrest. unfold run_round.
  assert (negb (quit_ (a_worker_ m)) && negb (stopped_ (a_worker_ m)) = true) as -> by by rewrite (inv_running _ Hw), Hs.
  rewrite Eq, Hjob. eexists _, _. split; [reflexivity|]. split; [|exact Hrest]. split; try done.
  - intros j Hin. apply Hj. unfold queued in *. rewrite Eq. cbn in *. by right.
  - apply (remove_node_inv _ [] n q Hw Eq).
Qed.

Lemma round_waits m : queued m = [] → run_round (a_worker_ m) = None.
Proof. unfold queued. intros Hq. apply fmap_nil_inv in Hq. unfold run_round. rewrite Hq. by destruct (negb _ && negb _). Qed.

Lemma worker_takes m job rest :
  master_ok m → queued m = job :: rest →
  ∃ w, worker_round m = Some (run_worker_job job (set_worker m w)) ∧
    master_ok (set_worker m w) ∧ queued (set_worker m w) = rest.
Proof.
  intros Hm Hq. destruct (round_takes m job rest Hm Hq) as (id & w & E & Hrest). exists w.
  unfold worker_round. by rewrite E.
Qed.

Lemma worker_waits m : queued m = [] → worker_round m = None.
Proof. intros Hq. unfold worker_round. by rewrite round_waits. Qed.

Lemma insert_job_runs m j :
  master_ok m → is_Some (clients m !! j) →
  ∃ t, run_worker_job (InsertJob j) m = Ok (tt, set_table m t) ∧ inserted (route_table_ m) t j ∧ master_ok (set_table m t).
Proof.
  intros Hm Hj. pose proof Hj as [n Hn]%(mo_clients _ Hm).
  destruct (InsertNode_spec _ _ _ (mo_table _ Hm) Hn) as (t & E & Hi). exists t. cbn. unfold on_table. rewrite E.
  split; [done|]. split; [done|]. destruct Hi as [Ht [Hs _ _]]. apply table_ok; [done|done|]. intros x.
  destruct Hs as [_ Ho]. specialize (Ho x).
  rewrite <- (fmap_is_Some (fun n => (node_id n, status_enabled n))), Ho. by rewrite fmap_is_Some.
Qed.
(** ** Handlers *)

(** What the handlers of client [j] keep. *)
Definition holds (j : nat) m : Prop := master_ok m ∧ is_Some (clients m !! j).

Lemma wp_modify_client j f m : holds j m → wp true (modify_client j f) (fun _ => holds j) m.
Proof.
  intros [Hm [c Hc]]. eapply wp_from_Ok; [unfold modify_client; rewrite Hc; reflexivity|].
  split; [by eapply client_ok|]. cbn. rewrite lookup_insert_eq. by eexists.
Qed.

Lemma wp_Post j job m : holds j m → wp true (Post j job) (fun _ => holds j) m.
Proof. apply wp_modify_client. Qed.

Lemma wp_stop_await j m : holds j m → wp true (stop_await j) (fun _ => holds j) m.
Proof. apply wp_modify_client. Qed.

Lemma wp_call j f m : holds j m → wp true (call f) (fun _ => holds j) m.
Proof. intros [Hm Hj]. eapply wp_from_Ok; [reflexivity|]. split; [by apply called_ok|done]. Qed.

Lemma wp_disable j m : holds j m → wp true (disable j) (fun _ => holds j) m.
Proof.
  intros [Hm Hj]. pose proof Hj as [n Hn]%(mo_clients _ Hm).
  eapply wp_from_Ok; [unfold disable, on_table, modify_node; rewrite Hn; reflexivity|]. split; [|done].
  apply table_ok; [done| |].
  - apply objects_inv; [apply Hm|exact (inv_objects _ (mo_table _ Hm) _ _ Hn)|by rewrite Hn].
  - intros x. cbn. destruct (decide (x = j)) as [->|Hne]; [rewrite lookup_insert_eq, Hn; split; by eexists|].
    by rewrite lookup_insert_ne.
Qed.

Lemma client_alive_eq j m : holds j m → client_alive j m = Ok (alive (route_table_ m) j, m).
Proof.
  intros [Hm [n Hn]%(mo_clients _ Hm)]. unfold client_alive, on_table, alive.
  erewrite st_bind_Ok by (unfold node; rewrite Hn; reflexivity). cbn. rewrite Hn. by destruct m.
Qed.

Lemma wp_AddRPC j rpc rs m : holds j m → wp true (AddRPC rpc rs) (fun _ => holds j) m.
Proof.
  intros [Hm Hj]. unfold wp, AddRPC. destruct (enqueue_draws m (CallJob rpc) rs) as [(u & m' & E)| ->]; [|done].
  rewrite E. destruct (enqueue_ok _ _ _ _ _ Hm E) as (Hm' & _ & _ & Hc); [done|]. split; [done|by rewrite Hc].
Qed.

(** The type of a datagram's message. *)
Definition datagram_type (data : bytes) : outcome bytes :=
  doc ← Load (2 * length data + 3) (is_open data); n ← at_key (GetRoot doc) (str "y"); AsString n.

Lemma on_datagram_eq j data rs m :
  holds j m →
  on_datagram j data rs m =
    if alive (route_table_ m) j then
      (y ← lift (datagram_type data); _ ← when (negb (bool_decide (y = str "r"))) (AddRPC None rs); get_dht_query j) m
    else Ok (tt, m).
Proof.
  intros Hm. unfold on_datagram. erewrite st_bind_Ok by by apply client_alive_eq. destruct (alive _ _); [|done].
  unfold mbind at 1 2 3, ST_bind, lift, datagram_type. destruct (Load _ _); [|done..]. cbn.
  destruct (at_key _ _); [|done..]. cbn. by destruct (AsString _).
Qed.

Lemma wp_on_datagram j data rs m :
  holds j m → (alive (route_table_ m) j = true → is_Ok (datagram_type data)) →
  wp true (on_datagram j data rs) (fun _ => holds j) m.
Proof.
  intros Hm Hd. unfold wp. rewrite on_datagram_eq by done. destruct (alive _ _); [|done].
  destruct (Hd eq_refl) as [y Ey]. apply (wp_bind true). eapply wp_lift; [exact Ey|].
  apply wp_bind. apply (wp_mono _ _ (fun _ => holds j)); [|intros _ m' Hm'; by apply wp_Post].
  apply wp_when; [|done]. intros _. by apply wp_AddRPC.
Qed.

Lemma wp_run_job j job m :
  holds j m → (∀ c, clients m !! j = Some c → match job with JSend _ _ _ _ | JReceive _ => endpoints_ c ≠ [] | _ => True end) →
  wp true (run_job j job) (fun _ => holds j) m.
Proof.
  intros Hm Hep. pose proof Hm as [_ [c Hc]]. specialize (Hep c Hc).
  assert (∀ f, endpoints_ c ≠ [] → wp true (ep ← endpoint j; modify_client j (f ep)) (fun _ => holds j) m) as Hsock.
  { intros f Hne. apply wp_bind. unfold endpoint. destruct (endpoints_ c) as [|ep eps] eqn:Ee; [done|].
    eapply wp_from_Ok; [|by apply wp_modify_client].
    erewrite st_bind_Ok by (unfold client; rewrite Hc; reflexivity). cbv beta. rewrite Ee. reflexivity. }
  destruct job; cbn [run_job]; [by apply wp_modify_client..| |]; by apply Hsock.
Qed.
(** ** Events *)

(** The events the master node does not survive. *)
Definition unhandled (e : event) m : Prop :=
  match e with
  | NRun j => ∃ c, clients m !! j = Some c ∧ endpoints_ c = [] ∧
      match head (jobs c) with Some (JSend _ _ _ _ | JReceive _) => True | _ => False end
  | NResolved j eps => ∃ c, clients m !! j = Some c ∧ socket_open c = true ∧ resolving c ≠ 0%nat ∧ eps ≠ []
  | NReceived j data _ => alive (route_table_ m) j = true ∧ ¬ is_Ok (datagram_type data)
  | NWorker => ∃ rpc, head (queued m) = Some (CallJob rpc)
  | _ => False
  end.

Lemma worker_good m r :
  master_ok m → worker_round m = Some r → ¬ unhandled NWorker m → ∃ m', r = Ok (tt, m') ∧ master_ok m'.
Proof.
  intros Hm E Hun. cbn in Hun. destruct (queued m) as [|job rest] eqn:Hq; [by rewrite worker_waits in E|].
  destruct (worker_takes m job rest Hm Hq) as (w & Ew & Hm1 & Hq1). rewrite E in Ew. injection Ew as ->.
  destruct job as [j|rpc]; [|destruct Hun; by eexists].
  destruct (insert_job_runs (set_worker m w) j Hm1) as (t & Et & _ & Hm2).
  { apply (mo_jobs _ Hm). rewrite Hq. by left. }
  rewrite Et. by eexists.
Qed.

(** What an answer of the resolver does to a socket that is not open. *)
Lemma resolved_eq j c n eps m :
  clients m !! j = Some c →
  (_ ← modify_client j (fun c => set_pending c n (pending_sends c) (pending_receives c));
   _ ← modify_client j (fun c => set_endpoints c eps); _ ← stop_await j; open_socket j) m
  = if socket_open c then Throw already_open
    else Ok (tt, set_clients m (<[j := set_open (set_timeout (set_endpoints
           (set_pending c n (pending_sends c) (pending_receives c)) eps) None)]> (clients m))).
Proof.
  intros Hc. erewrite st_bind_Ok by (unfold modify_client; rewrite Hc; reflexivity). cbv beta.
  erewrite st_bind_Ok by (unfold modify_client; cbn; rewrite lookup_insert_eq; reflexivity). cbv beta.
  erewrite st_bind_Ok by (unfold stop_await, modify_client; cbn; rewrite lookup_insert_eq; reflexivity). cbv beta.
  unfold open_socket. erewrite st_bind_Ok by (unfold client; cbn; rewrite lookup_insert_eq; reflexivity). cbv beta.
  cbn. destruct (socket_open c); [done|]. unfold modify_client. cbn. rewrite lookup_insert_eq. cbn.
  unfold set_clients. cbn. by rewrite !insert_insert_eq.
Qed.

Lemma resolved_ok j c n eps m :
  master_ok m → clients m !! j = Some c → socket_open c = false →
  ∃ m', (_ ← modify_client j (fun c => set_pending c n (pending_sends c) (pending_receives c));
   _ ← modify_client j (fun c => set_endpoints c eps); _ ← stop_await j; open_socket j) m = Ok (tt, m') ∧ master_ok m'.
Proof. intros Hm Hc Eo. rewrite (resolved_eq j c n eps m Hc), Eo. eexists. split; [done|]. by eapply client_ok. Qed.

(** Every other event is handled to its end, or waits for a random number. *)
Lemma master_event_good e m r :
  master_ok m → handle_event e m = Some r → ¬ unhandled e m →
  match r with Ok (_, m') => master_ok m' | NoFuel => True | _ => False end.
Proof.
  intros Hm E Hun.
  assert (∀ j (f : ST (MasterNode B) unit), wp true f (fun _ => holds j) m → r = f m →
    match r with Ok (_, m') => master_ok m' | NoFuel => True | _ => False end) as Hwp.
  { unfold wp. intros j f Hf ->. destruct (f m) as [[u m']| | | |]; try done. by destruct Hf. }
  assert (∀ j, is_Some (clients m !! j) → holds j m) as Hh by done.
  destruct e as [j|j eps|j|j|j|j data rs|j|j|k|]; cbn [handle_event] in E;
    try (destruct (clients m !! j) as [c|] eqn:Hc; [|discriminate E]; cbn [mbind option_bind] in E;
         assert (holds j m) as Hj by (apply Hh; by eexists)).
  - destruct (jobs c) as [|job js] eqn:Ej; [discriminate E|]. injection E as <-. eapply Hwp; [|done].
    apply wp_bind. eapply wp_from_Ok; [unfold modify_client; rewrite Hc; reflexivity|].
    apply wp_run_job; [split; [by eapply client_ok|cbn; rewrite lookup_insert_eq; by eexists]|].
    cbn. rewrite lookup_insert_eq. intros ? [= <-]. cbn.
    destruct job; try done; intros Hnil; apply Hun; cbn; exists c; by rewrite Ej.
  - destruct (resolving c) as [|n] eqn:Er; [discriminate E|]. destruct eps as [|ep eps]; [discriminate E|].
    injection E as <-. destruct (socket_open c) eqn:Eo; [destruct Hun; exists c; by rewrite Er|].
    destruct (resolved_ok j c n (ep :: eps) m Hm Hc Eo) as (m' & -> & Hm'). exact Hm'.
  - destruct (resolving c); [discriminate E|]. injection E as <-. eapply Hwp; [|done]. by apply wp_modify_client.
  - destruct (pending_sends c) as [|[[[[? ?] ?] ?] ?] ss]; [discriminate E|]. injection E as <-. eapply Hwp; [|done].
    wp_step (wp_modify_client _ _ _ Hj). intros ? m1 Ha1. by apply wp_modify_client.
  - destruct (pending_sends c) as [|[[[[? ?] ?] ?] ?] ss]; [discriminate E|]. injection E as <-. eapply Hwp; [|done].
    wp_step (wp_modify_client _ _ _ Hj). intros ? m1 Ha1. wp_step (wp_call _ _ _ Ha1). intros ? m2 Ha2. by apply wp_disable.
  - destruct (pending_receives c) as [|n vs]; [discriminate E|]. destruct (bool_decide _); [|discriminate E].
    injection E as <-. eapply Hwp; [|done]. cbn [unhandled] in Hun.
    apply wp_bind. eapply wp_from_Ok; [unfold modify_client; rewrite Hc; reflexivity|].
    apply wp_bind. eapply wp_from_Ok; [unfold stop_await, modify_client; cbn; rewrite lookup_insert_eq; reflexivity|].
    apply wp_on_datagram.
    + split; [eapply client_ok; [by eapply client_ok|cbn; apply lookup_insert_eq]|]. cbn. rewrite lookup_insert_eq. by eexists.
    + intros Ha. destruct (datagram_type data); [by eexists|destruct Hun; split; [done|intros [? [=]]]..].
  - destruct (pending_receives c) as [|n vs]; [discriminate E|]. injection E as <-. eapply Hwp; [|done].
    wp_step (wp_modify_client _ _ _ Hj). intros ? m1 Ha1. wp_step (wp_stop_await _ _ Ha1). intros ? m2 Ha2. by apply wp_disable.
  - destruct (DhtMaster.timeout_ c) as [k|]; [|discriminate E]. injection E as <-. eapply Hwp; [|done].
    wp_step (wp_stop_await _ _ Hj). intros ? m1 Ha1. destruct k; [exact Ha1|]. wp_step (wp_call _ _ _ Ha1). intros ? m2 Ha2.
    by apply wp_disable.
  - case_bool_decide as Hk; [|discriminate E]. injection E as <-.
    destruct (lookup_lt_is_Some_2 _ _ Hk) as [l Hl]. pose proof (inv_known _ _ _ (mo_table _ Hm) Hl) as Hkn.
    pose proof (update_nodes_eq _ _ _ Hl Hkn) as Et. unfold on_table, UpdateNodes. cbn. unfold mbind, ST_bind. rewrite Et. cbn.
    apply table_ok; [done| |done].
    apply (shrink_inv _ _ l); [by apply Hm|done|apply length_List_filter|]. by intros x [? _]%elem_of_List_filter.
  - destruct (worker_good _ _ Hm E Hun) as (m' & -> & Hm'). done.
Qed.
Lemma rpc_job_undefined m rpc : run_worker_job (CallJob rpc) m = UB.
Proof. by destruct rpc as [[]|]. Qed.

(** The others do not come back. *)
Lemma unhandled_ends e m u m' : master_ok m → unhandled e m → handle_event e m ≠ Some (Ok (u, m')).
Proof.
  intros Hm Hun E. destruct e as [j|j eps|j|j|j|j data rs|j|j|k|]; try done; cbn [unhandled handle_event] in *.
  - destruct Hun as (c & Hc & Ee & Hjob). rewrite Hc in E. cbn [mbind option_bind] in E.
    destruct (jobs c) as [|job js]; [done|]. injection E as E.
    apply st_bind_Ok_inv in E as (v & m1 & E1 & E). unfold modify_client in E1. rewrite Hc in E1. injection E1 as <- <-.
    destruct job; try done; cbn [run_job] in E; apply st_bind_Ok_inv in E as (ep & m2 & E2 & _);
      unfold endpoint, client in E2; apply st_bind_Ok_inv in E2 as (c1 & m3 & E3 & E2); cbn in E3;
      rewrite lookup_insert_eq in E3; injection E3 as <- <-; cbn in E2; by rewrite Ee in E2.
  - destruct Hun as (c & Hc & Eo & Hr & Hne). rewrite Hc in E. cbn [mbind option_bind] in E.
    destruct (resolving c) as [|n]; [done|]. destruct eps as [|ep eps]; [done|]. injection E as E.
    rewrite (resolved_eq j c n _ m Hc), Eo in E. discriminate E.
  - destruct Hun as [Ha Hd]. destruct (clients m !! j) as [c|] eqn:Hc; [|done]. cbn [mbind option_bind] in E.
    destruct (pending_receives c) as [|n vs]; [done|]. destruct (bool_decide _); [|done]. injection E as E.
    apply st_bind_Ok_inv in E as (v & m1 & E1 & E). unfold modify_client in E1. rewrite Hc in E1. injection E1 as <- <-.
    apply st_bind_Ok_inv in E as (v & m2 & E2 & E). unfold stop_await, modify_client in E2. cbn in E2.
    rewrite lookup_insert_eq in E2. injection E2 as <- <-.
    rewrite on_datagram_eq in E.
    + cbn [route_table_ set_clients] in E. rewrite Ha in E. apply st_bind_Ok_inv in E as (y & m3 & [Ey _]%lift_Ok_inv & _).
      destruct Hd. by exists y.
    + split; [eapply client_ok; [by eapply client_ok|cbn; apply lookup_insert_eq]|]. cbn. rewrite lookup_insert_eq. by eexists.
  - destruct Hun as [rpc Hq]. destruct (queued m) as [|job rest] eqn:Eq; [done|]. injection Hq as ->.
    destruct (worker_takes m _ _ Hm Eq) as (w & Ew & _). rewrite Ew in E. injection E as E. destruct rpc as [[]|]. discriminate E.
Qed.

Lemma event_kept e m u m' : master_ok m → handle_event e m = Some (Ok (u, m')) → master_ok m'.
Proof.
  intros Hm E. apply (master_event_good e m (Ok (u, m')) Hm E). intros Hun. by eapply unhandled_ends.
Qed.
End Master.

(** ** Reachable master nodes *)

Section Reachable.
Context {B : Type} `{DynamicBitsetLaws B} `{Host} `{S1 : Sha1} `{!Sha1Laws S1}.
Implicit Types m : MasterNode B.

Lemma made_ok key m : MasterNode_make key = Ok m → master_ok m.
Proof.
  unfold MasterNode_make. destruct (Node_made (B:=B) key) as (n & -> & Hn & _). cbn. intros [= <-]. split; try done.
  - by apply new_table_inv.
  - intros j. cbn. by rewrite !lookup_empty.
  - intros j Hj. by apply not_elem_of_nil in Hj.
  - cbn. pose proof (new_worker_inv (J:=WorkerJob)) as [? ? ? ? ?]. by split.
Qed.

(** A new client has a number of its own; the table does not know it yet. *)
Lemma client_made_ok key i p m :
  master_ok m → ∃ j n m', new_client key i p m = Ok (j, m') ∧ master_ok m' ∧ clients m !! j = None ∧
    Node_make key = Ok n ∧ objects (route_table_ m') = <[j := n]> (objects (route_table_ m)) ∧
    buckets_ (route_table_ m') = buckets_ (route_table_ m) ∧ master_ (route_table_ m') = master_ (route_table_ m) ∧
    a_worker_ m' = a_worker_ m ∧ is_Some (clients m' !! j) ∧ ∀ x, is_Some (clients m !! x) → is_Some (clients m' !! x).
Proof.
  intros Hm. destruct (Node_made (B:=B) key) as (n & En & Hn & _). unfold new_client. rewrite En. cbn [mbind outcome_bind].
  set (j := base.fresh (dom (objects (route_table_ m)))).
  assert (objects (route_table_ m) !! j = None) as Hj by (apply not_elem_of_dom, is_fresh).
  assert (clients m !! j = None) as Hcj.
  { apply eq_None_not_Some. intros Hs%(mo_clients _ Hm). rewrite Hj in Hs. by destruct Hs. }
  exists j, n. eexists. split; [reflexivity|]. split; [|split_and!; try done].
  - destruct Hm as [Ht Hc Hq Hw Hs]. split; cbn; try done.
    + apply objects_inv; [done|done|by rewrite Hj].
    + intros x. destruct (decide (x = j)) as [->|Hne]; [rewrite !lookup_insert_eq; split; by eexists|].
      rewrite !lookup_insert_ne by done. apply Hc.
    + intros x Hx%Hq. destruct (decide (x = j)) as [->|Hne]; [rewrite lookup_insert_eq; by eexists|].
      by rewrite lookup_insert_ne.
  - cbn. rewrite lookup_insert_eq. by eexists.
  - intros x Hx. cbn. destruct (decide (x = j)) as [->|Hne]; [rewrite lookup_insert_eq; by eexists|].
    by rewrite lookup_insert_ne.
Qed.

Lemma posts_ok (f : ST (MasterNode B) unit) j m u m' :
  (∀ m, holds j m → wp true f (fun _ => holds j) m) → holds j m → f m = Ok (u, m') → master_ok m'.
Proof. intros Hf Hm E. specialize (Hf m Hm). unfold wp in Hf. rewrite E in Hf. by destruct Hf. Qed.

Lemma client_holds j m c m' : master_ok m → client j m = Ok (c, m') → holds j m ∧ m' = m.
Proof.
  unfold client. intros Hm E. destruct (clients m !! j) eqn:Hj; [|discriminate E]. injection E as _ <-.
  split; [|done]. split; [done|by eexists].
Qed.

Lemma Post_holds j job m u m' : master_ok m → Post j job m = Ok (u, m') → holds j m'.
Proof.
  unfold Post, modify_client. intros Hm E. destruct (clients m !! j) eqn:Hj; [|discriminate E]. injection E as _ <-.
  split; [by eapply client_ok|]. cbn. rewrite lookup_insert_eq. by eexists.
Qed.

Lemma master_step_ok m m' : master_step m m' → master_ok m → master_ok m'.
Proof.
  intros [m1 e m2 E|m1 key i p j m2 _ E|m1 key ep j m2 _ E|m1 j m2 E|m1 j m2 E|m1 j doc s f m2 E|m1 j rs m2 Hj E] Hm.
  - by eapply event_kept.
  - destruct (client_made_ok key i p m1 Hm) as (? & ? & ? & E' & ? & _). rewrite E in E'. by injection E' as _ <-.
  - unfold client_of_socket in E. apply st_bind_Ok_inv in E as (x & m3 & [_ ->]%lift_Ok_inv & E).
    apply st_bind_Ok_inv in E as (y & m3 & [_ ->]%lift_Ok_inv & E). apply st_bind_Ok_inv in E as (j1 & m3 & E1 & E).
    destruct (client_made_ok key (u32 y) (u16 (snd x)) m1 Hm) as (? & ? & m4 & E' & Hm' & _).
    rewrite E1 in E'. injection E' as <- <-. apply st_bind_Ok_inv in E as ([] & m4 & E2 & [= _ <-]).
    unfold modify_client in E2. destruct (clients m3 !! j1) eqn:Hj; [|discriminate E2]. injection E2 as <-. by eapply client_ok.
  - unfold connect in E. apply st_bind_Ok_inv in E as (c & m3 & E1 & E).
    apply client_holds in E1 as [Hh ->]; [|done]. apply st_bind_Ok_inv in E as ([] & m4 & E2 & E).
    eapply Post_holds in E2; [|done]. by eapply Post_holds in E as [? _]; [|apply E2].
  - by apply Post_holds in E as [? _].
  - unfold SendQuery in E. apply st_bind_Ok_inv in E as (y & m3 & [_ ->]%lift_Ok_inv & E).
    apply st_bind_Ok_inv in E as ([] & m4 & E2 & E). eapply Post_holds in E2; [|done].
    by eapply Post_holds in E as [? _]; [|apply E2].
  - by destruct (enqueue_ok _ _ _ _ _ Hm E ltac:(by intros ? [= ->])).
Qed.

Lemma master_reachable_ok key m0 m : MasterNode_make key = Ok m0 → rtc master_step m0 m → master_ok m.
Proof. intros E Hr. apply made_ok in E. induction Hr; [done|]. by eapply IHHr, master_step_ok. Qed.
End Reachable.

(** ** What becomes of queries *)

Section Queries.
Context {B : Type} `{DynamicBitset B} `{Host} `{S1 : Sha1}.
Implicit Types m : MasterNode B.

(** The worker gets to the null pointer. *)
Lemma worker_reaches_rpc m rpc :
  master_ok m → CallJob rpc ∈ queued m →
  ∃ m', rtc master_step m m' ∧ handle_event NWorker m' = Some UB.
Proof.
  remember (queued m) as q eqn:Hq. revert m Hq. induction q as [|job q IH]; intros m Hq Hm Hin; [by apply not_elem_of_nil in Hin|].
  symmetry in Hq. destruct (worker_takes m _ _ Hm Hq) as (w & Ew & Hm1 & Hq1). destruct job as [j|rpc'].
  - apply elem_of_cons in Hin as [[=]|Hin].
    destruct (insert_job_runs (set_worker m w) j Hm1) as (t & Et & _ & Hm2).
    { apply (mo_jobs _ Hm). rewrite Hq. by left. }
    destruct (IH (set_table (set_worker m w) t)) as (m' & Hr & Hub); [done|done|done|].
    exists m'. split; [|done]. eapply rtc_l; [|exact Hr]. apply (step_event _ NWorker). cbn [handle_event]. by rewrite Ew, Et.
  - exists m. split; [apply rtc_refl|]. cbn [handle_event]. rewrite Ew. by destruct rpc' as [[]|].
Qed.

Lemma query_enqueued m j data rs m' y :
  master_ok m → handle_event (NReceived j data rs) m = Some (Ok (tt, m')) → alive (route_table_ m) j = true →
  datagram_type data = Ok y → y ≠ str "r" → queued m' = queued m ++ [CallJob None].
Proof.
  intros Hm E Ha Ey Hy. cbn [handle_event] in E. destruct (clients m !! j) as [c|] eqn:Hc; [|done].
  cbn [mbind option_bind] in E. destruct (pending_receives c) as [|n vs]; [done|]. destruct (bool_decide _); [|done].
  injection E as E. erewrite st_bind_Ok in E by (unfold modify_client; rewrite Hc; reflexivity). cbv beta in E.
  erewrite st_bind_Ok in E by (unfold stop_await, modify_client; cbn; rewrite lookup_insert_eq; reflexivity).
  cbv beta in E. match type of E with on_datagram _ _ _ ?x = _ => set (m1 := x) in * end.
  assert (holds j m1) as Hh.
  { split; [eapply client_ok; [by eapply client_ok|cbn; apply lookup_insert_eq]|]. cbn. rewrite lookup_insert_eq. by eexists. }
  rewrite on_datagram_eq in E by done. change (alive (route_table_ m1) j) with (alive (route_table_ m) j) in E.
  rewrite Ha in E. erewrite st_bind_Ok in E by (unfold lift; rewrite Ey; reflexivity). cbv beta in E.
  rewrite bool_decide_false in E by done. cbn [negb when] in E. apply st_bind_Ok_inv in E as ([] & m2 & E2 & E).
  destruct (enqueue_ok _ _ _ _ _ (proj1 Hh) E2) as (_ & Hq & _); [done|].
  unfold get_dht_query, Post, modify_client in E. destruct (clients m2 !! j); [|done]. injection E as <-. exact Hq.
Qed.

(** A document that is a dictionary does not start with a number. *)
Lemma dict_message_empty doc d : GetRoot doc = NDict d → MakeMessage doc = [].
Proof. unfold MakeMessage. intros ->. reflexivity. Qed.

(** The listener's catcher does not survive a dictionary, which every message of
    a DHT is: it asks it for the element of an array. *)
Lemma catcher_throws key remote_ep data rs1 rs2 m d s' :
  LoadNode (2 * length data + 3) (is_open data) = Ok (NDict d, s') →
  ∀ u m', on_dht_datagram key remote_ep data rs1 rs2 m ≠ Ok (u, m').
Proof.
  intros E u m'. unfold on_dht_datagram. intros (j & m1 & _ & E1)%st_bind_Ok_inv.
  apply st_bind_Ok_inv in E1 as (v & m2 & _ & E2). rewrite E in E2. discriminate E2.
Qed.
End Queries.

(** ** Properties *)

(** C30: in every state a master node can reach, every event of its sockets, timers
    and worker is handled to its end, or waits for a random number, but for
    four kinds, none of which is ever handled: a datagram for an endpoint that
    was never resolved, an answer of the resolver to a client whose socket is
    open already, a datagram to a live node that is not a document with a
    string under "y", and the worker's call of a query.  Buckets hold at most
    eight nodes, and the table knows clients only. *)
Theorem master_safe {B : Type} `{DynamicBitsetLaws B} `{Host} `{S1 : Sha1} `{!Sha1Laws S1} key (m0 m : MasterNode B) :
  MasterNode_make key = Ok m0 → rtc master_step m0 m →
  (∀ e r, handle_event e m = Some r → ¬ unhandled e m → (∃ m', r = Ok (tt, m')) ∨ r = NoFuel) ∧
  (∀ e m', unhandled e m → handle_event e m ≠ Some (Ok (tt, m'))) ∧
  (∀ k l, buckets_ (route_table_ m) !! k = Some l →
     (length l ≤ KBuckets_deep)%nat ∧ ∀ j, j ∈ l → is_Some (clients m !! j)).
Proof.
  intros E Hr. pose proof (master_reachable_ok _ _ _ E Hr) as Hm. split_and!.
  - intros e r Er Hun. pose proof (master_event_good e m r Hm Er Hun) as Hg.
    destruct r as [[[] m']| | | |]; try done; [left; by eexists|by right].
  - intros e m'. by apply unhandled_ends.
  - intros k l Hk. split; [by eapply inv_depth; [apply Hm|]|]. intros j Hj.
    apply (mo_clients _ Hm). by destruct (inv_nodes _ (mo_table _ Hm) _ _ _ Hk Hj).
Qed.

(** C31: a datagram that is a query ends the program: when a reachable master node
    takes a document whose "y" is not "r", it puts a null pointer in the
    worker's queue, and the worker, whose other jobs all succeed, gets to it. *)
Theorem query_ends_program {B : Type} `{DynamicBitsetLaws B} `{Host} `{S1 : Sha1} `{!Sha1Laws S1}
    key (m0 m m' : MasterNode B) j data rs y :
  MasterNode_make key = Ok m0 → rtc master_step m0 m →
  alive (route_table_ m) j = true → datagram_type data = Ok y → y ≠ str "r" →
  handle_event (NReceived j data rs) m = Some (Ok (tt, m')) →
  ∃ m'', rtc master_step m' m'' ∧ handle_event NWorker m'' = Some UB.
Proof.
  intros E Hr Ha Ey Hy Er. pose proof (master_reachable_ok _ _ _ E Hr) as Hm.
  apply (worker_reaches_rpc m' None); [by eapply event_kept|].
  rewrite (query_enqueued m j data rs m' y) by done. apply elem_of_app. right. by left.
Qed.

(** C32: [SendQuery] of a document whose "q" is a string posts an empty datagram,
    whatever the query is, and throws for every other document. *)
Theorem queries_are_empty {B : Type} `{DynamicBitset B} `{Host} `{Sha1} (m : MasterNode B) j c doc s f :
  clients m !! j = Some c →
  match GetRoot doc with
  | NDict d =>
      match find (str "q") d with
      | Some (NStr type) =>
          SendQuery j doc s f m = Ok (tt, set_clients m (<[j := set_jobs c (jobs c ++ [JSend [] type s f; JAwait (TFailed f)])]> (clients m)))
      | Some _ => SendQuery j doc s f m = Throw bad_variant_access
      | None => SendQuery j doc s f m = Throw out_of_range
      end
  | _ => SendQuery j doc s f m = Throw bad_variant_access
  end.
Proof.
  intros Hc. destruct doc as [[z|st|l|d]]; try reflexivity. cbn [GetRoot]. unfold SendQuery, at_key. cbn [GetRoot AsDict].
  destruct (find (str "q") d) as [[z|type|l|d']|] eqn:Ef; 
    try (unfold mbind at 1, ST_bind, lift; cbn [mbind outcome_bind]; rewrite Ef; reflexivity).
  erewrite st_bind_Ok by (unfold lift; cbn [mbind outcome_bind]; rewrite Ef; reflexivity). cbv beta.
  rewrite (dict_message_empty {| GetRoot := NDict d |} d) by done.
  erewrite st_bind_Ok by (unfold Post, modify_client; rewrite Hc; reflexivity). cbv beta.
  unfold Post, modify_client. cbn [clients set_clients]. rewrite lookup_insert_eq. cbn.
  unfold set_clients. cbn. by rewrite insert_insert_eq, <- app_assoc.
Qed.

(** ** A master node that is asked *)

Module Asked.
#[local] Existing Instances x86_64 toy_sha1 toy_sha1_laws.

Definition master_key : bytes := replicate 100 "m"%byte.
Definition client_key : bytes := replicate 100 "c"%byte.
Definition master : MasterNode (list bool) :=
  match MasterNode_make master_key with Ok m => m | _ => mkMaster [] (new_table (mkNode [] 0 false)) new_worker ∅ [] end.
Definition ping : bytes := str "d1:q4:ping1:y1:qe".

Inductive act := AEvent (e : event) | AClient (key : bytes) | AConnect (j : nat) | AListen (j : nat) | AInsert (j : nat).

Definition do_act (a : act) (m : MasterNode (list bool)) : option (outcome (unit * MasterNode (list bool))) :=
  match a with
  | AEvent e => handle_event e m
  | AClient key => if decide (length key = key_size) then Some ((_ ← new_client key 0x0a000002 6881; mret tt) m) else None
  | AConnect j => Some (connect j m)
  | AListen j => Some (get_dht_query j m)
  | AInsert j => if decide (is_Some (clients m !! j)) then Some (TryToInsertNode j [7] m) else None
  end.

Fixpoint do_acts (l : list act) (m : MasterNode (list bool)) : option (MasterNode (list bool)) :=
  match l with
  | [] => Some m
  | a :: l => match do_act a m with Some (Ok (_, m)) => do_acts l m | _ => None end
  end.

Lemma do_acts_steps l m m' : do_acts l m = Some m' → rtc master_step m m'.
Proof.
  revert m. induction l as [|a l IH]; intros m; cbn [do_acts]; [intros [= ->]; apply rtc_refl|].
  destruct (do_act a m) as [[[[] m1]| | | |]|] eqn:E; try done. intros El. eapply rtc_l; [|by apply IH].
  destruct a as [e|key|j|j|j]; cbn [do_act] in E.
  - by eapply step_event.
  - case_decide; [|done]. apply (inj Some) in E. apply st_bind_Ok_inv in E as (j & m2 & E & E2); injection E2 as ->. by eapply step_client.
  - apply (inj Some) in E. by eapply step_connect.
  - apply (inj Some) in E. by eapply step_listen.
  - case_decide; [|done]. apply (inj Some) in E. by eapply step_insert.
Qed.

(** A client is made, connected, listens, and is handed to the table. *)
Definition course : list act :=
  [AClient client_key; AConnect 0; AEvent (NRun 0); AEvent (NRun 0); AEvent (NResolved 0 [0x0a000002]);
   AListen 0; AEvent (NRun 0); AInsert 0].
Definition listening : MasterNode (list bool) := default master (do_acts course master).
Definition asked : MasterNode (list bool) := default master (do_acts (course ++ [AEvent (NReceived 0 ping [8; 9])]) master).

Lemma listening_reached : do_acts course master = Some listening.
Proof. vm_compute. reflexivity. Qed.
Lemma master_made : MasterNode_make master_key = Ok master.
Proof. vm_compute. reflexivity. Qed.

Lemma master_safe_witness :
  (∀ e r, handle_event e listening = Some r → ¬ unhandled e listening → (∃ m', r = Ok (tt, m')) ∨ r = NoFuel) ∧
  (∀ e m', unhandled e listening → handle_event e listening ≠ Some (Ok (tt, m'))) ∧
  (∀ k l, buckets_ (route_table_ listening) !! k = Some l →
     (length l ≤ KBuckets_deep)%nat ∧ ∀ j, j ∈ l → is_Some (clients listening !! j)).
Proof.
  apply (master_safe master_key master listening).
  - exact master_made.
  - exact (do_acts_steps course master listening listening_reached).
Defined.

Lemma query_ends_program_witness :
  ∃ m'', rtc master_step asked m'' ∧ handle_event NWorker m'' = Some UB.
Proof.
  apply (query_ends_program master_key master listening asked 0 ping [8; 9] (str "q")).
  - exact master_made.
  - exact (do_acts_steps course master listening listening_reached).
  - vm_compute. reflexivity.
  - vm_compute. reflexivity.
  - discriminate.
  - vm_compute. reflexivity.
Defined.

Definition ping_document : Document := {| GetRoot := NDict [(str "q", NStr (str "ping")); (str "y", NStr (str "q"))] |}.

Lemma queries_are_empty_witness :
  match clients listening !! 0%nat with
  | Some c =>
      SendQuery 0 ping_document 1%nat 2%nat listening
      = Ok (tt, set_clients listening
          (<[0%nat := set_jobs c (jobs c ++ [JSend [] (str "ping") 1%nat 2%nat; JAwait (TFailed 2%nat)])]> (clients listening)))
  | None => False
  end.
Proof.
  destruct (clients listening !! 0%nat) as [c|] eqn:Hc.
  - exact (queries_are_empty listening 0 c ping_document 1%nat 2%nat Hc).
  - vm_compute in Hc. discriminate Hc.
Defined.
End Asked.
