(* ===== verification/DhtProgram.v ===== *)
(** * The program main_dht (src/main_dht.cpp)

    It builds many master nodes, tells each of them of all the others, and
    writes the tables to a file.  The service is never run, so no socket and no
    timer does anything; the worker of every master node runs beside [main].
    Lines of the file are triples. *)

From Stdlib Require Import ZArith Lia Strings.Byte Strings.String.
From coqutil Require Import Byte.
From S2P Require Import Prelude Bytes Text Worker Bitset Bitfield Dht DhtMaster.

(** ** Buckets that are moved (Kbucket.cpp) *)

Section Reverse.
Context {B : Type}.

(** Moving a bucket takes its list and leaves an empty one; [std::swap] moves
    three times. *)
Definition swap_buckets (i j : nat) : ST (RouteTable B) unit :=
  tmp ← bucket i; _ ← set_bucket i [];
  b ← bucket j; _ ← set_bucket j []; _ ← set_bucket i b;
  set_bucket j tmp.

(** [std::reverse]: [first] and [last] meet after at most [n] swaps. *)
Fixpoint reverse_loop (n first last : nat) : ST (RouteTable B) unit :=
  match n with
  | O => lift NoFuel
  | S n =>
      if (first <? last)%nat then _ ← swap_buckets first last; reverse_loop n (S first) (last - 1)
      else mret tt
  end.

Definition reverse_buckets : ST (RouteTable B) unit :=
  n ← buckets_size;
  if (n =? 0)%nat then mret tt else reverse_loop (S n) 0 (n - 1).
End Reverse.

Section DhtProgram.
Context {B : Type} `{DynamicBitset B} `{Host} `{Sha1}.

(** ** The weight of a node *)

(** The first bit that is set, [0] when there is none. *)
Fixpoint first_set (n p : nat) (weight : B) : outcome nat :=
  match n with
  | O => Ok 0%nat
  | S n => t ← Test weight p; if (t : bool) then Ok p else first_set n (S p) weight
  end.

(** [node->weight] is a [size_t]. *)
Definition node_weight (master_id id : B) : outcome Z :=
  weight ← XORDistance master_id id;
  pos ← first_set (Size weight) 0 weight;
  let weight := Resize weight (Nat.max (pos + 1) 32) in
  Ok (u64 (bytesToInt64 (GetCast weight) (Size weight / 8))).

(** ** The state *)

(** A line of nodes.log: the two ids and the number. *)
Record Line := mkLine { line_master : B; line_node : B; line_number : Z }.

(** Where [main] is: making master nodes, telling [nodes[j]] of [nodes[i]],
    writing the table of [nodes[j]], returned. *)
Inductive dht_pc := PNodes | PFill (j i : nat) | PDump (j : nat) | PReturn (code : Z).

(** [running]: the job the worker of the [j]-th master node has taken from its
    queue and is running. *)
Record Program := mkProgram {
  nodes : list (MasterNode B);
  running : gmap nat WorkerJob;
  dht_at : dht_pc;
  nodes_log : list Line;
}.

Definition started : Program := mkProgram [] ∅ PNodes [].
Definition set_at (p : Program) x : Program := mkProgram (nodes p) (running p) x (nodes_log p).
Definition set_master (p : Program) (j : nat) m : Program :=
  mkProgram (<[j := m]> (nodes p)) (running p) (dht_at p) (nodes_log p).
Definition set_running (p : Program) x : Program := mkProgram (nodes p) x (dht_at p) (nodes_log p).
Definition set_log (p : Program) l : Program := mkProgram (nodes p) (running p) (dht_at p) l.

(** The random numbers a step of [main] draws: the string of a node, an address
    and a port, those of the worker's job and those of the loop over buckets. *)
Record Draws := mkDraws { key : bytes; an_ip : Z; a_port : Z; job_ids : list Z; even : list Z }.

(** ** The steps of [main] *)

(** The body of the inner loop: the new node becomes the one [other] is. *)
Definition tell (d : Draws) (other : MasterNode B) : ST (MasterNode B) unit :=
  j ← new_client (key d) (an_ip d) (a_port d);
  _ ← on_table (modify_node j (fun n => mkNode (node_id (master_ (route_table_ other))) (raznica n) (status_enabled n)));
  m ← get_st;
  w ← lift (node_weight (node_id (master_ (route_table_ m))) (node_id (master_ (route_table_ other))));
  _ ← modify_client j (fun c => set_node c (master_sha1 other) 0 0 w);
  TryToInsertNode j (job_ids d).

(** The loop over the buckets; [a] is drawn again after every bucket written. *)
Fixpoint dump_buckets (t : RouteTable B) (bs : list (list nat)) (i a : Z) (draws : list Z) : outcome (list Line) :=
  match bs with
  | [] => Ok []
  | b :: bs =>
      if a mod 2 =? 0 then
        ids ← mapM (fun j => n ← opt_ub (objects t !! j); Ok (node_id n)) b;
        match draws with
        | [] => NoFuel
        | a' :: draws =>
            rest ← dump_buckets t bs (i + 5) (u16 a') draws;
            Ok (map (fun id => mkLine (node_id (master_ t)) id i) ids ++ rest)
        end
      else dump_buckets t bs i a draws
  end.

(** The table is reversed in place and read while the worker may still be
    writing to it: with a job left, or one that was taken from the queue and has
    not come to its end, that is a data race. *)
Definition dump (d : Draws) (job : option WorkerJob) (m : MasterNode B) : outcome (list Line * MasterNode B) :=
  match queue_ (a_worker_ m), job with
  | _ :: _, _ | _, Some _ => UB
  | [], None =>
      '(_, t) ← reverse_buckets (route_table_ m);
      lines ← dump_buckets t (buckets_ t) 5 2 (even d);
      Ok (lines, set_table m t)
  end.

(** [n] is the number of nodes. *)
Definition main_step (n : nat) (d : Draws) (p : Program) : option (outcome Program) :=
  match dht_at p with
  | PNodes => Some (
      if (length (nodes p) <? n)%nat then
        m ← MasterNode_make (key d); Ok (mkProgram (nodes p ++ [m]) (running p) PNodes (nodes_log p))
      else Ok (set_at p (PFill 0 0)))
  | PFill j i => Some (
      if negb (j <? n)%nat then Ok (set_at p (PDump 0))
      else if negb (i <? n)%nat then Ok (set_at p (PFill (S j) 0))
      else if (i =? j)%nat then Ok (set_at p (PFill j (S i)))
      else
        m ← opt_ub (nodes p !! j); other ← opt_ub (nodes p !! i);
        '(_, m) ← tell d other m;
        Ok (set_at (set_master p j m) (PFill j (S i))))
  | PDump j => Some (
      if negb (j <? n)%nat then
        Ok (mkProgram (map (fun m => DhtMaster.set_worker m (destroy (a_worker_ m))) (nodes p)) (running p) (PReturn 0) (nodes_log p))
      else
        m ← opt_ub (nodes p !! j);
        '(lines, m) ← dump d (running p !! j) m;
        Ok (set_at (set_log (set_master p j m) (nodes_log p ++ lines)) (PDump (S j))))
  | PReturn _ => None
  end.

(** ** Runs *)

(** [DPop j]: the worker of the [j]-th master node takes a job, under the lock of
    its queue; [DRun j]: it runs the job, after it has given the lock back.  Of
    what a job and [main] both use only the table is written by the job, so
    [main] may be anywhere in between. *)
Inductive dht_event := DMain (d : Draws) | DPop (j : nat) | DRun (j : nat).

Definition handle_dht (n : nat) (e : dht_event) (p : Program) : option (outcome Program) :=
  match e with
  | DMain d => main_step n d p
  | DPop j =>
      m ← nodes p !! j;
      match running p !! j, run_round (a_worker_ m) with
      | None, Some (job, _, w) =>
          Some (Ok (set_running (set_master p j (DhtMaster.set_worker m w)) (<[j := job]> (running p))))
      | _, _ => None
      end
  | DRun j =>
      m ← nodes p !! j; job ← running p !! j;
      Some ('(_, m) ← run_worker_job job m; Ok (set_running (set_master p j m) (delete j (running p))))
  end.

Definition draws_ok (e : dht_event) : Prop :=
  match e with DMain d => length (key d) = key_size | _ => True end.

Inductive dht_run (n : nat) : Program → Program → Prop :=
  | dht_run_step e p p' : draws_ok e → handle_dht n e p = Some (Ok p') → dht_run n p p'.

Definition n_nodes : nat := 1000.
End DhtProgram.

Arguments Program B : clear implicits.
Arguments Line B : clear implicits.
