(* ===== verification/DhtProgramFacts.v ===== *)
(** * What main_dht does

    Reversing the buckets, telling a master node of another one, writing a
    table; then the invariant of the program whatever the workers do, and that
    it can always be run to its end. *)

From Stdlib Require Import ZArith Lia Strings.Byte Strings.String.
From coqutil Require Import Byte.
From stdpp Require Import relations.
From S2P Require Import Prelude Bytes Text Worker Bitset Bitfield Dht DhtFacts DhtMaster DhtMasterFacts DhtProgram.

(** ** Reversing *)

Section Reversed.
Context {B : Type}.
Implicit Types t : RouteTable B.

Lemma swap_buckets_eq t i j a b :
  i ≠ j → buckets_ t !! i = Some a → buckets_ t !! j = Some b →
  swap_buckets i j t = Ok (tt, set_buckets t (<[j := a]> (<[i := b]> (buckets_ t)))).
Proof.
  intros Hne Hi Hj. unfold swap_buckets.
  erewrite st_bind_Ok by (unfold bucket; rewrite Hi; reflexivity). cbv beta.
  erewrite st_bind_Ok by reflexivity. cbv beta.
  erewrite st_bind_Ok by (unfold bucket; cbn; rewrite list_lookup_insert_ne, Hj by done; reflexivity). cbv beta.
  erewrite st_bind_Ok by reflexivity. cbv beta. erewrite st_bind_Ok by reflexivity. cbv beta.
  unfold set_bucket, modify, set_buckets. cbn. do 3 f_equal.
  apply list_eq. intros k. destruct (decide (k = j)) as [->|Hkj].
  - apply lookup_lt_Some in Hj. by rewrite !list_lookup_insert_eq by (rewrite ?length_insert; done).
  - rewrite !(list_lookup_insert_ne _ j) by done. destruct (decide (k = i)) as [->|Hki].
    + apply lookup_lt_Some in Hi. rewrite !list_lookup_insert_eq by (rewrite ?length_insert; done). done.
    + by rewrite !list_lookup_insert_ne by done.
Qed.

Lemma reverse_loop_eq n first last t :
  (first + last + 1 = length (buckets_ t))%nat → (last - first < n)%nat →
  ∃ bs, reverse_loop n first last t = Ok (tt, set_buckets t bs) ∧ length bs = length (buckets_ t) ∧
    ∀ k, bs !! k = if decide (first ≤ k ≤ last)%nat then buckets_ t !! (length (buckets_ t) - 1 - k)%nat else buckets_ t !! k.
Proof.
  revert first last t. induction n as [|n IH]; intros first last t Hsum Hn; [lia|]. cbn [reverse_loop].
  destruct (Nat.ltb_spec first last) as [Hlt|Hge].
  - destruct (lookup_lt_is_Some_2 (buckets_ t) first) as [a Ha]; [lia|].
    destruct (lookup_lt_is_Some_2 (buckets_ t) last) as [b Hb]; [lia|].
    erewrite st_bind_Ok by (apply swap_buckets_eq; [lia|exact Ha|exact Hb]). cbv beta.
    destruct (IH (S first) (last - 1)%nat (set_buckets t (<[last := a]> (<[first := b]> (buckets_ t))))) as (bs & E & Hlen & Hk);
      [cbn; rewrite !length_insert; lia|lia|].
    cbn in Hlen, Hk. rewrite !length_insert in Hlen, Hk. exists bs. split; [exact E|]. split; [exact Hlen|]. intros k. rewrite Hk.
    destruct (decide (k = first)) as [->|Hkf].
    { rewrite decide_False, decide_True by lia. rewrite list_lookup_insert_ne by lia.
      rewrite list_lookup_insert_eq by lia. rewrite <- Hb. f_equal. lia. }
    destruct (decide (k = last)) as [->|Hkl].
    { rewrite decide_False, decide_True by lia. rewrite list_lookup_insert_eq by (rewrite length_insert; lia).
      rewrite <- Ha. f_equal. lia. }
    destruct (decide (first ≤ k ≤ last)%nat) as [Hin|Hout].
    + rewrite decide_True by lia. by rewrite !list_lookup_insert_ne by lia.
    + rewrite decide_False by lia. by rewrite !list_lookup_insert_ne by lia.
  - exists (buckets_ t). split; [by destruct t|]. split; [done|]. intros k. case_decide; [|done]. f_equal. lia.
Qed.

Lemma reverse_buckets_eq t : reverse_buckets t = Ok (tt, set_buckets t (reverse (buckets_ t))).
Proof.
  unfold reverse_buckets. erewrite st_bind_Ok by reflexivity. cbv beta.
  destruct (Nat.eqb_spec (length (buckets_ t)) 0) as [E|Hne].
  - apply nil_length_inv in E. destruct t as [m o bs]. cbn in *. by subst.
  - destruct (reverse_loop_eq (S (length (buckets_ t))) 0 (length (buckets_ t) - 1) t) as (bs & E & Hlen & Hk); [lia|lia|].
    rewrite E. do 3 f_equal. apply list_eq. intros k. rewrite Hk. case_decide as Hd.
    + rewrite reverse_lookup by lia. f_equal. lia.
    + rewrite !lookup_ge_None_2; [done|rewrite length_reverse|]; lia.
Qed.
End Reversed.

(** ** Telling a master node of another one *)

Section Told.
Context {B : Type} `{DynamicBitsetLaws B} `{Host} `{S1 : Sha1} `{!Sha1Laws S1}.
Implicit Types (m other : MasterNode B) (t : RouteTable B).

Lemma first_set_ok n p (w : B) : (p + n = Size w)%nat → ∃ pos, first_set n p w = Ok pos.
Proof.
  revert p. induction n as [|n IH]; intros p Hp; [by eexists|]. cbn [first_set].
  rewrite Test_in by lia. cbn [mbind outcome_bind]. destruct (db_test w p); [by eexists|]. apply IH. lia.
Qed.

Lemma node_weight_ok (a b : B) : Size a = SHA1_SIZE_BITS → Size b = SHA1_SIZE_BITS → ∃ w, node_weight a b = Ok w.
Proof.
  intros Ha Hb. unfold node_weight, XORDistance. rewrite Ha, Hb, !bool_decide_true by done. cbn [andb assert_ mbind outcome_bind].
  destruct (first_set_ok (Size (db_xor a b)) 0 (db_xor a b)) as [pos ->]; [done|]. by eexists.
Qed.

(** The drawn numbers hold one that is no id of a job. *)
Definition unused m (rs : list Z) : Prop := Exists (fun id => executing_callbacks_ (a_worker_ m) !! id = None) rs.

Definition told m m' (j : nat) (id : B) : Prop :=
  master_ok m' ∧ queued m' = queued m ++ [InsertJob j] ∧ buckets_ (route_table_ m') = buckets_ (route_table_ m) ∧
  master_ (route_table_ m') = master_ (route_table_ m) ∧
  ∃ nd, node_id nd = id ∧ objects (route_table_ m') = <[j := nd]> (objects (route_table_ m)).

Lemma enqueue_unused m job rs : unused m rs → enqueue job rs m ≠ NoFuel.
Proof.
  intros (id & rs' & Hd)%draw_id_fresh. unfold enqueue, Enqueue. by rewrite Hd.
Qed.

Lemma tell_ok d other m :
  master_ok m → master_ok other →
  (∃ j m', tell d other m = Ok (tt, m') ∧ told m m' j (node_id (master_ (route_table_ other)))) ∨
  tell d other m = NoFuel ∧ ¬ unused m (job_ids d).
Proof.
  intros Hm Ho. pose proof (inv_master _ (mo_table _ Hm)) as Hs. pose proof (inv_master _ (mo_table _ Ho)) as Hso.
  unfold tell. destruct (client_made_ok (key d) (an_ip d) (a_port d) m Hm)
    as (j & n & m1 & E1 & Hm1 & Hj & _ & Hobj & Hb & Hma & Hw & [c Hc] & _).
  erewrite st_bind_Ok by exact E1. cbv beta.
  set (nd := mkNode (node_id (master_ (route_table_ other))) (raznica n) (status_enabled n)).
  set (m2 := set_table m1 (set_objects (route_table_ m1) (<[j := nd]> (objects (route_table_ m1))))).
  erewrite st_bind_Ok.
  2:{ unfold on_table, modify_node. rewrite Hobj, lookup_insert_eq. cbn [opt_ub mbind outcome_bind].
      rewrite <- Hobj. fold nd. reflexivity. }
  cbv beta. fold m2. erewrite st_bind_Ok by reflexivity. cbv beta.
  destruct (node_weight_ok (node_id (master_ (route_table_ m2))) (node_id (master_ (route_table_ other)))) as [w Ew];
    [cbn; by rewrite Hma|done|].
  erewrite st_bind_Ok by (unfold lift; rewrite Ew; reflexivity). cbv beta.
  set (m3 := set_clients m2 (<[j := set_node c (master_sha1 other) 0 0 w]> (clients m2))).
  erewrite st_bind_Ok by (unfold modify_client; cbn [m2 clients set_table]; rewrite Hc; reflexivity). cbv beta.
  assert (objects (route_table_ m3) = <[j := nd]> (objects (route_table_ m))) as Hobj3
    by (cbn; rewrite Hobj; apply insert_insert_eq).
  assert (objects (route_table_ m) !! j = None) as Hoj.
  { apply eq_None_not_Some. intros Hx%(mo_clients _ Hm). rewrite Hj in Hx. by destruct Hx. }
  assert (route_table_ m3 = set_objects (route_table_ m) (<[j := nd]> (objects (route_table_ m)))) as Ht3.
  { change (set_objects (route_table_ m1) (<[j := nd]> (objects (route_table_ m1)))
            = set_objects (route_table_ m) (<[j := nd]> (objects (route_table_ m)))).
    unfold set_objects. rewrite Hma, Hb, Hobj. f_equal. apply insert_insert_eq. }
  assert (master_ok m3) as Hm3.
  { apply (client_ok m2 j c); [|done]. apply table_ok; [done| |].
    - change (table_inv (route_table_ m3)). rewrite Ht3. apply objects_inv; [apply Hm|done|by rewrite Hoj].
    - intros x. cbn. destruct (decide (x = j)) as [->|Hne]; [rewrite Hobj, !lookup_insert_eq; split; by eexists|].
      by rewrite lookup_insert_ne. }
  destruct (enqueue_draws m3 (InsertJob j) (job_ids d)) as [([] & m' & E)|E].
  - left. exists j, m'. split; [exact E|].
    destruct (enqueue_ok _ _ _ _ _ Hm3 E) as (Hm' & Hq & Ht & _).
    { intros ? [= <-]. cbn. rewrite lookup_insert_eq. by eexists. }
    unfold told. rewrite Ht, Ht3, Hq. split; [done|]. split; [unfold queued; cbn; by rewrite Hw|]. split; [done|].
    split; [done|]. by exists nd.
  - right. split; [exact E|]. intros Hun. apply (enqueue_unused m3 (InsertJob j) (job_ids d)); [|done].
    unfold unused in *. cbn. by rewrite Hw.
Qed.

(** ** Writing a table *)

Definition id_of (t : RouteTable B) (j : nat) : option B := node_id <$> objects t !! j.

(** What a line of the table says. *)
Definition line_of (t : RouteTable B) (l : Line B) : Prop :=
  line_master l = node_id (master_ t) ∧ (∃ j, in_table t j ∧ id_of t j = Some (line_node l)) ∧
  ∃ c, line_number l = 5 * (Z.of_nat c + 1) ∧ (c < length (buckets_ t))%nat.

Lemma bucket_ids t (b : list nat) :
  (∀ j, j ∈ b → is_Some (objects t !! j)) →
  ∃ ids, mapM (fun j => n ← opt_ub (objects t !! j); Ok (node_id n)) b = Ok ids ∧
    Forall2 (fun j id => id_of t j = Some id) b ids.
Proof.
  induction b as [|j b IH]; intros Hb; [exists []; by split|]. cbn [mapM].
  destruct (Hb j) as [n Hn]; [by left|]. rewrite Hn. cbn [opt_ub mbind outcome_bind].
  destruct IH as (ids & -> & Hids); [intros x Hx; apply Hb; by right|]. cbn [mbind outcome_bind].
  eexists. split; [reflexivity|]. constructor; [|done]. unfold id_of. by rewrite Hn.
Qed.

Lemma dump_buckets_odd t bs i a draws : a mod 2 ≠ 0 → dump_buckets t bs i a draws = Ok [].
Proof.
  intros Ha. induction bs as [|b bs IH]; [done|]. cbn [dump_buckets]. by destruct (Z.eqb_spec (a mod 2) 0).
Qed.

Lemma dump_buckets_ok t bs c a draws :
  (∀ b j, b ∈ bs → j ∈ b → in_table t j ∧ is_Some (objects t !! j)) → (c + length bs = length (buckets_ t))%nat →
  dump_buckets t bs (5 * (Z.of_nat c + 1)) a draws = NoFuel ∧ (length draws < length bs)%nat ∨
  ∃ lines, dump_buckets t bs (5 * (Z.of_nat c + 1)) a draws = Ok lines ∧ Forall (line_of t) lines ∧
    (a mod 2 = 0 → ∀ b j id, head bs = Some b → j ∈ b → id_of t j = Some id →
       mkLine (node_id (master_ t)) id (5 * (Z.of_nat c + 1)) ∈ lines).
Proof.
  revert c a draws. induction bs as [|b bs IH]; intros c a draws Hin Hc; [right; exists []; cbn; split_and!; [done|constructor|done]|].
  cbn [dump_buckets]. cbn [length] in *. destruct (Z.eqb_spec (a mod 2) 0) as [Ha|Ha].
  - destruct (bucket_ids t b) as (ids & -> & Hids); [intros j Hj; apply (Hin b); [by left|done]|].
    cbn [mbind outcome_bind]. destruct draws as [|a' draws]; [left; split; [done|cbn; lia]|].
    replace (5 * (Z.of_nat c + 1) + 5) with (5 * (Z.of_nat (S c) + 1)) by lia.
    destruct (IH (S c) (u16 a') draws) as [[-> Hlt]|(lines & -> & Hl & _)]; [intros b' j Hb'; apply Hin; by right|lia| |].
    { left. split; [done|cbn; lia]. }
    right. eexists. split; [reflexivity|]. split.
    + apply list.Forall_app. split; [|done]. apply list.Forall_forall. intros l (id & -> & Hid)%list_elem_of_fmap.
      apply list_elem_of_lookup in Hid as [k Hk]. destruct (Forall2_lookup_r _ _ _ _ _ Hids Hk) as (j & Hj & Eid).
      split; [done|]. split; [exists j; split; [|done]; apply (Hin b); [by left|by eapply list_elem_of_lookup_2]|].
      exists c. split; [done|lia].
    + intros _ b' j id [= <-] Hj Eid. apply elem_of_app. left. apply list_elem_of_fmap. exists id. split; [done|].
      apply list_elem_of_lookup in Hj as [k Hk]. destruct (Forall2_lookup_l _ _ _ _ _ Hids Hk) as (id' & Hid' & E).
      rewrite Eid in E. injection E as ->. by eapply list_elem_of_lookup_2.
  - right. exists []. rewrite dump_buckets_odd by done. split_and!; [done|constructor|done].
Qed.

(** The lines of the last bucket, which is written first, are all there. *)
Definition all_written (t : RouteTable B) (lines : list (Line B)) : Prop :=
  ∀ b j id, head (buckets_ t) = Some b → j ∈ b → id_of t j = Some id → mkLine (node_id (master_ t)) id 5 ∈ lines.

Lemma dump_ok d m :
  master_ok m → queued m = [] →
  (∃ lines t, dump d None m = Ok (lines, set_table m t) ∧ t = set_buckets (route_table_ m) (reverse (buckets_ (route_table_ m))) ∧
     Forall (line_of (route_table_ m)) lines ∧ all_written t lines) ∨
  dump d None m = NoFuel ∧ (length (even d) < length (buckets_ (route_table_ m)))%nat.
Proof.
  intros Hm Hq%fmap_nil_inv. unfold dump. rewrite Hq, reverse_buckets_eq. cbn [mbind outcome_bind].
  set (t := route_table_ m). set (t' := set_buckets t (reverse (buckets_ t))).
  assert (∀ j, in_table t' j ↔ in_table t j) as Hin.
  { intros j. split; intros (k & l & Hk%list_elem_of_lookup_2 & Hj); cbn in Hk.
    - apply (proj1 (elem_of_reverse _ _)), list_elem_of_lookup in Hk as [k' Hk]. by exists k', l.
    - apply (proj2 (elem_of_reverse _ _)), list_elem_of_lookup in Hk as [k' Hk]. by exists k', l. }
  assert (length (reverse (buckets_ t)) = length (buckets_ t)) as Hlen by apply length_reverse.
  destruct (dump_buckets_ok t' (reverse (buckets_ t)) 0 2 (even d)) as [[E Hlt]|(lines & E & Hl & Hall)].
  - intros b j Hb Hj. assert (in_table t' j) as Hjt by (apply list_elem_of_lookup in Hb as [k Hk]; by exists k, b).
    split; [done|]. apply Hin in Hjt as (k & l & Hk & Hjl). by destruct (inv_nodes _ (mo_table _ Hm) _ _ _ Hk Hjl).
  - done.
  - right. change (5 * (Z.of_nat 0 + 1)) with 5 in E. rewrite Hlen in Hlt. cbn [set_buckets buckets_ t'] in *. by rewrite E.
  - left. change (5 * (Z.of_nat 0 + 1)) with 5 in E. exists lines, t'. split; [by cbn [set_buckets buckets_ t'] in *; rewrite E|].
    split; [done|]. split; [|exact (Hall eq_refl)].
    eapply list.Forall_impl; [exact Hl|]. intros l (El & (j & Hj%Hin & Ej) & c & Ec & Hc). split; [done|].
    split; [by exists j|]. exists c. split; [done|]. cbn in Hc. by rewrite Hlen in Hc.
Qed.
End Told.

(** ** The invariant of the program *)

Section Running.
Context {B : Type} `{DynamicBitsetLaws B} `{Host} `{S1 : Sha1} `{!Sha1Laws S1}.
Implicit Types (m other : MasterNode B) (t : RouteTable B) (p : Program B) (l : Line B).

Definition master_id m : B := node_id (master_ (route_table_ m)).
Definition ids p : list B := master_id <$> nodes p.

(** The tables that have been written. *)
Definition dumped (pc : dht_pc) (k : nat) : bool :=
  match pc with PDump j => bool_decide (k < j)%nat | PReturn _ => true | _ => false end.

Definition inserts m : Prop := ∀ job, job ∈ queued m → ∃ j, job = InsertJob j.

(** The nodes the [k]-th master node knows have the ids of others. *)
Definition knows_others (ids : list B) (k : nat) m : Prop :=
  ∀ j nd, objects (route_table_ m) !! j = Some nd → ∃ i, i ≠ k ∧ ids !! i = Some (node_id nd).

Definition line_from (ids : list B) l : Prop :=
  ∃ k i c, k ≠ i ∧ ids !! k = Some (line_master l) ∧ ids !! i = Some (line_node l) ∧
    line_number l = 5 * (Z.of_nat c + 1) ∧ (c < SHA1_SIZE_BITS)%nat.

Record dht_ok (n : nat) p : Prop := {
  dk_count : match dht_at p with PNodes => (length (nodes p) ≤ n)%nat | _ => length (nodes p) = n end;
  dk_live k m : nodes p !! k = Some m → dumped (dht_at p) k = false → master_ok m ∧ inserts m;
  dk_done k m : nodes p !! k = Some m → dumped (dht_at p) k = true → queued m = [] ∧ all_written (route_table_ m) (nodes_log p);
  dk_running k job : running p !! k = Some job → dumped (dht_at p) k = false ∧
    ∃ m j, nodes p !! k = Some m ∧ job = InsertJob j ∧ is_Some (objects (route_table_ m) !! j);
  dk_others k m : nodes p !! k = Some m → knows_others (ids p) k m;
  dk_log l : l ∈ nodes_log p → line_from (ids p) l;
}.

Lemma started_ok n : dht_ok n (started (B:=B)).
Proof. split; cbn; [lia|done..|]. by intros l ?%not_elem_of_nil. Qed.

(** Only the next statement changes. *)
Lemma moved_ok n p pc :
  dht_ok n p → length (nodes p) = n → (∀ k, (k < n)%nat → dumped pc k = dumped (dht_at p) k) → dht_ok n (set_at p pc).
Proof.
  intros [Hc Hl Hd Hr Ho Hlog] Hn Hpc. change (ids p) with (ids (set_at p pc)) in *.
  assert (∀ k m, nodes p !! k = Some m → dumped pc k = dumped (dht_at p) k) as Hpc'
    by (intros k m Hk; apply Hpc; rewrite <- Hn; by eapply lookup_lt_Some).
  split; cbn [set_at nodes running dht_at nodes_log]; [destruct pc; lia| | | |exact Ho|exact Hlog].
  - intros k m Hk. rewrite (Hpc' k m Hk). by apply Hl.
  - intros k m Hk. rewrite (Hpc' k m Hk). by apply Hd.
  - intros k job Hk. destruct (Hr k job Hk) as (Hdk & m & j & Hm & Hj). rewrite (Hpc' k m Hm). split; [done|by exists m, j].
Qed.

(** One master node changes, to one that knows no others than before. *)
Lemma ids_insert p k m m' : nodes p !! k = Some m → master_id m' = master_id m → ids (set_master p k m') = ids p.
Proof.
  intros Hk Hid. unfold ids. cbn. rewrite list_fmap_insert. apply list_insert_id.
  rewrite list_lookup_fmap, Hk. cbn. by rewrite Hid.
Qed.

Lemma set_master_ok n p k m m' :
  dht_ok n p → nodes p !! k = Some m → dumped (dht_at p) k = false → master_id m' = master_id m →
  master_ok m' → inserts m' → knows_others (ids p) k m' →
  (∀ x, is_Some (objects (route_table_ m) !! x) → is_Some (objects (route_table_ m') !! x)) → dht_ok n (set_master p k m').
Proof.
  intros [Hc Hl Hd Hr Ho Hlog] Hk Hpc Hid Hm' Hi Hk' Hobj. pose proof (ids_insert p k m m' Hk Hid) as Eids.
  assert (<[k := m']> (nodes p) !! k = Some m') as Ek by (apply list_lookup_insert_eq; by eapply lookup_lt_Some).
  split; rewrite ?Eids; cbn [set_master nodes running dht_at nodes_log]; [by rewrite length_insert| | | | |done].
  all: intros x mx Hx; destruct (decide (x = k)) as [->|Hne]; rewrite ?Ek, ?list_lookup_insert_ne in * by done; eauto.
  - injection Hx as <-. done.
  - by rewrite Hpc.
  - destruct (Hr k mx Hx) as (Hdk & m0 & j & Hm0 & -> & Hj). rewrite Hk in Hm0. injection Hm0 as <-.
    split; [done|]. exists m', j. auto.
  - by injection Hx as <-.
Qed.

(** What the workers are running changes. *)
Lemma set_running_ok n p rs :
  dht_ok n p → (∀ k job, rs !! k = Some job → dumped (dht_at p) k = false ∧
    ∃ m j, nodes p !! k = Some m ∧ job = InsertJob j ∧ is_Some (objects (route_table_ m) !! j)) →
  dht_ok n (set_running p rs).
Proof. intros [Hc Hl Hd _ Ho Hlog] Hr. by split. Qed.

Lemma same_nodes_ids t t' j nd :
  same_nodes t t' → objects t' !! j = Some nd → ∃ nd0, objects t !! j = Some nd0 ∧ node_id nd = node_id nd0.
Proof.
  intros [_ E] Hj. specialize (E j). rewrite Hj in E. symmetry in E. apply fmap_Some in E as (nd0 & Hj0 & [= Hid _]).
  by exists nd0.
Qed.

(** A worker takes a job, if it runs none and there is one. *)
Lemma pop_ok n p k m :
  dht_ok n p → nodes p !! k = Some m →
  handle_dht n (DPop k) p = None ∧ (queued m = [] ∨ running p !! k ≠ None) ∨
  ∃ p' m' job, handle_dht n (DPop k) p = Some (Ok p') ∧ dht_ok n p' ∧ dht_at p' = dht_at p ∧
    running p !! k = None ∧ running p' !! k = Some job ∧ nodes p' !! k = Some m' ∧ queued m = job :: queued m'.
Proof.
  intros Hp Hk. cbn [handle_dht]. rewrite Hk. cbn [mbind option_bind].
  destruct (running p !! k) eqn:Er; [left; by split; [|right]|].
  destruct (queued m) as [|job rest] eqn:Hq; [rewrite round_waits by done; left; by split; [|left]|].
  destruct (dumped (dht_at p) k) eqn:Hd; [destruct (dk_done _ _ Hp _ _ Hk Hd); congruence|].
  destruct (dk_live _ _ Hp _ _ Hk Hd) as [Hm Hi]. destruct (round_takes m job rest Hm Hq) as (id & w & -> & Hm1 & Hq1).
  destruct (Hi job) as [j ->]; [rewrite Hq; by left|]. right. set (m' := DhtMaster.set_worker m w) in *.
  assert (nodes (set_master p k m') !! k = Some m') as Ek by (apply list_lookup_insert_eq; by eapply lookup_lt_Some).
  assert (dht_ok n (set_master p k m')) as Hp'.
  { apply (set_master_ok n p k m); try done; [|by apply (dk_others _ _ Hp _ _ Hk)].
    intros job Hin. apply Hi. rewrite Hq. right. by rewrite <- Hq1. }
  eexists _, m', (InsertJob j). split; [reflexivity|]. split_and!; try done.
  - apply set_running_ok; [done|]. intros x job. destruct (decide (x = k)) as [->|Hne].
    + rewrite lookup_insert_eq. intros [= <-]. split; [done|]. exists m', j. split; [done|]. split; [done|].
      apply (mo_clients _ Hm). apply (mo_jobs _ Hm). rewrite Hq. by left.
    + rewrite lookup_insert_ne by done. apply (dk_running _ _ Hp').
  - cbn. by rewrite lookup_insert_eq.
  - by rewrite <- Hq1.
Qed.

(** A worker runs the job it has taken. *)
Lemma run_ok n p k m job :
  dht_ok n p → nodes p !! k = Some m → running p !! k = Some job →
  ∃ p' m', handle_dht n (DRun k) p = Some (Ok p') ∧ dht_ok n p' ∧ dht_at p' = dht_at p ∧
    running p' !! k = None ∧ nodes p' !! k = Some m' ∧ queued m' = queued m.
Proof.
  intros Hp Hk Er. destruct (dk_running _ _ Hp _ _ Er) as (Hd & m0 & j & Hm0 & -> & Hj).
  rewrite Hk in Hm0. injection Hm0 as <-. destruct (dk_live _ _ Hp _ _ Hk Hd) as [Hm Hi].
  cbn [handle_dht]. rewrite Hk. cbn [mbind option_bind]. rewrite Er. cbn [mbind option_bind].
  destruct (insert_job_runs m j Hm) as (t & -> & [_ [Hs _ _]] & Hm2); [by apply (mo_clients _ Hm)|].
  cbn [mbind outcome_bind]. set (m' := set_table m t) in *.
  assert (nodes (set_master p k m') !! k = Some m') as Ek by (apply list_lookup_insert_eq; by eapply lookup_lt_Some).
  assert (dht_ok n (set_master p k m')) as Hp'.
  { apply (set_master_ok n p k m); try done.
    - unfold master_id. cbn. f_equal. apply Hs.
    - intros x nd Hx. destruct (same_nodes_ids _ _ _ _ Hs Hx) as (nd0 & Hx0 & ->). by apply (dk_others _ _ Hp _ _ Hk x).
    - intros x. destruct Hs as [_ Ho]. rewrite <- !(fmap_is_Some (fun n => (node_id n, status_enabled n))). cbn. by rewrite <- Ho. }
  eexists _, m'. split; [reflexivity|]. split_and!; try done.
  - apply set_running_ok; [done|]. intros x job [_ Hx]%lookup_delete_Some. by apply (dk_running _ _ Hp').
  - cbn. apply lookup_delete_eq.
Qed.

(** *** The statements of [main] *)

Lemma knows_more (ids ids' : list B) k m : (∀ i id, ids !! i = Some id → ids' !! i = Some id) → knows_others ids k m → knows_others ids' k m.
Proof. intros Hi Hk j nd Hj. destruct (Hk j nd Hj) as (i & Hne & E). exists i. auto. Qed.

Lemma line_from_more (ids ids' : list B) l : (∀ i id, ids !! i = Some id → ids' !! i = Some id) → line_from ids l → line_from ids' l.
Proof. intros Hi (k & i & c & Hne & Ek & Ei & Hrest). exists k, i, c. auto. Qed.

Lemma MasterNode_made key : ∃ m, MasterNode_make key = Ok m ∧ master_ok m ∧ queued m = [] ∧ objects (route_table_ m) = ∅.
Proof.
  destruct (Node_made (B:=B) key) as (n & E & _). eexists. split.
  - unfold MasterNode_make. rewrite E. reflexivity.
  - split; [|done]. apply (made_ok key). unfold MasterNode_make. by rewrite E.
Qed.

Lemma node_step n p key :
  dht_ok n p → dht_at p = PNodes → (length (nodes p) < n)%nat →
  ∃ m, MasterNode_make key = Ok m ∧ dht_ok n (mkProgram (nodes p ++ [m]) (running p) PNodes (nodes_log p)).
Proof.
  intros [Hc Hl Hd Hr Ho Hlog] Epc Hn. rewrite Epc in *. destruct (MasterNode_made key) as (m & E & Hm & Hq & Hobj).
  exists m. split; [done|].
  assert (∀ i id, ids p !! i = Some id → ids (mkProgram (nodes p ++ [m]) (running p) PNodes (nodes_log p)) !! i = Some id) as Hids.
  { intros i id Hi. unfold ids in *. cbn. rewrite fmap_app. by apply lookup_app_l_Some. }
  split; cbn [nodes running dht_at nodes_log]; [rewrite length_app; cbn; lia| |done| | |].
  - intros k mk [Hk|(_ & Hk)]%lookup_app_Some _; [by apply (Hl k)|].
    apply list_lookup_singleton_Some in Hk as [_ <-]. split; [done|]. intros job. rewrite Hq. by intros ?%not_elem_of_nil.
  - intros k job (_ & mk & j & Hk & Hj)%Hr. split; [done|]. exists mk, j. split; [|done]. by apply lookup_app_l_Some.
  - intros k mk [Hk|(_ & Hk)]%lookup_app_Some; [by eapply knows_more, Ho|].
    apply list_lookup_singleton_Some in Hk as [_ <-]. intros j nd. by rewrite Hobj, lookup_empty.
  - intros l Hlin. eapply line_from_more; [exact Hids|]. by apply Hlog.
Qed.

Lemma tell_step n d p j i m other :
  dht_ok n p → dht_at p = PFill j i → i ≠ j → nodes p !! j = Some m → nodes p !! i = Some other →
  (∃ m', tell d other m = Ok (tt, m') ∧ dht_ok n (set_at (set_master p j m') (PFill j (S i)))) ∨
  tell d other m = NoFuel ∧ ¬ unused m (job_ids d).
Proof.
  intros Hp Epc Hne Hj Hi. assert (∀ k, dumped (dht_at p) k = false) as Hnd by by rewrite Epc.
  destruct (dk_live _ _ Hp _ _ Hj (Hnd j)) as [Hm Hins]. destruct (dk_live _ _ Hp _ _ Hi (Hnd i)) as [Ho _].
  destruct (tell_ok d other m Hm Ho) as [(x & m' & E & Hm' & Hq & _ & Hma & nd & Hnd' & Hobj)|Hf]; [|by right].
  left. exists m'. split; [exact E|]. pose proof (dk_count _ _ Hp) as Hc. rewrite Epc in Hc.
  apply moved_ok.
  - apply (set_master_ok n p j m); [done..|by unfold master_id; rewrite Hma|done| | |].
    + intros job. rewrite Hq. intros [Hin|Hin%list_elem_of_singleton]%elem_of_app; [by apply Hins|by exists x].
    + intros y ny. rewrite Hobj. intros [[_ <-]|[_ Hy]]%lookup_insert_Some; [|by apply (dk_others _ _ Hp _ _ Hj y)].
      exists i. split; [done|]. unfold ids. rewrite list_lookup_fmap, Hi. cbn. by rewrite Hnd'.
    + intros y Hy. rewrite Hobj. destruct (decide (y = x)) as [->|Hxy]; [rewrite lookup_insert_eq; by eexists|].
      by rewrite lookup_insert_ne.
  - cbn. by rewrite length_insert.
  - intros k _. cbn. by rewrite Epc.
Qed.

Lemma dump_step n d p j m :
  dht_ok n p → dht_at p = PDump j → nodes p !! j = Some m → queued m = [] → running p !! j = None →
  (∃ lines m', dump d None m = Ok (lines, m') ∧ dht_ok n (set_at (set_log (set_master p j m') (nodes_log p ++ lines)) (PDump (S j)))) ∨
  dump d None m = NoFuel ∧ (length (even d) < length (buckets_ (route_table_ m)))%nat.
Proof.
  intros Hp Epc Hj Hq Hrun. pose proof Hp as [Hc Hl Hd Hr Ho Hlog]. rewrite Epc in *.
  destruct (Hl j m Hj) as [Hm _]; [by apply bool_decide_eq_false; lia|].
  destruct (dump_ok d m Hm Hq) as [(lines & t & E & Et & Hlines & Hall)|Hf]; [|by right]. left.
  exists lines, (set_table m t). split; [done|].
  assert (ids (set_master p j (set_table m t)) = ids p) as Eids.
  { apply (ids_insert p j m); [done|]. unfold master_id. cbn. by rewrite Et. }
  unfold ids in Eids. cbn [set_master nodes] in Eids.
  split; unfold ids; cbn [set_at set_log set_master nodes running dht_at nodes_log]; rewrite ?Eids; [by rewrite length_insert|..].
  - intros k mk Hk Hpc%bool_decide_eq_false. rewrite list_lookup_insert_ne in Hk by lia.
    apply (Hl k); [done|]. apply bool_decide_eq_false. lia.
  - intros k mk Hk Hpc%bool_decide_eq_true. destruct (decide (k = j)) as [->|Hne].
    + rewrite list_lookup_insert_eq in Hk by (by eapply lookup_lt_Some). injection Hk as <-. split; [done|].
      intros b x id Hb Hx Hid. apply elem_of_app. right. by eapply Hall.
    + rewrite list_lookup_insert_ne in Hk by done. destruct (Hd k mk Hk) as [Hqk Hw]; [apply bool_decide_eq_true; lia|].
      split; [done|]. intros b x id Hb Hx Hid. apply elem_of_app. left. by eapply Hw.
  - intros k job Hk. destruct (Hr k job Hk) as (Hkd%bool_decide_eq_false & mk & x & Hmk & Hx).
    assert (k ≠ j) as Hne by congruence. split; [apply bool_decide_eq_false; lia|]. exists mk, x.
    by rewrite list_lookup_insert_ne.
  - intros k mk Hk. destruct (decide (k = j)) as [->|Hne]; [|rewrite list_lookup_insert_ne in Hk by done; by apply Ho].
    rewrite list_lookup_insert_eq in Hk by (by eapply lookup_lt_Some). injection Hk as <-. intros x nd. cbn. rewrite Et. cbn.
    apply (Ho j m Hj).
  - intros l [Hin|Hin]%elem_of_app; [by apply Hlog|]. pose proof (proj1 (list.Forall_forall _ _) Hlines l Hin) as (El & (x & _ & Hx) & c & Ec & Hlt).
    unfold id_of in Hx. apply fmap_Some in Hx as (nd & Hx & En). destruct (Ho j m Hj x nd Hx) as (i & Hne & Ei).
    exists j, i, c. split; [done|]. split; [rewrite list_lookup_fmap, Hj; cbn; by rewrite El|].
    split; [by rewrite En|]. split; [done|]. pose proof (inv_count _ (mo_table _ Hm)). lia.
Qed.

(** [main] returned: the nodes are destroyed one by one. *)
Definition returned p : Program B :=
  mkProgram (map (fun m => DhtMaster.set_worker m (destroy (a_worker_ m))) (nodes p)) (running p) (PReturn 0) (nodes_log p).

Lemma return_ok n p j : dht_ok n p → dht_at p = PDump j → (n ≤ j)%nat → dht_ok n (returned p).
Proof.
  intros [Hc Hl Hd Hr Ho Hlog] Epc Hn. rewrite Epc in *.
  assert (ids (returned p) = ids p) as Eids by (unfold ids; cbn [nodes returned]; by rewrite <- list_fmap_compose).
  split; rewrite ?Eids; cbn [nodes running dht_at nodes_log returned]; [by rewrite length_map|done|..|done].
  - intros k m' Hk. rewrite list_lookup_fmap in Hk. apply fmap_Some in Hk as (m & Hk & ->).
    intros _. apply (Hd k m Hk). apply bool_decide_eq_true. apply lookup_lt_Some in Hk. lia.
  - intros k job Hk. destruct (Hr k job Hk) as (Hkd%bool_decide_eq_false & mk & x & Hmk%lookup_lt_Some & _). lia.
  - intros k m' Hk. rewrite list_lookup_fmap in Hk. apply fmap_Some in Hk as (m & Hk & ->). by apply (Ho k m).
Qed.
(** ** Every event *)

(** [main] reads a table whose worker has a job in its queue or is running one. *)
Definition races (e : dht_event) p : Prop :=
  match e with
  | DMain _ => ∃ j m, dht_at p = PDump j ∧ nodes p !! j = Some m ∧ (queued m ≠ [] ∨ running p !! j ≠ None)
  | DPop _ | DRun _ => False
  end.

Lemma busy_dec m (o : option WorkerJob) : (queued m ≠ [] ∨ o ≠ None) ∨ (queued m = [] ∧ o = None).
Proof. destruct (queued m), o; try (by right); left; [by right|by left..]. Qed.

Lemma races_dec e p : races e p ∨ ¬ races e p.
Proof.
  destruct e as [d|k|k]; [|by right; intros []..]. cbn [races].
  destruct (dht_at p) as [|j i|j|code]; try (right; by intros (? & ? & [=] & _)).
  destruct (nodes p !! j) as [m|] eqn:Hj; [|right; intros (x & m & [= <-] & Hm & _); by rewrite Hj in Hm].
  destruct (busy_dec m (running p !! j)) as [Hb|[Hq Hr]]; [left; by exists j, m|].
  right. intros (x & m' & [= <-] & Hm & Hne). rewrite Hj in Hm. injection Hm as <-. by destruct Hne.
Qed.

Lemma dump_busy d m o : queued m ≠ [] ∨ o ≠ None → dump d o m = UB.
Proof. unfold dump, queued. destruct (queue_ (a_worker_ m)), o; try done. by intros []. Qed.

Lemma race_undefined n e p r : races e p → dht_ok n p → handle_dht n e p = Some r → r = UB.
Proof.
  destruct e as [d|k|k]; [|by intros []..]. intros (j & m & Epc & Hj & Hq) Hp. cbn [handle_dht]. unfold main_step. rewrite Epc.
  intros [= <-]. pose proof (dk_count _ _ Hp) as Hc. rewrite Epc in Hc. pose proof (lookup_lt_Some _ _ _ Hj).
  rewrite (proj2 (Nat.ltb_lt j n)) by lia. cbn [negb]. rewrite Hj. cbn [opt_ub mbind outcome_bind].
  by rewrite (dump_busy d m (running p !! j) Hq).
Qed.

Lemma main_good n d p r :
  dht_ok n p → main_step n d p = Some r → ¬ races (DMain d) p →
  match r with Ok p' => dht_ok n p' | NoFuel => True | _ => False end.
Proof.
  intros Hp E Hrace. pose proof (dk_count _ _ Hp) as Hc. unfold main_step in E.
  destruct (dht_at p) as [|j i|j|code] eqn:Epc; [| | |discriminate E]; injection E as <-.
  - destruct (Nat.ltb_spec (length (nodes p)) n) as [Hlt|Hge].
    + destruct (node_step n p (key d) Hp Epc Hlt) as (m & -> & Hp'). exact Hp'.
    + apply moved_ok; [done|lia|]. intros k _. by rewrite Epc.
  - destruct (Nat.ltb_spec j n) as [Hj|Hj]; cbn [negb].
    2:{ apply moved_ok; [done|done|]. intros k _. rewrite Epc. cbn. apply bool_decide_eq_false. lia. }
    destruct (Nat.ltb_spec i n) as [Hi|Hi]; cbn [negb]; [|apply moved_ok; [done|done|]; intros k _; by rewrite Epc].
    destruct (Nat.eqb_spec i j) as [->|Hne]; [apply moved_ok; [done|done|]; intros k _; by rewrite Epc|].
    destruct (lookup_lt_is_Some_2 (nodes p) j) as [m Hm]; [lia|].
    destruct (lookup_lt_is_Some_2 (nodes p) i) as [other Ho]; [lia|]. rewrite Hm, Ho. cbn [opt_ub mbind outcome_bind].
    destruct (tell_step n d p j i m other Hp Epc Hne Hm Ho) as [(m' & -> & Hp')|[-> _]]; [exact Hp'|done].
  - destruct (Nat.ltb_spec j n) as [Hj|Hj]; cbn [negb]; [|by eapply return_ok].
    destruct (lookup_lt_is_Some_2 (nodes p) j) as [m Hm]; [lia|]. rewrite Hm. cbn [opt_ub mbind outcome_bind].
    destruct (busy_dec m (running p !! j)) as [Hb|[Hq Hrun]]; [destruct Hrace; by exists j, m|]. rewrite Hrun.
    destruct (dump_step n d p j m Hp Epc Hm Hq Hrun) as [(lines & m' & -> & Hp')|[-> _]]; [exact Hp'|done].
Qed.

Lemma dht_good n e p r :
  dht_ok n p → handle_dht n e p = Some r → ¬ races e p →
  match r with Ok p' => dht_ok n p' | NoFuel => True | _ => False end.
Proof.
  intros Hp E Hrace. destruct e as [d|k|k]; [by eapply main_good|..]; pose proof E as E0; cbn [handle_dht] in E0;
    destruct (nodes p !! k) as [m|] eqn:Hk; try done; cbn [mbind option_bind] in E0.
  - destruct (pop_ok n p k m Hp Hk) as [[En _]|(p' & m' & job & E' & Hp' & _)]; [congruence|].
    rewrite E in E'. by injection E' as ->.
  - destruct (running p !! k) as [job|] eqn:Er; [|done]. destruct (run_ok n p k m job Hp Hk Er) as (p' & m' & E' & Hp' & _).
    rewrite E in E'. by injection E' as ->.
Qed.

Lemma dht_run_ok n p p' : dht_run n p p' → dht_ok n p → dht_ok n p'.
Proof.
  intros [e p1 p2 _ E] Hp. apply (dht_good n e p1 (Ok p2) Hp E). intros Hr. by pose proof (race_undefined _ _ _ _ Hr Hp E).
Qed.

Lemma dht_reached_ok n p : rtc (dht_run n) started p → dht_ok n p.
Proof. intros Hr. pose proof (started_ok n) as Hp. induction Hr; [done|]. by eapply IHHr, dht_run_ok. Qed.

(** ** To the end *)

(** What [main] has left to do. *)
Definition fill_left (n j i : nat) : nat := if decide (j < n)%nat then ((n - j - 1) * S n + S (n - i))%nat else 0%nat.
Definition main_left (n : nat) p : nat :=
  match dht_at p with
  | PNodes => S (n - length (nodes p)) + (fill_left n 0 0 + (n + 3))
  | PFill j i => fill_left n j i + (n + 3)
  | PDump j => S (S (n - j))
  | PReturn _ => 0
  end.

(** Let the [j]-th worker run the job it has taken, then all that are left. *)
Lemma rested n p j m :
  dht_ok n p → nodes p !! j = Some m →
  ∃ p' m', rtc (dht_run n) p p' ∧ dht_ok n p' ∧ dht_at p' = dht_at p ∧ nodes p' !! j = Some m' ∧
    queued m' = queued m ∧ running p' !! j = None.
Proof.
  intros Hp Hj. destruct (running p !! j) as [job|] eqn:Er; [|exists p, m; split; [apply rtc_refl|done]].
  destruct (run_ok n p j m job Hp Hj Er) as (p' & m' & E & Hp' & Epc & Hr & Hj' & Hq). exists p', m'.
  split; [|done]. apply rtc_once. by apply (dht_run_step n (DRun j)).
Qed.

Lemma drained n p j m :
  dht_ok n p → nodes p !! j = Some m →
  ∃ p' m', rtc (dht_run n) p p' ∧ dht_ok n p' ∧ dht_at p' = dht_at p ∧ nodes p' !! j = Some m' ∧
    queued m' = [] ∧ running p' !! j = None.
Proof.
  remember (queued m) as q eqn:Hq. revert p m Hq. induction q as [|job q IH]; intros p m Hq Hp Hj;
    destruct (rested n p j m Hp Hj) as (p1 & m1 & Hr1 & Hp1 & Epc1 & Hj1 & Hq1 & Hrun1).
  - exists p1, m1. by rewrite Hq1.
  - destruct (pop_ok n p1 j m1 Hp1 Hj1) as [[_ [Hn|Hn]]|(p2 & m2 & job' & E & Hp2 & Epc2 & _ & _ & Hj2 & Hq2)];
      [congruence|done|]. rewrite Hq1, <- Hq in Hq2. injection Hq2 as _ Hq2.
    destruct (IH p2 m2 Hq2 Hp2 Hj2) as (p3 & m3 & Hr3 & Hp3 & Epc3 & Hrest). exists p3, m3.
    split; [|split; [done|split; [congruence|done]]]. etrans; [exact Hr1|]. eapply rtc_l; [|exact Hr3].
    by apply (dht_run_step n (DPop j)).
Qed.

(** Numbers that are enough for any step. *)
Definition plenty (ids : list Z) (len : nat) : Draws := mkDraws (replicate key_size x00) 0 0 ids (replicate len 1).

Lemma unused_fresh m : unused m [base.fresh (dom (executing_callbacks_ (a_worker_ m)))].
Proof. apply Exists_cons. left. apply not_elem_of_dom, is_fresh. Qed.

Definition advances n p : Prop := ∃ p', rtc (dht_run n) p p' ∧ (main_left n p' < main_left n p)%nat.

Lemma main_advances n p0 p d p' :
  rtc (dht_run n) p0 p → length (key d) = key_size → main_step n d p = Some (Ok p') →
  (main_left n p' < main_left n p0)%nat → advances n p0.
Proof.
  intros Hr Hd E Hlt. exists p'. split; [|done]. eapply rtc_r; [exact Hr|]. by apply (dht_run_step n (DMain d)).
Qed.

Lemma nodes_advance n p : dht_ok n p → dht_at p = PNodes → advances n p.
Proof.
  intros Hp Epc. pose proof (dk_count _ _ Hp) as Hc. rewrite Epc in Hc.
  destruct (decide (length (nodes p) < n)%nat) as [Hlt|Hge].
  - destruct (node_step n p (replicate key_size x00) Hp Epc Hlt) as (m & E & _).
    eapply (main_advances n p p (plenty [] 0)); [apply rtc_refl|apply length_replicate| |].
    + unfold main_step. rewrite Epc, (proj2 (Nat.ltb_lt _ _)) by done. cbn [plenty key]. rewrite E. reflexivity.
    + unfold main_left. rewrite Epc. cbn [dht_at nodes]. rewrite length_app. cbn [length]. lia.
  - eapply (main_advances n p p (plenty [] 0)); [apply rtc_refl|apply length_replicate| |].
    + unfold main_step. rewrite Epc, (proj2 (Nat.ltb_ge _ _)) by lia. reflexivity.
    + unfold main_left. rewrite Epc. cbn [set_at dht_at]. lia.
Qed.

Lemma fill_less n j i : (j < n)%nat → (i < n)%nat → (fill_left n j (S i) < fill_left n j i)%nat.
Proof. intros Hj Hi. unfold fill_left. rewrite !(decide_True _ _ Hj). lia. Qed.

Lemma fill_next n j i : (j < n)%nat → (n ≤ i)%nat → (fill_left n (S j) 0 < fill_left n j i)%nat.
Proof.
  intros Hj Hi. unfold fill_left. rewrite (decide_True _ _ Hj). destruct (decide (S j < n)%nat); [|lia].
  replace (n - j - 1)%nat with (S (n - S j - 1)) by lia. lia.
Qed.

Lemma fill_advance n p j i : dht_ok n p → dht_at p = PFill j i → advances n p.
Proof.
  intros Hp Epc. pose proof (dk_count _ _ Hp) as Hc. rewrite Epc in Hc.
  assert (∀ x y, (fill_left n x y < fill_left n j i)%nat → ∀ q, dht_at q = PFill x y → (main_left n q < main_left n p)%nat)
    as Hless by (intros x y Hxy q Eq; unfold main_left; rewrite Epc, Eq; lia).
  destruct (decide (j < n)%nat) as [Hj|Hj].
  2:{ eapply (main_advances n p p (plenty [] 0)); [apply rtc_refl|apply length_replicate| |].
      - unfold main_step. rewrite Epc, (proj2 (Nat.ltb_ge _ _)) by lia. reflexivity.
      - unfold main_left. rewrite Epc. cbn [set_at dht_at]. lia. }
  destruct (decide (i < n)%nat) as [Hi|Hi].
  2:{ eapply (main_advances n p p (plenty [] 0)); [apply rtc_refl|apply length_replicate| |].
      - unfold main_step. rewrite Epc, (proj2 (Nat.ltb_lt j n)), (proj2 (Nat.ltb_ge i n)) by lia. reflexivity.
      - eapply Hless; [|reflexivity]. apply fill_next; lia. }
  destruct (decide (i = j)) as [->|Hne].
  - eapply (main_advances n p p (plenty [] 0)); [apply rtc_refl|apply length_replicate| |].
    + unfold main_step. rewrite Epc, !(proj2 (Nat.ltb_lt j n)), Nat.eqb_refl by lia. reflexivity.
    + eapply Hless; [|reflexivity]. by apply fill_less.
  - destruct (lookup_lt_is_Some_2 (nodes p) j) as [m Hm]; [lia|].
    destruct (lookup_lt_is_Some_2 (nodes p) i) as [other Ho]; [lia|].
    set (d := plenty [base.fresh (dom (executing_callbacks_ (a_worker_ m)))] 0).
    destruct (tell_step n d p j i m other Hp Epc Hne Hm Ho) as [(m' & E & _)|[_ Hun]]; [|destruct Hun; apply unused_fresh].
    eapply (main_advances n p p d); [apply rtc_refl|apply length_replicate| |].
    + unfold main_step. rewrite Epc, (proj2 (Nat.ltb_lt j n)), (proj2 (Nat.ltb_lt i n)), (proj2 (Nat.eqb_neq i j)) by lia.
      cbn [negb]. rewrite Hm, Ho. cbn [opt_ub mbind outcome_bind]. rewrite E. reflexivity.
    + eapply Hless; [|reflexivity]. by apply fill_less.
Qed.

Lemma dump_advance n p j : dht_ok n p → dht_at p = PDump j → advances n p.
Proof.
  intros Hp Epc. pose proof (dk_count _ _ Hp) as Hc. rewrite Epc in Hc. destruct (decide (j < n)%nat) as [Hj|Hj].
  - destruct (lookup_lt_is_Some_2 (nodes p) j) as [m0 Hm0]; [lia|].
    destruct (drained n p j m0 Hp Hm0) as (p1 & m & Hr & Hp1 & Epc1 & Hm & Hq & Hrun).
    rewrite Epc in Epc1. set (d := plenty [] (length (buckets_ (route_table_ m)))).
    destruct (dump_step n d p1 j m Hp1 Epc1 Hm Hq Hrun) as [(lines & m' & E & _)|[_ Hlt]];
      [|cbn in Hlt; rewrite length_replicate in Hlt; lia].
    eapply (main_advances n p p1 d); [exact Hr|apply length_replicate| |].
    + unfold main_step. rewrite Epc1, (proj2 (Nat.ltb_lt j n)) by lia. cbn [negb]. rewrite Hm.
      cbn [opt_ub mbind outcome_bind]. rewrite Hrun, E. reflexivity.
    + unfold main_left. rewrite Epc. cbn [set_at dht_at]. lia.
  - eapply (main_advances n p p (plenty [] 0)); [apply rtc_refl|apply length_replicate| |].
    + unfold main_step. rewrite Epc, (proj2 (Nat.ltb_ge _ _)) by lia. reflexivity.
    + unfold main_left. rewrite Epc. cbn [dht_at]. lia.
Qed.

Lemma returns n p : dht_ok n p → ∃ p' code, rtc (dht_run n) p p' ∧ dht_ok n p' ∧ dht_at p' = PReturn code.
Proof.
  remember (main_left n p) as k eqn:Hk. revert p Hk. induction k as [k IH] using lt_wf_ind. intros p -> Hp.
  assert (advances n p → ∃ p' code, rtc (dht_run n) p p' ∧ dht_ok n p' ∧ dht_at p' = PReturn code) as Hgo.
  { intros (p1 & Hr & Hlt). assert (dht_ok n p1) as Hp1 by (clear -Hr Hp H0 Sha1Laws0; induction Hr; [done|]; by eapply IHHr, dht_run_ok).
    destruct (IH _ Hlt p1 eq_refl Hp1) as (p' & code & Hr' & Hrest). exists p', code. split; [by etrans|done]. }
  destruct (dht_at p) as [|j i|j|code] eqn:Epc; [..|exists p, code; split; [apply rtc_refl|done]]; apply Hgo.
  - by apply nodes_advance.
  - by eapply fill_advance.
  - by eapply dump_advance.
Qed.
End Running.

(** ** Properties *)

(** C29: whatever order [main] and the workers run in, a worker taking a job and
    running it being two steps, and whatever numbers are drawn, every statement of
    main_dht and every step of a worker ends without an error or waits for a
    number, with one exception: [main] reverses and reads a table while jobs of
    its worker are left or one is still running, which is a data race.  Every
    line of the file names the id of a master node and that of another one, with
    a number [5 (c + 1)] for one of fewer than 160 buckets. *)
Theorem dht_program_safe {B : Type} `{DynamicBitsetLaws B} `{Host} `{S1 : Sha1} `{!Sha1Laws S1} n (p : Program B) :
  rtc (dht_run n) started p →
  (∀ e r, handle_dht n e p = Some r → (races e p ∧ r = UB) ∨ (¬ races e p ∧ ((∃ p', r = Ok p') ∨ r = NoFuel))) ∧
  (∀ l, l ∈ nodes_log p → line_from (ids p) l).
Proof.
  intros Hr%dht_reached_ok. split; [|apply Hr]. intros e r E.
  destruct (races_dec e p) as [Hrace|Hrace].
  - left. split; [done|]. by eapply race_undefined.
  - right. split; [done|]. pose proof (dht_good n e p r Hr E Hrace) as Hg.
    destruct r; try done; [left; by eexists|by right].
Qed.

(** C28: from every state main_dht can reach there is a run to its end, one in
    which [main] waits for the workers before it writes; every worker has then
    done all its jobs, the [n] tables have been written, and for each of them
    every node of the bucket that is written first is in the file. *)
Theorem dht_program_returns {B : Type} `{DynamicBitsetLaws B} `{Host} `{S1 : Sha1} `{!Sha1Laws S1} n (p : Program B) :
  rtc (dht_run n) started p →
  ∃ p' code, rtc (dht_run n) p p' ∧ dht_at p' = PReturn code ∧ length (nodes p') = n ∧
    ∀ k m, nodes p' !! k = Some m → queued m = [] ∧ all_written (route_table_ m) (nodes_log p').
Proof.
  intros Hr%dht_reached_ok. destruct (returns n p Hr) as (p' & code & Hr' & Hp' & Epc). exists p', code.
  split; [done|]. split; [done|]. pose proof (dk_count _ _ Hp') as Hc. rewrite Epc in Hc. split; [done|].
  intros k m Hk. apply (dk_done _ _ Hp' k m Hk). by rewrite Epc.
Qed.

(** ** Two master nodes *)

Module TwoNodes.
#[local] Existing Instances x86_64 toy_sha1 toy_sha1_laws.

Fixpoint play_dht (n : nat) (es : list dht_event) (p : Program (list bool)) : option (Program (list bool)) :=
  match es with
  | [] => Some p
  | e :: es => match handle_dht n e p with Some (Ok p) => play_dht n es p | _ => None end
  end.

Lemma play_dht_runs n es p p' : Forall draws_ok es → play_dht n es p = Some p' → rtc (dht_run n) p p'.
Proof.
  intros Hok. revert p. induction Hok as [|e es He _ IH]; intros p; cbn [play_dht]; [intros [= ->]; apply rtc_refl|].
  destruct (handle_dht n e p) as [[p1| | | |]|] eqn:E; try done. intros E'.
  eapply rtc_l; [exact (dht_run_step n e p p1 He E)|by apply IH].
Qed.

Definition draw (c : byte) : dht_event := DMain (mkDraws (replicate 100 c) 0x0a000001 6881 [5; 6] [1; 1]).

(** Both are made and told of each other; the worker of the second one is done,
    that of the first one has taken its job and not run it when [main] gets to
    its table: the queue is empty. *)
Definition course : list dht_event :=
  [draw "a"; draw "b"; draw "c"; draw "d"; draw "e"; draw "f"; draw "g"; DPop 1; DRun 1; DPop 0; draw "h"; draw "i"; draw "j"].
Definition at_the_tables : Program (list bool) := default started (play_dht 2 course started).

Lemma at_the_tables_reached : rtc (dht_run 2) started at_the_tables.
Proof.
  apply (play_dht_runs 2 course); [repeat constructor|].
  assert (∀ o : option (Program (list bool)), bool_decide (is_Some o) = true → o = Some (default started o)) as Ho
    by by intros [p|].
  apply Ho. vm_compute. reflexivity.
Qed.

Lemma dht_program_safe_witness :
  dht_at at_the_tables = PDump 0 ∧ map (fun m => length (queued m)) (nodes at_the_tables) = [0%nat; 0%nat] ∧
  is_Some (running at_the_tables !! 0%nat) ∧
  (∀ e r, handle_dht 2 e at_the_tables = Some r →
     (races e at_the_tables ∧ r = UB) ∨ (¬ races e at_the_tables ∧ ((∃ p', r = Ok p') ∨ r = NoFuel))) ∧
  (∀ l, l ∈ nodes_log at_the_tables → line_from (ids at_the_tables) l).
Proof.
  split; [vm_compute; reflexivity|]. split; [vm_compute; reflexivity|]. split; [vm_compute; by eexists|].
  exact (dht_program_safe 2 at_the_tables at_the_tables_reached).
Defined.

Lemma dht_program_returns_witness :
  ∃ p' code, rtc (dht_run 2) at_the_tables p' ∧ dht_at p' = PReturn code ∧ length (nodes p') = 2%nat ∧
    ∀ k m, nodes p' !! k = Some m → queued m = [] ∧ all_written (route_table_ m) (nodes_log p').
Proof. exact (dht_program_returns 2 at_the_tables at_the_tables_reached). Defined.
End TwoNodes.
